(* ===== verification/_CoqProject ===== *)
-Q . S2P
Prelude.v
CheriMem.v
Memcpy.v
TestStruct.v
HybridCopy.v
LibcCopy.v
CrtInit.v
IntMath.v
Machine.v
HybridFloat.v
HybridTests.v
PurecapTests.v
PurecapObjects.v
PurecapReturn.v
VarArgs.v
LibcTests.v
LibcMalloc.v
TestRuntime.v
TestFramework.v
DmaEngine.v
DmaGen.v
DmaProgram.v
DmaTransfers.v
DmaTest.v
DmaMulti.v
DmaThreads.v
DmaVirt.v
DmaSwitch.v
CStdio.v
DmaMain.v
L3ToSim.v
GxemulToSim.v
BuildTools.v
ElfHdr.v
XmlCat.v
