(* ===== verification/Prelude.v ===== *)
(** * Prelude, and an overview of the development

    The repository is a test suite for CHERI processors: C programs that
    exercise capabilities, the code they run on, generators of random tests,
    and the tools that prepare and read test runs.  This library models its C
    code and proves what each part is for.

    ** The program and the files

    - The copy routines.  [Memcpy] is [cheri-c-tests/clang-hybrid/memcpy.c], one
      body compiled under eight names.  [TestStruct] holds the structure its
      tests copy; [HybridCopy] is [clang_hybrid_bcopy.c], [memcpy.c] and
      [memmove.c] of [clang-hybrid/], and [LibcCopy] is [libc_memcpy.c] and
      [libc_memmove.c], written against classes ([Memcpy_ok], [Memmove_ok]) of
      which the routines of [Memcpy] are instances.
    - The start of a program.  [CrtInit] is [crt_init_globals.c]; its [strlen] is
      the instance for the string functions of [LibcTests].
    - The compiler and library tests of [cheri-c-tests/].  [Machine] is the monad
      they run in: memory, the counter [faults] and the handler, with accesses
      that are skipped when a capability check fails.  [HybridFloat] and
      [HybridTests] are [clang-hybrid/]; [PurecapTests], [PurecapObjects],
      [PurecapReturn], [VarArgs] and [IntMath] are [clang-purecap/]; [LibcTests]
      and [LibcMalloc] are [libc/] and [clang_purecap_funptr.c].  A function
      [test_NAME] is the definition NAME, a helper keeps its name, and the
      addresses of variables are arguments.  [TestFramework] is how a test
      becomes a program: [cheri_c_test.h], [cheri_c_testdecls.h], [test_setup].
    - What runs when a test faults.  [TestRuntime] is [test_runtime.c]: the
      signal handler that [Machine] abstracts to "call the handler and skip",
      and the emulation of a branch whose delay slot faulted.
    - The random DMA tests of [fuzz_dma/].  [DmaEngine] is the interface to the
      assembler and the engine ([DMAAsm.h], [DMAModel.h]: not in the repository);
      [DmaGen] grows a tree of loops and operations in a heap of nodes,
      [DmaProgram] writes it as a program, [DmaTransfers] lists the transfers it
      makes ([dma_test_generation.c]); [DmaTest] is [print_test_information] of
      [generate_dma_test.c] with [test_template.c], and [DmaMain] its [main].
      [DmaThreads] is [multithread_test_template.c] and [mips_tlb.h]; what is
      substituted in that template comes from
      [generate_multithread_dma_test.cpp], whose generator for physical memory is
      [DmaMulti] and whose generator for virtual memory is [DmaVirt], which uses
      the TLB of [DmaThreads]; its [main] is in [DmaMain] too.  [DmaSwitch] puts
      template and generators together, on an engine that moves bytes of a
      memory: the class [DMAEngine] is its contract, a simulation of an abstract
      machine with the bytes each thread is still to move.
    - The tools.  [CStdio] is what they use of the C library; [L3ToSim] and
      [GxemulToSim] translate register dumps, [BuildTools] is [max_cycles.c],
      [select_init.c] and [fuzz_fpu.c], [ElfHdr] is [elfhdr.c], [XmlCat] is
      [xmlcat.c].

    [CheriMem] is under all the capability code: capabilities with exact bounds,
    the [__builtin_cheri_*] operations, and a memory of bytes and tags.  This file
    has the results of C computations, machine words, tactics and hints.

    ** How the code is modelled

    State is passed explicitly: a memory, a heap of nodes, a saved context, the
    state of a generator.  Undefined behaviour, division by zero, failed assertions
    and exceptions nothing handles are different errors of [res]; a theorem that a program
    returns is a theorem that none of them occurs.  Integers are [Z] wrapped where
    the code's type wraps; signed overflow and shifts out of range are errors.
    An uninitialised field or array element is [None].  The calling convention of
    variadic functions and [stdarg.h] are part of the language: [VarArgs] defines
    them as the pure-capability ABI lays them out.

    ** What the theorems show

    - [copy_c_correct], [copy_ptr_args_correct]: every routine copies exactly the
      bytes, and the tags of the capabilities that are copied whole, for every
      size, alignment and (where it is handled) overlap.
    - [crt_init_globals_correct], [crt_init_globals_confined]: each relocation
      gets the capability it asks for, nothing else changes, no capability
      exceeds its root.
    - The test programs ([clang_hybrid_copy_tests_pass], [hybrid_*],
      [purecap_*], [libc_*], [variadic_tests_pass], [uintcapmath_passes]):
      for every placement of their objects, on a machine
      and library that behave as specified, no assertion fails and exactly the
      exceptions a test provokes are taken; so a failure is the fault of what
      is tested.  [libc_qsort_sorts] is about any sorting routine,
      [libc_malloc_passes] about any allocator, which may refuse any request: the
      test fails exactly when one is refused.  [purecap_fault_tests_pass] gives the
      causes of the exceptions in their order and the memory that is left;
      [va_list_global_depends_on_register] shows a test whose outcome is not
      determined.  The two tests of return addresses, whose jumps and return
      capabilities the compiler makes, are evaluated by the lemmas [capret_passes]
      and [capretaddr_passes] of [PurecapReturn].
    - [declared_tests_are_programs]: which tests compile, and what a program does
      before its test.
    - [capsighandler_skips] justifies the fault of [Machine];
      [emulate_branch_correct] compares the branch emulation with the reference
      semantics, [emulate_branch_defects] shows where it differs, and
      [capsighandler_context] that only the program counters change.
    - [random_structure_total], [generate_random_dma_program_correct],
      [list_transfers_correct], [generated_test_passes]: for every seed the
      generator stops, writes a well-formed program or fails the assertion on
      nested loops (as for seed 4501); the transfers listed are those of the
      program read as loops and additions; an engine that makes them passes the
      printed test.  [generate_main_prints_tests] is about a range of seeds.
      [multithread_test_passes] and [virtualised_test_passes]: the ranges of
      several threads are disjoint, so that the test passes with every
      interleaving of what they move, in the second case through the TLB entries
      the test asks for ([add_tlb_mapping_translates] is about one of them); and what
      goes wrong when a program makes no transfer or ranges of pages overlap.
      [threads_invariant], [threads_all_retire] and [threads_divide_by_zero] are
      about the thread-switching test as a step relation over an engine that decides
      when a thread is ready: every thread is found ready, and after the last one,
      and no earlier, the loop divides by zero;
      [switching_test_passes] and [virtual_switching_test_passes] compose all of
      these: on an engine with the contract of [DmaSwitch], when the loop has found
      the last thread ready every assertion the generator printed holds of the
      memory.  An engine that keeps the contract is at the end of that file.
    - The tools: [elfhdr_roundtrip], [l3tosim_translates],
      [gxemultosim_reads_dump], [select_init_args], [max_cycles_by_name],
      [fpu_word_fields], [xmlcat_totals]; and what happens outside their intended
      inputs: [elfhdr_large_input], [l3tosim_stale], [gxemultosim_single_column].

    ** Fuel

    Loops that are not structural take fuel, and running out is an error, so that
    every theorem that a function returns is one that its fuel is enough.  The
    number of rounds is an argument of [crt_init_globals] and [strlen] (a round
    per record or character is shown to be enough), of [setjmp] (one jump), of
    the thread loop and of the loops of the DMA tests over programs, lists and
    random pages (some number of rounds is shown to be enough, and every larger
    one to give the same); it is [GEN_FUEL] = 64 for the generator, which is shown
    to need less than 50, one more than the number of allocated nodes for the
    recursions over the tree, the number of steps the program takes for the
    engine, and the logarithm of the number for the digits of [printf].

    ** What is not modelled

    - [_main] of [generate_multithread_dma_test.cpp], which is not the program's
      [main] and is never called.
    - [test_routines] of [generate_dma_test.c], which is never called and calls
      functions that do not exist; [mips_assert.h], which is an assert; the
      debugging macros of [cheri_c_test.h] and its casts, which change no value.
    - Whether the machine has memory at the pages a virtual test is given.
    - [crt_init_globals] with a capability table, which is a call of a library, and
      the assertion of [clang_purecap_funptr.c] under INCLUDE_XFAIL, which
      compares two sizes that the ABI fixes.
    - [uintcapmath] under INCLUDE_XFAIL, with which the source says that it does not
      build for [__uintcap_t]: [IntMath] leaves INCLUDE_XFAIL undefined.  In the
      other programs INCLUDE_XFAIL is an argument.
    - The loop of [test_template.c] that waits for the engine, and the separation of
      its sources from its destinations: [DmaTest] runs the engine to the end of its
      program, on a memory for the sources and one for the destinations.
    - The hardware's handling of the unaligned field of [clang_hybrid_pack.c]: it is
      accessed byte by byte, as an operating system emulates it; on bare metal, the
      source says, the access fails.
    - Compressed capabilities: bounds are exact, as with 256 bits.
    - The C programs under [tests/], the assembly tests and the Python checks of
      their results: they test processors, not each other.

    ** This file

    Every other file requires this one.  It holds
    - [res], the result of a C computation that may be undefined, fail an
      assertion, trap, or run out of the fuel a loop was given, and [res_le], the
      order in which the same program with more fuel is greater;
    - machine words as [Z] with their wrap-around written out;
    - the tactics and the hint databases used across the components;
    - generic lemmas on lists, integers and strings. *)

From Stdlib Require Import ZArith Lia Ascii String.
From stdpp Require Export base decidable option list numbers gmap strings.
Export ZArith Lia.

#[global] Set Default Goal Selector "!".
#[global] Open Scope Z_scope.

(** ** Results of C computations *)

Inductive err :=
  | EUndef        (* behaviour the C standard leaves undefined *)
  | EDivZero      (* ... a division or remainder by zero *)
  | EAssert       (* a failed assert() *)
  | ETrap         (* a CHERI or MIPS exception *)
  | EFuel.        (* the fuel given to a loop is used up *)

Inductive res (A : Type) :=
  | Ok (a : A)
  | Err (e : err).
Arguments Ok {A} a.
Arguments Err {A} e.

#[export] Instance err_eq_dec : EqDecision err.
Proof. solve_decision. Defined.

Definition res_bind {A B} (m : res A) (k : A -> res B) : res B :=
  match m with
  | Ok a => k a
  | Err e => Err e
  end.

Declare Scope res_scope.
Delimit Scope res_scope with res.
Notation "'let*' x := m 'in' k" := (res_bind m (fun x => k))
  (at level 10, x pattern, m at level 100, k at level 200) : res_scope.
#[global] Open Scope res_scope.

Definition of_opt {A} (o : option A) : res A :=
  match o with
  | Some a => Ok a
  | None => Err EUndef
  end.

(** [assert(b)] *)
Definition c_assert (b : bool) : res unit := if b then Ok tt else Err EAssert.

Lemma res_bind_Ok_inv {A B} (m : res A) (k : A -> res B) (b : B) :
  res_bind m k = Ok b -> exists a, m = Ok a /\ k a = Ok b.
Proof. destruct m; simpl; [eauto | discriminate]. Qed.

Lemma res_bind_assoc {A B C} (m : res A) (f : A -> res B) (g : B -> res C) :
  res_bind (res_bind m f) g = res_bind m (fun a => res_bind (f a) g).
Proof. by destruct m. Qed.

(** [m'] gives every result of [m], up to [R]: so it is, with equality, when [m']
    is [m] with more fuel. *)
Definition res_le {A} (R : A -> A -> Prop) (m m' : res A) : Prop :=
  forall x, m = Ok x -> exists x', m' = Ok x' /\ R x x'.

Lemma res_le_refl {A} (m : res A) : res_le eq m m.
Proof. intros x Hx. by exists x. Qed.

Lemma res_le_Ok {A} (R : A -> A -> Prop) x x' : R x x' -> res_le R (Ok x) (Ok x').
Proof. intros HR _ [= <-]. by exists x'. Qed.

Lemma res_le_bind {A B} R (m m' : res A) (k k' : A -> res B) :
  res_le eq m m' -> (forall a, res_le R (k a) (k' a)) -> res_le R (res_bind m k) (res_bind m' k').
Proof.
  intros Hm Hk b (a & Ha & Hb)%res_bind_Ok_inv. destruct (Hm a Ha) as (a' & -> & <-). by apply Hk.
Qed.

Lemma res_le_eq {A} (m m' : res A) x : res_le eq m m' -> m = Ok x -> m' = Ok x.
Proof. intros Hm Hx. by destruct (Hm x Hx) as (x' & -> & ->). Qed.

Create HintDb fuel discriminated.
#[export] Hint Resolve res_le_refl res_le_Ok : fuel.

(** goals [res_le R m m'] of programs that differ in their fuel *)
Ltac more_fuel :=
  repeat first
    [ solve [auto with fuel lia]
    | apply res_le_bind; [|intros ?]
    | case_match ].

(** ** Machine words *)

Definition wrap (w z : Z) : Z := z mod 2 ^ w.
Abbreviation u8 := (wrap 8).
Abbreviation u16 := (wrap 16).
Abbreviation u32 := (wrap 32).
Abbreviation u64 := (wrap 64).

(** the signed reading of the low [w] bits of [z] *)
Definition sgn (w z : Z) : Z :=
  let u := wrap w z in if u <? 2 ^ (w - 1) then u else u - 2 ^ w.

Lemma wrap_range w z : 0 <= w -> 0 <= wrap w z < 2 ^ w.
Proof. intros. apply Z.mod_pos_bound. by apply Z.pow_pos_nonneg. Qed.

Lemma wrap_small w z : 0 <= z < 2 ^ w -> wrap w z = z.
Proof. apply Z.mod_small. Qed.

Lemma wrap_wrap w z : wrap w (wrap w z) = wrap w z.
Proof. apply Zmod_mod. Qed.

Lemma wrap_add_l w a b : wrap w (wrap w a + b) = wrap w (a + b).
Proof. apply Zplus_mod_idemp_l. Qed.

Lemma wrap_add_r w a b : wrap w (a + wrap w b) = wrap w (a + b).
Proof. apply Zplus_mod_idemp_r. Qed.

Lemma wrap_sub_l w a b : wrap w (wrap w a - b) = wrap w (a - b).
Proof. apply Zminus_mod_idemp_l. Qed.

Lemma wrap_add_mult w a k : 0 <= w -> wrap w (a + k * 2 ^ w) = wrap w a.
Proof. intros. unfold wrap. apply Z_mod_plus_full. Qed.

Lemma sgn_range w z : 0 < w -> - 2 ^ (w - 1) <= sgn w z < 2 ^ (w - 1).
Proof.
  intros Hw. unfold sgn. pose proof (wrap_range w z ltac:(lia)).
  assert (2 ^ w = 2 * 2 ^ (w - 1)) by (rewrite <- Z.pow_succ_r by lia; f_equal; lia).
  destruct (Z.ltb_spec (wrap w z) (2 ^ (w - 1))); lia.
Qed.

Lemma sgn_small w z : 0 < w -> - 2 ^ (w - 1) <= z < 2 ^ (w - 1) -> sgn w z = z.
Proof.
  intros Hw Hz. assert (2 ^ w = 2 * 2 ^ (w - 1)) by (rewrite <- Z.pow_succ_r by lia; f_equal; lia).
  unfold sgn. destruct (decide (0 <= z)).
  - rewrite wrap_small by lia. by rewrite (proj2 (Z.ltb_lt z (2 ^ (w - 1)))) by lia.
  - assert (Hm : wrap w z = z + 2 ^ w) by (symmetry; apply Z.mod_unique with (-1); lia).
    rewrite Hm, (proj2 (Z.ltb_ge (z + 2 ^ w) (2 ^ (w - 1)))) by lia. lia.
Qed.

(** [i++] on an [int] *)
Definition int_incr (i : Z) : res Z := if i =? 2 ^ 31 - 1 then Err EUndef else Ok (i + 1).

Create Rewrite HintDb words.
#[export] Hint Rewrite wrap_wrap wrap_add_l wrap_add_r wrap_sub_l : words.

(** ** Masks of low bits *)

Lemma land_mask z k : 0 <= k -> Z.land z (2 ^ k - 1) = z mod 2 ^ k.
Proof.
  intros Hk. rewrite <- Z.land_ones by done. f_equal. rewrite Z.ones_equiv. lia.
Qed.

Lemma land_lxor_distr a b c : Z.land (Z.lxor a b) c = Z.lxor (Z.land a c) (Z.land b c).
Proof.
  apply Z.bits_inj'. intros n Hn.
  rewrite !Z.land_spec, !Z.lxor_spec, !Z.land_spec.
  by destruct (Z.testbit a n), (Z.testbit b n), (Z.testbit c n).
Qed.

(** both addresses aligned: [((a | b) & mask) == 0] *)
Lemma mask_lor_eqb a b k : 0 <= k ->
  (Z.land (Z.lor a b) (2 ^ k - 1) =? 0) = (a mod 2 ^ k =? 0) && (b mod 2 ^ k =? 0).
Proof.
  intros Hk. rewrite Z.land_lor_distr_l, !land_mask by done.
  apply Bool.eq_iff_eq_true. rewrite andb_true_iff, !Z.eqb_eq. apply Z.lor_eq_0_iff.
Qed.

(** equally misaligned: [((a ^ b) & mask) == 0] *)
Lemma mask_lxor_eqb a b k : 0 <= k ->
  (Z.land (Z.lxor a b) (2 ^ k - 1) =? 0) = (a mod 2 ^ k =? b mod 2 ^ k).
Proof.
  intros Hk. rewrite land_lxor_distr, !land_mask by done.
  apply Bool.eq_iff_eq_true. rewrite !Z.eqb_eq. split.
  - apply Z.lxor_eq.
  - intros ->. apply Z.lxor_nilpotent.
Qed.

(** [lia] for goals with [/] and [mod] by constants *)
Ltac mlia := Z.div_mod_to_equations; lia.
Ltac mnia := Z.div_mod_to_equations; nia.

(** Two conditionals agree when their conditions and branches do. *)
Lemma if_decide_ext {A} (P Q : Prop) `{!Decision P, !Decision Q} (x y x' y' : A) :
  (P <-> Q) -> (P -> x = x') -> (~ P -> y = y') ->
  (if decide P then x else y) = (if decide Q then x' else y').
Proof. intros HPQ Hx Hy. repeat case_decide; tauto. Qed.

(** ** Counted loops: [for (i = lo; i < hi; i++) body] *)
Fixpoint for_loop {S} (n : nat) (i : Z) (body : Z -> S -> res S) (st : S) : res S :=
  match n with
  | O => Ok st
  | S n' => let* st := body i st in for_loop n' (i + 1) body st
  end.

Definition for_up {S} (lo hi : Z) (body : Z -> S -> res S) (st : S) : res S :=
  for_loop (Z.to_nat (hi - lo)) lo body st.

(** What every iteration of a loop that ends keeps, holds at its end. *)
Lemma for_up_keeps {S} (P : Z -> S -> Prop) lo hi body (st st' : S) :
  lo <= hi -> P lo st ->
  (forall i s1 s2, lo <= i < hi -> P i s1 -> body i s1 = Ok s2 -> P (i + 1) s2) ->
  for_up lo hi body st = Ok st' -> P hi st'.
Proof.
  intros Hle HP Hstep. unfold for_up.
  assert (Hgen : forall n i s, lo <= i -> i + Z.of_nat n = hi -> P i s -> for_loop n i body s = Ok st' -> P hi st').
  { induction n as [|n IH]; intros i s Hi Hn H0; simpl.
    - intros [= <-]. by replace hi with i by lia.
    - intros (s1 & Hb & Hl)%res_bind_Ok_inv. eapply (IH (i + 1)); [lia|lia|by eapply Hstep; [lia|..]|done]. }
  apply Hgen; [lia|lia|done].
Qed.

(** An invariant of the body, indexed by the loop variable, holds at the end. *)
Lemma for_up_inv {S} (P : Z -> S -> Prop) lo hi body (st : S) :
  lo <= hi -> P lo st ->
  (forall i st, lo <= i < hi -> P i st -> exists st', body i st = Ok st' /\ P (i + 1) st') ->
  exists st', for_up lo hi body st = Ok st' /\ P hi st'.
Proof.
  intros Hle HP Hstep. unfold for_up.
  assert (Hgen : forall n i st, lo <= i -> i + Z.of_nat n = hi -> P i st ->
    exists st', for_loop n i body st = Ok st' /\ P hi st').
  { induction n as [|n IH]; intros i st0 Hi Hn H0; simpl.
    - exists st0. split; [done|]. by replace hi with i by lia.
    - destruct (Hstep i st0) as (st1 & -> & H1); [lia|done|]. simpl.
      apply IH; [lia|lia|done]. }
  apply Hgen; [lia|lia|done].
Qed.

(** ** Big-endian byte strings *)
Fixpoint be_bytes (n : nat) (z : Z) : list Z :=
  match n with
  | O => []
  | S n' => be_bytes n' (z / 256) ++ [z mod 256]
  end.

Definition be_value (bs : list Z) : Z := foldl (fun acc b => acc * 256 + b) 0 bs.

Lemma be_value_app bs b : be_value (bs ++ [b]) = be_value bs * 256 + b.
Proof. unfold be_value. by rewrite foldl_app. Qed.

Lemma length_be_bytes n z : length (be_bytes n z) = n.
Proof. revert z; induction n as [|n IH]; intros z; simpl; [done|]. rewrite length_app, IH. simpl. lia. Qed.

Lemma be_value_bytes n z : be_value (be_bytes n z) = z mod 256 ^ Z.of_nat n.
Proof.
  revert z; induction n as [|n IH]; intros z; cbn [be_bytes].
  - by rewrite Z.mod_1_r.
  - rewrite be_value_app, IH, Nat2Z.inj_succ, Z.pow_succ_r by lia.
    rewrite Z.rem_mul_r by lia. lia.
Qed.

Lemma be_value_bytes_small n z : 0 <= z < 256 ^ Z.of_nat n -> be_value (be_bytes n z) = z.
Proof. intros. by rewrite be_value_bytes, Z.mod_small. Qed.

Lemma take_be_bytes n z l : take n (be_bytes n z ++ l) = be_bytes n z.
Proof. apply take_app_length'. by rewrite length_be_bytes. Qed.

Lemma drop_be_bytes n k z l : drop (n + k) (be_bytes n z ++ l) = drop k l.
Proof. rewrite <- drop_drop. f_equal. apply drop_app_length'. by rewrite length_be_bytes. Qed.

(** ** The last element, with a default *)
Lemma last_def_cons {A} (l : list A) : forall x d, List.last (x :: l) d = List.last l x.
Proof.
  induction l as [|y l IH]; intros x d; [done|].
  change (List.last (y :: l) d = List.last (y :: l) x). by rewrite !IH.
Qed.

Lemma last_def_elem {A} (l : list A) : forall d, List.last l d ∈ d :: l.
Proof.
  induction l as [|y l IH]; intros d; [left|]. rewrite last_def_cons. right. apply IH.
Qed.
