(* ===== verification/CheriMem.v ===== *)
(** * CheriMem: CHERI capabilities and tagged memory.

    The part of CHERI C that the sources under [cheri-c-tests/] and
    [crt_init_globals.c] use: the fields of a capability, the
    [__builtin_cheri_*] operations on them with the exceptions they raise, and
    a memory of bytes with one validity tag per capability-sized granule.
    Capabilities are uncompressed (bounds are kept exactly), addresses and
    offsets are 64-bit words. *)

From S2P Require Import Prelude.

(** ** Permissions: the [__CHERI_CAP_PERMISSION_*__] bits *)

Definition PERMIT_EXECUTE := 2.
Definition PERMIT_LOAD := 4.
Definition PERMIT_STORE := 8.
Definition PERMIT_LOAD_CAPABILITY := 16.
Definition PERMIT_STORE_CAPABILITY := 32.
Definition PERMIT_SEAL := 128.

(** every permission set: the sixteen user and fifteen hardware permissions *)
Definition PERMS_ALL := 2 ^ 31 - 1.

Definition has_perm (perms p : Z) : bool := Z.land perms p =? p.

(** ** Capabilities *)

Record cap := Cap {
  c_tag : bool;
  c_sealed : bool;
  c_perms : Z;
  c_otype : Z;
  c_base : Z;
  c_len : Z;
  c_off : Z;
}.

#[export] Instance cap_eq_dec : EqDecision cap.
Proof. solve_decision. Defined.

(** the address a capability points to *)
Definition c_addr (c : cap) : Z := u64 (c_base c + c_off c).

Definition c_top (c : cap) : Z := c_base c + c_len c.

Definition null_cap : cap := Cap false false 0 0 0 (2 ^ 64 - 1) 0.

(** a capability to the whole address space *)
Definition ddc : cap := Cap true false PERMS_ALL 0 0 (2 ^ 64 - 1) 0.

Definition with_off (c : cap) (o : Z) : cap :=
  Cap (c_tag c) (c_sealed c) (c_perms c) (c_otype c) (c_base c) (c_len c) (u64 o).

(** [(void * __capability)(__uintcap_t)n]: an untagged capability holding [n] *)
Definition cap_of_int (n : Z) : cap := with_off null_cap n.

Definition usable (c : cap) : bool := c_tag c && negb (c_sealed c).

(** [__builtin_cheri_offset_set] *)
Definition cheri_offset_set (c : cap) (o : Z) : res cap :=
  if c_tag c && c_sealed c then Err ETrap else Ok (with_off c o).

(** [__builtin_cheri_offset_increment], and pointer arithmetic *)
Definition cheri_offset_increment (c : cap) (i : Z) : res cap :=
  cheri_offset_set c (c_off c + i).

(** [__builtin_cheri_bounds_set]: the new bounds start at the address and
    must lie within the old ones *)
Definition cheri_bounds_set (c : cap) (n : Z) : res cap :=
  if usable c && (c_base c <=? c_addr c) && (c_addr c + n <=? c_top c)
  then Ok (Cap true false (c_perms c) (c_otype c) (c_addr c) n 0)
  else Err ETrap.

(** [__builtin_cheri_perms_and] *)
Definition cheri_perms_and (c : cap) (p : Z) : res cap :=
  if usable c
  then Ok (Cap true false (Z.land (c_perms c) p) (c_otype c) (c_base c) (c_len c) (c_off c))
  else Err ETrap.

(** [__builtin_cheri_seal] and [__builtin_cheri_unseal]: the object type is the
    address of the sealing capability *)
Definition cheri_seal (c key : cap) : res cap :=
  if usable c && usable key && has_perm (c_perms key) PERMIT_SEAL
     && (c_base key <=? c_addr key) && (c_addr key <? c_top key) && (c_addr key <? 2 ^ 24)
  then Ok (Cap true true (c_perms c) (c_addr key) (c_base c) (c_len c) (c_off c))
  else Err ETrap.

Definition cheri_unseal (c key : cap) : res cap :=
  if c_tag c && c_sealed c && usable key && has_perm (c_perms key) PERMIT_SEAL
     && (c_addr key =? c_otype c) && (c_base key <=? c_addr key) && (c_addr key <? c_top key)
  then Ok (Cap true false (c_perms c) 0 (c_base c) (c_len c) (c_off c))
  else Err ETrap.

(** [__cheri_tocap] of an integer pointer: NULL stays NULL, anything else is
    derived from the default data capability *)
Definition cheri_tocap (p : Z) : cap :=
  if u64 p =? 0 then null_cap else with_off ddc p.

(** [__cheri_fromcap]: the integer pointer for a capability *)
Definition cheri_fromcap (c : cap) : Z := if c_tag c then c_addr c else 0.

(** Comparison of capabilities: an untagged one is below every tagged one, and
    capabilities of equal tag compare by address. *)
Definition cap_eqb (a b : cap) : bool :=
  Bool.eqb (c_tag a) (c_tag b) && (c_addr a =? c_addr b).
Definition cap_ltb (a b : cap) : bool :=
  match c_tag a, c_tag b with
  | false, true => true
  | true, false => false
  | _, _ => c_addr a <? c_addr b
  end.

Lemma cap_eqb_refl c : cap_eqb c c = true.
Proof. unfold cap_eqb. by rewrite Bool.eqb_reflx, Z.eqb_refl. Qed.

(** ** Tagged memory *)

Record mem := Mem {
  m_bytes : gmap Z Z;
  m_tags : gset Z;        (* the granules, by first address, whose tag is set *)
}.

Definition read_byte (m : mem) (a : Z) : Z := default 0 (m_bytes m !! a).

Definition has_tag (m : mem) (g : Z) : bool := bool_decide (g ∈ m_tags m).

Fixpoint read_bytes (m : mem) (a : Z) (n : nat) : list Z :=
  match n with
  | O => []
  | S n' => read_byte m a :: read_bytes m (a + 1) n'
  end.

Fixpoint put_bytes (b : gmap Z Z) (a : Z) (bs : list Z) : gmap Z Z :=
  match bs with
  | [] => b
  | x :: bs' => put_bytes (<[a := x]> b) (a + 1) bs'
  end.

Section tagged.
Context (psize : Z).   (* bytes in a capability, which is also the granule *)

Definition granule (a : Z) : Z := a - a mod psize.

(** A data store replaces the bytes and clears the tag of the granule it
    touches (an aligned store no wider than a capability touches one). *)
Definition put_data (m : mem) (a : Z) (bs : list Z) : mem :=
  Mem (put_bytes (m_bytes m) a bs) (m_tags m ∖ {[granule a]}).

(** A capability store replaces the granule and its tag. *)
Definition put_cap (m : mem) (a : Z) (bs : list Z) (tag : bool) : mem :=
  Mem (put_bytes (m_bytes m) a bs)
      (if tag then {[a]} ∪ m_tags m else m_tags m ∖ {[a]}).

(** The checks every access through a capability makes: tag, seal, permission,
    bounds, and natural alignment of the address. *)
Definition access_ok (c : cap) (perm a k : Z) : bool :=
  usable c && has_perm (c_perms c) perm
  && (c_base c <=? a) && (a + k <=? c_top c) && (a mod k =? 0).

(** [p[t]] for an object of [k] bytes, at byte offset [t] from [p] *)
Definition at_off (c : cap) (t : Z) : Z := u64 (c_addr c + t).

Definition load_data (m : mem) (c : cap) (t k : Z) : res (list Z) :=
  let a := at_off c t in
  if access_ok c PERMIT_LOAD a k then Ok (read_bytes m a (Z.to_nat k)) else Err ETrap.

Definition store_data (m : mem) (c : cap) (t : Z) (bs : list Z) : res mem :=
  let a := at_off c t in
  if access_ok c PERMIT_STORE a (Z.of_nat (length bs)) then Ok (put_data m a bs) else Err ETrap.

(** Loading and storing a capability-sized object keeps its tag, and needs the
    capability permissions besides the data ones. *)
Definition load_cap (m : mem) (c : cap) (t : Z) : res (list Z * bool) :=
  let a := at_off c t in
  if access_ok c PERMIT_LOAD a psize && has_perm (c_perms c) PERMIT_LOAD_CAPABILITY
  then Ok (read_bytes m a (Z.to_nat psize), has_tag m a)
  else Err ETrap.

Definition store_cap (m : mem) (c : cap) (t : Z) (v : list Z * bool) : res mem :=
  let a := at_off c t in
  if access_ok c PERMIT_STORE a psize && has_perm (c_perms c) PERMIT_STORE_CAPABILITY
  then Ok (put_cap m a v.1 v.2)
  else Err ETrap.

End tagged.

(** ** The 256-bit representation of a capability in memory

    Four big-endian words: object type, permissions and seal; cursor; base;
    and the length, complemented so that NULL is all zeros. *)

Definition cap_meta (c : cap) : Z :=
  c_otype c * 2 ^ 32 + c_perms c * 2 + Z.b2z (c_sealed c).

Definition cap_bytes (c : cap) : list Z :=
  be_bytes 8 (cap_meta c) ++ be_bytes 8 (c_addr c) ++ be_bytes 8 (c_base c)
  ++ be_bytes 8 (2 ^ 64 - 1 - c_len c).

Definition cap_of_bytes (bs : list Z) (tag : bool) : cap :=
  let w0 := be_value (take 8 bs) in
  let w1 := be_value (take 8 (drop 8 bs)) in
  let w2 := be_value (take 8 (drop 16 bs)) in
  let w3 := be_value (take 8 (drop 24 bs)) in
  Cap tag (Z.odd w0) (w0 / 2 mod 2 ^ 31) (w0 / 2 ^ 32) w2 (2 ^ 64 - 1 - w3) (u64 (w1 - w2)).

Record cap_wf (c : cap) : Prop := {
  wf_perms : 0 <= c_perms c < 2 ^ 31;
  wf_otype : 0 <= c_otype c < 2 ^ 24;
  wf_base : 0 <= c_base c < 2 ^ 64;
  wf_len : 0 <= c_len c < 2 ^ 64;
  wf_off : 0 <= c_off c < 2 ^ 64;
}.

Lemma cap_bytes_length c : length (cap_bytes c) = 32%nat.
Proof. unfold cap_bytes. by rewrite !length_app, !length_be_bytes. Qed.

Lemma cap_of_bytes_of_cap c : cap_wf c -> cap_of_bytes (cap_bytes c) (c_tag c) = c.
Proof.
  intros [Hp Ho Hb Hl Hf]. unfold cap_of_bytes, cap_bytes.
  rewrite take_be_bytes, (drop_be_bytes 8 0), drop_0, take_be_bytes.
  rewrite (drop_be_bytes 8 8), (drop_be_bytes 8 0), drop_0, take_be_bytes.
  rewrite (drop_be_bytes 8 16), (drop_be_bytes 8 8), (drop_be_bytes 8 0), drop_0.
  rewrite <- (app_nil_r (be_bytes 8 (_ - c_len c))), take_be_bytes.
  assert (0 <= c_addr c < 2 ^ 64) by (by apply wrap_range).
  assert (Hm : 0 <= cap_meta c < 2 ^ 64) by (unfold cap_meta; destruct (c_sealed c); simpl; lia).
  rewrite !be_value_bytes_small by (simpl; lia).
  destruct c as [tag sl perms ot base len off]; unfold cap_meta, c_addr in *; simpl in *.
  f_equal.
  - rewrite Z.odd_add, Z.odd_add, !Z.odd_mul, !andb_false_r. by destruct sl.
  - destruct sl; simpl; mlia.
  - destruct sl; simpl; mlia.
  - lia.
  - rewrite wrap_sub_l. replace (base + off - base) with off by lia. by apply wrap_small.
Qed.

(** ** Lemmas on the byte map *)

Lemma length_read_bytes m a n : length (read_bytes m a n) = n.
Proof. revert a; induction n as [|n IH]; intros a; simpl; [done | by rewrite IH]. Qed.

Lemma read_bytes_app m a n k : read_bytes m a (n + k) = read_bytes m a n ++ read_bytes m (a + Z.of_nat n) k.
Proof.
  revert a. induction n as [|n IH]; intros a; cbn [Nat.add read_bytes app].
  - by rewrite Z.add_0_r.
  - rewrite IH. do 3 f_equal. lia.
Qed.

Lemma lookup_read_bytes m a n (i : nat) :
  (i < n)%nat -> read_bytes m a n !! i = Some (read_byte m (a + Z.of_nat i)).
Proof.
  revert a i; induction n as [|n IH]; intros a i Hi; [lia|].
  destruct i as [|i]; simpl.
  - do 2 f_equal. lia.
  - rewrite IH by lia. do 2 f_equal. lia.
Qed.

Lemma lookup_put_bytes_out b a bs x :
  x < a \/ a + Z.of_nat (length bs) <= x -> put_bytes b a bs !! x = b !! x.
Proof.
  revert b a; induction bs as [|v bs IH]; intros b a Hx; simpl in *; [done|].
  rewrite IH by lia. apply lookup_insert_ne. lia.
Qed.

Lemma lookup_put_bytes_in b a bs (i : nat) v :
  bs !! i = Some v -> put_bytes b a bs !! (a + Z.of_nat i) = Some v.
Proof.
  revert b a i; induction bs as [|w bs IH]; intros b a i Hi; [done|].
  destruct i as [|i]; simpl in *; simplify_eq.
  - rewrite lookup_put_bytes_out by lia.
    replace (a + Z.of_nat 0) with a by lia. apply lookup_insert_eq.
  - rewrite <- (IH (<[a := w]> b) (a + 1) i Hi). f_equal. lia.
Qed.

(** What a byte reads after [k] bytes have been copied from [s] to [d]. *)
Lemma read_byte_copy m m' s d k b x tg :
  b = m_bytes m' ->
  read_byte (Mem (put_bytes b d (read_bytes m s (Z.to_nat k))) tg) x =
  if decide (d <= x < d + k) then read_byte m (s + (x - d)) else read_byte m' x.
Proof.
  intros ->. unfold read_byte at 1; simpl. case_decide as Hx.
  - replace x with (d + Z.of_nat (Z.to_nat (x - d))) at 1 by lia.
    erewrite lookup_put_bytes_in.
    2: { apply lookup_read_bytes. lia. }
    simpl. f_equal. lia.
  - rewrite lookup_put_bytes_out; [done|]. rewrite length_read_bytes. lia.
Qed.

(** Reading back what has just been put. *)
Lemma read_bytes_put b tg a bs :
  read_bytes (Mem (put_bytes b a bs) tg) a (length bs) = bs.
Proof.
  apply list_eq_same_length with (n := length bs); rewrite ?length_read_bytes; auto.
  intros i x z Hi. rewrite lookup_read_bytes by done. intros [= <-] Hz.
  unfold read_byte; simpl. by erewrite lookup_put_bytes_in.
Qed.

Lemma read_byte_put_out b tg a bs x :
  x < a \/ a + Z.of_nat (length bs) <= x ->
  read_byte (Mem (put_bytes b a bs) tg) x = read_byte (Mem b tg) x.
Proof. intros Hx. unfold read_byte; simpl. by rewrite lookup_put_bytes_out. Qed.

Lemma read_byte_put_data1 psize m a v x :
  read_byte (put_data psize m a [v]) x = if decide (x = a) then v else read_byte m x.
Proof.
  unfold read_byte; simpl. case_decide as Hx.
  - subst. by rewrite lookup_insert_eq.
  - by rewrite lookup_insert_ne.
Qed.
