(* ===== verification/Memcpy.v ===== *)
(** * Memcpy: the tag-preserving copy routines of memcpy.c.

    [cheri-c-tests/clang-hybrid/memcpy.c] is one body compiled under eight
    names.  It copies bytes up to a word boundary, words up to a capability
    boundary, whole capabilities (which keeps their tags), and the trailing
    bytes, forwards or, where the routine handles overlap, backwards. *)

From S2P Require Import Prelude CheriMem.

(** The macro the file is compiled with. *)
Inductive routine :=
  | MEMCPY_C | MEMMOVE | CMEMMOVE | MEMMOVE_C | MEMCPY | CMEMCPY_C | CMEMCPY | BCOPY.

#[export] Instance routine_eq_dec : EqDecision routine.
Proof. solve_decision. Defined.

Definition handle_overlap (r : routine) : bool :=
  match r with
  | MEMMOVE | BCOPY | CMEMMOVE | MEMMOVE_C => true
  | _ => false
  end.

Definition wsize := 8.          (* sizeof(word), word = long *)
Definition wmask := wsize - 1.

(** [MIPSLOOP(index, last, body, increment)]: the index is stepped before the
    body and the loop leaves after the iteration at [last]. *)
Fixpoint mipsloop_iter (fuel : nat) (body : Z -> mem -> res mem)
    (index last inc : Z) (m : mem) : res mem :=
  match fuel with
  | O => Err EFuel
  | S fuel' =>
      let index := u64 (index + inc) in
      let* m := body index m in
      if index =? u64 last then Ok m else mipsloop_iter fuel' body index last inc m
  end.

Definition MIPSLOOP (fuel : nat) (body : Z -> mem -> res mem)
    (index last inc : Z) (m : mem) : res mem :=
  mipsloop_iter fuel body (u64 (index - inc)) last inc m.

Section memcpy.
Context (psize : Z).            (* sizeof(ptr) *)

Definition pmask := psize - 1.
Definition bigptr : bool := wsize <? psize.

(** [dst[t] = src[t]] for objects of [k] bytes *)
Definition copy_data (k : Z) (dst src : cap) (t : Z) (m : mem) : res mem :=
  let* v := load_data m src t k in
  store_data psize m dst t v.

(** [*((ptr * CAPABILITY)(dst+t)) = *((const ptr * CAPABILITY)(src+t))] *)
Definition copy_ptr (dst src : cap) (t : Z) (m : mem) : res mem :=
  if bigptr
  then let* v := load_cap psize m src t in store_cap psize m dst t v
  else copy_data psize dst src t m.

Record frame := Frame { f_dst : cap; f_src : cap; f_length : Z; f_mem : mem }.

Definition loop_fuel (length : Z) : nat := S (Z.to_nat length).

(** *** Copying forward *)

Definition fwd_bytes (f : frame) : res frame :=
  let t := c_addr (f_src f) in
  let d := c_addr (f_dst f) in
  let length := f_length f in
  if Z.land (Z.lor t d) wmask =? 0 then Ok f else
  let t := if negb (Z.land (Z.lxor t d) wmask =? 0) || (length <? wsize)
           then length else u64 (wsize - Z.land t wmask) in
  let* dst := cheri_offset_increment (f_dst f) t in
  let* src := cheri_offset_increment (f_src f) t in
  let* m := MIPSLOOP (loop_fuel length) (copy_data 1 dst src) (u64 (- t)) (-1) 1 (f_mem f) in
  Ok (Frame dst src (u64 (length - t)) m).

Definition fwd_words (f : frame) : res frame :=
  if bigptr then
    let t := c_addr (f_src f) in
    let d := c_addr (f_dst f) in
    let length := f_length f in
    if Z.land (Z.lor t d) pmask =? 0 then Ok f else
    let t := if negb (Z.land (Z.lxor t d) pmask =? 0) || (length <? psize)
             then length / wsize else (u64 (psize - Z.land t pmask)) / wsize in
    if t =? 0 then Ok f else
    let* dst := cheri_offset_increment (f_dst f) (t * wsize) in
    let* src := cheri_offset_increment (f_src f) (t * wsize) in
    let* m := MIPSLOOP (loop_fuel length) (copy_data wsize dst src)
                (u64 (- t * wsize)) (-8) 8 (f_mem f) in
    Ok (Frame dst src (u64 (length - t * wsize)) m)
  else Ok f.

Definition fwd_ptrs (f : frame) : res frame :=
  let length := f_length f in
  let t := length / psize in
  if t =? 0 then Ok f else
  let* src := cheri_offset_increment (f_src f) (t * psize) in
  let* dst := cheri_offset_increment (f_dst f) (t * psize) in
  let* m := MIPSLOOP (loop_fuel length) (copy_ptr dst src)
              (u64 (- (t * psize))) (- psize) psize (f_mem f) in
  Ok (Frame dst src length m).

Definition fwd_tail (f : frame) : res frame :=
  let length := f_length f in
  let t := Z.land length pmask in
  if t =? 0 then Ok f else
  let* src := cheri_offset_increment (f_src f) t in
  let* dst := cheri_offset_increment (f_dst f) t in
  let t := u64 (- t) in
  if t =? 0 then Ok f else
  let* m := MIPSLOOP (loop_fuel length) (copy_data 1 dst src) t (-1) 1 (f_mem f) in
  Ok (Frame dst src length m).

Definition copy_forward (f : frame) : res frame :=
  let* f := fwd_bytes f in
  let* f := fwd_words f in
  let* f := fwd_ptrs f in
  fwd_tail f.

(** *** Copying backward *)

Definition bwd_bytes (f : frame) : res frame :=
  let length := f_length f in
  let* src := cheri_offset_increment (f_src f) length in
  let* dst := cheri_offset_increment (f_dst f) length in
  let t := c_addr src in
  let d := c_addr dst in
  if Z.land (Z.lor t d) wmask =? 0 then Ok (Frame dst src length (f_mem f)) else
  let t := if negb (Z.land (Z.lxor t d) wmask =? 0) || (length <=? wsize)
           then length else Z.land t wmask in
  let* dst := cheri_offset_increment dst (- t) in
  let* src := cheri_offset_increment src (- t) in
  let* m := MIPSLOOP (loop_fuel length) (copy_data 1 dst src) (u64 (t - 1)) 0 (-1) (f_mem f) in
  Ok (Frame dst src (u64 (length - t)) m).

Definition bwd_words (f : frame) : res frame :=
  if bigptr then
    let t := c_addr (f_src f) in
    let d := c_addr (f_dst f) in
    let length := f_length f in
    if Z.land (Z.lor t d) pmask =? 0 then Ok f else
    let t := if negb (Z.land (Z.lxor t d) pmask =? 0) || (length <? psize)
             then length / wsize else Z.land t pmask / wsize in
    if t =? 0 then Ok f else
    let* dst := cheri_offset_increment (f_dst f) (- (t * wsize)) in
    let* src := cheri_offset_increment (f_src f) (- (t * wsize)) in
    let* m := MIPSLOOP (loop_fuel length) (copy_data wsize dst src)
                (u64 ((t - 1) * wsize)) 0 (-8) (f_mem f) in
    Ok (Frame dst src (u64 (length - t * wsize)) m)
  else Ok f.

Definition bwd_ptrs (f : frame) : res frame :=
  let length := f_length f in
  let t := length / psize in
  if t =? 0 then Ok f else
  let* src := cheri_offset_increment (f_src f) (- (t * psize)) in
  let* dst := cheri_offset_increment (f_dst f) (- (t * psize)) in
  let* m := MIPSLOOP (loop_fuel length) (copy_ptr dst src)
              (u64 ((t - 1) * psize)) 0 (- psize) (f_mem f) in
  Ok (Frame dst src length m).

Definition bwd_tail (f : frame) : res frame :=
  let length := f_length f in
  let t := Z.land length pmask in
  if t =? 0 then Ok f else
  let* dst := cheri_offset_increment (f_dst f) (- t) in
  let* src := cheri_offset_increment (f_src f) (- t) in
  let* m := MIPSLOOP (loop_fuel length) (copy_data 1 dst src) (u64 (t - 1)) 0 (-1) (f_mem f) in
  Ok (Frame dst src length m).

Definition copy_backward (f : frame) : res frame :=
  let* f := bwd_bytes f in
  let* f := bwd_words f in
  let* f := bwd_ptrs f in
  bwd_tail f.

(** *** The routines *)

(** the common body, once [dst] and [src] are capabilities *)
Definition copy_body (overlap : bool) (dst src : cap) (length : Z) (m : mem) : res mem :=
  let f := Frame dst src length m in
  let* f := if cap_ltb dst src || negb overlap then copy_forward f else copy_backward f in
  Ok (f_mem f).

(** [dst] and [src]: MEMCPY_C, MEMMOVE_C and CMEMCPY_C copy through their arguments;
    the other routines, in a CHERI build, bound them to the [length] bytes to copy *)
Definition derive (r : routine) (p0 : cap) (length : Z) : res cap :=
  match r with
  | MEMMOVE_C | MEMCPY_C | CMEMCPY_C => Ok p0
  | _ => if bigptr then cheri_bounds_set p0 length else Ok p0
  end.

(** the routines on arguments that are capabilities: MEMCPY_C, MEMMOVE_C and
    CMEMCPY_C, and the others where every pointer is one *)
Definition copy_c (r : routine) (dst0 src0 : cap) (length : Z) (m : mem) : res mem :=
  if (length =? 0) || cap_eqb src0 dst0 then Ok m else
  let* dst := derive r dst0 length in
  let* src := derive r src0 length in
  copy_body (handle_overlap r) dst src length m.

(** The other routines take integer pointers; a CHERI build bounds the
    capabilities it derives from them to the [length] bytes to copy. *)
Definition copy_ptr_args (r : routine) (dst0 src0 length : Z) (m : mem) : res mem :=
  if (length =? 0) || (src0 =? dst0) then Ok m else
  let* dst := cheri_bounds_set (cheri_tocap dst0) length in
  let* src := cheri_bounds_set (cheri_tocap src0) length in
  copy_body (handle_overlap r) dst src length m.

End memcpy.

(** ** The copy loop *)

Lemma u64_neq a b : a <> b -> - 2 ^ 64 < a - b < 2 ^ 64 -> u64 a <> u64 b.
Proof. unfold wrap. intros. mlia. Qed.

(** An invariant indexed by the number of iterations done is carried through
    the loop, which makes exactly [n] of them. *)
Lemma MIPSLOOP_inv (P : Z -> mem -> Prop) body a last inc n fuel m :
  0 < n -> inc <> 0 -> n * Z.abs inc < 2 ^ 64 ->
  u64 last = u64 (a + (n - 1) * inc) ->
  (Z.to_nat n <= fuel)%nat ->
  P 0 m ->
  (forall j m, 0 <= j < n -> P j m ->
     exists m', body (u64 (a + j * inc)) m = Ok m' /\ P (j + 1) m') ->
  exists m', MIPSLOOP fuel body (u64 a) last inc m = Ok m' /\ P n m'.
Proof.
  intros Hn Hinc Hbnd Hlast Hfuel HP Hstep. unfold MIPSLOOP. rewrite wrap_sub_l.
  enough (forall fuel i m, 0 <= i < n -> (Z.to_nat (n - i) <= fuel)%nat -> P i m ->
    exists m', mipsloop_iter fuel body (u64 (a + (i - 1) * inc)) last inc m = Ok m' /\ P n m')
    as Hiter.
  { replace (a - inc) with (a + (0 - 1) * inc) by lia. apply Hiter; [lia|lia|done]. }
  clear m fuel HP Hfuel. intros fuel.
  induction fuel as [|fuel IH]; intros i m Hi Hfuel HP; [lia|]; simpl.
  rewrite wrap_add_l. replace (a + (i - 1) * inc + inc) with (a + i * inc) by lia.
  destruct (Hstep i m Hi HP) as (m1 & -> & HP1). simpl. rewrite Hlast.
  destruct (_ =? _) eqn:Heq.
  - apply Z.eqb_eq in Heq. destruct (decide (i = n - 1)) as [->|Hne].
    + exists m1. split; [done|]. by replace n with (n - 1 + 1) by lia.
    + exfalso. revert Heq. apply u64_neq; nia.
  - assert (i <> n - 1) by (intros ->; by rewrite Z.eqb_refl in Heq).
    replace (a + i * inc) with (a + (i + 1 - 1) * inc) by lia.
    apply IH; [lia|lia|done].
Qed.

(** ** Regions reached through a capability *)

Record region_ok (c : cap) (a n : Z) : Prop := {
  ro_usable : usable c = true;
  ro_load : has_perm (c_perms c) PERMIT_LOAD = true;
  ro_store : has_perm (c_perms c) PERMIT_STORE = true;
  ro_load_cap : has_perm (c_perms c) PERMIT_LOAD_CAPABILITY = true;
  ro_store_cap : has_perm (c_perms c) PERMIT_STORE_CAPABILITY = true;
  ro_nonneg : 0 <= a;
  ro_base : c_base c <= a;
  ro_top : a + n <= c_top c;
  ro_wrap : a + n < 2 ^ 64;
}.

Lemma region_ok_access c a n perm x k :
  region_ok c a n -> has_perm (c_perms c) perm = true ->
  a <= x -> x + k <= a + n -> x mod k = 0 -> access_ok c perm x k = true.
Proof.
  intros [] Hp Hx Hxk Hal. unfold access_ok.
  rewrite Hp, ro_usable0, Hal, !andb_true_iff, !Z.leb_le. repeat split; lia.
Qed.

Lemma offset_increment_usable c i :
  usable c = true -> cheri_offset_increment c i = Ok (with_off c (c_off c + i)).
Proof.
  unfold usable, cheri_offset_increment, cheri_offset_set.
  intros [-> ->%negb_true_iff]%andb_true_iff. done.
Qed.

Lemma region_ok_with_off c o a n : region_ok c a n -> region_ok (with_off c o) a n.
Proof. by intros []. Qed.

Lemma c_addr_with_off c i : c_addr (with_off c (c_off c + i)) = u64 (c_addr c + i).
Proof. unfold c_addr; simpl. rewrite wrap_add_r, wrap_add_l. f_equal. lia. Qed.

(** moving a pointer inside its region *)
Lemma incr_region c a n x i :
  region_ok c a n -> c_addr c = x -> a <= x + i -> x + i <= a + n ->
  exists c', cheri_offset_increment c i = Ok c' /\ region_ok c' a n /\ c_addr c' = x + i.
Proof.
  intros Hr <- H1 H2. exists (with_off c (c_off c + i)).
  rewrite offset_increment_usable by apply Hr. repeat split; try apply Hr.
  rewrite c_addr_with_off. apply wrap_small. destruct Hr. lia.
Qed.

Lemma at_off_in c x t a n k :
  region_ok c a n -> c_addr c = x -> a <= x + t -> x + t + k <= a + n -> 0 <= k ->
  at_off c (u64 t) = x + t.
Proof.
  intros Hr <- H1 H2 Hk. unfold at_off. rewrite wrap_add_r. apply wrap_small.
  destruct Hr. lia.
Qed.

(** ** What has been copied so far *)

Section correct.
Context (psize : Z) (Hpsize : psize = 8 \/ psize = 16 \/ psize = 32).

(** The bytes [lo, hi) of the block at [d] hold what the block at [s] held in
    [m]; a granule they overlap keeps the tag of its source when it is copied
    whole and both blocks have the same alignment, and is untagged otherwise;
    everything else is as in [m]. *)
Record Copied (d s lo hi : Z) (m m' : mem) : Prop := {
  copied_byte : forall x, read_byte m' x =
    if decide (d + lo <= x < d + hi) then read_byte m (s + (x - d)) else read_byte m x;
  copied_tag : forall g, g mod psize = 0 -> has_tag m' g =
    if decide (lo < hi /\ g < d + hi /\ d + lo < g + psize)
    then if decide (bigptr psize = true /\ d mod psize = s mod psize
                    /\ d + lo <= g /\ g + psize <= d + hi)
         then has_tag m (s + (g - d)) else false
    else has_tag m g;
}.

Lemma Copied_refl d s lo m : Copied d s lo lo m m.
Proof. split; intros; by rewrite decide_False by lia. Qed.

Lemma has_tag_put_data m a b g :
  has_tag (Mem b (m_tags m ∖ {[granule psize a]})) g =
  if decide (g = granule psize a) then false else has_tag m g.
Proof.
  unfold has_tag; simpl.
  destruct (decide _); [apply bool_decide_eq_false | apply bool_decide_ext];
    rewrite elem_of_difference, elem_of_singleton; tauto.
Qed.

(** [p, p+k) extends the bytes copied so far at one of its ends *)
Definition extends (p k lo hi lo' hi' : Z) : Prop :=
  (p = hi /\ lo' = lo /\ hi' = p + k) \/ (p + k = lo /\ lo' = p /\ hi' = hi).

(** the source of the next chunk has not been overwritten *)
Definition unclobbered (d s p k lo hi : Z) : Prop :=
  lo = hi \/ s + p + k <= d + lo \/ d + hi <= s + p.

(** no granule is completed by a chunk narrower than it, unless the blocks are
    misaligned to each other *)
Definition no_cut (d s p lo' hi' : Z) : Prop :=
  bigptr psize = true -> d mod psize = s mod psize ->
  granule psize (d + p) < d + lo' \/ d + hi' < granule psize (d + p) + psize.

Lemma granule_bounds a k :
  k = 1 \/ k = 8 -> a mod k = 0 -> k <= psize ->
  granule psize a mod psize = 0 /\ granule psize a <= a /\ a + k <= granule psize a + psize.
Proof. unfold granule. destruct Hpsize as [->|[->| ->]]; intros [->| ->]; mlia. Qed.

Lemma granule_disjoint g a :
  g mod psize = 0 -> granule psize a <> g -> g + psize <= granule psize a \/ granule psize a + psize <= g.
Proof. unfold granule. destruct Hpsize as [->|[->| ->]]; mlia. Qed.

Lemma Copied_data d s lo hi lo' hi' p k m0 m1 :
  k = 1 \/ k = 8 -> lo <= hi -> (d + p) mod k = 0 ->
  extends p k lo hi lo' hi' -> unclobbered d s p k lo hi -> no_cut d s p lo' hi' ->
  Copied d s lo hi m0 m1 ->
  Copied d s lo' hi' m0 (put_data psize m1 (d + p) (read_bytes m1 (s + p) (Z.to_nat k))).
Proof.
  intros Hk Hlohi Hal Hext Hun Hcut [Hb Ht].
  destruct (granule_bounds (d + p) k Hk Hal) as (Hg1 & Hg2 & Hg3).
  { destruct Hpsize as [->|[->| ->]], Hk as [->| ->]; lia. }
  unfold extends, unclobbered, no_cut in *.
  split.
  - intros x. unfold put_data. rewrite (read_byte_copy m1 m1) by done. rewrite !Hb.
    repeat case_decide; try lia; f_equal; lia.
  - intros g Hg. unfold put_data. rewrite has_tag_put_data, (Ht g Hg).
    destruct (decide (g = granule psize (d + p))) as [->|Heq].
    + rewrite decide_True by lia. rewrite decide_False; [done|].
      intros (Hbig & Hc & ? & ?). destruct (Hcut Hbig Hc); lia.
    + pose proof (granule_disjoint g (d + p) Hg ltac:(done)).
      clear Hb Ht Hcut. apply if_decide_ext; [lia| |done]. intros Hov.
      assert ((d + lo <= g /\ g + psize <= d + hi) <-> (d + lo' <= g /\ g + psize <= d + hi'))
        by lia.
      apply if_decide_ext; [tauto|done|done].
Qed.

Lemma has_tag_put_cap m a bs tag g :
  has_tag (put_cap m a bs tag) g = if decide (g = a) then tag else has_tag m g.
Proof.
  unfold has_tag, put_cap; simpl. destruct tag; destruct (decide _);
    [apply bool_decide_eq_true | apply bool_decide_ext
    |apply bool_decide_eq_false | apply bool_decide_ext];
    rewrite ?elem_of_union, ?elem_of_difference, ?elem_of_singleton; tauto.
Qed.

Lemma congr_of_aligned d s p :
  (d + p) mod psize = 0 -> (s + p) mod psize = 0 -> d mod psize = s mod psize.
Proof. destruct Hpsize as [->|[->| ->]]; mlia. Qed.

Lemma aligned_apart g a : g mod psize = 0 -> a mod psize = 0 -> g <> a ->
  g + psize <= a \/ a + psize <= g.
Proof. destruct Hpsize as [->|[->| ->]]; mlia. Qed.

Lemma Copied_cap d s lo hi lo' hi' p m0 m1 :
  bigptr psize = true -> lo <= hi ->
  (d + p) mod psize = 0 -> (s + p) mod psize = 0 ->
  extends p psize lo hi lo' hi' -> unclobbered d s p psize lo hi ->
  Copied d s lo hi m0 m1 ->
  Copied d s lo' hi' m0
    (put_cap m1 (d + p) (read_bytes m1 (s + p) (Z.to_nat psize)) (has_tag m1 (s + p))).
Proof.
  intros Hbig Hlohi Hd Hs Hext Hun [Hb Ht]. unfold extends, unclobbered in *.
  pose proof (congr_of_aligned d s p Hd Hs) as Hcongr.
  split.
  - intros x. unfold put_cap. rewrite (read_byte_copy m1 m1) by done. rewrite !Hb.
    repeat case_decide; try lia; f_equal; lia.
  - intros g Hg. rewrite has_tag_put_cap.
    destruct (decide (g = d + p)) as [->|Hne].
    + rewrite (Ht (s + p)) by done. rewrite decide_False by lia.
      rewrite decide_True by lia. rewrite decide_True by (repeat split; try done; lia).
      f_equal. lia.
    + pose proof (aligned_apart g (d + p) Hg Hd Hne). rewrite (Ht g Hg).
      clear Hb Ht. apply if_decide_ext; [lia| |done]. intros Hov.
      assert ((d + lo <= g /\ g + psize <= d + hi) <-> (d + lo' <= g /\ g + psize <= d + hi'))
        by lia.
      apply if_decide_ext; [tauto|done|done].
Qed.

(** One iteration of a copy loop: both accesses pass the capability checks. *)
Section step.
Context (d s len : Z) (dst src : cap) (m0 : mem).
Context (Hdst : region_ok dst d len) (Hsrc : region_ok src s len).

Lemma copy_data_step t p k lo hi lo' hi' m1 :
  k = 1 \/ k = 8 -> lo <= hi -> 0 <= p -> p + k <= len ->
  at_off dst t = d + p -> at_off src t = s + p ->
  (d + p) mod k = 0 -> (s + p) mod k = 0 ->
  extends p k lo hi lo' hi' -> unclobbered d s p k lo hi -> no_cut d s p lo' hi' ->
  Copied d s lo hi m0 m1 ->
  exists m2, copy_data psize k dst src t m1 = Ok m2 /\ Copied d s lo' hi' m0 m2.
Proof.
  intros Hk Hlohi Hp Hlen Hd Hs Hda Hsa Hext Hun Hcut HC.
  eexists. split; [|by apply (Copied_data d s lo hi lo' hi' p k m0 m1)].
  unfold copy_data, load_data, store_data. rewrite Hd, Hs.
  rewrite (region_ok_access _ _ _ _ _ _ Hsrc (ro_load _ _ _ Hsrc)) by (lia || done).
  simpl. rewrite length_read_bytes, Z2Nat.id by lia.
  by rewrite (region_ok_access _ _ _ _ _ _ Hdst (ro_store _ _ _ Hdst)) by (lia || done).
Qed.

Lemma copy_cap_step t p lo hi lo' hi' m1 :
  bigptr psize = true -> lo <= hi -> 0 <= p -> p + psize <= len ->
  at_off dst t = d + p -> at_off src t = s + p ->
  (d + p) mod psize = 0 -> (s + p) mod psize = 0 ->
  extends p psize lo hi lo' hi' -> unclobbered d s p psize lo hi ->
  Copied d s lo hi m0 m1 ->
  exists m2, copy_ptr psize dst src t m1 = Ok m2 /\ Copied d s lo' hi' m0 m2.
Proof.
  intros Hbig Hlohi Hp Hlen Hd Hs Hda Hsa Hext Hun HC.
  eexists. split; [|by apply (Copied_cap d s lo hi lo' hi' p m0 m1)].
  unfold copy_ptr, load_cap, store_cap. rewrite Hbig, Hd, Hs.
  rewrite (region_ok_access _ _ _ _ _ _ Hsrc (ro_load _ _ _ Hsrc)) by (lia || done).
  rewrite (ro_load_cap _ _ _ Hsrc). simpl.
  rewrite (region_ok_access _ _ _ _ _ _ Hdst (ro_store _ _ _ Hdst)) by (lia || done).
  by rewrite (ro_store_cap _ _ _ Hdst).
Qed.
End step.

(** *** Masks *)

Lemma wmask_lor a b : (Z.land (Z.lor a b) wmask =? 0) = (a mod 8 =? 0) && (b mod 8 =? 0).
Proof. exact (mask_lor_eqb a b 3 ltac:(lia)). Qed.

Lemma wmask_lxor a b : (Z.land (Z.lxor a b) wmask =? 0) = (a mod 8 =? b mod 8).
Proof. exact (mask_lxor_eqb a b 3 ltac:(lia)). Qed.

Lemma land_wmask a : Z.land a wmask = a mod 8.
Proof. exact (land_mask a 3 ltac:(lia)). Qed.

Lemma psize_pow2 : exists k, 0 <= k /\ psize = 2 ^ k.
Proof. destruct Hpsize as [->|[->| ->]]; [exists 3|exists 4|exists 5]; lia. Qed.

Lemma pmask_lor a b :
  (Z.land (Z.lor a b) (pmask psize) =? 0) = (a mod psize =? 0) && (b mod psize =? 0).
Proof. destruct psize_pow2 as (k & Hk & ->). by apply mask_lor_eqb. Qed.

Lemma pmask_lxor a b :
  (Z.land (Z.lxor a b) (pmask psize) =? 0) = (a mod psize =? b mod psize).
Proof. destruct psize_pow2 as (k & Hk & ->). by apply mask_lxor_eqb. Qed.

Lemma land_pmask a : Z.land a (pmask psize) = a mod psize.
Proof. destruct psize_pow2 as (k & Hk & ->). by apply land_mask. Qed.

(** *** Copy loops over several chunks *)

Section copying.
Context (d s len : Z) (m0 : mem) (Hlen : 0 < len).

(** The state of a copy whose two pointers have moved [p] bytes and which has
    copied [lo, hi). *)
Record at_pos (p lo hi : Z) (f : frame) : Prop := {
  ap_dst : region_ok (f_dst f) d len;
  ap_src : region_ok (f_src f) s len;
  ap_daddr : c_addr (f_dst f) = d + p;
  ap_saddr : c_addr (f_src f) = s + p;
  ap_copied : Copied d s lo hi m0 (f_mem f);
}.

(** [copy] copies the chunk of [k] bytes at [p], given [Q p] and the bytes
    [before p] already copied. *)
Definition copies (copy : cap -> cap -> Z -> mem -> res mem) (k p lo hi lo' hi' : Z) : Prop :=
  forall dst src t m1, region_ok dst d len -> region_ok src s len ->
    at_off dst t = d + p -> at_off src t = s + p ->
    Copied d s lo hi m0 m1 ->
    exists m2, copy dst src t m1 = Ok m2 /\ Copied d s lo' hi' m0 m2.

(** the forward loops: the pointers are moved past the block first *)
Lemma fwd_loop copy k n p last fuel f :
  at_pos p 0 p f -> 0 <= p -> p + n * k <= len -> 0 < n -> 0 < k ->
  u64 last = u64 (- k) -> (Z.to_nat n <= fuel)%nat ->
  (forall j, 0 <= j < n -> copies copy k (p + j * k) 0 (p + j * k) 0 (p + j * k + k)) ->
  exists dst src m, cheri_offset_increment (f_dst f) (n * k) = Ok dst
    /\ cheri_offset_increment (f_src f) (n * k) = Ok src
    /\ MIPSLOOP fuel (copy dst src) (u64 (- (n * k))) last k (f_mem f) = Ok m
    /\ (forall l, at_pos (p + n * k) 0 (p + n * k) (Frame dst src l m)).
Proof.
  intros [Hd Hs Hda Hsa HC] Hp Hpn Hn Hk Hlast Hfuel Hcopy.
  destruct (incr_region _ _ _ _ (n * k) Hd Hda) as (dst & Hdst & Hd' & Hda'); [nia|lia|].
  destruct (incr_region _ _ _ _ (n * k) Hs Hsa) as (src & Hsrc & Hs' & Hsa'); [nia|lia|].
  destruct (MIPSLOOP_inv (fun j m => Copied d s 0 (p + j * k) m0 m)
    (copy dst src) (- (n * k)) last k n fuel (f_mem f)) as (m & Hloop & HC');
    [lia|lia|destruct Hd; nia| |done| |  |].
  { rewrite Hlast. f_equal. lia. }
  { by replace (p + 0 * k) with p by lia. }
  { intros j m Hj HCj.
    assert (0 <= j * k /\ j * k + k <= n * k) by nia.
    destruct (Hcopy j Hj dst src (u64 (- (n * k) + j * k)) m) as (m2 & H2 & HC2); try done.
    - rewrite (at_off_in _ _ _ d len k Hd' Hda'); lia.
    - rewrite (at_off_in _ _ _ s len k Hs' Hsa'); lia.
    - exists m2. split; [done|]. by replace (p + (j + 1) * k) with (p + j * k + k) by lia. }
  exists dst, src, m. repeat split; simpl; try done; lia || apply Hd' || apply Hs' || apply HC'.
Qed.

(** the backward loops: the index runs down to 0 from the start of the block *)
Lemma bwd_loop copy k n p fuel f :
  at_pos p p len f -> p <= len -> 0 <= p - n * k -> 0 < n -> 0 < k ->
  (Z.to_nat n <= fuel)%nat ->
  (forall j, 0 <= j < n -> copies copy k (p - j * k - k) (p - j * k) len (p - j * k - k) len) ->
  exists dst src m, cheri_offset_increment (f_dst f) (- (n * k)) = Ok dst
    /\ cheri_offset_increment (f_src f) (- (n * k)) = Ok src
    /\ MIPSLOOP fuel (copy dst src) (u64 ((n - 1) * k)) 0 (- k) (f_mem f) = Ok m
    /\ (forall l, at_pos (p - n * k) (p - n * k) len (Frame dst src l m)).
Proof.
  intros [Hd Hs Hda Hsa HC] Hp Hpn Hn Hk Hfuel Hcopy.
  destruct (incr_region _ _ _ _ (- (n * k)) Hd Hda) as (dst & Hdst & Hd' & Hda'); [lia|nia|].
  destruct (incr_region _ _ _ _ (- (n * k)) Hs Hsa) as (src & Hsrc & Hs' & Hsa'); [lia|nia|].
  destruct (MIPSLOOP_inv (fun j m => Copied d s (p - j * k) len m0 m)
    (copy dst src) ((n - 1) * k) 0 (- k) n fuel (f_mem f)) as (m & Hloop & HC');
    [lia|lia|destruct Hd; nia| |done| |  |].
  { f_equal. lia. }
  { by replace (p - 0 * k) with p by lia. }
  { intros j m Hj HCj.
    assert (0 <= (n - 1 - j) * k /\ (n - 1 - j) * k + k <= n * k) by nia.
    destruct (Hcopy j Hj dst src (u64 ((n - 1) * k + j * - k)) m) as (m2 & H2 & HC2); try done.
    - rewrite (at_off_in _ _ _ d len k Hd' Hda'); lia.
    - rewrite (at_off_in _ _ _ s len k Hs' Hsa'); lia.
    - exists m2. split; [done|]. by replace (p - (j + 1) * k) with (p - j * k - k) by lia. }
  exists dst, src, m.
  repeat split; simpl; try done; lia || apply Hd' || apply Hs' || apply HC'.
Qed.

(** *** The forward stages *)

Section forward.
Context (Hover : d <= s \/ s + len <= d).

Lemma fwd_data k p : k = 1 \/ k = 8 -> 0 <= p -> p + k <= len ->
  (d + p) mod k = 0 -> (s + p) mod k = 0 -> no_cut d s p 0 (p + k) ->
  copies (copy_data psize k) k p 0 p 0 (p + k).
Proof.
  intros Hk Hp Hpk Hda Hsa Hcut dst src t m1 Hd Hs Hdt Hst HC.
  apply (copy_data_step d s len dst src m0 Hd Hs t p k 0 p 0 (p + k) m1);
    try done; unfold extends, unclobbered; lia.
Qed.

Lemma fwd_cap p : bigptr psize = true -> 0 <= p -> p + psize <= len ->
  (d + p) mod psize = 0 -> (s + p) mod psize = 0 ->
  copies (copy_ptr psize) psize p 0 p 0 (p + psize).
Proof.
  intros Hbig Hp Hpk Hda Hsa dst src t m1 Hd Hs Hdt Hst HC.
  apply (copy_cap_step d s len dst src m0 Hd Hs t p 0 p 0 (p + psize) m1);
    try done; unfold extends, unclobbered; lia.
Qed.

(** the loop of the byte stages *)
Lemma fwd_byte_loop n p f fuel :
  at_pos p 0 p f -> 0 <= p -> p + n <= len -> 0 < n -> (Z.to_nat n <= fuel)%nat ->
  (forall j, 0 <= j < n -> no_cut d s (p + j) 0 (p + j + 1)) ->
  exists dst src m, cheri_offset_increment (f_dst f) n = Ok dst
    /\ cheri_offset_increment (f_src f) n = Ok src
    /\ MIPSLOOP fuel (copy_data psize 1 dst src) (u64 (- n)) (-1) 1 (f_mem f) = Ok m
    /\ (forall l, at_pos (p + n) 0 (p + n) (Frame dst src l m)).
Proof.
  intros Hf Hp Hpn Hn Hfuel Hcut.
  destruct (fwd_loop (copy_data psize 1) 1 n p (-1) fuel f) as (dst & src & m & H);
    rewrite ?Z.mul_1_r in *; try done; try lia; [|by exists dst, src, m].
  intros j Hj. rewrite Z.mul_1_r. apply fwd_data; try lia; [apply Z.mod_1_r..|auto].
Qed.

Lemma at_pos_wrap p lo hi f : at_pos p lo hi f -> 0 <= d /\ 0 <= s /\ len < 2 ^ 64.
Proof. intros [[] [] _ _ _]. lia. Qed.

(** After the byte stage both pointers are word aligned, unless all is done. *)
Lemma fwd_bytes_ok f :
  at_pos 0 0 0 f -> f_length f = len ->
  exists f' p, fwd_bytes psize f = Ok f' /\ at_pos p 0 p f' /\ f_length f' = len - p
    /\ 0 <= p <= len
    /\ (p < len -> p < 8 /\ (d + p) mod 8 = 0 /\ (s + p) mod 8 = 0).
Proof.
  intros Hf Hl. unfold fwd_bytes. pose proof (at_pos_wrap _ _ _ _ Hf) as Hw.
  rewrite (ap_daddr _ _ _ _ Hf), (ap_saddr _ _ _ _ Hf), Hl, wmask_lor, !Z.add_0_r.
  destruct (_ && _) eqn:Hal.
  { apply andb_true_iff in Hal as [?%Z.eqb_eq ?%Z.eqb_eq].
    exists f, 0. rewrite !Z.add_0_r. split; [done|]. split; [exact Hf|]. lia. }
  rewrite wmask_lxor, land_wmask.
  match goal with |- context [if ?b then len else ?x] => set (t := if b then len else x) end.
  assert (0 < t <= len /\ (t < len -> t < 8 /\ (d + t) mod 8 = 0 /\ (s + t) mod 8 = 0)
    /\ (t = len /\ (s mod 8 <> d mod 8 \/ len < 8)
        \/ t = 8 - s mod 8 /\ s mod 8 = d mod 8 /\ s mod 8 <> 0)) as (Ht & Hend & Hcase).
  { subst t. apply andb_false_iff in Hal. rewrite !Z.eqb_neq in Hal.
    unfold wsize. destruct (_ =? _) eqn:Hx; [apply Z.eqb_eq in Hx|apply Z.eqb_neq in Hx];
      simpl; [destruct (len <? 8) eqn:H8; [apply Z.ltb_lt in H8|apply Z.ltb_ge in H8]|].
    - lia.
    - rewrite wrap_small by mlia. mlia.
    - lia. }
  destruct (fwd_byte_loop t 0 f (loop_fuel len)) as (dst & src & m & -> & -> & Hloop & Hpos);
    try done; try lia.
  { unfold loop_fuel. lia. }
  { intros j Hj Hbig Hc. unfold granule.
    destruct Hpsize as [->|[->| ->]]; [done| |]; mlia. }
  simpl. rewrite Hloop. simpl.
  eexists _, t. split; [done|]. split; [apply Hpos|]. simpl.
  rewrite wrap_small by lia. repeat split; auto; lia.
Qed.

(** What the word stage leaves: less than a word, or capability alignment. *)
Definition word_done (p : Z) : Prop :=
  (len - p < 8 /\ (p < len -> (d + p) mod 8 = 0 /\ (s + p) mod 8 = 0))
  \/ ((d + p) mod psize = 0 /\ (s + p) mod psize = 0).

Lemma fwd_word_loop n p f fuel :
  at_pos p 0 p f -> 0 <= p -> p + n * 8 <= len -> 0 < n -> (Z.to_nat n <= fuel)%nat ->
  (d + p) mod 8 = 0 -> (s + p) mod 8 = 0 ->
  (forall j, 0 <= j < n -> no_cut d s (p + j * 8) 0 (p + j * 8 + 8)) ->
  exists dst src m, cheri_offset_increment (f_dst f) (n * 8) = Ok dst
    /\ cheri_offset_increment (f_src f) (n * 8) = Ok src
    /\ MIPSLOOP fuel (copy_data psize 8 dst src) (u64 (- n * 8)) (-8) 8 (f_mem f) = Ok m
    /\ (forall l, at_pos (p + n * 8) 0 (p + n * 8) (Frame dst src l m)).
Proof.
  intros Hf Hp Hpn Hn Hfuel Hd Hs Hcut. rewrite Z.mul_opp_l.
  apply fwd_loop; try done; try lia.
  intros j Hj. apply fwd_data; try mlia. auto.
Qed.

Lemma fwd_words_ok f p :
  at_pos p 0 p f -> f_length f = len - p -> 0 <= p <= len ->
  (p < len -> p < 8 /\ (d + p) mod 8 = 0 /\ (s + p) mod 8 = 0) ->
  exists f' p', fwd_words psize f = Ok f' /\ at_pos p' 0 p' f' /\ f_length f' = len - p'
    /\ p <= p' <= len /\ word_done p'.
Proof.
  intros Hf Hl Hp Hal. unfold fwd_words, word_done. pose proof (at_pos_wrap _ _ _ _ Hf) as Hw.
  destruct (bigptr psize) eqn:Hbig.
  2: { exists f, p. assert (psize = 8) as -> by (destruct Hpsize as [->|[->| ->]]; done).
    repeat (split; [done || lia|]). destruct (decide (p < len)); [right|left]; intuition lia. }
  assert (Hps : psize = 16 \/ psize = 32) by (destruct Hpsize as [->|[->| ->]]; [done|auto..]).
  rewrite (ap_daddr _ _ _ _ Hf), (ap_saddr _ _ _ _ Hf), Hl, pmask_lor.
  destruct (_ && _) eqn:Hal2.
  { apply andb_true_iff in Hal2 as [?%Z.eqb_eq ?%Z.eqb_eq].
    exists f, p. repeat (split; [done || lia|]). auto. }
  apply andb_false_iff in Hal2. rewrite !Z.eqb_neq in Hal2.
  rewrite pmask_lxor, land_pmask.
  match goal with |- context [if ?b then ?y / wsize else ?x] =>
    set (t := if b then y / wsize else x) end.
  assert (0 <= t /\ p + t * 8 <= len /\ word_done (p + t * 8)
    /\ (0 < t -> (d + p) mod psize = (s + p) mod psize ->
          (d + p) mod psize <> 0 /\ (len - p < psize \/ (d + p) mod psize + t * 8 <= psize)))
    as (Ht & Hend & Hdone & Hcut).
  { subst t. unfold wsize, word_done.
    destruct (_ =? _) eqn:Hx; [apply Z.eqb_eq in Hx|apply Z.eqb_neq in Hx]; simpl;
      [destruct (len - p <? psize) eqn:H8; [apply Z.ltb_lt in H8|apply Z.ltb_ge in H8]|].
    - destruct Hps as [->| ->]; mlia.
    - rewrite wrap_small by (destruct Hps as [->| ->]; mlia). destruct Hps as [->| ->]; mlia.
    - destruct Hps as [->| ->]; mlia. }
  destruct (t =? 0) eqn:Ht0; [apply Z.eqb_eq in Ht0|apply Z.eqb_neq in Ht0].
  { exists f, p. rewrite Ht0, Z.add_0_r in Hdone. repeat (split; [done || lia|]). done. }
  destruct (fwd_word_loop t p f (loop_fuel (len - p)))
    as (dst & src & m & Hdst & Hsrc & Hloop & Hpos); try done; try lia.
  { unfold loop_fuel. lia. }
  { intros j Hj _ Hc. unfold granule. destruct Hps as [->| ->]; mlia. }
  unfold wsize. rewrite Hdst, Hsrc. simpl. rewrite Hloop. simpl.
  eexists _, (p + t * 8). split; [done|]. split; [apply Hpos|]. simpl.
  rewrite wrap_small by lia. repeat split; auto; lia.
Qed.

Lemma copy_ptr_small :
  bigptr psize = false -> psize = 8 /\ copy_ptr psize = copy_data psize psize.
Proof. intros Hbig. destruct Hpsize as [Hps|[Hps|Hps]]; rewrite Hps in *; done. Qed.

Lemma fwd_ptrs_ok f p :
  at_pos p 0 p f -> f_length f = len - p -> 0 <= p <= len -> word_done p ->
  exists f' p', fwd_ptrs psize f = Ok f' /\ at_pos p' 0 p' f' /\ p <= p' <= len
    /\ f_length f' mod psize = len - p' /\ f_length f' = len - p /\ word_done p'.
Proof.
  intros Hf Hl Hp Hdone. unfold fwd_ptrs. rewrite Hl.
  set (n := (len - p) / psize).
  assert (Hn : 0 <= n /\ p + n * psize <= len /\ (len - p) mod psize = len - (p + n * psize)
    /\ word_done (p + n * psize)
    /\ (0 < n -> (d + p) mod psize = 0 /\ (s + p) mod psize = 0)).
  { unfold word_done in *. subst n. destruct Hpsize as [->|[->| ->]]; mlia. }
  destruct Hn as (Hn & Hend & Hmod & Hdone' & Hal).
  destruct (n =? 0) eqn:Hn0; [apply Z.eqb_eq in Hn0|apply Z.eqb_neq in Hn0].
  { exists f, p. rewrite Hn0, Z.mul_0_l, Z.add_0_r in Hmod. rewrite Hl.
    split; [done|]. split; [done|]. auto with lia. }
  destruct Hal as [Hda Hsa]; [lia|].
  destruct (fwd_loop (copy_ptr psize) psize n p (- psize) (loop_fuel (len - p)) f)
    as (dst & src & m & -> & -> & Hloop & Hpos); try done; try lia.
  { unfold loop_fuel. subst n. destruct Hpsize as [->|[->| ->]]; mlia. }
  { intros j Hj.
    assert ((d + (p + j * psize)) mod psize = 0 /\ (s + (p + j * psize)) mod psize = 0
      /\ p + j * psize + psize <= len) as (? & ? & ?)
      by (destruct Hpsize as [->|[->| ->]]; mlia).
    destruct (bigptr psize) eqn:Hbig.
    - apply fwd_cap; try done; lia.
    - destruct (copy_ptr_small Hbig) as [? ->].
      apply fwd_data; try done; try lia. by intros ?; congruence. }
  simpl. rewrite Hloop. simpl. eexists _, (p + n * psize).
  split; [done|]. split; [apply Hpos|]. simpl. repeat split; auto; lia.
Qed.

Lemma fwd_tail_ok f p :
  at_pos p 0 p f -> f_length f mod psize = len - p -> 0 <= f_length f <= len -> 0 <= p <= len ->
  word_done p ->
  exists f', fwd_tail psize f = Ok f' /\ Copied d s 0 len m0 (f_mem f').
Proof.
  intros Hf Hl Hle Hp Hdone. unfold fwd_tail. pose proof (at_pos_wrap _ _ _ _ Hf) as Hw.
  rewrite land_pmask, Hl.
  destruct (len - p =? 0) eqn:Ht0; [apply Z.eqb_eq in Ht0|apply Z.eqb_neq in Ht0].
  { exists f. split; [done|]. replace len with p by lia. apply Hf. }
  destruct (fwd_byte_loop (len - p) p f (loop_fuel (f_length f)))
    as (dst & src & m & -> & -> & Hloop & Hpos); try done; try lia.
  { unfold loop_fuel. destruct Hpsize as [->|[->| ->]]; mlia. }
  { intros j Hj Hbig Hc. unfold granule, word_done in *.
    destruct Hpsize as [->|[->| ->]]; mlia. }
  simpl. rewrite (proj2 (Z.eqb_neq _ _)) by (unfold wrap; mlia).
  rewrite Hloop. simpl. eexists. split; [done|]. simpl.
  replace len with (p + (len - p)) by lia. exact (ap_copied _ _ _ _ (Hpos 0)).
Qed.

Lemma copy_forward_ok f :
  at_pos 0 0 0 f -> f_length f = len ->
  exists f', copy_forward psize f = Ok f' /\ Copied d s 0 len m0 (f_mem f').
Proof.
  intros Hf Hl. unfold copy_forward.
  destruct (fwd_bytes_ok f Hf Hl) as (f1 & p1 & -> & Hf1 & Hl1 & Hp1 & Hal). simpl.
  destruct (fwd_words_ok f1 p1 Hf1 Hl1 Hp1 Hal) as (f2 & p2 & -> & Hf2 & Hl2 & Hp2 & Hd2). simpl.
  destruct (fwd_ptrs_ok f2 p2) as (f3 & p3 & -> & Hf3 & Hp3 & Hm3 & Hl3 & Hd3);
    try done; [lia|]. simpl.
  apply (fwd_tail_ok f3 p3); try done; lia.
Qed.
End forward.

(** *** The backward stages *)

Section backward.
Context (Hover : s <= d).

Lemma bwd_data k p : k = 1 \/ k = 8 -> 0 <= p -> p + k <= len ->
  (d + p) mod k = 0 -> (s + p) mod k = 0 -> no_cut d s p p len ->
  copies (copy_data psize k) k p (p + k) len p len.
Proof.
  intros Hk Hp Hpk Hda Hsa Hcut dst src t m1 Hd Hs Hdt Hst HC.
  apply (copy_data_step d s len dst src m0 Hd Hs t p k (p + k) len p len m1);
    try done; unfold extends, unclobbered; lia.
Qed.

Lemma bwd_cap p : bigptr psize = true -> 0 <= p -> p + psize <= len ->
  (d + p) mod psize = 0 -> (s + p) mod psize = 0 ->
  copies (copy_ptr psize) psize p (p + psize) len p len.
Proof.
  intros Hbig Hp Hpk Hda Hsa dst src t m1 Hd Hs Hdt Hst HC.
  apply (copy_cap_step d s len dst src m0 Hd Hs t p (p + psize) len p len m1);
    try done; unfold extends, unclobbered; lia.
Qed.

Lemma bwd_byte_loop n p f fuel :
  at_pos p p len f -> p <= len -> 0 <= p - n -> 0 < n -> (Z.to_nat n <= fuel)%nat ->
  (forall j, 0 <= j < n -> no_cut d s (p - j - 1) (p - j - 1) len) ->
  exists dst src m, cheri_offset_increment (f_dst f) (- n) = Ok dst
    /\ cheri_offset_increment (f_src f) (- n) = Ok src
    /\ MIPSLOOP fuel (copy_data psize 1 dst src) (u64 (n - 1)) 0 (-1) (f_mem f) = Ok m
    /\ (forall l, at_pos (p - n) (p - n) len (Frame dst src l m)).
Proof.
  intros Hf Hp Hpn Hn Hfuel Hcut.
  destruct (bwd_loop (copy_data psize 1) 1 n p fuel f) as (dst & src & m & H);
    rewrite ?Z.mul_1_r in *; try done; try lia; [|by exists dst, src, m].
  intros j Hj. rewrite Z.mul_1_r.
  replace (p - j) with (p - j - 1 + 1) at 2 by lia.
  apply bwd_data; try lia; [apply Z.mod_1_r..|auto].
Qed.

Lemma bwd_bytes_ok f :
  at_pos 0 len len f -> f_length f = len ->
  exists f' p, bwd_bytes psize f = Ok f' /\ at_pos p p len f' /\ f_length f' = p
    /\ 0 <= p <= len
    /\ (0 < p -> len < p + 8 /\ (d + p) mod 8 = 0 /\ (s + p) mod 8 = 0).
Proof.
  intros Hf Hl. unfold bwd_bytes. pose proof (at_pos_wrap _ _ _ _ Hf) as Hw.
  destruct Hf as [Hd Hs Hda Hsa HC]. rewrite Hl.
  destruct (incr_region _ _ _ _ len Hs Hsa) as (src & -> & Hs' & Hsa'); [lia|lia|].
  destruct (incr_region _ _ _ _ len Hd Hda) as (dst & -> & Hd' & Hda'); [lia|lia|].
  simpl. rewrite Hsa', Hda', !Z.add_0_r, wmask_lor.
  assert (Hf : at_pos len len len (Frame dst src len (f_mem f)))
    by (split; simpl; [done..|lia|lia|done]).
  destruct (_ && _) eqn:Hal.
  { apply andb_true_iff in Hal as [?%Z.eqb_eq ?%Z.eqb_eq].
    eexists _, len. split; [done|]. split; [exact Hf|]. simpl. lia. }
  rewrite wmask_lxor, land_wmask.
  match goal with |- context [if ?b then len else ?x] => set (t := if b then len else x) end.
  assert (0 < t <= len /\ (t < len -> t < 8 /\ (d + (len - t)) mod 8 = 0 /\ (s + (len - t)) mod 8 = 0)
    /\ (t = len /\ ((s + len) mod 8 <> (d + len) mod 8 \/ len <= 8)
        \/ t = (s + len) mod 8 /\ (s + len) mod 8 = (d + len) mod 8 /\ (s + len) mod 8 <> 0))
    as (Ht & Hend & Hcase).
  { subst t. apply andb_false_iff in Hal. rewrite !Z.eqb_neq in Hal.
    unfold wsize. destruct (_ =? _) eqn:Hx; [apply Z.eqb_eq in Hx|apply Z.eqb_neq in Hx];
      simpl; [destruct (len <=? 8) eqn:H8; [apply Z.leb_le in H8|apply Z.leb_gt in H8]|];
      try lia. mlia. }
  destruct (bwd_byte_loop t len _ (loop_fuel len) Hf)
    as (dst' & src' & m & Hdst & Hsrc & Hloop & Hpos); try lia.
  { unfold loop_fuel. lia. }
  { intros j Hj Hbig Hc. unfold granule.
    destruct Hpsize as [->|[->| ->]]; [done| |]; mlia. }
  simpl in Hdst, Hsrc, Hloop. rewrite Hdst. simpl. rewrite Hsrc. simpl. rewrite Hloop. simpl.
  eexists _, (len - t). split; [done|]. split; [apply Hpos|]. simpl.
  rewrite wrap_small by lia. repeat split; auto; lia.
Qed.

(** The pointers are [p] bytes into the blocks and [p] bytes are left. *)
Definition words_left (p : Z) : Prop :=
  (p < 8 /\ (0 < p -> (d + p) mod 8 = 0 /\ (s + p) mod 8 = 0))
  \/ ((d + p) mod psize = 0 /\ (s + p) mod psize = 0).

Lemma bwd_word_loop n p f fuel :
  at_pos p p len f -> p <= len -> 0 <= p - n * 8 -> 0 < n -> (Z.to_nat n <= fuel)%nat ->
  (d + p) mod 8 = 0 -> (s + p) mod 8 = 0 ->
  (forall j, 0 <= j < n -> no_cut d s (p - j * 8 - 8) (p - j * 8 - 8) len) ->
  exists dst src m, cheri_offset_increment (f_dst f) (- (n * 8)) = Ok dst
    /\ cheri_offset_increment (f_src f) (- (n * 8)) = Ok src
    /\ MIPSLOOP fuel (copy_data psize 8 dst src) (u64 ((n - 1) * 8)) 0 (-8) (f_mem f) = Ok m
    /\ (forall l, at_pos (p - n * 8) (p - n * 8) len (Frame dst src l m)).
Proof.
  intros Hf Hp Hpn Hn Hfuel Hd Hs Hcut.
  apply (bwd_loop (copy_data psize 8) 8); try done; try lia.
  intros j Hj. replace (p - j * 8) with (p - j * 8 - 8 + 8) at 2 by lia.
  apply bwd_data; try mlia. auto.
Qed.

Lemma bwd_words_ok f p :
  at_pos p p len f -> f_length f = p -> 0 <= p <= len ->
  (0 < p -> len < p + 8 /\ (d + p) mod 8 = 0 /\ (s + p) mod 8 = 0) ->
  exists f' p', bwd_words psize f = Ok f' /\ at_pos p' p' len f' /\ f_length f' = p'
    /\ 0 <= p' <= p /\ words_left p'.
Proof.
  intros Hf Hl Hp Hal. unfold bwd_words, words_left. pose proof (at_pos_wrap _ _ _ _ Hf) as Hw.
  destruct (bigptr psize) eqn:Hbig.
  2: { exists f, p. assert (psize = 8) as -> by (destruct Hpsize as [->|[->| ->]]; done).
    repeat (split; [done || lia|]). destruct (decide (0 < p)); [right|left]; intuition lia. }
  assert (Hps : psize = 16 \/ psize = 32) by (destruct Hpsize as [->|[->| ->]]; [done|auto..]).
  rewrite (ap_daddr _ _ _ _ Hf), (ap_saddr _ _ _ _ Hf), Hl, pmask_lor.
  destruct (_ && _) eqn:Hal2.
  { apply andb_true_iff in Hal2 as [?%Z.eqb_eq ?%Z.eqb_eq].
    exists f, p. repeat (split; [done || lia|]). auto. }
  apply andb_false_iff in Hal2. rewrite !Z.eqb_neq in Hal2.
  rewrite pmask_lxor, land_pmask.
  match goal with |- context [if ?b then ?y / wsize else ?x] =>
    set (t := if b then y / wsize else x) end.
  assert (0 <= t /\ 0 <= p - t * 8 /\ words_left (p - t * 8)
    /\ (0 < t -> (d + p) mod psize = (s + p) mod psize ->
          (d + p) mod psize <> 0 /\ (p < psize \/ t * 8 <= (d + p) mod psize)))
    as (Ht & Hend & Hdone & Hcut).
  { subst t. unfold wsize, words_left.
    destruct (_ =? _) eqn:Hx; [apply Z.eqb_eq in Hx|apply Z.eqb_neq in Hx]; simpl;
      [destruct (p <? psize) eqn:H8; [apply Z.ltb_lt in H8|apply Z.ltb_ge in H8]|];
      destruct Hps as [->| ->]; mlia. }
  destruct (t =? 0) eqn:Ht0; [apply Z.eqb_eq in Ht0|apply Z.eqb_neq in Ht0].
  { exists f, p. rewrite Ht0, Z.sub_0_r in Hdone. repeat (split; [done || lia|]). done. }
  destruct (bwd_word_loop t p f (loop_fuel p))
    as (dst & src & m & Hdst & Hsrc & Hloop & Hpos); try done; try lia.
  { unfold loop_fuel. lia. }
  { intros j Hj _ Hc. unfold granule. destruct Hps as [->| ->]; mlia. }
  unfold wsize. rewrite Hdst. simpl. rewrite Hsrc. simpl. rewrite Hloop. simpl.
  eexists _, (p - t * 8). split; [done|]. split; [apply Hpos|]. simpl.
  rewrite wrap_small by lia. repeat split; auto; lia.
Qed.

Lemma bwd_ptrs_ok f p :
  at_pos p p len f -> f_length f = p -> 0 <= p <= len -> words_left p ->
  exists f', bwd_ptrs psize f = Ok f' /\ at_pos (p mod psize) (p mod psize) len f'
    /\ f_length f' = p /\ words_left (p mod psize).
Proof.
  intros Hf Hl Hp Hdone. unfold bwd_ptrs. rewrite Hl.
  set (n := p / psize).
  assert (Hn : 0 <= n /\ p - n * psize = p mod psize /\ 0 <= p mod psize
    /\ words_left (p mod psize)
    /\ (0 < n -> (d + p) mod psize = 0 /\ (s + p) mod psize = 0)).
  { unfold words_left in *. subst n. destruct Hpsize as [->|[->| ->]]; mlia. }
  destruct Hn as (Hn & Hmod & Hpos0 & Hdone' & Hal). rewrite <- Hmod in *.
  destruct (n =? 0) eqn:Hn0; [apply Z.eqb_eq in Hn0|apply Z.eqb_neq in Hn0].
  { exists f. rewrite Hn0, Z.mul_0_l, Z.sub_0_r. auto. }
  destruct Hal as [Hda Hsa]; [lia|].
  destruct (bwd_loop (copy_ptr psize) psize n p (loop_fuel p) f)
    as (dst & src & m & Hdst & Hsrc & Hloop & Hpos); try done; try lia.
  { unfold loop_fuel. subst n. destruct Hpsize as [->|[->| ->]]; mlia. }
  { intros j Hj.
    assert ((d + (p - j * psize - psize)) mod psize = 0 /\ (s + (p - j * psize - psize)) mod psize = 0
      /\ 0 <= p - j * psize - psize /\ p - j * psize <= len) as (? & ? & ? & ?)
      by (destruct Hpsize as [->|[->| ->]]; mlia).
    replace (p - j * psize) with (p - j * psize - psize + psize) at 2 by lia.
    destruct (bigptr psize) eqn:Hbig.
    - apply bwd_cap; try done; lia.
    - destruct (copy_ptr_small Hbig) as [? ->].
      apply bwd_data; try done; try lia. by intros ?; congruence. }
  rewrite Hsrc. simpl. rewrite Hdst. simpl. rewrite Hloop. simpl.
  eexists. split; [done|]. split; [apply Hpos|]. done.
Qed.

Lemma bwd_tail_ok f p :
  at_pos (p mod psize) (p mod psize) len f -> f_length f = p -> 0 <= p <= len ->
  words_left (p mod psize) ->
  exists f', bwd_tail psize f = Ok f' /\ Copied d s 0 len m0 (f_mem f').
Proof.
  intros Hf Hl Hp Hdone. unfold bwd_tail. pose proof (at_pos_wrap _ _ _ _ Hf) as Hw.
  rewrite land_pmask, Hl.
  destruct (p mod psize =? 0) eqn:Ht0; [apply Z.eqb_eq in Ht0|apply Z.eqb_neq in Ht0].
  { exists f. split; [done|]. rewrite <- Ht0. apply Hf. }
  destruct (bwd_byte_loop (p mod psize) (p mod psize) f (loop_fuel p))
    as (dst & src & m & Hdst & Hsrc & Hloop & Hpos); try done.
  { destruct Hpsize as [->|[->| ->]]; mlia. }
  { lia. }
  { destruct Hpsize as [->|[->| ->]]; mlia. }
  { unfold loop_fuel. destruct Hpsize as [->|[->| ->]]; mlia. }
  { intros j Hj Hbig Hc. unfold granule, words_left in *.
    destruct Hpsize as [->|[->| ->]]; mlia. }
  rewrite Hdst. simpl. rewrite Hsrc. simpl. rewrite Hloop. simpl.
  eexists. split; [done|]. simpl.
  pose proof (ap_copied _ _ _ _ (Hpos 0)) as HC. by rewrite Z.sub_diag in HC.
Qed.

Lemma copy_backward_ok f :
  at_pos 0 len len f -> f_length f = len ->
  exists f', copy_backward psize f = Ok f' /\ Copied d s 0 len m0 (f_mem f').
Proof.
  intros Hf Hl. unfold copy_backward.
  destruct (bwd_bytes_ok f Hf Hl) as (f1 & p1 & -> & Hf1 & Hl1 & Hp1 & Hal). simpl.
  destruct (bwd_words_ok f1 p1 Hf1 Hl1 Hp1 Hal) as (f2 & p2 & -> & Hf2 & Hl2 & Hp2 & Hd2). simpl.
  destruct (bwd_ptrs_ok f2 p2) as (f3 & -> & Hf3 & Hl3 & Hd3); try done; [lia|]. simpl.
  apply (bwd_tail_ok f3 p2); try done; lia.
Qed.
End backward.
End copying.
End correct.

(** ** Correctness of the routines *)

Lemma cap_ltb_region a b x y n n' :
  region_ok a x n -> region_ok b y n' -> cap_ltb a b = (c_addr a <? c_addr b).
Proof.
  intros [Ha] [Hb]. apply andb_true_iff in Ha as [Ha _], Hb as [Hb _].
  unfold cap_ltb. by rewrite Ha, Hb.
Qed.

Lemma cap_eqb_region a b x y n n' :
  region_ok a x n -> region_ok b y n' -> cap_eqb a b = (c_addr a =? c_addr b).
Proof.
  intros [Ha] [Hb]. apply andb_true_iff in Ha as [Ha _], Hb as [Hb _].
  unfold cap_eqb. by rewrite Ha, Hb.
Qed.

Lemma copy_body_ok psize overlap dst src len m :
  psize = 8 \/ psize = 16 \/ psize = 32 ->
  region_ok dst (c_addr dst) len -> region_ok src (c_addr src) len ->
  0 < len -> c_addr dst <> c_addr src ->
  overlap = true \/ c_addr dst + len <= c_addr src \/ c_addr src + len <= c_addr dst ->
  exists m', copy_body psize overlap dst src len m = Ok m'
    /\ Copied psize (c_addr dst) (c_addr src) 0 len m m'.
Proof.
  intros Hps Hd Hs Hlen Hne Hov. unfold copy_body.
  rewrite (cap_ltb_region _ _ _ _ _ _ Hd Hs).
  set (d := c_addr dst) in *. set (s := c_addr src) in *. set (f := Frame dst src len m).
  assert (Hf : forall p, at_pos psize d s len m 0 p p f).
  { intros p. split; simpl; try done; subst d s; try lia. apply Copied_refl. }
  destruct ((d <? s) || negb overlap) eqn:Hdir.
  - destruct (copy_forward_ok psize Hps d s len m Hlen) with (f := f)
      as (f' & -> & HC); [ |by apply Hf|done|by exists (f_mem f')].
    apply orb_true_iff in Hdir as [?%Z.ltb_lt|?%negb_true_iff]; [lia|].
    destruct Hov as [->|]; [done|lia].
  - apply orb_false_iff in Hdir as [Hlt%Z.ltb_ge _].
    destruct (copy_backward_ok psize Hps d s len m Hlen) with (f := f)
      as (f' & -> & HC); [done|by apply Hf|done|by exists (f_mem f')].
Qed.

(** What a call leaves in memory: nothing changes when there is nothing to do,
    and otherwise the whole block has been copied, tags included. *)
Definition copy_post (psize d s len : Z) (m m' : mem) : Prop :=
  if decide (len = 0 \/ d = s) then m' = m else Copied psize d s 0 len m m'.

Lemma derive_region psize r c n : 0 <= n -> region_ok c (c_addr c) n ->
  exists c', derive psize r c n = Ok c' /\ c_addr c' = c_addr c /\ region_ok c' (c_addr c) n.
Proof.
  intros Hn Hok. pose proof Hok as [Hu H1 H2 H3 H4 Ha Hb Ht Hw].
  assert (Hbounds : exists c', cheri_bounds_set c n = Ok c' /\ c_addr c' = c_addr c /\ region_ok c' (c_addr c) n).
  { unfold cheri_bounds_set. rewrite Hu, !(proj2 (Z.leb_le _ _)) by lia. cbn [andb]. eexists. split; [done|].
    assert (Haddr : c_addr (Cap true false (c_perms c) (c_otype c) (c_addr c) n 0) = c_addr c).
    { unfold c_addr at 1. cbn [c_base c_off]. rewrite Z.add_0_r. apply wrap_small. lia. }
    split; [exact Haddr|]. split; try done; cbn; lia || (unfold c_top; cbn; lia). }
  unfold derive. destruct r, (bigptr psize); first [done|by exists c].
Qed.

Lemma copy_c_ok psize r dst src len m :
  psize = 8 \/ psize = 16 \/ psize = 32 ->
  region_ok dst (c_addr dst) len -> region_ok src (c_addr src) len -> 0 <= len ->
  handle_overlap r = true \/ c_addr dst + len <= c_addr src \/ c_addr src + len <= c_addr dst ->
  exists m', copy_c psize r dst src len m = Ok m'
    /\ copy_post psize (c_addr dst) (c_addr src) len m m'.
Proof.
  intros Hps Hd Hs Hlen Hov. unfold copy_c, copy_post.
  rewrite (cap_eqb_region _ _ _ _ _ _ Hs Hd).
  destruct (decide _) as [[->| ->]|Hne].
  { by exists m. }
  { rewrite Z.eqb_refl, orb_true_r. by exists m. }
  rewrite !(proj2 (Z.eqb_neq _ _)) by (intros ?; apply Hne; auto). cbn [orb].
  destruct (derive_region psize r dst len Hlen Hd) as (d & -> & Had & Hrd).
  destruct (derive_region psize r src len Hlen Hs) as (s & -> & Has & Hrs). cbn [res_bind].
  rewrite <- Had, <- Has in *. apply copy_body_ok; auto; lia.
Qed.

Lemma tocap_region p len :
  0 < p -> 0 <= len -> p + len < 2 ^ 64 ->
  exists c, cheri_bounds_set (cheri_tocap p) len = Ok c /\ region_ok c p len /\ c_addr c = p.
Proof.
  intros Hp Hl Hw. unfold cheri_tocap. rewrite wrap_small by lia.
  rewrite (proj2 (Z.eqb_neq _ _)) by lia. unfold cheri_bounds_set.
  assert (Ha : c_addr (with_off ddc p) = p).
  { unfold c_addr, with_off; simpl. rewrite !(wrap_small _ p) by lia. done. }
  rewrite Ha. unfold c_top, usable. simpl.
  rewrite !(proj2 (Z.leb_le _ _)) by lia. simpl.
  eexists. split; [done|]. unfold c_addr; simpl. rewrite Z.add_0_r, wrap_small by lia.
  split; [|done]. split; simpl; try reflexivity; unfold c_top; simpl; lia.
Qed.

Lemma copy_ptr_args_ok psize r dst0 src0 len m :
  psize = 16 \/ psize = 32 ->
  0 < dst0 -> 0 < src0 -> 0 <= len -> dst0 + len < 2 ^ 64 -> src0 + len < 2 ^ 64 ->
  handle_overlap r = true \/ dst0 + len <= src0 \/ src0 + len <= dst0 ->
  exists m', copy_ptr_args psize r dst0 src0 len m = Ok m' /\ copy_post psize dst0 src0 len m m'.
Proof.
  intros Hps Hd Hs Hlen Hdw Hsw Hov. unfold copy_ptr_args, copy_post.
  destruct (decide _) as [[->| ->]|Hne].
  { by exists m. }
  { rewrite Z.eqb_refl, orb_true_r. by exists m. }
  rewrite !(proj2 (Z.eqb_neq _ _)) by (intros ?; apply Hne; auto). simpl.
  destruct (tocap_region dst0 len Hd Hlen Hdw) as (dst & -> & Hrd & Had). simpl.
  destruct (tocap_region src0 len Hs Hlen Hsw) as (src & -> & Hrs & Has). simpl.
  subst dst0 src0. apply copy_body_ok; auto; lia.
Qed.

Lemma copy_post_bytes psize d s len m m' :
  copy_post psize d s len m m' ->
  forall x, read_byte m' x =
    if decide (d <= x < d + len) then read_byte m (s + (x - d)) else read_byte m x.
Proof.
  unfold copy_post. case_decide as Hn; intros H x.
  - subst m'. case_decide; [|done]. f_equal. lia.
  - rewrite (copied_byte _ _ _ _ _ _ _ H). apply if_decide_ext; intros; f_equal; lia.
Qed.

Lemma copy_post_tags psize d s len m m' : 0 <= len -> d <> s ->
  copy_post psize d s len m m' ->
  forall g, g mod psize = 0 -> has_tag m' g =
    if decide (0 < len /\ g < d + len /\ d < g + psize)
    then if decide (bigptr psize = true /\ d mod psize = s mod psize
                    /\ d <= g /\ g + psize <= d + len)
         then has_tag m (s + (g - d)) else false
    else has_tag m g.
Proof.
  unfold copy_post. case_decide as Hn; intros Hl Hds H g Hg.
  - destruct Hn as [->|]; [|done]. subst m'. by rewrite decide_False by lia.
  - rewrite (copied_tag _ _ _ _ _ _ _ H) by done.
    apply if_decide_ext; [intuition lia| |done]. intros _.
    apply if_decide_ext; intuition lia.
Qed.

(** C1: the capability routines ([memcpy_c], [memmove_c], [cmemcpy_c], and
    [memcpy], [memmove] in the pure-capability ABI, which first bound their
    arguments to the blocks).  With capabilities that
    grant all the permissions over [len] bytes at their addresses, and with
    blocks that do not overlap unless the routine handles overlap, the call
    neither traps nor runs on.  Every byte of the destination is the source
    byte as it was before the call, and no other byte changes; a granule of the
    destination keeps the tag of its source exactly when it is copied whole and
    the two blocks are equally aligned, loses it otherwise, and no other tag
    changes. *)
Theorem copy_c_correct psize r dst src len m :
  psize = 8 \/ psize = 16 \/ psize = 32 ->
  region_ok dst (c_addr dst) len -> region_ok src (c_addr src) len -> 0 <= len ->
  c_addr dst <> c_addr src ->
  handle_overlap r = true \/ c_addr dst + len <= c_addr src \/ c_addr src + len <= c_addr dst ->
  exists m', copy_c psize r dst src len m = Ok m'
    /\ (forall x, read_byte m' x =
         if decide (c_addr dst <= x < c_addr dst + len)
         then read_byte m (c_addr src + (x - c_addr dst)) else read_byte m x)
    /\ (forall g, g mod psize = 0 -> has_tag m' g =
         if decide (0 < len /\ g < c_addr dst + len /\ c_addr dst < g + psize)
         then if decide (bigptr psize = true /\ c_addr dst mod psize = c_addr src mod psize
                         /\ c_addr dst <= g /\ g + psize <= c_addr dst + len)
              then has_tag m (c_addr src + (g - c_addr dst)) else false
         else has_tag m g).
Proof.
  intros Hps Hd Hs Hlen Hne Hov.
  destruct (copy_c_ok psize r dst src len m) as (m' & Hrun & Hpost); [done..|].
  exists m'. split; [done|].
  split; [by apply (copy_post_bytes psize) | by apply copy_post_tags].
Qed.

Lemma copy_c_correct_witness : exists m',
  copy_c 32 MEMMOVE_C (with_off ddc 100) (with_off ddc 68) 80 (Mem {[70 := 5]} {[96]}) = Ok m'
  /\ (forall x, read_byte m' x =
       if decide (100 <= x < 180)
       then read_byte (Mem {[70 := 5]} {[96]}) (68 + (x - 100)) else read_byte (Mem {[70 := 5]} {[96]}) x).
Proof.
  destruct (copy_c_correct 32 MEMMOVE_C (with_off ddc 100) (with_off ddc 68) 80 (Mem {[70 := 5]} {[96]}))
    as (m' & Hrun & Hb & _).
  - lia.
  - split; vm_compute; congruence.
  - split; vm_compute; congruence.
  - lia.
  - vm_compute; congruence.
  - left. reflexivity.
  - exists m'. split; [exact Hrun | exact Hb].
Defined.

(** C17: the integer-pointer routines ([cmemcpy], [cmemmove], [bcopy]).  The
    capabilities they derive from their arguments are bounded to exactly the
    [len] bytes of each block, and no access of the copy leaves them: the call
    returns for all blocks in the address space (overlapping ones when the
    routine handles overlap, and blocks that coincide), with every byte
    copied and no other byte changed. *)
Theorem copy_ptr_args_correct psize r dst0 src0 len m :
  psize = 16 \/ psize = 32 ->
  0 < dst0 -> 0 < src0 -> 0 <= len -> dst0 + len < 2 ^ 64 -> src0 + len < 2 ^ 64 ->
  handle_overlap r = true \/ dst0 + len <= src0 \/ src0 + len <= dst0 ->
  exists m', copy_ptr_args psize r dst0 src0 len m = Ok m'
    /\ forall x, read_byte m' x =
         if decide (dst0 <= x < dst0 + len)
         then read_byte m (src0 + (x - dst0)) else read_byte m x.
Proof.
  intros Hps Hd Hs Hlen Hdw Hsw Hov.
  destruct (copy_ptr_args_ok psize r dst0 src0 len m) as (m' & Hrun & Hpost); [done..|].
  exists m'. split; [done|]. by apply (copy_post_bytes psize).
Qed.

Lemma copy_ptr_args_correct_witness : exists m',
  copy_ptr_args 16 CMEMCPY 259 131 70 (Mem {[140 := 7]} {[144]}) = Ok m'
  /\ forall x, read_byte m' x =
       if decide (259 <= x < 259 + 70)
       then read_byte (Mem {[140 := 7]} {[144]}) (131 + (x - 259))
       else read_byte (Mem {[140 := 7]} {[144]}) x.
Proof. apply (copy_ptr_args_correct 16 CMEMCPY 259 131); auto with lia. all: lia. Defined.
