(* ===== verification/TestStruct.v ===== *)
(** * TestStruct: the structure that the copy tests copy.

    The tests of the copy routines under [clang-hybrid/] and [libc/] declare the
    same [struct Test], a capability between two arrays of bytes, and copy it
    whole or in part.  This file says what such a structure holds, and what the
    copies leave of it. *)

From S2P Require Import Prelude CheriMem Memcpy.

Definition psize := 32.         (* sizeof(void * __capability) *)

(** ** [struct Test] *)

Definition pad0 (t : Z) : Z := t.
Definition y (t : Z) : Z := t + 32.
Definition pad1 (t : Z) : Z := t + 64.
Definition sizeof_Test := 96.

(** ** Places and contents *)

(** [a .. a+k) is addressable through the default data capability *)
Definition addressable (a k : Z) : Prop := 0 < a /\ a + k < 2 ^ 64.

(** The structure at [t] holds what [fill] writes, from [start] in [pad0] and
    up to [end_] in [pad1], with the valid capability [c] in [y]. *)
Record holds (t : Z) (c : cap) (start end_ : Z) (m : mem) : Prop := {
  h_pad0 : forall i, start <= i < 32 -> read_byte m (pad0 t + i) = i;
  h_y : read_bytes m (y t) 32 = cap_bytes c;
  h_tag : has_tag m (y t) = true;
  h_pad1 : forall i, 0 <= i < end_ -> read_byte m (pad1 t + i) = i;
}.

Definition placed (t : Z) : Prop := t mod 32 = 0 /\ addressable t 96.

Lemma holds_le t c s e s' e' m :
  s <= s' -> e' <= e -> holds t c s e m -> holds t c s' e' m.
Proof. intros Hs He [H0 Hy Ht H1]. split; try done; intros i Hi; [apply H0|apply H1]; lia. Qed.

(** the structure at [t] after the misaligned copy *)
Record shifted (t : Z) (m : mem) : Prop := {
  sh_tag : has_tag m (y t) = false;
  sh_pad0 : forall i, 0 <= i < 31 -> read_byte m (pad0 t + i) = i + 1;
  sh_pad1 : forall i, 0 <= i < 31 -> read_byte m (pad1 t + i) = i + 1;
}.

(** the effect of the [invalidate] functions: only the first byte is written *)
Definition invalidated (t : Z) (m m' : mem) : Prop :=
  (forall x, read_byte m' x = if decide (x = t) then 0xa5 else read_byte m x)
  /\ (forall g, has_tag m' g = if decide (g = t) then false else has_tag m g).

(** ** Results that are memories *)

Definition ensures (r : res mem) (Q : mem -> Prop) : Prop := exists m', r = Ok m' /\ Q m'.

Lemma ensures_bind r (k : mem -> res mem) P Q :
  ensures r P -> (forall m', P m' -> ensures (k m') Q) -> ensures (res_bind r k) Q.
Proof. intros (m' & -> & HP) Hk. by apply Hk. Qed.

Lemma ensures_Ok m (Q : mem -> Prop) r : r = Ok m -> Q m -> ensures r Q.
Proof. intros -> HQ. by exists m. Qed.

Lemma ensures_weaken r (P Q : mem -> Prop) :
  ensures r P -> (forall m', P m' -> Q m') -> ensures r Q.
Proof. intros (m' & Hr & HP) H. exists m'. auto. Qed.

Lemma psize_ok : psize = 8 \/ psize = 16 \/ psize = 32.
Proof. auto. Qed.

Lemma granule_aligned a : a mod 32 = 0 -> granule psize a = a.
Proof. unfold granule, psize. lia. Qed.

(** the loop of the [invalidate] functions, whose pointer stays where it is *)
Lemma invalidate_loop t (store : mem -> res mem) m : t mod 32 = 0 ->
  (forall m, store m = Ok (put_data psize m t [u8 0xa5])) ->
  ensures (for_up 0 sizeof_Test (fun _ m => store m) m) (invalidated t m).
Proof.
  intros Hal Hst. unfold invalidated, ensures.
  destruct (for_up_inv (fun i m' =>
      (forall x, read_byte m' x = if decide (x = t /\ 0 < i) then 0xa5 else read_byte m x)
      /\ (forall g, has_tag m' g = if decide (g = t /\ 0 < i) then false else has_tag m g))
      0 sizeof_Test (fun _ m => store m) m) as (m' & Hrun & Hb & Hg).
  - unfold sizeof_Test; lia.
  - split; intros; by rewrite decide_False by lia.
  - intros i m1 Hi [Hb Hg]. rewrite Hst. eexists; split; [done|]. split.
    + intros x. rewrite read_byte_put_data1, Hb. change (u8 165) with 165.
      repeat case_decide; tauto || lia.
    + intros g. unfold put_data. rewrite (has_tag_put_data psize psize_ok), (granule_aligned t Hal), Hg.
      repeat case_decide; tauto || lia.
  - exists m'. split; [done|]. unfold sizeof_Test in *.
    split; intros; [rewrite Hb | rewrite Hg]; apply if_decide_ext; intuition lia.
Qed.

(** ** The steps of a test that copies [t1] to [t2], with [c] in [t1.y] *)

Section steps.
Context (t1 t2 : Z) (Hp1 : placed t1) (Hp2 : placed t2).
Context (Hsep : t1 + 96 <= t2 \/ t2 + 96 <= t1).
Context (c : cap) (m0 : mem).

(** The source is intact and nothing outside the two structures has changed. *)
Record ready (m : mem) : Prop := {
  r_src : holds t1 c 0 32 m;
  r_out : forall x, ~ (t1 <= x < t1 + 96) -> ~ (t2 <= x < t2 + 96) ->
          read_byte m x = read_byte m0 x;
}.

(** Bytes and tags of the source are kept by whatever changes only the target. *)
Lemma ready_frame m m' :
  ready m ->
  (forall x, ~ (t2 <= x < t2 + 96) -> read_byte m' x = read_byte m x) ->
  has_tag m' (y t1) = has_tag m (y t1) -> ready m'.
Proof.
  intros [[H0 Hy Ht H1] Hout] Hb Htag. unfold pad0, pad1, y in *. split.
  - split; unfold pad0, pad1, y in *.
    + intros i Hi. rewrite Hb by lia. auto.
    + rewrite <- Hy. apply list_eq_same_length with (n := 32%nat); rewrite ?length_read_bytes; auto.
      intros i x z Hi. rewrite !lookup_read_bytes by done. rewrite Hb by lia. congruence.
    + congruence.
    + intros i Hi. rewrite Hb by lia. auto.
  - intros x Hx1 Hx2. rewrite Hb by done. auto.
Qed.

Lemma y_ne_placed : y t1 <> t2.
Proof. unfold y, placed in *. mlia. Qed.

Lemma invalidated_ready m m' : ready m -> invalidated t2 m m' -> ready m'.
Proof.
  intros Hm [Hb Hg]. pose proof y_ne_placed. destruct Hp2 as [_ Hp]. apply (ready_frame m); [done| |].
  - intros x Hx. rewrite Hb, decide_False by lia. done.
  - by rewrite Hg, decide_False.
Qed.

(** The copy of the [n] bytes from offset [k] on, equally aligned. *)
Lemma copied_ready k n m m' :
  0 <= k <= 32 -> 64 <= k + n <= 96 -> ready m ->
  copy_post psize (t2 + k) (t1 + k) n m m' ->
  ready m' /\ holds t2 c k (k + n - 64) m'.
Proof.
  intros Hk Hn Hm Hpost. unfold copy_post in Hpost.
  rewrite decide_False in Hpost by lia. destruct Hpost as [Hb Hg].
  unfold placed, addressable, psize in *.
  assert (Hr : ready m').
  { apply (ready_frame m); [done| |].
    - intros x Hx. rewrite Hb, decide_False by lia. done.
    - unfold y. rewrite Hg by mlia. rewrite decide_False by lia. done. }
  split; [done|]. destruct Hm as [[H0 Hy Ht H1] Hout]. unfold y, pad0, pad1 in *. split; unfold y, pad0, pad1.
  - intros i Hi. rewrite Hb, decide_True by lia.
    replace (t1 + k + (t2 + i - (t2 + k))) with (t1 + i) by lia. apply H0; lia.
  - rewrite <- Hy. apply list_eq_same_length with (n := 32%nat); rewrite ?length_read_bytes; auto.
    intros i x z Hi. rewrite !lookup_read_bytes by done. rewrite Hb, decide_True by lia.
    replace (t1 + k + (t2 + 32 + Z.of_nat i - (t2 + k))) with (t1 + 32 + Z.of_nat i) by lia. congruence.
  - rewrite Hg, decide_True by (lia || mlia).
    rewrite decide_True by (repeat split; try lia; mlia).
    by replace (t1 + k + (t2 + 32 - (t2 + k))) with (t1 + 32) by lia.
  - intros i Hi. rewrite Hb, decide_True by lia.
    replace (t1 + k + (t2 + 64 + i - (t2 + k))) with (t1 + 64 + i) by lia. apply H1; lia.
Qed.

(** The copy that moves everything down by one byte. *)
Lemma shifted_ready m m' :
  ready m -> copy_post psize t2 (t1 + 1) 95 m m' -> ready m' /\ shifted t2 m'.
Proof.
  intros Hm Hpost. unfold copy_post in Hpost.
  rewrite decide_False in Hpost by lia. destruct Hpost as [Hb Hg].
  unfold placed, addressable, psize in *. split.
  { apply (ready_frame m); [done| |].
    - intros x Hx. rewrite Hb, decide_False by lia. done.
    - unfold y. rewrite Hg by mlia. rewrite decide_False by lia. done. }
  destruct Hm as [[H0 Hy Ht H1] Hout]. unfold y, pad0, pad1 in *. split; unfold y, pad0, pad1.
  - rewrite Hg, decide_True by (lia || mlia). rewrite decide_False by mlia. done.
  - intros i Hi. rewrite Hb, decide_True by lia.
    replace (t1 + 1 + (t2 + i - t2)) with (t1 + (i + 1)) by lia. apply H0; lia.
  - intros i Hi. rewrite Hb, decide_True by lia.
    replace (t1 + 1 + (t2 + 64 + i - t2)) with (t1 + 64 + (i + 1)) by lia. apply H1; lia.
Qed.

End steps.
