(* ===== verification/HybridCopy.v ===== *)
(** * HybridCopy: the test programs of the copy routines.

    [clang_hybrid_bcopy.c], [clang_hybrid_memcpy.c] and [clang_hybrid_memmove.c]
    copy a [struct Test], which holds a capability between two arrays, under
    every combination of aligned and unaligned ends, and check what arrives.
    The structures are placed at given addresses of a 256-bit-capability
    memory; a trap or a failed assertion ends the run with an error, so a run
    that returns is one with [faults == 0]. *)

From S2P Require Import Prelude CheriMem Memcpy TestStruct.

(** ** Accesses through integer pointers (the default data capability) *)

Definition ld8 (m : mem) (a : Z) : res Z :=
  let* bs := load_data m (cheri_tocap a) 0 1 in Ok (be_value bs).

Definition st8 (a v : Z) (m : mem) : res mem :=
  store_data psize m (cheri_tocap a) 0 [u8 v].

Definition ldcap (m : mem) (a : Z) : res cap :=
  let* v := load_cap psize m (cheri_tocap a) 0 in Ok (cap_of_bytes v.1 v.2).

Definition stcap (a : Z) (c : cap) (m : mem) : res mem :=
  store_cap psize m (cheri_tocap a) 0 (cap_bytes c, c_tag c).

(** ** The functions of the tests *)

(** [check(t, start, end)] *)
Definition check (t start end_ : Z) (m : mem) : res mem :=
  let* m := for_up start 32 (fun i m =>
    let* b := ld8 m (pad0 t + i) in let* _ := c_assert (b =? i) in Ok m) m in
  let* c := ldcap m (y t) in
  let* _ := c_assert (cheri_fromcap c =? t) in
  let* _ := c_assert (c_tag c) in
  for_up 0 end_ (fun i m =>
    let* b := ld8 m (pad1 t + i) in let* _ := c_assert (b =? i) in Ok m) m.

(** [invalidate(t1)]: the pointer [x] is not advanced by the loop *)
Definition invalidate (t1 : Z) (m : mem) : res mem :=
  let x := t1 in
  for_up 0 sizeof_Test (fun _ m => st8 x 0xa5 m) m.

(** the two loops that fill [t1], and [t1.y = TO_CAP(&t2)] *)
Definition fill (t1 t2 : Z) (m : mem) : res mem :=
  let* m := for_up 0 32 (fun i m =>
    let* m := st8 (pad0 t1 + i) i m in st8 (pad1 t1 + i) i m) m in
  stcap (y t1) (cheri_tocap t2) m.

(** the capability at [t.y] is no longer valid, and the data moved by one *)
Definition check_shifted (t : Z) (m : mem) : res mem :=
  let* c := ldcap m (y t) in
  let* _ := c_assert (negb (c_tag c)) in
  for_up 0 31 (fun i m =>
    let* b := ld8 m (pad0 t + i) in let* _ := c_assert (b =? i + 1) in
    let* b := ld8 m (pad1 t + i) in let* _ := c_assert (b =? i + 1) in Ok m) m.

(** ** bcopy(src, dst, length) *)

Definition bcopy (src dst length : Z) (m : mem) : res mem :=
  copy_ptr_args psize BCOPY dst src length m.

(** the first half copies [t1] to [t2], the second [t2] to [t1] *)
Definition bcopy_rounds (t1 t2 : Z) (m : mem) : res mem :=
  let* m := bcopy t1 t2 sizeof_Test m in
  let* m := check t2 0 32 m in
  let* m := invalidate t2 m in
  let* m := bcopy (pad0 t1 + 3) (pad0 t2 + 3) (sizeof_Test - 3) m in
  let* m := check t2 3 32 m in
  let* m := bcopy t1 t2 (sizeof_Test - 3) m in
  let* m := check t2 0 29 m in
  let* m := bcopy (pad0 t1 + 3) (pad0 t2 + 3) (sizeof_Test - 6) m in
  let* m := check t2 3 29 m in
  let* m := invalidate t2 m in
  let* m := bcopy (pad0 t1 + 1) t2 (sizeof_Test - 1) m in
  check_shifted t2 m.

Definition clang_hybrid_bcopy (t1 t2 : Z) (m : mem) : res mem :=
  let* m := invalidate t2 m in
  let* m := fill t1 t2 m in
  let* m := bcopy_rounds t1 t2 m in
  let* m := bcopy t1 t2 sizeof_Test m in
  let* m := stcap (y t2) (cheri_tocap t1) m in
  let* m := invalidate t1 m in
  bcopy_rounds t2 t1 m.

(** ** cmemmove(dst, src, length) *)

Definition cmemmove (dst src length : Z) (m : mem) : res mem :=
  copy_ptr_args psize CMEMMOVE dst src length m.

Definition memmove_rounds (t1 t2 : Z) (m : mem) : res mem :=
  let* m := cmemmove t2 t1 sizeof_Test m in
  let* m := check t2 0 32 m in
  let* m := invalidate t2 m in
  let* m := cmemmove (pad0 t2 + 3) (pad0 t1 + 3) (sizeof_Test - 3) m in
  let* m := check t2 3 32 m in
  let* m := cmemmove t2 t1 (sizeof_Test - 3) m in
  let* m := check t2 0 29 m in
  let* m := cmemmove (pad0 t2 + 3) (pad0 t1 + 3) (sizeof_Test - 6) m in
  check t2 3 29 m.

Definition memmove_misaligned (t1 t2 : Z) (m : mem) : res mem :=
  let* m := cmemmove t2 (pad0 t1 + 1) (sizeof_Test - 1) m in
  check_shifted t2 m.

Definition clang_hybrid_memmove (t1 t2 : Z) (m : mem) : res mem :=
  let* m := invalidate t2 m in
  let* m := fill t1 t2 m in
  let* m := memmove_rounds t1 t2 m in
  let* m := invalidate t2 m in
  let* m := memmove_misaligned t1 t2 m in
  let* m := cmemmove t2 t1 sizeof_Test m in
  let* m := stcap (y t2) (cheri_tocap t1) m in
  let* m := invalidate t1 m in
  let* m := memmove_rounds t2 t1 m in
  (* special case noticed in pkg executable *)
  let* m := cmemmove (pad0 t1 + 12) (pad0 t2 + 12) (sizeof_Test - 16) m in
  let* m := check t1 12 12 m in
  memmove_misaligned t2 t1 m.

(** ** cmemcpy_c(dst, src, length) and cmemcpy(dst, src, length) *)

(** [cpy = cmemcpy_c(dst, src, n); assert((__cheri_fromcap void* )cpy == p)] *)
Definition cmemcpy_c_to (dst src : cap) (n p : Z) (m : mem) : res mem :=
  let* m := copy_c psize CMEMCPY_C dst src n m in
  let cpy := dst in
  let* _ := c_assert (cheri_fromcap cpy =? p) in Ok m.

(** [copy = cmemcpy(dst, src, n); assert(copy == dst)] *)
Definition cmemcpy_to (dst src n : Z) (m : mem) : res mem :=
  let* m := copy_ptr_args psize CMEMCPY dst src n m in
  let copy := dst in
  let* _ := c_assert (copy =? dst) in Ok m.

Definition TO_CAP := cheri_tocap.

Definition memcpy_c_rounds (t1 t2 : Z) (m : mem) : res mem :=
  let* c := ldcap m (y t1) in
  let* m := cmemcpy_c_to c (TO_CAP t1) sizeof_Test t2 m in
  let* m := check t2 0 32 m in
  let* m := invalidate t2 m in
  let* m := cmemcpy_c_to (TO_CAP (pad0 t2 + 3)) (TO_CAP (pad0 t1 + 3)) (sizeof_Test - 3) (pad0 t2 + 3) m in
  let* m := check t2 3 32 m in
  let* m := cmemcpy_c_to (TO_CAP t2) (TO_CAP t1) (sizeof_Test - 3) t2 m in
  let* m := check t2 0 29 m in
  let* m := cmemcpy_c_to (TO_CAP (pad0 t2 + 3)) (TO_CAP (pad0 t1 + 3)) (sizeof_Test - 6) (pad0 t2 + 3) m in
  let* m := check t2 3 29 m in
  let* m := invalidate t2 m in
  let* m := cmemcpy_c_to (TO_CAP t2) (TO_CAP (pad0 t1 + 1)) (sizeof_Test - 1) t2 m in
  check_shifted t2 m.

Definition memcpy_rounds (t1 t2 : Z) (m : mem) : res mem :=
  let* m := cmemcpy_to t2 t1 sizeof_Test m in
  let* m := check t2 0 32 m in
  let* m := invalidate t2 m in
  let* m := cmemcpy_to (pad0 t2 + 3) (pad0 t1 + 3) (sizeof_Test - 3) m in
  let* m := check t2 3 32 m in
  let* m := cmemcpy_to t2 t1 (sizeof_Test - 3) m in
  let* m := check t2 0 29 m in
  let* m := cmemcpy_to (pad0 t2 + 3) (pad0 t1 + 3) (sizeof_Test - 6) m in
  let* m := check t2 3 29 m in
  let* m := invalidate t2 m in
  let* m := cmemcpy_to t2 (pad0 t1 + 1) (sizeof_Test - 1) m in
  check_shifted t2 m.

(** the regression tests for offsets in the arguments of cmemcpy_c *)
Definition memcpy_c_offsets (t1 t2 : Z) (m : mem) : res mem :=
  let* m := invalidate t2 m in
  let* d := cheri_offset_increment (TO_CAP t2) 3 in
  let* s := cheri_offset_increment (TO_CAP t1) 3 in
  let* m := cmemcpy_c_to d s (sizeof_Test - 6) (pad0 t2 + 3) m in
  let* m := invalidate t2 m in
  let* d := cheri_offset_increment (TO_CAP (pad0 t2 - 1)) 1 in
  let* s := cheri_offset_increment (TO_CAP (pad0 t1 - 1)) 1 in
  let* m := cmemcpy_c_to d s sizeof_Test (pad0 t2) m in
  check t2 0 32 m.

Definition clang_hybrid_memcpy (t1 t2 : Z) (m : mem) : res mem :=
  let* m := invalidate t2 m in
  let* m := fill t1 t2 m in
  let* m := invalidate t2 m in
  let* m := memcpy_c_rounds t1 t2 m in
  let* m := invalidate t2 m in
  let* m := memcpy_rounds t1 t2 m in
  memcpy_c_offsets t1 t2 m.

Definition mem0 : mem := Mem ∅ ∅.


(** ** Accesses *)

Lemma tocap_access a k perm :
  addressable a k -> 0 <= k -> a mod k = 0 -> has_perm PERMS_ALL perm = true ->
  at_off (cheri_tocap a) 0 = a /\ access_ok (cheri_tocap a) perm a k = true.
Proof.
  intros [Ha Hk] Hk0 Hal Hp. unfold cheri_tocap. rewrite wrap_small by lia.
  rewrite (proj2 (Z.eqb_neq _ _)) by lia.
  unfold at_off, c_addr, access_ok, c_top; simpl.
  repeat (rewrite ?Z.add_0_l, ?Z.add_0_r, (wrap_small 64 a) by lia). split; [done|].
  rewrite Hp, Hal. rewrite !(proj2 (Z.leb_le _ _)) by lia. done.
Qed.

Lemma tocap_perms a : addressable a 1 -> c_perms (cheri_tocap a) = PERMS_ALL.
Proof.
  intros [Ha Hk]. unfold cheri_tocap. rewrite wrap_small by lia.
  by rewrite (proj2 (Z.eqb_neq _ _)) by lia.
Qed.

Lemma ld8_ok m a : addressable a 1 -> ld8 m a = Ok (read_byte m a).
Proof.
  intros Ha.
  destruct (tocap_access a 1 PERMIT_LOAD Ha ltac:(lia) (Z.mod_1_r a) eq_refl) as [H1 H2].
  unfold ld8, load_data. by rewrite H1, H2.
Qed.

Lemma st8_ok m a v : addressable a 1 -> st8 a v m = Ok (put_data psize m a [u8 v]).
Proof.
  intros Ha.
  destruct (tocap_access a 1 PERMIT_STORE Ha ltac:(lia) (Z.mod_1_r a) eq_refl) as [H1 H2].
  unfold st8, store_data. rewrite H1. simpl length. change (Z.of_nat 1) with 1. by rewrite H2.
Qed.

Lemma ldcap_ok m a : addressable a 32 -> a mod 32 = 0 ->
  ldcap m a = Ok (cap_of_bytes (read_bytes m a 32) (has_tag m a)).
Proof.
  intros Ha Hal.
  destruct (tocap_access a 32 PERMIT_LOAD Ha ltac:(lia) Hal eq_refl) as [H1 H2].
  unfold ldcap, load_cap. rewrite H1. change psize with 32. rewrite H2, tocap_perms; [done|].
  unfold addressable in *; lia.
Qed.

Lemma stcap_ok m a c : addressable a 32 -> a mod 32 = 0 ->
  stcap a c m = Ok (put_cap m a (cap_bytes c) (c_tag c)).
Proof.
  intros Ha Hal.
  destruct (tocap_access a 32 PERMIT_STORE Ha ltac:(lia) Hal eq_refl) as [H1 H2].
  unfold stcap, store_cap. rewrite H1. change psize with 32. rewrite H2, tocap_perms; [done|].
  unfold addressable in *; lia.
Qed.

Lemma tocap_wf a : cap_wf (cheri_tocap a).
Proof.
  unfold cheri_tocap. case_match.
  - split; simpl; lia.
  - split; simpl; unfold PERMS_ALL; try lia. by apply wrap_range.
Qed.

Lemma tocap_from a : 0 < a < 2 ^ 64 ->
  c_tag (cheri_tocap a) = true /\ cheri_fromcap (cheri_tocap a) = a /\ c_addr (cheri_tocap a) = a.
Proof.
  intros Ha. unfold cheri_tocap, cheri_fromcap. rewrite wrap_small by lia.
  rewrite (proj2 (Z.eqb_neq _ _)) by lia. unfold c_addr; simpl.
  by rewrite !Z.add_0_l, !(wrap_small 64 a) by lia.
Qed.

(** a loop of assertions on bytes *)
Lemma for_up_assert (f : Z -> Z) base lo hi m :
  lo <= hi ->
  (forall i, lo <= i < hi -> addressable (base + i) 1 /\ read_byte m (base + i) = f i) ->
  for_up lo hi (fun i m =>
    let* b := ld8 m (base + i) in let* _ := c_assert (b =? f i) in Ok m) m = Ok m.
Proof.
  intros Hle H.
  destruct (for_up_inv (fun _ m' => m' = m) lo hi (fun i m =>
    let* b := ld8 m (base + i) in let* _ := c_assert (b =? f i) in Ok m) m)
    as (m' & -> & ->); auto.
  intros i m' Hi ->. destruct (H i Hi) as [Ha Hb].
  exists m. rewrite ld8_ok by done. simpl. by rewrite Hb, Z.eqb_refl.
Qed.

Lemma check_ok t start end_ m :
  placed t -> 0 <= start <= 32 -> 0 <= end_ <= 32 ->
  holds t (cheri_tocap t) start end_ m -> check t start end_ m = Ok m.
Proof.
  unfold placed, addressable. intros [Hal Hp] Hs He [H0 Hy Ht H1]. unfold check, pad0, y, pad1 in *.
  rewrite (for_up_assert (fun i => i) t).
  2: { lia. }
  2: { intros i Hi. unfold addressable. split; [lia | apply H0; lia]. }
  cbn [res_bind]. rewrite ldcap_ok.
  2: { unfold addressable; lia. }
  2: { mlia. }
  cbn [res_bind]. rewrite Hy, Ht. destruct (tocap_from t) as (Htag & Hfrom & _); [lia|].
  rewrite <- Htag, cap_of_bytes_of_cap by apply tocap_wf.
  rewrite Hfrom, Z.eqb_refl, Htag. simpl.
  apply (for_up_assert (fun i => i) (t + 64)); [lia|].
  intros i Hi. unfold addressable. split; [lia | apply H1; lia].
Qed.

Lemma check_shifted_ok t m : placed t -> shifted t m -> check_shifted t m = Ok m.
Proof.
  unfold placed, addressable. intros [Hal Hp] [Ht H0 H1]. unfold check_shifted.
  rewrite ldcap_ok.
  2: { unfold addressable, y; lia. }
  2: { unfold y; mlia. }
  cbn [res_bind]. rewrite Ht. cbn [c_tag cap_of_bytes negb c_assert res_bind].
  match goal with |- for_up _ _ ?body _ = _ =>
    destruct (for_up_inv (fun _ m' => m' = m) 0 31 body m) as (m' & -> & ->) end; auto; [lia|].
  intros i m' Hi ->. exists m. rewrite !ld8_ok by (unfold addressable, pad0, pad1; lia).
  simpl. by rewrite H0, H1, !Z.eqb_refl by lia.
Qed.

(** ** The steps of the tests *)

Lemma invalidate_ok t m : placed t -> ensures (invalidate t m) (invalidated t m).
Proof.
  unfold placed, addressable. intros [Hal Hp]. apply (invalidate_loop t (st8 t 0xa5) m Hal). intros m1.
  apply st8_ok. unfold addressable. lia.
Qed.

Section steps.
Context (t1 t2 : Z) (Hp1 : placed t1) (Hp2 : placed t2).
Context (Hsep : t1 + 96 <= t2 \/ t2 + 96 <= t1).
Context (m0 : mem).

Local Abbreviation rdy := (ready t1 t2 (cheri_tocap t2) m0).

Lemma invalidate_ready c m : ready t1 t2 c m0 m -> ensures (invalidate t2 m) (ready t1 t2 c m0).
Proof.
  intros Hm. eapply ensures_weaken; [by apply invalidate_ok|]. intros m' Hi.
  by apply (invalidated_ready t1 t2 Hp2 Hsep c m0 m).
Qed.

Lemma check_ready start end_ m :
  0 <= start <= 32 -> 0 <= end_ <= 32 ->
  rdy m /\ holds t2 (cheri_tocap t2) start end_ m -> ensures (check t2 start end_ m) rdy.
Proof. intros Hs He [Hr Hh]. eapply ensures_Ok; [by apply check_ok | done]. Qed.

Lemma check_shifted_ready m :
  rdy m /\ shifted t2 m -> ensures (check_shifted t2 m) rdy.
Proof. intros [Hr Hh]. eapply ensures_Ok; [by apply check_shifted_ok | done]. Qed.

Lemma ptr_round r k n d s m :
  d = t2 + k -> s = t1 + k -> 0 <= k <= 32 -> 64 <= k + n <= 96 -> rdy m ->
  ensures (copy_ptr_args psize r d s n m)
    (fun m' => rdy m' /\ holds t2 (cheri_tocap t2) k (k + n - 64) m').
Proof.
  intros -> -> Hk Hn Hm. unfold placed, addressable in *.
  destruct (copy_ptr_args_ok psize r (t2 + k) (t1 + k) n m) as (m' & -> & Hpost); try lia.
  { unfold psize; lia. }
  exists m'. split; [done|]. by apply (copied_ready t1 t2 Hp1 Hp2 Hsep _ m0 k n m).
Qed.

Lemma ptr_shift r s m : s = t1 + 1 -> rdy m ->
  ensures (copy_ptr_args psize r t2 s (sizeof_Test - 1) m)
    (fun m' => rdy m' /\ shifted t2 m').
Proof.
  intros -> Hm. unfold placed, addressable, sizeof_Test in *.
  destruct (copy_ptr_args_ok psize r t2 (t1 + 1) 95 m) as (m' & Hrun & Hpost); try lia.
  { unfold psize; lia. }
  exists m'. split; [done|]. by apply (shifted_ready t1 t2 Hp1 Hp2 Hsep _ m0 m).
Qed.

End steps.

(** ready for the copy whose source points at its target *)
Local Abbreviation hready t1 t2 := (ready t1 t2 (cheri_tocap t2)).

(** ** Setting a structure up *)

Lemma stcap_ensures t v m :
  placed t -> 0 < v < 2 ^ 64 ->
  ensures (stcap (y t) (cheri_tocap v) m) (fun m' =>
    read_bytes m' (y t) 32 = cap_bytes (cheri_tocap v) /\ has_tag m' (y t) = true
    /\ forall x, x < y t \/ y t + 32 <= x -> read_byte m' x = read_byte m x).
Proof.
  unfold placed, addressable. intros [Hal Hp] Hv.
  rewrite stcap_ok; unfold y, addressable; [|lia|mlia].
  eexists; split; [done|]. unfold put_cap. repeat split.
  - rewrite <- (cap_bytes_length (cheri_tocap v)) at 1. apply read_bytes_put.
  - rewrite (proj1 (tocap_from v Hv)). unfold has_tag; simpl.
    apply bool_decide_eq_true, elem_of_union_l. by apply elem_of_singleton.
  - intros x Hx. apply read_byte_put_out. by rewrite cap_bytes_length.
Qed.

Lemma fill_ok t1 t2 m :
  placed t1 -> 0 < t2 < 2 ^ 64 -> ensures (fill t1 t2 m) (fun m' =>
    holds t1 (cheri_tocap t2) 0 32 m' /\ forall x, ~ (t1 <= x < t1 + 96) -> read_byte m' x = read_byte m x).
Proof.
  intros Hpl Ht2. pose proof Hpl as [Hal Hp]. unfold addressable in Hp. unfold fill.
  eapply ensures_bind with (P := fun m' =>
    (forall i, 0 <= i < 32 -> read_byte m' (pad0 t1 + i) = i /\ read_byte m' (pad1 t1 + i) = i)
    /\ forall x, ~ (t1 <= x < t1 + 96) -> read_byte m' x = read_byte m x).
  - apply (for_up_inv (fun j m' =>
      (forall i, 0 <= i < j -> read_byte m' (pad0 t1 + i) = i /\ read_byte m' (pad1 t1 + i) = i)
      /\ forall x, ~ (t1 <= x < t1 + 96) -> read_byte m' x = read_byte m x)).
    + lia.
    + split; [lia|done].
    + intros j m1 Hj [H1 H2]. unfold pad0, pad1 in *.
      rewrite st8_ok by (unfold addressable; lia). cbn [res_bind].
      rewrite st8_ok by (unfold addressable; lia).
      eexists; split; [done|].
      split; [intros i Hi|intros x Hx]; rewrite !read_byte_put_data1, !(wrap_small 8 j) by lia;
        repeat case_decide; try lia; try (split; lia).
      * apply H1; lia.
      * by apply H2.
  - intros m1 [H1 H2].
    eapply ensures_weaken; [by apply stcap_ensures|].
    intros m' (Hy & Ht & Hb). split; [split|]; unfold pad0, pad1, y in *; try done.
    + intros i Hi. rewrite Hb by lia. by apply H1.
    + intros i Hi. rewrite Hb by lia. by apply H1.
    + intros x Hx. rewrite Hb by lia. by apply H2.
Qed.

(** the copy becomes the source of the way back *)
Lemma set_y_ok t1 t2 m :
  placed t1 -> 0 < t2 < 2 ^ 64 -> holds t1 (cheri_tocap t1) 0 32 m ->
  ensures (stcap (y t1) (cheri_tocap t2) m) (fun m' =>
    holds t1 (cheri_tocap t2) 0 32 m' /\ forall x, ~ (t1 <= x < t1 + 96) -> read_byte m' x = read_byte m x).
Proof.
  intros Hp Ht2 [H0 Hy Ht H1]. eapply ensures_weaken; [by apply stcap_ensures|].
  intros m' (Hy' & Ht' & Hb). split; [split|]; unfold pad0, pad1, y in *; try done.
  - intros i Hi. rewrite Hb by lia. by apply H0.
  - intros i Hi. rewrite Hb by lia. by apply H1.
  - intros x Hx. by rewrite Hb by lia.
Qed.

(** One step of a test: run the first statement and keep what it ensures. *)
Ltac side := first [done | cbv [pad0 sizeof_Test]; lia].
Ltac next tac := eapply ensures_bind; [tac | intros ? ?; cbv beta in *].
Ltac round ofs :=
  next ltac:(idtac; lazymatch goal with
    | H : ready ?ts ?td _ ?mi ?mm |- ensures (copy_ptr_args _ ?r ?d ?s ?n _) _ =>
        eapply (ptr_round ts td) with (m0 := mi) (k := ofs); side
    end).
Ltac invalid := next ltac:(eapply invalidate_ready; eassumption).
Ltac checks :=
  next ltac:(idtac; lazymatch goal with
    | H : ready ?ts ?td _ ?mi ?mm /\ _ |- ensures (check _ _ _ _) _ =>
        eapply (check_ready ts td) with (m0 := mi); side
    end).

(** the structures are apart *)
Definition apart (t1 t2 : Z) : Prop := t1 + 96 <= t2 \/ t2 + 96 <= t1.

(** memory outside the two structures *)
Definition same_outside (t1 t2 : Z) (m m' : mem) : Prop :=
  forall x, ~ (t1 <= x < t1 + 96) -> ~ (t2 <= x < t2 + 96) -> read_byte m' x = read_byte m x.

Lemma setup_ok t1 t2 m0 (k : mem -> res mem) Q :
  placed t1 -> placed t2 -> apart t1 t2 ->
  (forall m, hready t1 t2 m0 m -> ensures (k m) Q) ->
  ensures (let* m := invalidate t2 m0 in let* m := fill t1 t2 m in k m) Q.
Proof.
  intros Hp1 Hp2 Hsep Hk. next ltac:(by apply invalidate_ok).
  destruct H as [Hb Hg].
  next ltac:(apply fill_ok; [done|destruct Hp2 as [? []]; lia]).
  destruct H as [Hh Ho]. apply Hk. split; [done|].
  intros x Hx1 Hx2. rewrite Ho, Hb by done. destruct Hp2 as [_ []]. by rewrite decide_False by lia.
Qed.

(** turning round: the whole copy at [t2] is the source of the way back *)
Lemma turn_ok t1 t2 m0 m (k : mem -> res mem) Q :
  placed t1 -> placed t2 -> hready t1 t2 m0 m /\ holds t2 (cheri_tocap t2) 0 32 m ->
  (forall m, hready t2 t1 m0 m -> ensures (k m) Q) ->
  ensures (let* m := stcap (y t2) (cheri_tocap t1) m in k m) Q.
Proof.
  intros Hp1 Hp2 [[Hsrc Hout] Hh] Hk.
  next ltac:(apply set_y_ok; [done|destruct Hp1 as [? []]; lia|done]).
  destruct H as [Hh' Ho]. apply Hk. split; [done|].
  intros x Hx2 Hx1. rewrite Ho by done. by apply Hout.
Qed.

Lemma ready_same t1 t2 m0 m : hready t1 t2 m0 m -> same_outside t1 t2 m0 m.
Proof. by intros []. Qed.

Lemma bcopy_rounds_ok t1 t2 m0 m :
  placed t1 -> placed t2 -> apart t1 t2 ->
  hready t1 t2 m0 m -> ensures (bcopy_rounds t1 t2 m) (hready t1 t2 m0).
Proof.
  intros Hp1 Hp2 Hsep Hm. unfold bcopy_rounds, bcopy.
  round 0. checks. invalid. round 3. checks. round 0. checks. round 3. checks. invalid.
  next ltac:(eapply (ptr_shift t1 t2); try eassumption; reflexivity).
  by apply check_shifted_ready.
Qed.

Lemma memmove_rounds_ok t1 t2 m0 m :
  placed t1 -> placed t2 -> apart t1 t2 ->
  hready t1 t2 m0 m -> ensures (memmove_rounds t1 t2 m) (hready t1 t2 m0).
Proof.
  intros Hp1 Hp2 Hsep Hm. unfold memmove_rounds, cmemmove.
  round 0. checks. invalid. round 3. checks. round 0. checks. round 3.
  apply check_ready; [side..|done].
Qed.

Lemma memmove_misaligned_ok t1 t2 m0 m :
  placed t1 -> placed t2 -> apart t1 t2 ->
  hready t1 t2 m0 m -> ensures (memmove_misaligned t1 t2 m) (hready t1 t2 m0).
Proof.
  intros Hp1 Hp2 Hsep Hm. unfold memmove_misaligned, cmemmove.
  next ltac:(eapply (ptr_shift t1 t2); try eassumption; reflexivity).
  by apply check_shifted_ready.
Qed.

(** ** The tests pass *)

(** [clang_hybrid_bcopy] passes: for all placements of the two structures
    (aligned for capabilities, not overlapping, inside the address space) and
    every initial memory, no call traps and every assertion of both
    directions holds; nothing outside the structures is changed. *)
Lemma clang_hybrid_bcopy_passes t1 t2 m :
  placed t1 -> placed t2 -> apart t1 t2 ->
  exists m', clang_hybrid_bcopy t1 t2 m = Ok m' /\ same_outside t1 t2 m m'.
Proof.
  intros Hp1 Hp2 Hsep. unfold clang_hybrid_bcopy.
  apply setup_ok; [done..|]. intros m1 H1.
  next ltac:(by apply bcopy_rounds_ok). unfold bcopy. round 0.
  apply turn_ok with (m0 := m); [done..|]. intros m4 H4.
  assert (apart t2 t1) by (unfold apart in *; tauto).
  invalid. eapply ensures_weaken; [by apply bcopy_rounds_ok|].
  intros m6 H6 x Hx1 Hx2. by apply (ready_same t2 t1).
Qed.

(** [clang_hybrid_memmove] passes, for all placements and every memory. *)
Lemma clang_hybrid_memmove_passes t1 t2 m :
  placed t1 -> placed t2 -> apart t1 t2 ->
  exists m', clang_hybrid_memmove t1 t2 m = Ok m' /\ same_outside t1 t2 m m'.
Proof.
  intros Hp1 Hp2 Hsep. unfold clang_hybrid_memmove.
  apply setup_ok; [done..|]. intros m1 H1.
  next ltac:(by apply memmove_rounds_ok). invalid.
  next ltac:(by apply memmove_misaligned_ok). unfold cmemmove. round 0.
  apply turn_ok with (m0 := m); [done..|]. intros m6 H6.
  assert (apart t2 t1) by (unfold apart in *; tauto).
  invalid. next ltac:(by apply memmove_rounds_ok). round 12.
  match goal with H : ready _ _ _ _ _ /\ _ |- _ => destruct H as [Hr Hh] end.
  next ltac:(apply (check_ready t2 t1) with (m0 := m); [side..|]; split; [done|]).
  { eapply holds_le; [| |apply Hh]; unfold sizeof_Test; lia. }
  eapply ensures_weaken; [by apply memmove_misaligned_ok|].
  intros m9 H9 x Hx1 Hx2. by apply (ready_same t2 t1).
Qed.

(** ** The capability arguments of cmemcpy_c *)

Lemma ddc_region a p n : 0 <= a < 2 ^ 64 -> a <= p -> p + n < 2 ^ 64 -> region_ok (with_off ddc a) p n.
Proof. intros Ha Hp Hn. split; try done; unfold c_top; simpl; lia. Qed.

Lemma tocap_pos a : 0 < a < 2 ^ 64 -> cheri_tocap a = with_off ddc a.
Proof.
  intros Ha. unfold cheri_tocap. rewrite wrap_small by lia.
  by rewrite (proj2 (Z.eqb_neq _ _)) by lia.
Qed.

Lemma addr_ddc a : 0 <= a < 2 ^ 64 -> c_addr (with_off ddc a) = a.
Proof. intros Ha. unfold c_addr; simpl. by rewrite !Z.add_0_l, !(wrap_small 64 a) by lia. Qed.

Lemma cap_copy d s n m :
  0 < d -> 0 < s -> 0 <= n -> d + n < 2 ^ 64 -> s + n < 2 ^ 64 -> d + n <= s \/ s + n <= d ->
  ensures (cmemcpy_c_to (TO_CAP d) (TO_CAP s) n d m) (copy_post psize d s n m).
Proof.
  intros Hd Hs Hn Hdw Hsw Hsep. unfold cmemcpy_c_to, TO_CAP. rewrite !tocap_pos by lia.
  destruct (copy_c_ok psize CMEMCPY_C (with_off ddc d) (with_off ddc s) n m)
    as (m' & -> & Hpost); rewrite ?addr_ddc by lia; try (apply ddc_region; lia); try lia.
  { unfold psize; lia. }
  rewrite !addr_ddc in Hpost by lia. cbn [res_bind]. unfold cheri_fromcap.
  rewrite addr_ddc by lia. simpl. rewrite Z.eqb_refl. by exists m'.
Qed.

Section cap_steps.
Context (t1 t2 : Z) (Hp1 : placed t1) (Hp2 : placed t2) (Hsep : apart t1 t2) (m0 : mem).

Lemma cap_round k n d s m :
  d = t2 + k -> s = t1 + k -> 0 <= k <= 32 -> 64 <= k + n <= 96 -> hready t1 t2 m0 m ->
  ensures (cmemcpy_c_to (TO_CAP d) (TO_CAP s) n d m)
    (fun m' => hready t1 t2 m0 m' /\ holds t2 (cheri_tocap t2) k (k + n - 64) m').
Proof.
  intros -> -> Hk Hn Hm. unfold placed, addressable, apart in *.
  eapply ensures_weaken; [apply cap_copy; lia|].
  intros m' Hpost. by apply (copied_ready t1 t2 Hp1 Hp2 Hsep _ m0 k n m).
Qed.

Lemma cap_shift m : hready t1 t2 m0 m ->
  ensures (cmemcpy_c_to (TO_CAP t2) (TO_CAP (pad0 t1 + 1)) (sizeof_Test - 1) t2 m)
    (fun m' => hready t1 t2 m0 m' /\ shifted t2 m').
Proof.
  intros Hm. unfold placed, addressable, apart, pad0, sizeof_Test in *.
  eapply ensures_weaken; [apply cap_copy; lia|].
  intros m' Hpost. by apply (shifted_ready t1 t2 Hp1 Hp2 Hsep _ m0 m).
Qed.

(** the first call copies through the capability loaded from [t1.y] *)
Lemma load_y_ok m : hready t1 t2 m0 m -> ldcap m (y t1) = Ok (TO_CAP t2).
Proof.
  intros [[_ Hy Ht _] _]. unfold placed, addressable in *.
  rewrite ldcap_ok by (unfold addressable, y; mlia). rewrite Hy, Ht. f_equal.
  rewrite <- (proj1 (tocap_from t2 ltac:(lia))). apply cap_of_bytes_of_cap, tocap_wf.
Qed.

Lemma ptr_to_round k n d s m :
  d = t2 + k -> s = t1 + k -> 0 <= k <= 32 -> 64 <= k + n <= 96 -> hready t1 t2 m0 m ->
  ensures (cmemcpy_to d s n m) (fun m' => hready t1 t2 m0 m' /\ holds t2 (cheri_tocap t2) k (k + n - 64) m').
Proof.
  intros Hd Hs Hk Hn Hm. unfold cmemcpy_to. rewrite Z.eqb_refl. simpl.
  eapply ensures_bind; [by apply (ptr_round t1 t2 Hp1 Hp2 Hsep m0)|].
  intros m' H. by exists m'.
Qed.

Lemma ptr_to_shift m : hready t1 t2 m0 m ->
  ensures (cmemcpy_to t2 (pad0 t1 + 1) (sizeof_Test - 1) m)
    (fun m' => hready t1 t2 m0 m' /\ shifted t2 m').
Proof.
  intros Hm. unfold cmemcpy_to. rewrite Z.eqb_refl. simpl.
  eapply ensures_bind; [by apply (ptr_shift t1 t2 Hp1 Hp2 Hsep m0)|].
  intros m' H. by exists m'.
Qed.

(** incrementing a capability is deriving one for the incremented address *)
Lemma incr_tocap a i : 0 < a < 2 ^ 64 -> 0 < a + i < 2 ^ 64 ->
  cheri_offset_increment (TO_CAP a) i = Ok (TO_CAP (a + i)).
Proof.
  intros Ha Hi. unfold TO_CAP. rewrite !tocap_pos by lia.
  rewrite offset_increment_usable by done. unfold with_off; simpl.
  by rewrite wrap_add_l.
Qed.
End cap_steps.

Ltac cround ofs :=
  next ltac:(idtac; lazymatch goal with
    | H : ready ?ts ?td _ ?mi ?mm |- _ =>
        eapply (cap_round ts td) with (m0 := mi) (k := ofs); side
    end).
Ltac pround ofs :=
  next ltac:(idtac; lazymatch goal with
    | H : ready ?ts ?td _ ?mi ?mm |- _ =>
        eapply (ptr_to_round ts td) with (m0 := mi) (k := ofs); side
    end).

Lemma memcpy_c_rounds_ok t1 t2 m0 m :
  placed t1 -> placed t2 -> apart t1 t2 ->
  hready t1 t2 m0 m -> ensures (memcpy_c_rounds t1 t2 m) (hready t1 t2 m0).
Proof.
  intros Hp1 Hp2 Hsep Hm. unfold memcpy_c_rounds.
  rewrite (load_y_ok t1 t2 Hp1 Hp2 m0) by done. cbn [res_bind].
  cround 0. checks. invalid. cround 3. checks. cround 0. checks. cround 3. checks. invalid.
  next ltac:(by apply cap_shift). by apply check_shifted_ready.
Qed.

Lemma memcpy_rounds_ok t1 t2 m0 m :
  placed t1 -> placed t2 -> apart t1 t2 ->
  hready t1 t2 m0 m -> ensures (memcpy_rounds t1 t2 m) (hready t1 t2 m0).
Proof.
  intros Hp1 Hp2 Hsep Hm. unfold memcpy_rounds.
  pround 0. checks. invalid. pround 3. checks. pround 0. checks. pround 3. checks. invalid.
  next ltac:(by apply ptr_to_shift). by apply check_shifted_ready.
Qed.

Lemma memcpy_c_offsets_ok t1 t2 m0 m :
  placed t1 -> placed t2 -> apart t1 t2 ->
  hready t1 t2 m0 m -> ensures (memcpy_c_offsets t1 t2 m) (hready t1 t2 m0).
Proof.
  intros Hp1 Hp2 Hsep Hm. unfold memcpy_c_offsets.
  assert (Hlo : 32 <= t1 < 2 ^ 64 - 96 /\ 32 <= t2 < 2 ^ 64 - 96).
  { destruct Hp1 as [? []], Hp2 as [? []]. mlia. }
  invalid. rewrite !incr_tocap by lia. cbn [res_bind].
  cround 3. match goal with H : ready _ _ _ _ _ /\ _ |- _ => destruct H as [Hr _] end.
  invalid. unfold pad0. rewrite !incr_tocap by lia. cbn [res_bind].
  replace (t2 - 1 + 1) with t2 by lia. replace (t1 - 1 + 1) with t1 by lia.
  cround 0. apply check_ready; [side..|done].
Qed.

(** [clang_hybrid_memcpy] passes: through the capability loaded from the
    structure, through derived and incremented capabilities, and through
    integer pointers, for all placements and every memory. *)
Lemma clang_hybrid_memcpy_passes t1 t2 m :
  placed t1 -> placed t2 -> apart t1 t2 ->
  exists m', clang_hybrid_memcpy t1 t2 m = Ok m' /\ same_outside t1 t2 m m'.
Proof.
  intros Hp1 Hp2 Hsep. unfold clang_hybrid_memcpy.
  apply setup_ok; [done..|]. intros m1 H1. invalid.
  next ltac:(by apply memcpy_c_rounds_ok). invalid.
  next ltac:(by apply memcpy_rounds_ok).
  eapply ensures_weaken; [by apply memcpy_c_offsets_ok|]. intros m6. apply ready_same.
Qed.

(** C24: the copy tests pass: for all placements of the two structures (aligned
    for capabilities, not overlapping, inside the address space) and every
    initial memory, no call traps and every assertion holds, in both directions,
    through derived and incremented capabilities and through integer pointers;
    nothing outside the structures is changed. *)
Theorem clang_hybrid_copy_tests_pass t1 t2 m :
  placed t1 -> placed t2 -> apart t1 t2 ->
  (exists m', clang_hybrid_bcopy t1 t2 m = Ok m' /\ same_outside t1 t2 m m') /\
  (exists m', clang_hybrid_memmove t1 t2 m = Ok m' /\ same_outside t1 t2 m m') /\
  (exists m', clang_hybrid_memcpy t1 t2 m = Ok m' /\ same_outside t1 t2 m m').
Proof.
  intros H1 H2 Ha. split; [by apply clang_hybrid_bcopy_passes|].
  split; [by apply clang_hybrid_memmove_passes|by apply clang_hybrid_memcpy_passes].
Qed.

Lemma clang_hybrid_copy_tests_pass_witness :
  (exists m', clang_hybrid_bcopy 4096 4192 mem0 = Ok m' /\ same_outside 4096 4192 mem0 m') /\
  (exists m', clang_hybrid_memmove 4096 4192 mem0 = Ok m' /\ same_outside 4096 4192 mem0 m') /\
  (exists m', clang_hybrid_memcpy 4096 4192 mem0 = Ok m' /\ same_outside 4096 4192 mem0 m').
Proof.
  apply clang_hybrid_copy_tests_pass.
  - split; [reflexivity|]. split; reflexivity.
  - split; [reflexivity|]. split; reflexivity.
  - unfold apart. lia.
Defined.

(** [invalidate] overwrites a single byte: its pointer is never advanced,
    so of the structure only the first byte becomes [0xa5]. *)
Theorem invalidate_first_byte t m :
  placed t ->
  exists m', invalidate t m = Ok m' /\
    forall x, read_byte m' x = if decide (x = t) then 0xa5 else read_byte m x.
Proof. intros Hp. destruct (invalidate_ok t m Hp) as (m' & ? & ? & _). by exists m'. Qed.

Lemma invalidate_first_byte_witness :
  exists m', invalidate 4096 mem0 = Ok m' /\
    forall x, read_byte m' x = if decide (x = 4096) then 0xa5 else read_byte mem0 x.
Proof. apply invalidate_first_byte. split; [reflexivity|]. split; reflexivity. Defined.
