(* ===== verification/LibcCopy.v ===== *)
(** * LibcCopy: the tests of the C library's memcpy and memmove.

    [libc_memcpy.c] and [libc_memmove.c] are pure-capability programs: every
    pointer is a capability.  The library's functions are not in the repository;
    they are a parameter, and their contract a class, which the routines of
    [memcpy.c] (Memcpy) fulfil. *)

From S2P Require Import Prelude CheriMem Memcpy TestStruct.

(** ** Accesses through capabilities *)

Definition ldb (m : mem) (p : cap) (t : Z) : res Z :=
  let* bs := load_data m p t 1 in Ok (be_value bs).

Definition stb (p : cap) (t v : Z) (m : mem) : res mem := store_data psize m p t [u8 v].

Definition ldc (m : mem) (p : cap) (t : Z) : res cap :=
  let* v := load_cap psize m p t in Ok (cap_of_bytes v.1 v.2).

Definition stc (p : cap) (t : Z) (c : cap) (m : mem) : res mem :=
  store_cap psize m p t (cap_bytes c, c_tag c).

(** ** The contract of the library *)

Definition copy_fn := cap -> cap -> Z -> mem -> res (cap * mem).

(** the function returns its first argument, having copied the block, tags
    included *)
Definition copies (f : copy_fn) (dst src : cap) (n : Z) (m : mem) : Prop :=
  exists m', f dst src n m = Ok (dst, m') /\ copy_post psize (c_addr dst) (c_addr src) n m m'.

Class Memcpy_ok (f : copy_fn) : Prop :=
  memcpy_copies dst src n m :
    region_ok dst (c_addr dst) n -> region_ok src (c_addr src) n -> 0 <= n ->
    c_addr dst + n <= c_addr src \/ c_addr src + n <= c_addr dst -> copies f dst src n m.

Class Memmove_ok (f : copy_fn) : Prop :=
  memmove_copies dst src n m :
    region_ok dst (c_addr dst) n -> region_ok src (c_addr src) n -> 0 <= n -> copies f dst src n m.

(** a routine of [memcpy.c] as such a function *)
Definition routine_fn (r : routine) : copy_fn := fun dst src n m =>
  let* m := copy_c psize r dst src n m in Ok (dst, m).

#[export] Instance memcpy_c_contract : Memcpy_ok (routine_fn MEMCPY_C).
Proof.
  intros dst src n m Hd Hs Hn Hov.
  destruct (copy_c_ok psize MEMCPY_C dst src n m psize_ok Hd Hs Hn (or_intror Hov)) as (m' & Hrun & Hp).
  exists m'. unfold routine_fn. by rewrite Hrun.
Qed.

#[export] Instance memmove_c_contract : Memmove_ok (routine_fn MEMMOVE_C).
Proof.
  intros dst src n m Hd Hs Hn.
  destruct (copy_c_ok psize MEMMOVE_C dst src n m psize_ok Hd Hs Hn (or_introl eq_refl)) as (m' & Hrun & Hp).
  exists m'. unfold routine_fn. by rewrite Hrun.
Qed.

(** ** libc_memcpy *)

(** [check(t1, start, end)] *)
Definition check (t1 : cap) (start end_ : Z) (m : mem) : res mem :=
  let* m := for_up start 32 (fun i m =>
    let* b := ldb m t1 (pad0 0 + i) in let* _ := c_assert (b =? i) in Ok m) m in
  let* c := ldc m t1 (y 0) in
  let* _ := c_assert (cap_eqb c t1) in
  let* _ := c_assert (c_tag c) in
  for_up 0 end_ (fun i m =>
    let* b := ldb m t1 (pad1 0 + i) in let* _ := c_assert (b =? i) in Ok m) m.

(** [invalidate(t1)]: the pointer [x] is not advanced by the loop *)
Definition invalidate (t1 : cap) (m : mem) : res mem :=
  let x := t1 in
  for_up 0 sizeof_Test (fun _ m => stb x 0 0xa5 m) m.

Definition fill (t1 : cap) (m : mem) : res mem :=
  for_up 0 32 (fun i m =>
    let* m := stb t1 (pad0 0 + i) i m in stb t1 (pad1 0 + i) i m) m.

(** the capability is no longer valid, and the data moved by one *)
Definition check_shifted (t2 : cap) (m : mem) : res mem :=
  let* c := ldc m t2 (y 0) in
  let* _ := c_assert (negb (c_tag c)) in
  for_up 0 31 (fun i m =>
    let* b := ldb m t2 (pad0 0 + i) in let* _ := c_assert (b =? i + 1) in
    let* b := ldb m t2 (pad1 0 + i) in let* _ := c_assert (b =? i + 1) in Ok m) m.

Section memcpy.
Context (cheritest_memcpy : copy_fn).

(** [cpy = cheritest_memcpy(dst, src, n); assert_eq_cap(cpy, p)] *)
Definition memcpy_to (dst src : cap) (n : Z) (p : cap) (m : mem) : res mem :=
  let* (cpy, m) := cheritest_memcpy dst src n m in
  let* _ := c_assert (cap_eqb cpy p) in Ok m.

(** from the first copy, to [dst], to the one with different alignments *)
Definition memcpy_rounds (dst t1 t2 : cap) (m : mem) : res mem :=
  let* m := memcpy_to dst t1 sizeof_Test t2 m in
  let* m := check t2 0 32 m in
  let* m := invalidate t2 m in
  let* d3 := cheri_offset_increment t2 (pad0 0 + 3) in
  let* s3 := cheri_offset_increment t1 (pad0 0 + 3) in
  let* m := memcpy_to d3 s3 (sizeof_Test - 3) d3 m in
  let* m := check t2 3 32 m in
  let* m := memcpy_to t2 t1 (sizeof_Test - 3) t2 m in
  let* m := check t2 0 29 m in
  let* m := memcpy_to d3 s3 (sizeof_Test - 6) d3 m in
  let* m := check t2 3 29 m in
  let* m := invalidate t2 m in
  let* s1 := cheri_offset_increment t1 (pad0 0 + 1) in
  let* m := memcpy_to t2 s1 (sizeof_Test - 1) t2 m in
  check_shifted t2 m.

Definition libc_memcpy (t1 t2 : cap) (m : mem) : res mem :=
  let* m := invalidate t2 m in
  let* m := fill t1 m in
  let* m := stc t1 (y 0) t2 m in
  let* m := invalidate t2 m in
  let* dst := ldc m t1 (y 0) in
  let* m := memcpy_rounds dst t1 t2 m in
  let* m := invalidate t2 m in
  let* m := memcpy_rounds t2 t1 t2 m in
  let* m := invalidate t2 m in
  let* d3 := cheri_offset_increment t2 3 in
  let* s3 := cheri_offset_increment t1 3 in
  let* p := cheri_offset_increment t2 (pad0 0 + 3) in
  let* m := memcpy_to d3 s3 (sizeof_Test - 6) p m in
  check t2 3 29 m.
End memcpy.

(** ** libc_memmove *)

Section memmove.
Context (cheritest_memmove : copy_fn).

Definition sizeof_buffer := 10 * psize.

Definition libc_memmove (buffer : cap) (m : mem) : res mem :=
  let* src := cheri_offset_increment buffer (2 * psize) in
  let* (_, m) := cheritest_memmove buffer src (sizeof_buffer - 2 * psize) m in
  for_up 0 8 (fun i m =>
    let* p := ldc m buffer (i * psize) in
    let* b := ldb m p 0 in
    let* _ := c_assert (b =? 48 + i + 2) in Ok m) m.
End memmove.

(** ** Accesses inside a block *)

Section access.
Context (p : cap) (a n : Z) (Hr : region_ok p a n) (Ha : c_addr p = a).

Lemma at_off_block t k : 0 <= t -> 0 <= k -> t + k <= n -> at_off p t = a + t.
Proof. intros Ht Hk Hn. unfold at_off. rewrite Ha. apply wrap_small. destruct Hr. lia. Qed.

Lemma access_block perm t k : has_perm (c_perms p) perm = true -> 0 <= t -> 0 <= k -> t + k <= n ->
  (a + t) mod k = 0 -> access_ok p perm (a + t) k = true.
Proof. intros Hp Ht Hk Hn Hal. apply (region_ok_access p a n); [done|done|lia|lia|done]. Qed.

Lemma ldb_ok m t : 0 <= t < n -> ldb m p t = Ok (read_byte m (a + t)).
Proof.
  intros Ht. unfold ldb, load_data. rewrite (at_off_block t 1), access_block by
    first [apply Hr|lia|apply Z.mod_1_r]. done.
Qed.

Lemma stb_ok m t v : 0 <= t < n -> stb p t v m = Ok (put_data psize m (a + t) [u8 v]).
Proof.
  intros Ht. unfold stb, store_data. rewrite (at_off_block t 1) by lia.
  change (Z.of_nat (length [u8 v])) with 1.
  by rewrite access_block by first [apply Hr|lia|apply Z.mod_1_r].
Qed.

Lemma ldc_ok m t : 0 <= t -> t + 32 <= n -> (a + t) mod 32 = 0 ->
  ldc m p t = Ok (cap_of_bytes (read_bytes m (a + t) 32) (has_tag m (a + t))).
Proof.
  intros Ht Hn Hal. unfold ldc, load_cap. rewrite (at_off_block t 32) by lia.
  rewrite access_block by first [apply Hr|unfold psize; lia|done].
  by rewrite (ro_load_cap _ _ _ Hr).
Qed.

Lemma stc_ok m t c : 0 <= t -> t + 32 <= n -> (a + t) mod 32 = 0 ->
  stc p t c m = Ok (put_cap m (a + t) (cap_bytes c) (c_tag c)).
Proof.
  intros Ht Hn Hal. unfold stc, store_cap. rewrite (at_off_block t 32) by lia.
  rewrite access_block by first [apply Hr|unfold psize; lia|done].
  by rewrite (ro_store_cap _ _ _ Hr).
Qed.
End access.

(** a part of a region *)
Lemma region_ok_sub c a n k l : region_ok c a n -> 0 <= k -> k + l <= n -> region_ok c (a + k) l.
Proof. intros [] Hk Hl. split; try done; lia. Qed.

(** a pointer to a [struct Test] *)
Record struct_ptr (p : cap) (a : Z) : Prop := {
  sp_region : region_ok p a 96;
  sp_addr : c_addr p = a;
  sp_placed : placed a;
  sp_wf : cap_wf p;
}.

Lemma struct_ptr_tag p a : struct_ptr p a -> c_tag p = true.
Proof. intros []. destruct sp_region0. by apply andb_true_iff in ro_usable as [? _]. Qed.

(** a loop of assertions on the bytes of a block *)
Lemma libc_for_up_assert (f : Z -> Z) p a n base lo hi m :
  region_ok p a n -> c_addr p = a -> lo <= hi ->
  (forall i, lo <= i < hi -> 0 <= base + i < n /\ read_byte m (a + (base + i)) = f i) ->
  for_up lo hi (fun i m =>
    let* b := ldb m p (base + i) in let* _ := c_assert (b =? f i) in Ok m) m = Ok m.
Proof.
  intros Hr Ha Hle H.
  destruct (for_up_inv (fun _ m' => m' = m) lo hi (fun i m =>
    let* b := ldb m p (base + i) in let* _ := c_assert (b =? f i) in Ok m) m)
    as (m' & -> & ->); auto.
  intros i m' Hi ->. destruct (H i Hi) as [Hn Hb].
  exists m. rewrite (ldb_ok p a n) by done. cbn [res_bind]. by rewrite Hb, Z.eqb_refl.
Qed.

Lemma libc_check_ok p a start end_ m : struct_ptr p a -> 0 <= start <= 32 -> 0 <= end_ <= 32 ->
  holds a p start end_ m -> check p start end_ m = Ok m.
Proof.
  intros Hp Hs He [H0 Hy Ht H1]. pose proof (struct_ptr_tag p a Hp) as Htag.
  destruct Hp as [Hr Ha [Hal _] Hwf]. unfold check, pad0, y, pad1 in *.
  rewrite (libc_for_up_assert (fun i => i) p a 96) by
    first [done|lia|intros i Hi; split; [lia|rewrite <- (H0 i) at 2 by lia; f_equal; lia]].
  cbn [res_bind]. rewrite (ldc_ok p a 96) by first [done|lia|mlia]. cbn [res_bind].
  change (0 + 32) with 32. rewrite Hy, Ht. rewrite <- Htag, cap_of_bytes_of_cap by done.
  rewrite cap_eqb_refl, Htag. cbn [c_assert res_bind].
  apply (libc_for_up_assert (fun i => i) p a 96); [done|done|lia|].
  intros i Hi. split; [lia|]. rewrite <- (H1 i) at 2 by lia. f_equal. lia.
Qed.

Lemma libc_check_shifted_ok p a m : struct_ptr p a -> shifted a m -> check_shifted p m = Ok m.
Proof.
  intros [Hr Ha [Hal _] Hwf] [Ht H0 H1]. unfold check_shifted, pad0, y, pad1 in *.
  rewrite (ldc_ok p a 96) by first [done|lia|mlia]. cbn [res_bind].
  change (0 + 32) with 32. rewrite Ht. cbn [c_tag cap_of_bytes negb c_assert res_bind].
  match goal with |- for_up _ _ ?body _ = _ =>
    destruct (for_up_inv (fun _ m' => m' = m) 0 31 body m) as (m' & -> & ->) end; auto; [lia|].
  intros i m' Hi ->. exists m. rewrite !(ldb_ok p a 96) by first [done|lia]. cbn [res_bind].
  replace (a + (0 + i)) with (a + i) by lia. replace (a + (0 + 64 + i)) with (a + 64 + i) by lia.
  by rewrite H0, H1, !Z.eqb_refl by lia.
Qed.

Lemma libc_invalidate_ok p a m : struct_ptr p a -> ensures (invalidate p m) (invalidated a m).
Proof.
  intros [Hr Ha [Hal _] Hwf]. apply (invalidate_loop a (stb p 0 0xa5) m Hal). intros m1.
  rewrite (stb_ok p a 96) by first [done|lia]. by rewrite Z.add_0_r.
Qed.

(** the loop that fills a structure, and the store of the capability *)
Lemma libc_fill_ok p a m : struct_ptr p a -> ensures (fill p m) (fun m' =>
  (forall i, 0 <= i < 32 -> read_byte m' (pad0 a + i) = i /\ read_byte m' (pad1 a + i) = i)
  /\ forall x, ~ (a <= x < a + 96) -> read_byte m' x = read_byte m x).
Proof.
  intros [Hr Ha _ _]. unfold fill.
  apply (for_up_inv (fun j m' =>
    (forall i, 0 <= i < j -> read_byte m' (pad0 a + i) = i /\ read_byte m' (pad1 a + i) = i)
    /\ forall x, ~ (a <= x < a + 96) -> read_byte m' x = read_byte m x)).
  - lia.
  - split; [lia|done].
  - intros j m1 Hj [H1 H2]. unfold pad0, pad1 in *.
    rewrite (stb_ok p a 96) by first [done|lia]. cbn [res_bind].
    rewrite (stb_ok p a 96) by first [done|lia].
    eexists; split; [done|].
    split; [intros i Hi|intros x Hx]; rewrite !read_byte_put_data1, !(wrap_small 8 j) by lia;
      repeat case_decide; try lia; try (split; lia).
    + apply H1; lia.
    + by apply H2.
Qed.

Lemma libc_set_y_ok p a c m : struct_ptr p a -> c_tag c = true ->
  (forall i, 0 <= i < 32 -> read_byte m (pad0 a + i) = i /\ read_byte m (pad1 a + i) = i) ->
  ensures (stc p (y 0) c m) (fun m' =>
    holds a c 0 32 m' /\ forall x, ~ (a <= x < a + 96) -> read_byte m' x = read_byte m x).
Proof.
  intros [Hr Ha [Hal _] _] Htag H1. unfold y. rewrite (stc_ok p a 96) by first [done|lia|mlia].
  rewrite Z.add_0_l. eexists; split; [done|]. unfold put_cap. rewrite Htag.
  assert (Hout : forall b tg x, x < a + 32 \/ a + 64 <= x ->
    read_byte (Mem (put_bytes b (a + 32) (cap_bytes c)) tg) x = read_byte (Mem b tg) x).
  { intros b tg x Hx. apply read_byte_put_out. rewrite cap_bytes_length. lia. }
  split; [split|]; unfold pad0, pad1, y in *.
  - intros i Hi. rewrite Hout by lia. by apply H1.
  - rewrite <- (cap_bytes_length c) at 1. apply read_bytes_put.
  - unfold has_tag; cbn [m_tags]. apply bool_decide_eq_true, elem_of_union_l. by apply elem_of_singleton.
  - intros i Hi. rewrite Hout by lia. by apply H1.
  - intros x Hx. by rewrite Hout by lia.
Qed.

(** ** libc_memcpy passes with every function that keeps the contract *)

Section memcpy_passes.
Context (f : copy_fn) {Hf : Memcpy_ok f}.
Context (t1 t2 : cap) (a1 a2 : Z) (Ht1 : struct_ptr t1 a1) (Ht2 : struct_ptr t2 a2).
Context (Hsep : a1 + 96 <= a2 \/ a2 + 96 <= a1).
Context (m0 : mem).

Abbreviation rdy := (ready a1 a2 t2 m0).

Lemma libc_invalidate_ready m : rdy m -> ensures (invalidate t2 m) rdy.
Proof.
  intros Hm. eapply ensures_weaken; [by apply (libc_invalidate_ok t2 a2)|]. intros m' Hi.
  by apply (invalidated_ready a1 a2 (sp_placed _ _ Ht2) Hsep t2 m0 m).
Qed.

Lemma libc_check_ready start end_ m : 0 <= start <= 32 -> 0 <= end_ <= 32 ->
  rdy m /\ holds a2 t2 start end_ m -> ensures (check t2 start end_ m) rdy.
Proof. intros Hs He [Hr Hh]. eapply ensures_Ok; [by apply (libc_check_ok t2 a2)|done]. Qed.

Lemma libc_check_shifted_ready m : rdy m /\ shifted a2 m -> ensures (check_shifted t2 m) rdy.
Proof. intros [Hr Hh]. eapply ensures_Ok; [by apply (libc_check_shifted_ok t2 a2)|done]. Qed.

(** a call on parts of the two structures *)
Lemma memcpy_ensures d s k j n m : c_addr d = a2 + k -> c_addr s = a1 + j ->
  region_ok d a2 96 -> region_ok s a1 96 -> 0 <= k -> 0 <= j -> 0 <= n -> k + n <= 96 -> j + n <= 96 ->
  ensures (memcpy_to f d s n d m) (copy_post psize (a2 + k) (a1 + j) n m).
Proof.
  intros Hd Hs Hrd Hrs Hk Hj Hn Hkn Hjn.
  destruct (memcpy_copies d s n m) as (m' & Hrun & Hp).
  - rewrite Hd. by apply (region_ok_sub d a2 96).
  - rewrite Hs. by apply (region_ok_sub s a1 96).
  - done.
  - lia.
  - exists m'. unfold memcpy_to. rewrite Hrun. cbn [res_bind]. rewrite cap_eqb_refl.
    split; [done|]. by rewrite Hd, Hs in Hp.
Qed.

Lemma copy_round d s k n m : c_addr d = a2 + k -> c_addr s = a1 + k ->
  region_ok d a2 96 -> region_ok s a1 96 -> 0 <= k <= 32 -> 64 <= k + n <= 96 -> rdy m ->
  ensures (memcpy_to f d s n d m) (fun m' => rdy m' /\ holds a2 t2 k (k + n - 64) m').
Proof.
  intros Hd Hs Hrd Hrs Hk Hn Hm.
  eapply ensures_weaken; [apply (memcpy_ensures d s k k); try done; lia|]. intros m' Hp.
  by apply (copied_ready a1 a2 (sp_placed _ _ Ht1) (sp_placed _ _ Ht2) Hsep t2 m0 k n m).
Qed.

Lemma copy_shift s m : c_addr s = a1 + 1 -> region_ok s a1 96 -> rdy m ->
  ensures (memcpy_to f t2 s (sizeof_Test - 1) t2 m) (fun m' => rdy m' /\ shifted a2 m').
Proof.
  intros Hs Hrs Hm. pose proof Ht2 as [Hr2 Ha2 _ _].
  eapply ensures_weaken; [apply (memcpy_ensures t2 s 0 1); unfold sizeof_Test; try done; lia|].
  intros m' Hp. rewrite Z.add_0_r in Hp.
  by apply (shifted_ready a1 a2 (sp_placed _ _ Ht1) (sp_placed _ _ Ht2) Hsep t2 m0 m).
Qed.

(** pointers into the structures *)
Lemma pointer t a i : struct_ptr t a -> 0 <= i <= 96 ->
  exists p, cheri_offset_increment t i = Ok p /\ region_ok p a 96 /\ c_addr p = a + i.
Proof. intros [Hr Ha _ _] Hi. apply (incr_region t a 96 a i); [done|done|lia|lia]. Qed.

Ltac next tac := eapply ensures_bind; [tac | intros ? ?; cbv beta in *].
Ltac side := first [done | apply Ht1 | apply Ht2 | rewrite Z.add_0_r; first [apply Ht1|apply Ht2]
  | cbv [sizeof_Test]; lia].
Ltac round k := next ltac:(idtac; lazymatch goal with
  | H : rdy ?mm |- ensures (memcpy_to _ ?d ?s ?n _ _) _ => apply (copy_round d s k n); side end).
Ltac invalid := next ltac:(apply libc_invalidate_ready; eassumption).
Ltac checks := next ltac:(apply libc_check_ready; [lia|lia|eassumption]).

Lemma libc_memcpy_rounds_ok m : rdy m -> ensures (memcpy_rounds f t2 t1 t2 m) rdy.
Proof.
  intros Hm. unfold memcpy_rounds, pad0.
  destruct (pointer t2 a2 (0 + 3) Ht2 ltac:(lia)) as (d3 & -> & Hd3 & Ad3).
  destruct (pointer t1 a1 (0 + 3) Ht1 ltac:(lia)) as (s3 & -> & Hs3 & As3).
  destruct (pointer t1 a1 (0 + 1) Ht1 ltac:(lia)) as (s1 & -> & Hs1 & As1).
  cbn [res_bind].
  round 0. checks. invalid. round 3. checks. round 0. checks. round 3. checks. invalid.
  next ltac:(apply copy_shift; side). by apply libc_check_shifted_ready.
Qed.

Lemma libc_load_y_ok m : rdy m -> ldc m t1 (y 0) = Ok t2.
Proof.
  intros [[_ Hy Htag _] _]. destruct Ht1 as [Hr Ha [Hal _] _].
  unfold y in *. rewrite (ldc_ok t1 a1 96) by first [done|lia|mlia].
  change (0 + 32) with 32. rewrite Hy, Htag. rewrite <- (struct_ptr_tag t2 a2 Ht2).
  rewrite cap_of_bytes_of_cap; [done|apply Ht2].
Qed.

(** the structures are set up, whatever memory holds *)
Lemma libc_setup_ok (k : mem -> res mem) Q : (forall m, rdy m -> ensures (k m) Q) ->
  ensures (let* m := invalidate t2 m0 in let* m := fill t1 m in let* m := stc t1 (y 0) t2 m in k m) Q.
Proof.
  intros Hk. next ltac:(by apply (libc_invalidate_ok t2 a2)). destruct H as [Hb _].
  next ltac:(by apply (libc_fill_ok t1 a1)). destruct H as [Hfill Hout].
  next ltac:(by apply (libc_set_y_ok t1 a1); [|apply (struct_ptr_tag t2 a2)|]). destruct H as [Hh Ho].
  apply Hk. split; [done|]. intros x Hx1 Hx2. rewrite Ho, Hout, Hb by done.
  destruct (sp_placed _ _ Ht2) as [_ [? ?]]. by rewrite decide_False by lia.
Qed.

Lemma libc_memcpy_ok : ensures (libc_memcpy f t1 t2 m0) rdy.
Proof.
  unfold libc_memcpy. apply libc_setup_ok. intros m1 H1. invalid. rewrite libc_load_y_ok by done. cbn [res_bind].
  next ltac:(by apply libc_memcpy_rounds_ok). invalid. next ltac:(by apply libc_memcpy_rounds_ok). invalid.
  unfold pad0. change (0 + 3) with 3.
  destruct (pointer t2 a2 3 Ht2 ltac:(lia)) as (d3 & -> & Hd3 & Ad3).
  destruct (pointer t1 a1 3 Ht1 ltac:(lia)) as (s3 & -> & Hs3 & As3). cbn [res_bind].
  round 3. by apply libc_check_ready.
Qed.
End memcpy_passes.

(** With any [memcpy] that keeps the contract, for two structures at any
    aligned places apart from each other and any initial memory, the test does
    not trap and none of its assertions fails; nothing outside the two
    structures changes. *)
Lemma libc_memcpy_passes f t1 t2 a1 a2 m : Memcpy_ok f ->
  struct_ptr t1 a1 -> struct_ptr t2 a2 -> a1 + 96 <= a2 \/ a2 + 96 <= a1 ->
  exists m', libc_memcpy f t1 t2 m = Ok m'
    /\ forall x, ~ (a1 <= x < a1 + 96) -> ~ (a2 <= x < a2 + 96) -> read_byte m' x = read_byte m x.
Proof.
  intros Hf H1 H2 Hsep. destruct (libc_memcpy_ok f t1 t2 a1 a2 H1 H2 Hsep m) as (m' & Hrun & Hr).
  exists m'. split; [done|]. apply Hr.
Qed.

(** ** libc_memmove *)

Section memmove_passes.
Context (f : copy_fn) {Hf : Memmove_ok f}.
Context (buffer pointees : cap) (ab ap : Z).

(** the static data: ten pointers to the ten digits *)
Record static_data (m : mem) : Prop := {
  sd_buffer : region_ok buffer ab sizeof_buffer /\ c_addr buffer = ab /\ ab mod 32 = 0;
  sd_pointees : region_ok pointees ap 11 /\ c_addr pointees = ap /\ cap_wf pointees;
  sd_apart : ab + sizeof_buffer <= ap \/ ap + 11 <= ab;
  sd_digits : forall i, 0 <= i < 10 -> read_byte m (ap + i) = 48 + i;
  sd_pointers : forall i, 0 <= i < 10 ->
    read_bytes m (ab + i * 32) 32 = cap_bytes (with_off pointees (c_off pointees + i))
    /\ has_tag m (ab + i * 32) = true;
}.

Lemma pointer_loaded m i : static_data m -> 0 <= i < 10 ->
  cap_of_bytes (read_bytes m (ab + i * 32) 32) (has_tag m (ab + i * 32))
  = with_off pointees (c_off pointees + i).
Proof.
  intros Hsd Hi. destruct (sd_pointers m Hsd i Hi) as [-> ->].
  destruct (sd_pointees m Hsd) as (Hr & _ & [? ? ? ? ?]). destruct Hr.
  apply andb_true_iff in ro_usable as [Htag _].
  change true with true at 1. rewrite <- Htag.
  change (c_tag pointees) with (c_tag (with_off pointees (c_off pointees + i))).
  apply cap_of_bytes_of_cap. split; simpl; try done. by apply wrap_range.
Qed.

Lemma libc_memmove_ok m : static_data m ->
  exists m', libc_memmove f buffer m = Ok m' /\ forall x, ~ (ab <= x < ab + 256) -> read_byte m' x = read_byte m x.
Proof.
  intros Hsd. destruct (sd_buffer m Hsd) as (Hrb & Hab & Hal).
  unfold libc_memmove, sizeof_buffer, psize in *.
  destruct (incr_region buffer ab 320 ab 64) as (src & Hsrc & Hrs & Has); [done|done|lia|lia|].
  change (2 * 32) with 64. change (10 * 32 - 64) with 256. rewrite Hsrc. cbn [res_bind].
  destruct (memmove_copies buffer src 256 m) as (m' & Hrun & Hp).
  { rewrite Hab, <- (Z.add_0_r ab). apply (region_ok_sub buffer ab 320); [done|lia|lia]. }
  { rewrite Has. apply (region_ok_sub src ab 320); [done|lia|lia]. }
  { lia. }
  rewrite Hrun. cbn [res_bind]. rewrite Hab, Has in Hp.
  pose proof (copy_post_bytes _ _ _ _ _ _ Hp) as Hbytes.
  pose proof (copy_post_tags psize ab (ab + 64) 256 m m' ltac:(lia) ltac:(lia) Hp) as Htags. unfold psize in Htags.
  exists m'. split; [|intros x Hx; by rewrite Hbytes, decide_False by lia].
  match goal with |- for_up _ _ ?body _ = _ =>
    destruct (for_up_inv (fun _ m1 => m1 = m') 0 8 body m') as (m1 & -> & ->) end; auto; [lia|].
  intros i m1 Hi ->. exists m'.
  rewrite (ldc_ok buffer ab 320) by first [done|lia|mlia]. cbn [res_bind].
  assert (Hptr : cap_of_bytes (read_bytes m' (ab + i * 32) 32) (has_tag m' (ab + i * 32))
    = with_off pointees (c_off pointees + (i + 2))).
  { rewrite <- (pointer_loaded m) by first [done|lia]. f_equal.
    - apply list_eq_same_length with (n := 32%nat); rewrite ?length_read_bytes; auto.
      intros k x z Hk. rewrite !lookup_read_bytes by done. rewrite Hbytes, decide_True by lia.
      replace (ab + 64 + (ab + i * 32 + Z.of_nat k - ab)) with (ab + (i + 2) * 32 + Z.of_nat k) by lia.
      congruence.
    - rewrite Htags by mlia. rewrite decide_True by lia.
      rewrite decide_True by (repeat split; try lia; mlia). f_equal. lia. }
  rewrite Hptr. destruct (sd_pointees m Hsd) as (Hrp & Hap & Hwf).
  destruct (incr_region pointees ap 11 ap (i + 2)) as (q & Hq & Hrq & Haq); [done|done|lia|lia|].
  rewrite offset_increment_usable in Hq by apply Hrp. injection Hq as <-.
  set (q := with_off pointees (c_off pointees + (i + 2))) in *.
  rewrite (ldb_ok q (ap + (i + 2)) (9 - i)); [|apply (region_ok_sub q ap 11); [done|lia|lia]|done|lia].
  cbn [res_bind]. rewrite Z.add_0_r, Hbytes, decide_False.
  2: { pose proof (sd_apart m Hsd). unfold sizeof_buffer, psize in *. lia. }
  rewrite (sd_digits m Hsd (i + 2)) by lia.
  by rewrite (proj2 (Z.eqb_eq (48 + (i + 2)) (48 + i + 2))) by lia.
Qed.
End memmove_passes.

(** With any [memmove] that keeps the contract, for a table of pointers and
    digits as the program is linked with, at any places, the overlapping move
    keeps every pointer valid: the test does not trap and no assertion fails. *)
Lemma libc_memmove_passes f buffer pointees ab ap m : Memmove_ok f ->
  static_data buffer pointees ab ap m ->
  exists m', libc_memmove f buffer m = Ok m'
    /\ forall x, ~ (ab <= x < ab + 256) -> read_byte m' x = read_byte m x.
Proof. intros Hf. by apply libc_memmove_ok. Qed.

(** ** Concrete programs *)

(** a capability for exactly a block *)
Definition block_cap (a n : Z) : cap := Cap true false PERMS_ALL 0 a n 0.

Lemma block_cap_wf a n : 0 <= a < 2 ^ 64 -> 0 <= n < 2 ^ 64 -> cap_wf (block_cap a n).
Proof. intros Ha Hn. split; simpl; unfold PERMS_ALL; lia. Qed.

Lemma block_cap_region a n : 0 <= a -> 0 <= n -> a + n < 2 ^ 64 -> region_ok (block_cap a n) a n.
Proof. intros Ha Hn Hw. split; try done; simpl; unfold c_top; simpl; lia. Qed.

Lemma block_struct a : a mod 32 = 0 -> 0 < a -> a + 96 < 2 ^ 64 -> struct_ptr (block_cap a 96) a.
Proof.
  intros Hal Ha Hw. split.
  - apply block_cap_region; lia.
  - unfold c_addr; simpl. rewrite Z.add_0_r. apply wrap_small. lia.
  - done.
  - apply block_cap_wf; lia.
Qed.

Definition sample_pointees : cap := block_cap 0x2000 11.

Definition sample_static : mem :=
  Mem (put_bytes
        (put_bytes ∅ 0x2000 (map (fun i => 48 + Z.of_nat i) (seq 0 10)))
        0x1000 (concat (map (fun i => cap_bytes (with_off sample_pointees (Z.of_nat i))) (seq 0 10))))
      (list_to_set (map (fun i => 0x1000 + Z.of_nat i * 32) (seq 0 10))).

(** a property of ten numbers, checked one by one *)
Lemma ten (P : Z -> Prop) : (forall i, (i < 10)%nat -> P (Z.of_nat i)) -> forall i, 0 <= i < 10 -> P i.
Proof. intros H i Hi. rewrite <- (Z2Nat.id i) by lia. apply H. lia. Qed.

Lemma sample_static_ok : static_data (block_cap 0x1000 320) sample_pointees 0x1000 0x2000 sample_static.
Proof.
  split.
  - split; [apply block_cap_region; unfold sizeof_buffer, psize; lia|done].
  - split; [apply block_cap_region; lia|]. split; [done|]. apply block_cap_wf; lia.
  - unfold sizeof_buffer, psize. lia.
  - apply ten. intros i Hi. do 10 (destruct i as [|i]; [reflexivity|]). lia.
  - apply (ten (fun i =>
      read_bytes sample_static (0x1000 + i * 32) 32 = cap_bytes (with_off sample_pointees (c_off sample_pointees + i))
      /\ has_tag sample_static (0x1000 + i * 32) = true)).
    intros i Hi. do 10 (destruct i as [|i]; [split; vm_compute; reflexivity|]). lia.
Qed.
