(* ===== verification/CrtInit.v ===== *)
(** * CrtInit: the start of a pure-capability program.

    [crt_init_globals.c] walks the relocation records the linker left in the
    section [__cap_relocs] and stores, for each of them, the capability of a
    global or a function.  Records and results live in the tagged memory of
    CheriMem; the capabilities are 256 bits wide.  The variant for the
    capability table only calls a library.  The file's [strlen] is here too. *)

From S2P Require Import Prelude CheriMem Memcpy.

Definition psize := 32.          (* sizeof(void * ) *)
Definition sizeof_capreloc := 40.

Definition function_reloc_flag := 2 ^ 63.
Definition function_pointer_permissions :=
  Z.land (Z.land (Z.lnot 0) (Z.lnot PERMIT_STORE_CAPABILITY)) (Z.lnot PERMIT_STORE).
Definition global_pointer_permissions := Z.land (Z.lnot 0) (Z.lnot PERMIT_EXECUTE).

(** ** The records *)

Record capreloc := Capreloc {
  capability_location : Z;
  object : Z;
  offset : Z;
  size : Z;
  permissions : Z;
}.

(** a field of the record a capability points to *)
Definition field (m : mem) (reloc : cap) (ofs : Z) : res Z :=
  let* bs := load_data m reloc ofs 8 in Ok (be_value bs).

Definition at_location (m : mem) (reloc : cap) := field m reloc 0.
Definition at_object (m : mem) (reloc : cap) := field m reloc 8.
Definition at_offset (m : mem) (reloc : cap) := field m reloc 16.
Definition at_size (m : mem) (reloc : cap) := field m reloc 24.
Definition at_permissions (m : mem) (reloc : cap) := field m reloc 32.

(** ** crt_init_globals *)

(** the body of the loop *)
Definition init_one (gdc pcc reloc : cap) (m : mem) : res mem :=
  let* perms := at_permissions m reloc in
  let isFunction := Z.land perms function_reloc_flag =? function_reloc_flag in
  let* loc := at_location m reloc in
  let* dest := cheri_offset_set gdc loc in
  let base := if isFunction then pcc else gdc in
  let* obj := at_object m reloc in
  let* src := cheri_offset_set base obj in
  let* src :=
    if isFunction then Ok src
    else let* n := at_size m reloc in
         if n =? 0 then Ok src else cheri_bounds_set src n in
  let* ofs := at_offset m reloc in
  let* src := cheri_offset_increment src ofs in
  store_cap psize m dest 0 (cap_bytes src, c_tag src).

Fixpoint init_loop (fuel : nat) (gdc pcc reloc stop_relocs : cap) (m : mem) : res mem :=
  if cap_ltb reloc stop_relocs
  then match fuel with
       | O => Err EFuel
       | S fuel' =>
           let* m := init_one gdc pcc reloc m in
           let* reloc := cheri_offset_increment reloc sizeof_capreloc in
           init_loop fuel' gdc pcc reloc stop_relocs m
       end
  else Ok m.

(** [gdc0] and [pcc0] are the global data and program counter capabilities *)
Definition crt_init_globals (fuel : nat) (gdc0 pcc0 start_relocs stop_relocs : cap) (m : mem) : res mem :=
  let* gdc := cheri_perms_and gdc0 (u64 global_pointer_permissions) in
  let* pcc := cheri_perms_and pcc0 (u64 function_pointer_permissions) in
  init_loop fuel gdc pcc start_relocs stop_relocs m.

(** ** strlen *)

Fixpoint strlen_loop (fuel : nat) (m : mem) (p : cap) : res cap :=
  let* c := load_data m p 0 1 in
  if be_value c =? 0 then Ok p
  else match fuel with
       | O => Err EFuel
       | S fuel' => let* p := cheri_offset_increment p 1 in strlen_loop fuel' m p
       end.

Definition strlen (fuel : nat) (m : mem) (str : cap) : res Z :=
  let* p := strlen_loop fuel m str in Ok (u64 (c_addr p - c_addr str)).

(** ** What the records mean *)

Definition is_function (r : capreloc) : bool := Z.testbit (permissions r) 63.

(** the capability a record asks for *)
Definition global_cap (gdc pcc : cap) (r : capreloc) : cap :=
  if is_function r
  then Cap true false (Z.land (c_perms pcc) (u64 function_pointer_permissions)) (c_otype pcc)
         (c_base pcc) (c_len pcc) (u64 (object r + offset r))
  else if size r =? 0
  then Cap true false (Z.land (c_perms gdc) (u64 global_pointer_permissions)) (c_otype gdc)
         (c_base gdc) (c_len gdc) (u64 (object r + offset r))
  else Cap true false (Z.land (c_perms gdc) (u64 global_pointer_permissions)) (c_otype gdc)
         (u64 (c_base gdc + object r)) (size r) (offset r).

Definition word (z : Z) : Prop := 0 <= z < 2 ^ 64.

(** a record is five big-endian words *)
Definition field_list (r : capreloc) : list Z :=
  [capability_location r; object r; offset r; size r; permissions r].

Definition record_bytes (r : capreloc) : list Z := concat (map (be_bytes 8) (field_list r)).

Definition holds_records (m : mem) (a : Z) (rs : list capreloc) : Prop :=
  forall i r, rs !! i = Some r -> read_bytes m (a + 40 * Z.of_nat i) 40 = record_bytes r.

(** ** Reading a record *)

(** [n] bytes from [a] on can be read through [c] *)
Record readable (c : cap) (a n : Z) : Prop := {
  rd_usable : usable c = true;
  rd_load : has_perm (c_perms c) PERMIT_LOAD = true;
  rd_base : c_base c <= a;
  rd_top : a + n <= c_top c;
  rd_range : 0 <= a /\ a + n < 2 ^ 64;
}.

Lemma readable_load m c a n t k : readable c a n -> c_addr c = a -> 0 <= t -> 0 <= k -> t + k <= n ->
  (a + t) mod k = 0 -> load_data m c t k = Ok (read_bytes m (a + t) (Z.to_nat k)).
Proof.
  intros [Hu Hl Hb Ht Hr] Ha H0 H1 Hk Hal. unfold load_data, at_off. rewrite Ha, wrap_small by lia.
  unfold access_ok. rewrite Hu, Hl, Hal. rewrite !(proj2 (Z.leb_le _ _)) by lia. done.
Qed.

Lemma be_fields_read m l : forall a,
  read_bytes m a (8 * length l) = concat (map (be_bytes 8) l) ->
  forall k v, l !! k = Some v -> read_bytes m (a + 8 * Z.of_nat k) 8 = be_bytes 8 v.
Proof.
  induction l as [|x l IH]; intros a Ha k v Hk; [done|]. cbn [length map concat] in Ha.
  replace (8 * S (length l))%nat with (8 + 8 * length l)%nat in Ha by lia.
  rewrite read_bytes_app in Ha. apply app_inj_1 in Ha as [Hx Hl].
  2: { by rewrite length_read_bytes, length_be_bytes. }
  destruct k as [|k]; simpl in Hk.
  - injection Hk as ->. rewrite <- Hx. f_equal. lia.
  - rewrite <- (IH _ Hl k v Hk). f_equal. lia.
Qed.

Lemma field_ok m c a r k v :
  readable c a 40 -> c_addr c = a -> a mod 8 = 0 -> read_bytes m a 40 = record_bytes r ->
  field_list r !! k = Some v -> word v -> field m c (8 * Z.of_nat k) = Ok v.
Proof.
  intros Hr Ha Hal Hb Hk Hv. unfold field.
  assert (Z.of_nat k < 5) by (apply lookup_lt_Some in Hk; simpl in Hk; lia).
  rewrite (readable_load m c a 40) by (first [done|lia|mlia]). cbn [res_bind].
  change (Z.to_nat 8) with 8%nat.
  rewrite (be_fields_read m (field_list r) a) with (v := v); [|exact Hb|done].
  by rewrite be_value_bytes_small by exact Hv.
Qed.

Record words (r : capreloc) : Prop := {
  w_location : word (capability_location r);
  w_object : word (object r);
  w_offset : word (offset r);
  w_size : word (size r);
  w_permissions : word (permissions r);
}.

Lemma fields_ok m c a r : readable c a 40 -> c_addr c = a -> a mod 8 = 0 ->
  read_bytes m a 40 = record_bytes r -> words r ->
  at_location m c = Ok (capability_location r) /\ at_object m c = Ok (object r)
  /\ at_offset m c = Ok (offset r) /\ at_size m c = Ok (size r)
  /\ at_permissions m c = Ok (permissions r).
Proof.
  intros Hr Ha Hal Hb [].
  pose proof (field_ok m c a r) as Hf.
  split; [by apply (Hf 0%nat)|]. split; [by apply (Hf 1%nat)|]. split; [by apply (Hf 2%nat)|].
  split; [by apply (Hf 3%nat)|by apply (Hf 4%nat)].
Qed.

Lemma is_function_flag p : (Z.land p function_reloc_flag =? function_reloc_flag) = Z.testbit p 63.
Proof.
  apply Bool.eq_iff_eq_true. rewrite Z.eqb_eq. unfold function_reloc_flag. split.
  - intros H. apply (f_equal (fun z => Z.testbit z 63)) in H. rewrite Z.land_spec in H.
    rewrite Z.pow2_bits_true in H by lia. by rewrite andb_true_r in H.
  - intros H. apply Z.bits_inj'. intros n Hn. rewrite Z.land_spec, Z.pow2_bits_eqb by lia.
    destruct (63 =? n) eqn:E; [apply Z.eqb_eq in E; subst; by rewrite H|by rewrite andb_false_r].
Qed.

Lemma has_perm_and p q perm : has_perm p perm = true -> has_perm q perm = true ->
  has_perm (Z.land p q) perm = true.
Proof.
  unfold has_perm. rewrite !Z.eqb_eq. intros Hp Hq. by rewrite <- Z.land_assoc, Hq, Hp.
Qed.

(** ** One record, then all of them *)

Section correct.
Context (gdc0 pcc0 : cap).

(** where the capability of a record goes *)
Definition dest (r : capreloc) : Z := c_base gdc0 + capability_location r.

(** the program's global data capability lets the start-up code store
    capabilities, and both given capabilities are valid *)
Record roots_ok : Prop := {
  g_usable : usable gdc0 = true;
  g_store : has_perm (c_perms gdc0) PERMIT_STORE = true;
  g_store_cap : has_perm (c_perms gdc0) PERMIT_STORE_CAPABILITY = true;
  g_wf : cap_wf gdc0;
  g_top : c_top gdc0 <= 2 ^ 64;
  p_usable : usable pcc0 = true;
  p_wf : cap_wf pcc0;
}.

(** a record the linker can produce: aligned room for the capability, and an
    object inside the global data *)
Record fits (r : capreloc) : Prop := {
  f_words : words r;
  f_aligned : dest r mod psize = 0;
  f_room : dest r + psize <= c_top gdc0;
  f_object : is_function r = false -> size r <> 0 -> c_base gdc0 + object r + size r <= c_top gdc0;
}.

Definition gdc : cap := Cap true false (Z.land (c_perms gdc0) (u64 global_pointer_permissions))
  (c_otype gdc0) (c_base gdc0) (c_len gdc0) (c_off gdc0).
Definition pcc : cap := Cap true false (Z.land (c_perms pcc0) (u64 function_pointer_permissions))
  (c_otype pcc0) (c_base pcc0) (c_len pcc0) (c_off pcc0).

Context (Hroots : roots_ok).

Lemma dest_range r : fits r -> 0 <= dest r /\ dest r + psize <= 2 ^ 64.
Proof.
  intros [[[Hl _] _ _ _ _] _ Hr _]. destruct Hroots as [_ _ _ [_ _ [Hb _] _ _] Ht _ _].
  unfold dest in *. lia.
Qed.

Lemma store_dest_ok r c c' m : fits r -> c = c' -> c_tag c' = true ->
  store_cap psize m (with_off gdc (capability_location r)) 0 (cap_bytes c, c_tag c)
  = Ok (put_cap m (dest r) (cap_bytes c') true).
Proof.
  intros Hf -> Htag. rewrite Htag. pose proof (dest_range r Hf) as Hd. destruct Hf as [[Hl _ _ _ _] Hal Hr _].
  assert (Ha : at_off (with_off gdc (capability_location r)) 0 = dest r).
  { unfold at_off, c_addr, dest, psize, word in *; simpl. rewrite Z.add_0_r, wrap_wrap, wrap_add_r.
    apply wrap_small; lia. }
  unfold store_cap. rewrite Ha. unfold access_ok, usable, c_top; simpl. rewrite Hal.
  destruct Hroots as [_ Hs Hsc _ _ _ _].
  rewrite !has_perm_and by done. unfold dest, c_top, word in *.
  by rewrite !(proj2 (Z.leb_le _ _)) by lia.
Qed.

Lemma init_one_ok r reloc a m :
  readable reloc a 40 -> c_addr reloc = a -> a mod 8 = 0 -> read_bytes m a 40 = record_bytes r ->
  fits r ->
  init_one gdc pcc reloc m = Ok (put_cap m (dest r) (cap_bytes (global_cap gdc0 pcc0 r)) true).
Proof.
  intros Hrd Ha Hal Hb Hf.
  destruct (fields_ok m reloc a r Hrd Ha Hal Hb (f_words _ Hf)) as (E1 & E2 & E3 & E4 & E5).
  unfold init_one. rewrite E5. cbn [res_bind]. rewrite is_function_flag. fold (is_function r).
  rewrite E1. cbn [res_bind cheri_offset_set gdc c_tag c_sealed andb]. rewrite E2. cbn [res_bind].
  fold gdc pcc. pose proof (f_words _ Hf) as [_ Ho Hof Hsz _].
  assert (Hsrc : cheri_offset_set (if is_function r then pcc else gdc) (object r)
    = Ok (with_off (if is_function r then pcc else gdc) (object r))) by by destruct (is_function r).
  rewrite Hsrc, E4, E3. cbn [res_bind]. clear Hsrc.
  assert (Hc : forall c, c_sealed c = false -> cheri_offset_increment c (offset r) = Ok (with_off c (c_off c + offset r))).
  { intros c Hc. unfold cheri_offset_increment, cheri_offset_set. by rewrite Hc, andb_false_r. }
  unfold global_cap. destruct (is_function r) eqn:Hfun; [|case_match eqn:Hz].
  - cbn [res_bind]. rewrite Hc by done. apply store_dest_ok; [done| |done].
    unfold with_off; simpl. by rewrite wrap_add_l.
  - cbn [res_bind]. rewrite Hc by done. apply store_dest_ok; [done| |done].
    unfold with_off; simpl. by rewrite wrap_add_l.
  - apply Z.eqb_neq in Hz. pose proof (f_object _ Hf Hfun Hz) as Hob.
    destruct Hroots as [_ _ _ [_ _ Hba _ _] Ht _ _]. unfold word in *.
    assert (Had : c_addr (with_off gdc (object r)) = c_base gdc0 + object r).
    { unfold c_addr; simpl. rewrite wrap_add_r. apply wrap_small. unfold c_top in *. lia. }
    unfold cheri_bounds_set. rewrite Had. unfold usable, c_top in *; cbn [with_off gdc c_tag c_sealed c_base c_len].
    rewrite !(proj2 (Z.leb_le _ _)) by lia. cbn [andb negb res_bind]. rewrite Hc by done.
    apply store_dest_ok; [done| |done]. unfold with_off; simpl.
    rewrite (wrap_small 64 (c_base gdc0 + object r)) by lia. f_equal. by apply wrap_small.
Qed.

(** the memory after the records, stored in order *)
Definition store_global (m : mem) (r : capreloc) : mem :=
  put_cap m (dest r) (cap_bytes (global_cap gdc0 pcc0 r)) true.

Definition init_mem (rs : list capreloc) (m : mem) : mem := foldl store_global m rs.

Lemma store_global_byte m r x : x < dest r \/ dest r + psize <= x ->
  read_byte (store_global m r) x = read_byte m x.
Proof. intros Hx. unfold store_global, put_cap. rewrite read_byte_put_out; [done|]. by rewrite cap_bytes_length. Qed.

Lemma read_bytes_ext m m' a n :
  (forall x, a <= x < a + Z.of_nat n -> read_byte m' x = read_byte m x) ->
  read_bytes m' a n = read_bytes m a n.
Proof.
  revert a; induction n as [|n IH]; intros a H; simpl; [done|].
  rewrite H, IH by (intros; first [apply H; lia|lia]). done.
Qed.

(** the records from [a] on are out of the way of the capabilities *)
Definition clear_of (rs : list capreloc) (a n : Z) : Prop :=
  Forall (fun r => dest r + psize <= a \/ a + n <= dest r) rs.

Definition at_relocs (m : mem) (reloc stop : cap) (a : Z) (rs : list capreloc) : Prop :=
  let n := 40 * Z.of_nat (length rs) in
  readable reloc a n /\ c_addr reloc = a /\ a mod 8 = 0
  /\ c_tag stop = true /\ c_addr stop = a + n
  /\ holds_records m a rs /\ clear_of rs a n.

Lemma at_relocs_step m reloc stop a r rs :
  fits r -> at_relocs m reloc stop a (r :: rs) ->
  exists reloc', cheri_offset_increment reloc sizeof_capreloc = Ok reloc'
    /\ at_relocs (store_global m r) reloc' stop (a + 40) rs.
Proof.
  unfold at_relocs. cbn [length]. intros Hf (Hr & Ha & Hal & Hst & Hsa & Hh & Hc).
  exists (with_off reloc (c_off reloc + 40)).
  rewrite offset_increment_usable by apply Hr. split; [done|].
  destruct Hr as [Hu Hl Hb Ht Hw]. unfold clear_of in Hc. apply Forall_cons in Hc as [Hc1 Hc2].
  assert (Ha' : c_addr (with_off reloc (c_off reloc + 40)) = a + 40).
  { rewrite c_addr_with_off, Ha. apply wrap_small. lia. }
  split; [split; try done; unfold c_top in *; simpl; lia|].
  split; [done|]. split; [mlia|]. split; [done|]. split; [lia|]. split.
  - intros i r' Hi. rewrite <- (Hh (S i) r' Hi). pose proof (lookup_lt_Some _ _ _ Hi).
    replace (a + 40 * Z.of_nat (S i)) with (a + 40 + 40 * Z.of_nat i) by lia.
    apply read_bytes_ext. intros x Hx. apply store_global_byte. lia.
  - eapply Forall_impl; [exact Hc2|]. simpl. intros; lia.
Qed.

Lemma init_loop_ok stop rs : Forall fits rs -> forall fuel m reloc a, (length rs <= fuel)%nat ->
  at_relocs m reloc stop a rs -> init_loop fuel gdc pcc reloc stop m = Ok (init_mem rs m).
Proof.
  induction 1 as [|r rs Hf Hfs IH]; intros fuel m reloc a Hfuel Hat;
    pose proof Hat as (Hr & Ha & Hal & Hst & Hsa & Hh & Hc);
    pose proof (rd_usable _ _ _ Hr) as [Htag _]%andb_true_iff.
  - assert (E : cap_ltb reloc stop = false).
    { unfold cap_ltb. rewrite Htag, Hst. apply Z.ltb_ge. simpl in Hsa. lia. }
    destruct fuel; simpl; by rewrite E.
  - destruct fuel as [|fuel]; simpl in Hfuel; [lia|]. cbn [init_loop].
    assert (E : cap_ltb reloc stop = true).
    { unfold cap_ltb. rewrite Htag, Hst. apply Z.ltb_lt. simpl in Hsa. lia. }
    rewrite E. rewrite (init_one_ok r reloc a); [| |done|done| |done].
    + cbn [res_bind]. fold (store_global m r).
      destruct (at_relocs_step _ _ _ _ _ _ Hf Hat) as (reloc' & -> & Hat'). cbn [res_bind].
      rewrite (IH fuel _ _ (a + 40)); [done|lia|done].
    + destruct Hr as [? ? ? ? ?]. split; try done; cbn [length] in *; lia.
    + rewrite <- (Hh 0%nat r eq_refl). f_equal. lia.
Qed.

(** ** What the stores leave *)

Definition distinct (rs : list capreloc) : Prop := NoDup (map dest rs).

Lemma init_mem_byte rs : forall m x, Forall (fun r => x < dest r \/ dest r + psize <= x) rs ->
  read_byte (init_mem rs m) x = read_byte m x.
Proof.
  induction rs as [|r rs IH]; intros m x Hx; [done|].
  apply Forall_cons in Hx as [H1 H2]. simpl. rewrite IH by done. by apply store_global_byte.
Qed.

Lemma init_mem_tag rs : forall m g, has_tag (init_mem rs m) g = bool_decide (g ∈ map dest rs) || has_tag m g.
Proof.
  clear Hroots. induction rs as [|r rs IH]; intros m g; [done|]. cbn [init_mem foldl map]. fold (init_mem rs (store_global m r)).
  rewrite IH. apply Bool.eq_iff_eq_true. unfold has_tag, store_global, put_cap; cbn [m_tags].
  rewrite !orb_true_iff, !bool_decide_eq_true. rewrite elem_of_cons. set_solver.
Qed.

Lemma init_mem_global rs : Forall fits rs -> distinct rs -> forall m r, r ∈ rs ->
  read_bytes (init_mem rs m) (dest r) 32 = cap_bytes (global_cap gdc0 pcc0 r).
Proof.
  induction 1 as [|r' rs Hf Hfs IH]; intros Hd m r Hr; [by apply elem_of_nil in Hr|].
  unfold distinct in Hd. apply NoDup_cons in Hd as [Hn Hd].
  cbn [init_mem foldl]. fold (init_mem rs (store_global m r')).
  apply elem_of_cons in Hr as [->|Hr]; [|by apply IH].
  rewrite (read_bytes_ext (store_global m r')).
  - rewrite <- (cap_bytes_length (global_cap gdc0 pcc0 r')) at 1. apply read_bytes_put.
  - intros x Hx. apply init_mem_byte. rewrite Forall_forall in Hfs |- *. intros r Hr.
    assert (dest r <> dest r').
    { intros He. apply Hn. rewrite <- He. apply list_elem_of_fmap. by exists r. }
    pose proof (f_aligned _ Hf). pose proof (f_aligned _ (Hfs r Hr)). unfold psize in *. mlia.
Qed.

Lemma global_cap_wf r : fits r -> cap_wf (global_cap gdc0 pcc0 r).
Proof.
  intros Hf. destruct Hroots as [_ _ _ [Hp1 Ho1 Hb1 Hl1 _] Ht _ [Hp2 Ho2 Hb2 Hl2 _]].
  assert (Hand : forall p q, 0 <= p < 2 ^ 31 -> 0 <= Z.land p (u64 q) < 2 ^ 31).
  { intros p q Hp. rewrite <- (Z.mod_small p (2 ^ 31)) by done. rewrite <- Z.land_ones by lia.
    rewrite <- Z.land_assoc, (Z.land_comm (Z.ones 31)), Z.land_assoc, Z.land_ones by lia.
    by apply Z.mod_pos_bound. }
  pose proof (f_words _ Hf) as [_ _ Hof Hsz _]. unfold global_cap.
  repeat case_match; split; simpl; try done; try (by apply Hand); by apply wrap_range.
Qed.

End correct.

(** the records are between the linker's symbols; without any record the
    symbols, which are weak, may both be null *)
Definition relocs_given (gdc0 : cap) (m : mem) (start_relocs stop_relocs : cap) (rs : list capreloc) : Prop :=
  (rs = [] /\ start_relocs = stop_relocs) \/ exists a, at_relocs gdc0 m start_relocs stop_relocs a rs.

Lemma perms_and_root c p : usable c = true ->
  cheri_perms_and c p = Ok (Cap true false (Z.land (c_perms c) p) (c_otype c) (c_base c) (c_len c) (c_off c)).
Proof. intros Hu. unfold cheri_perms_and. by rewrite Hu. Qed.

Lemma crt_init_globals_ok fuel gdc0 pcc0 start_relocs stop_relocs rs m :
  roots_ok gdc0 pcc0 -> Forall (fits gdc0) rs -> relocs_given gdc0 m start_relocs stop_relocs rs ->
  (length rs <= fuel)%nat ->
  crt_init_globals fuel gdc0 pcc0 start_relocs stop_relocs m = Ok (init_mem gdc0 pcc0 rs m).
Proof.
  intros Hroots Hf Hg Hfuel. unfold crt_init_globals.
  rewrite !perms_and_root by apply Hroots. cbn [res_bind].
  destruct Hg as [[-> ->]|[a Ha]].
  - assert (E : cap_ltb stop_relocs stop_relocs = false).
    { unfold cap_ltb. rewrite Z.ltb_irrefl. by destruct (c_tag stop_relocs). }
    destruct fuel; simpl; by rewrite E.
  - by apply (init_loop_ok gdc0 pcc0 Hroots stop_relocs rs Hf fuel m start_relocs a).
Qed.

Lemma init_mem_cap gdc0 pcc0 rs m r :
  roots_ok gdc0 pcc0 -> Forall (fits gdc0) rs -> distinct gdc0 rs -> r ∈ rs ->
  let m' := init_mem gdc0 pcc0 rs m in
  cap_of_bytes (read_bytes m' (dest gdc0 r) 32) (has_tag m' (dest gdc0 r)) = global_cap gdc0 pcc0 r.
Proof.
  intros Hroots Hf Hd Hr m'. unfold m'. rewrite init_mem_global by done. rewrite init_mem_tag.
  rewrite bool_decide_eq_true_2; [cbn [orb]|by apply list_elem_of_fmap_2].
  pose proof (proj1 (Forall_forall _ _) Hf r Hr) as Hfr.
  etrans; [|by apply cap_of_bytes_of_cap, global_cap_wf].
  f_equal. unfold global_cap. by repeat case_match.
Qed.

(** C2: on the records the linker leaves, in fuel as many rounds as there are
    records, the start-up code returns without a trap; afterwards every
    location holds a valid capability, exactly the one its record asks for
    (bounded to a sized object, pointing at the given offset), and no other
    byte and no other tag of memory has changed. *)
Theorem crt_init_globals_correct fuel gdc0 pcc0 start_relocs stop_relocs rs m :
  roots_ok gdc0 pcc0 -> Forall (fits gdc0) rs -> distinct gdc0 rs ->
  relocs_given gdc0 m start_relocs stop_relocs rs -> (length rs <= fuel)%nat ->
  exists m', crt_init_globals fuel gdc0 pcc0 start_relocs stop_relocs m = Ok m'
    /\ (forall r, r ∈ rs ->
         cap_of_bytes (read_bytes m' (dest gdc0 r) 32) (has_tag m' (dest gdc0 r)) = global_cap gdc0 pcc0 r)
    /\ (forall x, (forall r, r ∈ rs -> x < dest gdc0 r \/ dest gdc0 r + psize <= x) ->
         read_byte m' x = read_byte m x)
    /\ (forall g, (forall r, r ∈ rs -> g <> dest gdc0 r) -> has_tag m' g = has_tag m g).
Proof.
  intros Hroots Hf Hd Hg Hfuel. exists (init_mem gdc0 pcc0 rs m).
  split; [by apply crt_init_globals_ok|]. split; [intros; by apply init_mem_cap|]. split.
  - intros x Hx. apply init_mem_byte. by apply Forall_forall.
  - intros g Hx. rewrite init_mem_tag. rewrite bool_decide_eq_false_2; [done|].
    intros (r & -> & Hr)%list_elem_of_fmap. by apply (Hx r).
Qed.

(** the authority of a capability is part of another's *)
Definition within (c root : cap) : Prop :=
  c_base root <= c_base c /\ c_top c <= c_top root /\ Z.land (c_perms c) (c_perms root) = c_perms c.

(** C19: no capability the start-up code makes has more authority than the root
    it comes from: data capabilities stay within the global data and cannot be
    executed, function capabilities stay within the program's code and can
    store neither data nor capabilities. *)
Theorem crt_init_globals_confined fuel gdc0 pcc0 start_relocs stop_relocs rs m :
  roots_ok gdc0 pcc0 -> Forall (fits gdc0) rs -> distinct gdc0 rs ->
  relocs_given gdc0 m start_relocs stop_relocs rs -> (length rs <= fuel)%nat ->
  exists m', crt_init_globals fuel gdc0 pcc0 start_relocs stop_relocs m = Ok m'
    /\ forall r, r ∈ rs ->
       let c := cap_of_bytes (read_bytes m' (dest gdc0 r) 32) (has_tag m' (dest gdc0 r)) in
       if is_function r
       then within c pcc0 /\ Z.land (c_perms c) PERMIT_STORE = 0 /\ Z.land (c_perms c) PERMIT_STORE_CAPABILITY = 0
       else within c gdc0 /\ Z.land (c_perms c) PERMIT_EXECUTE = 0.
Proof.
  intros Hroots Hf Hd Hg Hfuel. exists (init_mem gdc0 pcc0 rs m).
  split; [by apply crt_init_globals_ok|]. intros r Hr c. unfold c. rewrite init_mem_cap by done.
  pose proof (proj1 (Forall_forall _ _) Hf r Hr) as Hfr.
  assert (Hsub : forall p q, Z.land (Z.land p q) p = Z.land p q).
  { intros p q. by rewrite Z.land_comm, Z.land_assoc, Z.land_diag. }
  unfold global_cap, within, c_top. destruct (is_function r) eqn:Hfun; [|case_match eqn:Hz];
    cbn [c_base c_len c_perms]; rewrite Hsub, <- ?Z.land_assoc.
  - rewrite !Z.land_0_r. repeat split; lia.
  - rewrite Z.land_0_r. repeat split; lia.
  - apply Z.eqb_neq in Hz. pose proof (f_object _ _ Hfr Hfun Hz) as Hob.
    destruct (f_words _ _ Hfr) as [_ Ho _ Hs _]. destruct Hroots as [_ _ _ [_ _ Hb _ _] Ht _ _].
    unfold word, c_top in *. rewrite Z.land_0_r, wrap_small by lia. repeat split; lia.
Qed.

(** ** strlen of a C string in memory *)

Lemma strlen_loop_ok m s : Forall (fun b => b <> 0) s -> forall fuel p a,
  (length s <= fuel)%nat -> readable p a (Z.of_nat (length s) + 1) -> c_addr p = a ->
  read_bytes m a (length s) = s -> read_byte m (a + Z.of_nat (length s)) = 0 ->
  exists q, strlen_loop fuel m p = Ok q /\ c_addr q = a + Z.of_nat (length s).
Proof.
  induction 1 as [|b s Hb Hs IH]; intros fuel p a Hfuel Hr Ha Hm Hz; cbn [length] in *.
  - exists p. split; [|lia].
    assert (E : load_data m p 0 1 = Ok [0]).
    { rewrite (readable_load m p a 1) by (first [done|lia|mlia]).
      change (Z.to_nat 1) with 1%nat. cbn [read_bytes]. do 2 f_equal. exact Hz. }
    destruct fuel; simpl; by rewrite E.
  - destruct fuel as [|fuel]; [lia|].
    simpl in Hm. injection Hm as Hm0 Hm. cbn [strlen_loop].
    rewrite (readable_load m p a (Z.of_nat (S (length s)) + 1)) by (first [done|lia|mlia]).
    cbn [res_bind]. change (Z.to_nat 1) with 1%nat. cbn [read_bytes]. rewrite Z.add_0_r, Hm0.
    change (be_value [b]) with b. rewrite (proj2 (Z.eqb_neq b 0) Hb).
    rewrite offset_increment_usable by apply Hr. cbn [res_bind].
    destruct (IH fuel (with_off p (c_off p + 1)) (a + 1)) as (q & Hq & Hqa).
    + lia.
    + destruct Hr. split; try done; unfold c_top in *; simpl; lia.
    + rewrite c_addr_with_off, Ha. apply wrap_small. destruct Hr. lia.
    + done.
    + rewrite <- Hz. f_equal. lia.
    + exists q. split; [done|]. lia.
Qed.

(** [strlen] of a string whose characters and final NUL can be read through
    the pointer, and nothing more, returns its length without a trap, in as
    many rounds as it has characters. *)
Theorem strlen_correct fuel m str s :
  Forall (fun b => b <> 0) s -> (length s <= fuel)%nat ->
  readable str (c_addr str) (Z.of_nat (length s) + 1) ->
  read_bytes m (c_addr str) (length s) = s -> read_byte m (c_addr str + Z.of_nat (length s)) = 0 ->
  strlen fuel m str = Ok (Z.of_nat (length s)).
Proof.
  intros Hs Hfuel Hr Hm Hz. unfold strlen.
  destruct (strlen_loop_ok m s Hs fuel str _ Hfuel Hr eq_refl Hm Hz) as (q & -> & Hq).
  cbn [res_bind]. rewrite Hq. f_equal. destruct Hr as [_ _ _ _ [? ?]].
  replace (c_addr str + Z.of_nat (length s) - c_addr str) with (Z.of_nat (length s)) by lia.
  apply wrap_small. lia.
Qed.

(** ** A program with a bounded global and a function *)

Definition sample_relocs : list capreloc :=
  [ Capreloc 0x10000 0x20000 8 64 0; Capreloc 0x10020 0x9000 4 100 (2 ^ 63) ].

Definition sample_mem : mem :=
  Mem (put_bytes ∅ 0x1000 (concat (map record_bytes sample_relocs))) ∅.

Lemma sample_roots : roots_ok ddc ddc.
Proof. split; try done; split; vm_compute; repeat split; congruence. Qed.

Lemma sample_fits : Forall (fits ddc) sample_relocs.
Proof.
  repeat apply Forall_cons_2; [| |by apply Forall_nil_2];
    (split; [split; vm_compute; repeat split; congruence|done|vm_compute; congruence|]);
    intros; vm_compute in *; congruence.
Qed.

Lemma sample_distinct : distinct ddc sample_relocs.
Proof. refine (bool_decide_unpack _ _). vm_compute. exact I. Qed.

Lemma sample_given :
  relocs_given ddc sample_mem (with_off ddc 0x1000) (with_off ddc 0x1050) sample_relocs.
Proof.
  right. exists 0x1000. split; [split; vm_compute; repeat split; congruence|].
  do 4 (split; [done|]). split.
  - intros i r Hi. do 2 (destruct i as [|i]; [injection Hi as <-; by vm_compute|]). done.
  - repeat apply Forall_cons_2; [| |by apply Forall_nil_2]; right; vm_compute; congruence.
Qed.

Lemma crt_init_globals_correct_witness : exists m',
  crt_init_globals 2 ddc ddc (with_off ddc 0x1000) (with_off ddc 0x1050) sample_mem = Ok m'
  /\ cap_of_bytes (read_bytes m' 0x10000 32) (has_tag m' 0x10000)
     = Cap true false (PERMS_ALL - PERMIT_EXECUTE) 0 0x20000 64 8.
Proof.
  destruct (crt_init_globals_correct 2 ddc ddc (with_off ddc 0x1000) (with_off ddc 0x1050)
    sample_relocs sample_mem sample_roots sample_fits sample_distinct sample_given) as (m' & Hrun & Hc & _).
  - vm_compute; lia.
  - exists m'. split; [exact Hrun|].
    exact (Hc (Capreloc 0x10000 0x20000 8 64 0) ltac:(by apply list_elem_of_here)).
Defined.

Lemma crt_init_globals_confined_witness : exists m',
  crt_init_globals 2 ddc ddc (with_off ddc 0x1000) (with_off ddc 0x1050) sample_mem = Ok m'
  /\ Z.land (c_perms (cap_of_bytes (read_bytes m' 0x10020 32) (has_tag m' 0x10020))) PERMIT_STORE = 0.
Proof.
  destruct (crt_init_globals_confined 2 ddc ddc (with_off ddc 0x1000) (with_off ddc 0x1050)
    sample_relocs sample_mem sample_roots sample_fits sample_distinct sample_given) as (m' & Hrun & Hc).
  - vm_compute; lia.
  - exists m'. split; [exact Hrun|].
    exact (proj1 (proj2 (Hc (Capreloc 0x10020 0x9000 4 100 (2 ^ 63))
      ltac:(apply list_elem_of_further, list_elem_of_here)))).
Defined.

Lemma strlen_correct_witness :
  strlen 3 (Mem (put_bytes ∅ 0x2000 [99; 97; 112; 0]) ∅) (Cap true false PERMIT_LOAD 0 0x2000 4 0) = Ok 3.
Proof.
  refine (strlen_correct 3 (Mem (put_bytes ∅ 0x2000 [99; 97; 112; 0]) ∅)
    (Cap true false PERMIT_LOAD 0 0x2000 4 0) [99; 97; 112] _ _ _ _ _).
  - repeat constructor; lia.
  - simpl; lia.
  - split; vm_compute; repeat split; congruence.
  - reflexivity.
  - reflexivity.
Defined.
