(* ===== verification/IntMath.v ===== *)
(** * IntMath: integer arithmetic, on words and on capabilities.

    [clang_purecap_uintcapmath.c] is one test compiled four times: for the
    integer types of 64 bits and for [__intcap_t] and [__uintcap_t], the
    integers that are held in a capability, whose arithmetic is on the offset.
    The test is written against a class of C integer types; the four types are
    its instances.  INCLUDE_XFAIL is not defined: the statements it adds for the
    types held in capabilities are the ones the source expects to fail or not
    to build, and they are compiled for the real integers only. *)

From S2P Require Import Prelude CheriMem.

(** ** C integer types *)

Class CInt (T : Type) := {
  c_of : Z -> T;                  (* conversion of a value of another integer type *)
  c_long : T -> Z;                (* [(long)x] *)
  c_add : T -> T -> res T;
  c_sub : T -> T -> res T;
  c_mul : T -> T -> res T;
  c_div : T -> T -> res T;
  c_mod : T -> T -> res T;
  c_and : T -> T -> res T;
  c_or : T -> T -> res T;
  c_xor : T -> T -> res T;
  c_shl : T -> T -> res T;
  c_shr : T -> T -> res T;
  c_not : T -> res T;
  c_neg : T -> res T;
  c_lt : T -> T -> bool;
  c_eq : T -> T -> bool;
  c_true : T -> bool;             (* the value as a condition *)
  c_real : bool;                  (* whether the test defines _TEST_REAL_INTS for it *)
}.

(** the arithmetic of 64-bit integers: signed overflow is undefined, unsigned
    wraps; a shift count must be below the width, a divisor not zero *)
Definition in_type (signed : bool) (z : Z) : Prop :=
  if signed then - 2 ^ 63 <= z < 2 ^ 63 else 0 <= z < 2 ^ 64.

#[export] Instance in_type_dec signed z : Decision (in_type signed z).
Proof. destruct signed; unfold in_type; apply _. Defined.

Definition norm (signed : bool) (z : Z) : Z := if signed then sgn 64 z else u64 z.

Definition arith (signed : bool) (z : Z) : res Z :=
  if signed then if decide (in_type true z) then Ok z else Err EUndef else Ok (u64 z).

Definition div_op (q : Z -> Z -> Z) (a b : Z) : res Z := if b =? 0 then Err EDivZero else Ok (q a b).

Definition shift_op (sh : Z -> Z -> Z) (a b : Z) : res Z :=
  if (0 <=? b) && (b <? 64) then Ok (sh a b) else Err EUndef.

(** [__int64_t] and [__uint64_t] *)
Definition real_int (signed : bool) : CInt Z := {|
  c_of := norm signed;
  c_long := sgn 64;
  c_add a b := arith signed (a + b);
  c_sub a b := arith signed (a - b);
  c_mul a b := arith signed (a * b);
  c_div a b := let* v := div_op Z.quot a b in arith signed v;
  c_mod a b := let* v := div_op Z.rem a b in arith signed v;
  c_and a b := Ok (Z.land a b);
  c_or a b := Ok (Z.lor a b);
  c_xor a b := Ok (Z.lxor a b);
  c_shl a b := let* v := shift_op Z.shiftl a b in arith signed v;
  c_shr a b := shift_op Z.shiftr a b;
  c_not a := Ok (norm signed (Z.lnot a));
  c_neg a := arith signed (- a);
  c_lt := Z.ltb;
  c_eq := Z.eqb;
  c_true a := negb (a =? 0);
  c_real := true;
|}.

(** the integer an untagged capability holds *)
Definition cap_int_value (signed : bool) (c : cap) : Z := norm signed (c_off c).

(** [__intcap_t] and [__uintcap_t]: the operation is made on the offsets, and
    its result becomes the offset of the left operand *)
Definition on_offset (signed : bool) (f : Z -> Z -> res Z) (a b : cap) : res cap :=
  let* v := f (cap_int_value signed a) (cap_int_value signed b) in cheri_offset_set a v.

Definition cap_int (signed : bool) : CInt cap := {|
  c_of z := cap_of_int z;
  c_long c := sgn 64 (c_off c);
  c_add := on_offset signed (fun a b => Ok (a + b));
  c_sub := on_offset signed (fun a b => Ok (a - b));
  c_mul := on_offset signed (fun a b => Ok (a * b));
  c_div := on_offset signed (div_op Z.quot);
  c_mod := on_offset signed (div_op Z.rem);
  c_and := on_offset signed (fun a b => Ok (Z.land a b));
  c_or := on_offset signed (fun a b => Ok (Z.lor a b));
  c_xor := on_offset signed (fun a b => Ok (Z.lxor a b));
  c_shl := on_offset signed (shift_op Z.shiftl);
  c_shr := on_offset signed (shift_op Z.shiftr);
  c_not a := cheri_offset_set a (Z.lnot (cap_int_value signed a));
  c_neg a := cheri_offset_set a (- cap_int_value signed a);
  c_lt a b := cap_int_value signed a <? cap_int_value signed b;
  c_eq a b := cap_eqb a b;
  c_true a := negb (cap_eqb a null_cap);
  c_real := false;
|}.

(** ** The test *)

Section test.
Context {T : Type} {ops : CInt T}.
(** [signed] for _TEST_SIGNED *)
Context (signed : bool).

Definition zero := c_of 0.
Definition one := c_of 1.
Definition onehundred := c_of 100.
Definition twofivesix := c_of 256.

(** [assert_eq(target, n)] *)
Definition assert_is (r : res T) (n : Z) : res T :=
  let* target := r in let* _ := c_assert (c_long target =? n) in Ok target.

Definition c_gt (a b : T) : bool := c_lt b a.
Definition c_le (a b : T) : bool := negb (c_lt b a).
Definition c_ge (a b : T) : bool := negb (c_lt a b).
Definition c_ne (a b : T) : bool := negb (c_eq a b).

Definition increments : res unit :=
  let* target := assert_is (Ok (c_of 100)) 100 in
  let* target := assert_is (c_sub target (c_of 1)) 99 in
  let* _ := c_assert (c_lt target onehundred) in
  let* target := assert_is (c_sub target (c_of 1)) 98 in
  let* _ := c_assert (c_lt target (c_of 99)) in
  let* target := assert_is (Ok onehundred) 100 in
  let* target := assert_is (c_add target (c_of 1)) 101 in
  let* target := assert_is (c_add target (c_of 1)) 102 in
  c_assert (c_gt target onehundred).

Definition comparisons : res unit :=
  let* _ := c_assert (c_gt (c_of 1000) onehundred) in
  let* _ := c_assert (c_lt (c_of 1) onehundred) in
  let* _ := c_assert (c_ge (c_of 1000) onehundred) in
  let* _ := c_assert (c_ge onehundred (c_of 1)) in
  let* _ := c_assert (c_ge twofivesix onehundred) in
  let* _ := c_assert (c_le (c_of 1) one) in
  let* _ := c_assert (c_le one (c_of 2)) in
  let* _ := c_assert (c_le onehundred twofivesix) in
  let* _ := c_assert (c_ne (c_of 2) one) in
  let* _ := c_assert (c_ne one (c_of 3)) in
  let* _ := c_assert (c_ne onehundred twofivesix) in
  let* _ := c_assert (negb (c_true zero)) in
  let* _ := c_assert (c_true one && true) in
  let* _ := c_assert (true && c_true onehundred) in
  let* _ := c_assert (c_true one && c_true twofivesix) in
  let* _ := c_assert (c_true one || true) in
  let* _ := c_assert (false || c_true one) in
  c_assert (c_true zero || c_true onehundred).

Definition additions : res unit :=
  let* _ := assert_is (c_add onehundred (c_of 2)) 102 in
  let* _ := assert_is (c_add (c_of 3) onehundred) 103 in
  let* _ := assert_is (c_add one onehundred) 101 in
  let* _ := assert_is (c_add onehundred (c_of 5)) 105 in
  let* _ := assert_is (c_sub onehundred (c_of 2)) 98 in
  let* _ := assert_is (c_sub (c_of 105) onehundred) 5 in
  let* _ := assert_is (c_sub onehundred one) 99 in
  let* _ := assert_is (c_sub onehundred (c_of 6)) 94 in
  Ok tt.

(** statements compiled only under a condition *)
Definition only (b : bool) (m : res unit) : res unit := if b then m else Ok tt.

Definition shifts : res unit :=
  let* _ := only c_real (let* _ := assert_is (Ok (c_of (Z.shiftl 1 (c_long one)))) 2 in Ok tt) in
  let* _ := assert_is (c_shl one (c_of 2)) 4 in
  let* _ := assert_is (c_shl twofivesix one) 512 in
  let* _ := assert_is (c_shl (c_of 1) one) 2 in
  let* _ := only c_real (let* _ := assert_is (Ok (c_of (Z.shiftr 2 (c_long one)))) 1 in Ok tt) in
  let* _ := assert_is (c_shr one (c_of 1)) 0 in
  let* _ := assert_is (c_shr twofivesix one) 128 in
  let* _ := assert_is (c_shr (c_of 2) one) 1 in
  Ok tt.

(** [assert_eq((uint64_t)target, n)] with an unsigned constant *)
Definition assert_u64 (r : res T) (n : Z) : res unit :=
  let* target := r in c_assert (sgn 64 (u64 (c_long target)) =? sgn 64 n).

Definition complements : res unit :=
  only c_real (
    let* _ := assert_u64 (c_not zero) 0xffffffffffffffff in
    assert_u64 (let* d := c_sub (c_of 2) one in c_not d) 0xfffffffffffffffe).

Definition bitwise : res unit :=
  let* _ := assert_is (c_and one (c_of 1)) 1 in
  let* _ := assert_is (c_and (c_of 256) twofivesix) (c_long twofivesix) in
  let* _ := assert_is (c_and one twofivesix) 0 in
  let* _ := assert_is (c_and (c_of 1) one) 1 in
  let* _ := assert_is (c_or one (c_of 2)) 0x3 in
  let* _ := assert_is (c_or (c_of 8) one) 0x9 in
  let* _ := assert_is (c_or one twofivesix) 0x101 in
  let* _ := assert_is (c_or (c_of 0) one) 1 in
  let* _ := assert_is (c_xor one (c_of 1)) 0 in
  let* _ := assert_is (c_xor (c_of 2) one) 0x3 in
  let* _ := assert_is (c_xor one twofivesix) 0x101 in
  let* _ := assert_is (c_xor (c_of 1) one) 0 in
  Ok tt.

Definition multiplications : res unit :=
  let* _ := assert_is (c_mul twofivesix (c_of 2)) 512 in
  let* _ := assert_is (c_mul (c_of 2) onehundred) 200 in
  let* _ := assert_is (c_mul onehundred twofivesix) 25600 in
  let* _ := assert_is (c_mul (c_of 2) onehundred) 200 in
  let* _ := assert_is (c_div twofivesix (c_of 2)) 128 in
  let* _ := assert_is (c_div (c_of 1024) twofivesix) 4 in
  let* _ := assert_is (c_div twofivesix onehundred) 2 in
  let* _ := assert_is (c_div (c_of 1000) onehundred) 10 in
  let* _ := assert_is (c_mod twofivesix (c_of 200)) 56 in
  let* _ := assert_is (c_mod one (c_of 99)) 1 in
  let* _ := assert_is (c_mod onehundred twofivesix) 100 in
  let* _ := assert_is (c_mod (c_of 105) onehundred) 5 in
  Ok tt.

Definition conditionals : res unit :=
  let* _ := assert_is (Ok (if c_true zero then one else c_of 2)) 2 in
  let* _ := assert_is (Ok (if c_true one then c_of 3 else onehundred)) 3 in
  let* _ := assert_is (Ok onehundred) 100 in
  Ok tt.

Definition negations : res unit :=
  only signed (
    let minusfive := c_of (-5) in
    let* _ := assert_is (Ok minusfive) (-5) in
    let* _ := assert_is (c_neg minusfive) 5 in
    let* _ := assert_is (c_neg one) (-1) in
    Ok tt).

Definition uintcapmath : res unit :=
  let* _ := increments in
  let* _ := comparisons in
  let* _ := additions in
  let* _ := shifts in
  let* _ := complements in
  let* _ := bitwise in
  let* _ := multiplications in
  let* _ := conditionals in
  negations.
End test.

(** the four programs *)
Definition clang_purecap_uintcapmath := uintcapmath (ops := cap_int false) false.
Definition clang_purecap_intcapmath := uintcapmath (ops := cap_int true) true.
Definition clang_purecap_int64math := uintcapmath (ops := real_int true) true.
Definition clang_purecap_uint64math := uintcapmath (ops := real_int false) false.

(** ** What an integer type promises *)

Inductive binop := Add | Sub | Mul | Div | Mod | And | Or | Xor | Shl | Shr.

Definition c_bin {T} {ops : CInt T} (op : binop) : T -> T -> res T :=
  match op with
  | Add => c_add | Sub => c_sub | Mul => c_mul | Div => c_div | Mod => c_mod
  | And => c_and | Or => c_or | Xor => c_xor | Shl => c_shl | Shr => c_shr
  end.

(** the mathematical result, and whether C defines one *)
Definition bin_value (op : binop) : Z -> Z -> Z :=
  match op with
  | Add => Z.add | Sub => Z.sub | Mul => Z.mul | Div => Z.quot | Mod => Z.rem
  | And => Z.land | Or => Z.lor | Xor => Z.lxor | Shl => Z.shiftl | Shr => Z.shiftr
  end.

Definition bin_defined (op : binop) (b : Z) : bool :=
  match op with
  | Div | Mod => negb (b =? 0)
  | Shl | Shr => (0 <=? b) && (b <? 64)
  | _ => true
  end.

(** [rep x z]: the value of [x] is [z].  An operation whose result is in the
    type's range yields it; a complement is taken in 64 bits. *)
Class CIntLaws (T : Type) {ops : CInt T} (signed : bool) (rep : T -> Z -> Prop) : Prop := {
  law_of z : in_type signed z -> rep (c_of z) z;
  law_long x z : rep x z -> c_long x = sgn 64 z;
  law_bin op x y a b : rep x a -> rep y b -> bin_defined op b = true ->
    in_type signed (bin_value op a b) -> exists r, c_bin op x y = Ok r /\ rep r (bin_value op a b);
  law_not x a : rep x a -> exists r, c_not x = Ok r /\ rep r (norm signed (Z.lnot a));
  law_neg x a : rep x a -> in_type signed (- a) -> exists r, c_neg x = Ok r /\ rep r (- a);
  law_lt x y a b : rep x a -> rep y b -> c_lt x y = (a <? b);
  law_eq x y a b : rep x a -> rep y b -> c_eq x y = (a =? b);
  law_true x a : rep x a -> c_true x = negb (a =? 0);
}.

Lemma sgn64_range z : - 2 ^ 63 <= sgn 64 z < 2 ^ 63.
Proof. by apply (sgn_range 64). Qed.

Lemma sgn_u64 z : sgn 64 (u64 z) = sgn 64 z.
Proof. unfold sgn. by rewrite wrap_wrap. Qed.

Lemma sgn64_small z : - 2 ^ 63 <= z < 2 ^ 63 -> sgn 64 z = z.
Proof. by apply (sgn_small 64). Qed.

Lemma norm_in signed z : in_type signed (norm signed z).
Proof. destruct signed; [apply sgn64_range|by apply wrap_range]. Qed.

Lemma norm_id signed z : in_type signed z -> norm signed z = z.
Proof. destruct signed; [apply sgn64_small|apply wrap_small]. Qed.

Lemma u64_norm signed z : u64 (norm signed z) = u64 z.
Proof.
  destruct signed; unfold norm; [|apply wrap_wrap]. unfold sgn. cbv zeta. case_match; [apply wrap_wrap|].
  rewrite wrap_sub_l. apply (wrap_add_mult 64 z (-1)). lia.
Qed.

Lemma arith_ok signed z : in_type signed z -> arith signed z = Ok z.
Proof.
  intros Hz. destruct signed; simpl.
  - by rewrite decide_True.
  - f_equal. by apply wrap_small.
Qed.

Lemma in_type_small signed z : 0 <= z < 2 ^ 63 -> in_type signed z.
Proof. destruct signed; unfold in_type; lia. Qed.

(** *** The words *)

Definition real_rep (signed : bool) (x z : Z) : Prop := x = z /\ in_type signed z.

#[export] Instance real_int_laws signed : CIntLaws Z (ops := real_int signed) signed (real_rep signed).
Proof.
  split; unfold real_rep.
  - intros z Hz. split; [by apply norm_id|done].
  - by intros x z [-> _].
  - intros op x y a b [-> Ha] [-> Hb] Hdef Hr. exists (bin_value op a b). split; [|done].
    destruct op; cbn in *; unfold div_op, shift_op; rewrite ?Hdef;
      try (by apply arith_ok); try done.
    + apply negb_true_iff in Hdef. rewrite Hdef. by apply arith_ok.
    + apply negb_true_iff in Hdef. rewrite Hdef. by apply arith_ok.
  - intros x a [-> Ha]. eexists. split; [done|]. split; [done|apply norm_in].
  - intros x a [-> Ha] Hr. eexists. split; [by apply arith_ok|done].
  - by intros x y a b [-> _] [-> _].
  - by intros x y a b [-> _] [-> _].
  - by intros x a [-> _].
Qed.

(** *** The capabilities *)

Definition cap_rep (signed : bool) (x : cap) (z : Z) : Prop := x = cap_of_int z /\ in_type signed z.

Lemma cap_value_of signed z : in_type signed z -> cap_int_value signed (cap_of_int z) = z.
Proof.
  intros Hz. unfold cap_int_value, cap_of_int, with_off; simpl.
  destruct signed; simpl; [by rewrite sgn_u64, sgn64_small|].
  rewrite wrap_wrap. by apply wrap_small.
Qed.

Lemma offset_set_int z v : cheri_offset_set (cap_of_int z) v = Ok (cap_of_int v).
Proof. done. Qed.

Lemma u64_inj signed a b : in_type signed a -> in_type signed b -> u64 a = u64 b -> a = b.
Proof.
  intros Ha Hb H. rewrite <- (norm_id signed a), <- (norm_id signed b) by done.
  destruct signed; simpl; [|done]. by rewrite <- (sgn_u64 a), <- (sgn_u64 b), H.
Qed.

Lemma cap_eqb_int signed a b : in_type signed a -> in_type signed b ->
  cap_eqb (cap_of_int a) (cap_of_int b) = (a =? b).
Proof.
  intros Ha Hb. unfold cap_eqb, c_addr.
  cbn [cap_of_int with_off null_cap c_base c_off c_tag Bool.eqb andb]. rewrite !Z.add_0_l, !wrap_wrap.
  destruct (a =? b) eqn:E; rewrite ?Z.eqb_eq, ?Z.eqb_neq in E.
  - subst. apply Z.eqb_refl.
  - apply Z.eqb_neq. intros H. apply E. by apply (u64_inj signed).
Qed.

#[export] Instance cap_int_laws signed : CIntLaws cap (ops := cap_int signed) signed (cap_rep signed).
Proof.
  split; unfold cap_rep.
  - done.
  - intros x z [-> Hz]. simpl. by rewrite sgn_u64.
  - intros op x y a b [-> Ha] [-> Hb] Hdef Hr. exists (cap_of_int (bin_value op a b)).
    split; [|done].
    destruct op; cbn in Hdef |- *; unfold on_offset; rewrite !cap_value_of by done;
      unfold div_op, shift_op; try (apply negb_true_iff in Hdef); rewrite ?Hdef; done.
  - intros x a [-> Ha]. eexists. simpl. rewrite offset_set_int, cap_value_of by done.
    split; [done|]. split; [|apply norm_in].
    unfold cap_of_int, with_off. f_equal. by rewrite u64_norm.
  - intros x a [-> Ha] Hr. eexists. simpl. rewrite offset_set_int, cap_value_of by done. done.
  - intros x y a b [-> Ha] [-> Hb]. simpl. by rewrite !cap_value_of.
  - intros x y a b [-> Ha] [-> Hb]. by apply (cap_eqb_int signed).
  - intros x a [-> Ha]. simpl. f_equal. apply (cap_eqb_int signed a 0); [done|].
    apply in_type_small. lia.
Qed.

(** ** The test passes on every type that keeps the promises *)

Section passes.
Context {T : Type} {ops : CInt T} {signed : bool} {rep : T -> Z -> Prop} {laws : CIntLaws T signed rep}.

Lemma rep_small z : 0 <= z < 2 ^ 63 -> rep (c_of z) z.
Proof. intros Hz. apply law_of. by apply in_type_small. Qed.

(** one assertion on the result of an operation, in front of the rest *)
Lemma assert_bin op {A} x y a b n (k : T -> res A) R : rep x a -> rep y b -> bin_defined op b = true ->
  0 <= bin_value op a b < 2 ^ 63 -> sgn 64 (bin_value op a b) = n ->
  (forall r, rep r (bin_value op a b) -> k r = R) ->
  (let* r := assert_is (c_bin op x y) n in k r) = R.
Proof.
  intros Hx Hy Hd Hr Hn Hk.
  destruct (law_bin op x y a b Hx Hy Hd (in_type_small signed _ Hr)) as (r & Hop & Hrep).
  unfold assert_is. rewrite Hop. cbn [res_bind].
  rewrite (law_long r _ Hrep), Hn, Z.eqb_refl. by apply Hk.
Qed.

Lemma assert_val {A} x z n (k : T -> res A) R : rep x z -> sgn 64 z = n -> k x = R ->
  (let* r := assert_is (Ok x) n in k r) = R.
Proof.
  intros Hx Hn <-. unfold assert_is. cbn [res_bind]. by rewrite (law_long x z Hx), Hn, Z.eqb_refl.
Qed.

Lemma assert_lt {A} x y a b (k : unit -> res A) R : rep x a -> rep y b -> (a <? b) = true ->
  k tt = R -> (let* u := c_assert (c_lt x y) in k u) = R.
Proof. intros Hx Hy Hab Hk. by rewrite (law_lt x y a b Hx Hy), Hab. Qed.

Ltac reps := first [eassumption | apply rep_small; lia].
Ltac decided := vm_compute; first [done | split; congruence].

(** run one assertion *)
Ltac op_step op := eapply (assert_bin op); [reps|reps|decided|decided|decided|intros ? ?].
Ltac step :=
  lazymatch goal with
  | |- (let* _ := assert_is (c_add _ _) _ in _) = _ => op_step Add
  | |- (let* _ := assert_is (c_sub _ _) _ in _) = _ => op_step Sub
  | |- (let* _ := assert_is (c_mul _ _) _ in _) = _ => op_step Mul
  | |- (let* _ := assert_is (c_div _ _) _ in _) = _ => op_step Div
  | |- (let* _ := assert_is (c_mod _ _) _ in _) = _ => op_step Mod
  | |- (let* _ := assert_is (c_and _ _) _ in _) = _ => op_step And
  | |- (let* _ := assert_is (c_or _ _) _ in _) = _ => op_step Or
  | |- (let* _ := assert_is (c_xor _ _) _ in _) = _ => op_step Xor
  | |- (let* _ := assert_is (c_shl _ _) _ in _) = _ => op_step Shl
  | |- (let* _ := assert_is (c_shr _ _) _ in _) = _ => op_step Shr
  | |- (let* _ := assert_is (Ok _) _ in _) = _ => eapply assert_val; [reps|decided|]
  | |- (let* _ := c_assert (c_lt _ _) in _) = _ => eapply assert_lt; [reps|reps|decided|]
  end.

(** evaluate the comparisons *)
Ltac compare :=
  unfold c_gt, c_le, c_ge, c_ne;
  repeat (erewrite law_lt; [|reps|reps]);
  repeat (erewrite law_eq; [|reps|reps]);
  repeat (erewrite law_true; [|reps]);
  try reflexivity.

Lemma increments_ok : increments (T := T) = Ok tt.
Proof. unfold increments, onehundred. repeat step. compare. Qed.

Lemma comparisons_ok : comparisons (T := T) = Ok tt.
Proof. unfold comparisons, zero, one, onehundred, twofivesix. compare. Qed.

Lemma additions_ok : additions (T := T) = Ok tt.
Proof. unfold additions, one, onehundred. repeat step. done. Qed.

Lemma long_one : c_long (one (T := T)) = 1.
Proof. unfold one. rewrite (law_long _ 1) by reps. done. Qed.

Lemma shifts_ok : shifts (T := T) = Ok tt.
Proof.
  unfold shifts. rewrite long_one. change (Z.shiftl 1 1) with 2. change (Z.shiftr 2 1) with 1.
  assert (Hr : forall n, 0 <= n < 2 ^ 31 ->
    only c_real (let* _ := assert_is (Ok (c_of (T := T) n)) n in Ok tt) = Ok tt).
  { intros n Hn. destruct c_real; [|done]. eapply (assert_val _ n); [apply rep_small; lia| |done].
    apply sgn64_small. lia. }
  unfold one, twofivesix in *. rewrite Hr by lia. cbn [res_bind]. repeat step.
  rewrite Hr by lia. cbn [res_bind]. repeat step. done.
Qed.

Lemma assert_not x a n : rep x a -> sgn 64 (u64 (sgn 64 (norm signed (Z.lnot a)))) = sgn 64 n ->
  assert_u64 (c_not x) n = Ok tt.
Proof.
  intros Hx Hn. unfold assert_u64. destruct (law_not x a Hx) as (r & -> & Hr). cbn [res_bind].
  rewrite (law_long r _ Hr). by rewrite Hn, Z.eqb_refl.
Qed.

Lemma complements_ok : complements (T := T) = Ok tt.
Proof.
  unfold complements. destruct c_real; [|done]. cbn [only]. unfold zero, one.
  rewrite (assert_not _ 0); [cbn [res_bind]|reps|by destruct signed].
  destruct (law_bin Sub (c_of 2) (c_of 1) 2 1) as (d & Hd & Hrep); [reps|reps|done| |].
  { apply in_type_small. cbn. lia. }
  cbn [c_bin] in Hd. rewrite Hd. cbn [res_bind]. apply (assert_not _ 1); [done|by destruct signed].
Qed.

Lemma bitwise_ok : bitwise (T := T) = Ok tt.
Proof.
  unfold bitwise. assert (Hl : c_long (twofivesix (T := T)) = 256).
  { unfold twofivesix. by rewrite (law_long _ 256) by reps. }
  rewrite Hl. unfold one, twofivesix. repeat step. done.
Qed.

Lemma multiplications_ok : multiplications (T := T) = Ok tt.
Proof. unfold multiplications, one, onehundred, twofivesix. repeat step. done. Qed.

Lemma conditionals_ok : conditionals (T := T) = Ok tt.
Proof.
  unfold conditionals, zero, one, onehundred.
  rewrite (law_true (c_of 0) 0), (law_true (c_of 1) 1) by reps.
  change (negb (0 =? 0)) with false. change (negb (1 =? 0)) with true. cbv iota. repeat step. done.
Qed.

Lemma negations_ok b : b = signed -> negations (T := T) b = Ok tt.
Proof.
  unfold negations. destruct b; intros Hs; [|done]. cbn [only]. unfold one.
  assert (Hin : forall z, - 2 ^ 63 <= z < 2 ^ 63 -> in_type signed z) by (by rewrite <- Hs).
  assert (Hneg : forall x a n, rep x a -> - 2 ^ 31 <= a < 2 ^ 31 -> n = - a ->
    forall k : T -> res unit, (forall r, k r = Ok tt) -> (let* r := assert_is (c_neg x) n in k r) = Ok tt).
  { intros x a n Hx Ha -> k Hk. destruct (law_neg x a Hx) as (r & -> & Hr); [apply Hin; lia|].
    eapply (assert_val _ (- a)); [done|apply sgn64_small; lia|apply Hk]. }
  assert (H5 : rep (c_of (-5)) (-5)) by (apply law_of, Hin; lia).
  eapply assert_val; [exact H5|done|].
  eapply (Hneg _ (-5)); [exact H5|lia|done|intros _].
  eapply (Hneg _ 1); [apply law_of, Hin; lia|lia|done|done].
Qed.

(** C38: on every integer type that keeps the promises of [CIntLaws], real or held
    in a capability, signed or not, no assertion of the test that is compiled for it
    fails and no operation of it is undefined or traps. *)
Theorem uintcapmath_passes : uintcapmath (T := T) signed = Ok tt.
Proof.
  unfold uintcapmath.
  rewrite increments_ok, comparisons_ok, additions_ok, shifts_ok, complements_ok, bitwise_ok.
  cbn [res_bind]. rewrite multiplications_ok, conditionals_ok. cbn [res_bind]. by apply negations_ok.
Qed.
End passes.

Lemma uintcapmath_passes_witness :
  clang_purecap_uintcapmath = Ok tt /\ clang_purecap_intcapmath = Ok tt
  /\ clang_purecap_int64math = Ok tt /\ clang_purecap_uint64math = Ok tt.
Proof.
  split; [|split; [|split]].
  - exact (uintcapmath_passes (laws := cap_int_laws false)).
  - exact (uintcapmath_passes (laws := cap_int_laws true)).
  - exact (uintcapmath_passes (laws := real_int_laws true)).
  - exact (uintcapmath_passes (laws := real_int_laws false)).
Defined.

Lemma arith_cap signed z v : arith signed z = Ok v -> cap_of_int z = cap_of_int v.
Proof.
  unfold arith. destruct signed; [case_decide; [by intros [= ->]|done]|].
  intros [= <-]. unfold cap_of_int, with_off. f_equal. by rewrite wrap_wrap.
Qed.

(** The integers held in capabilities compute like the words: whenever an
    operation on words of the same signedness is defined, the one on
    capabilities does not trap, and its offset is the word's result. *)
Theorem cap_int_agrees signed op a b v :
  in_type signed a -> in_type signed b ->
  c_bin (ops := real_int signed) op a b = Ok v ->
  c_bin (ops := cap_int signed) op (cap_of_int a) (cap_of_int b) = Ok (cap_of_int v).
Proof.
  intros Ha Hb. destruct op; cbn -[arith cap_of_int cheri_offset_set]; unfold on_offset; rewrite !cap_value_of by done; unfold div_op, shift_op;
    try (match goal with |- context [if ?c then _ else _] => destruct c end);
    cbn [res_bind]; rewrite ?offset_set_int; try done;
    first [by intros ->%arith_cap | by intros [= ->]].
Qed.

Lemma cap_int_agrees_witness :
  c_bin (ops := cap_int false) Sub (cap_of_int 3) (cap_of_int 5) = Ok (cap_of_int (2 ^ 64 - 2)).
Proof.
  refine (cap_int_agrees false Sub 3 5 (2 ^ 64 - 2) _ _ _); [unfold in_type; lia|unfold in_type; lia|reflexivity].
Defined.
