(* ===== verification/Machine.v ===== *)
(** * Machine: C programs that survive capability exceptions.

    The programs under [cheri-c-tests/] run with the handler that [test_setup]
    installs (TestRuntime): an access that fails a capability check calls
    [test_fault_handler] with the cause and is then skipped, so that its
    destination keeps what it held.  This file is the monad such programs are
    written in: a state of memory, the counter [faults] and the handler, over
    the results of the prelude.  Undefined behaviour, failed assertions and
    exceptions that nothing handles are errors. *)

From S2P Require Import Prelude CheriMem.

(** ** Causes: those of [cheri_c_test.h], and the one of a call *)

Definition cheri_fault_length := 1.
Definition cheri_fault_tag := 2.
Definition cheri_fault_seal := 3.
Definition cheri_fault_execute := 0x11.
Definition cheri_fault_load := 0x12.
Definition cheri_fault_store := 0x13.
Definition cheri_fault_load_capability := 0x14.
Definition cheri_fault_store_capability := 0x16.

(** ** The state and the monad *)

Record machine := Machine {
  ms : mem;
  faults : Z;
  test_fault_handler : Z -> Z -> res Z;     (* cause and [faults] to [faults] *)
}.

(** the handler installed at the start *)
Definition default_handler (cause n : Z) : res Z := Ok (n + 1).

(** a program at its start *)
Definition start (m : mem) : machine := Machine m 0 default_handler.

Definition M (A : Type) : Type := machine -> res (A * machine).

#[export] Instance M_ret : MRet M := fun A a s => Ok (a, s).
#[export] Instance M_bind : MBind M := fun A B k m s => let* (a, s) := m s in k a s.

Definition lift {A} (r : res A) : M A := fun s => let* a := r in Ok (a, s).
Definition m_assert (b : bool) : M unit := lift (c_assert b).

(** [XFAIL(b)]: an assertion, or nothing without INCLUDE_XFAIL *)
Definition XFAIL (include_xfail b : bool) : M unit := if include_xfail then m_assert b else mret tt.
Definition get_faults : M Z := fun s => Ok (faults s, s).
Definition set_handler (h : Z -> Z -> res Z) : M unit := fun s => Ok (tt, Machine (ms s) (faults s) h).
Definition set_mem (m : mem) (s : machine) : machine := Machine m (faults s) (test_fault_handler s).

(** a skipped instruction *)
Definition fault (cause : Z) : M unit := fun s =>
  let* n := test_fault_handler s cause (faults s) in Ok (tt, Machine (ms s) n (test_fault_handler s)).

(** [for (i = lo; i < hi; i++) body] *)
Fixpoint m_loop (n : nat) (i : Z) (body : Z -> M unit) : M unit :=
  match n with
  | O => mret tt
  | S n' => body i ;; m_loop n' (i + 1) body
  end.
Definition m_for (lo hi : Z) (body : Z -> M unit) : M unit := m_loop (Z.to_nat (hi - lo)) lo body.

(** ** Accesses *)

Definition perm_cause (perm : Z) : Z :=
  if perm =? PERMIT_EXECUTE then cheri_fault_execute
  else if perm =? PERMIT_LOAD then cheri_fault_load
  else if perm =? PERMIT_STORE then cheri_fault_store
  else if perm =? PERMIT_LOAD_CAPABILITY then cheri_fault_load_capability
  else cheri_fault_store_capability.

(** the first check that fails, in the order of the processor *)
Definition check_cause (c : cap) (perms : list Z) (a k : Z) : option Z :=
  if negb (c_tag c) then Some cheri_fault_tag
  else if c_sealed c then Some cheri_fault_seal
  else match List.find (fun p => negb (has_perm (c_perms c) p)) perms with
       | Some p => Some (perm_cause p)
       | None =>
           if (c_base c <=? a) && (a + k <=? c_top c) then None else Some cheri_fault_length
       end.

(** an access of [k] bytes at byte offset [t]; an unaligned one is an exception
    that the handler does not get *)
Definition access {A} (p : cap) (perms : list Z) (t k : Z) (ok : Z -> M A) (skipped : A) : M A :=
  let a := at_off p t in
  match check_cause p perms a k with
  | Some cause => fault cause ;; mret skipped
  | None => if a mod k =? 0 then ok a else lift (Err ETrap)
  end.

Section psize.
Context (psize : Z).     (* sizeof(void * __capability) *)

(** [p[t]], an integer of [k] bytes; [stale] is what the register holds *)
Definition load (p : cap) (t k stale : Z) : M Z :=
  access p [PERMIT_LOAD] t k (fun a s => Ok (be_value (read_bytes (ms s) a (Z.to_nat k)), s)) stale.

Definition store (p : cap) (t k v : Z) : M unit :=
  access p [PERMIT_STORE] t k (fun a s =>
    Ok (tt, set_mem (put_data psize (ms s) a (be_bytes (Z.to_nat k) v)) s)) tt.

Definition load_c (p : cap) (t : Z) (stale : cap) : M cap :=
  access p [PERMIT_LOAD; PERMIT_LOAD_CAPABILITY] t psize (fun a s =>
    Ok (cap_of_bytes (read_bytes (ms s) a (Z.to_nat psize)) (has_tag (ms s) a), s)) stale.

Definition store_c (p : cap) (t : Z) (c : cap) : M unit :=
  access p [PERMIT_STORE; PERMIT_STORE_CAPABILITY] t psize (fun a s =>
    Ok (tt, set_mem (put_cap (ms s) a (cap_bytes c) (c_tag c)) s)) tt.
End psize.

(** a call through a function pointer: the body is what the address holds *)
Definition call (f : cap) (body : M unit) : M unit :=
  match check_cause f [PERMIT_EXECUTE] (c_addr f) 4 with
  | Some cause => fault cause
  | None => body
  end.

(** a function pointer whose call is no exception *)
Record callable (f : cap) : Prop := {
  cl_usable : usable f = true;
  cl_execute : has_perm (c_perms f) PERMIT_EXECUTE = true;
  cl_range : c_base f <= c_addr f /\ c_addr f + 4 <= c_top f;
}.

(** ** Total correctness *)

Definition wp {A} (m : M A) (Q : A -> machine -> Prop) (s : machine) : Prop :=
  match m s with
  | Ok (a, s') => Q a s'
  | Err _ => False
  end.

Lemma wp_ret {A} (a : A) Q s : Q a s -> wp (mret a) Q s.
Proof. done. Qed.

Lemma wp_bind {A B} (m : M A) (k : A -> M B) Q s :
  wp m (fun a s' => wp (k a) Q s') s -> wp (m ≫= k) Q s.
Proof. unfold wp, mbind, M_bind. by destruct (m s) as [[a s']|]. Qed.

Lemma wp_mono {A} (m : M A) (P Q : A -> machine -> Prop) s :
  wp m P s -> (forall a s', P a s' -> Q a s') -> wp m Q s.
Proof. unfold wp. destruct (m s) as [[a s']|]; auto. Qed.

Lemma wp_lift {A} (a : A) Q s : Q a s -> wp (lift (Ok a)) Q s.
Proof. done. Qed.

Lemma wp_assert b (Q : unit -> machine -> Prop) s : b = true -> Q tt s -> wp (m_assert b) Q s.
Proof. by intros ->. Qed.

Lemma wp_call f body Q s : callable f -> wp body Q s -> wp (call f body) Q s.
Proof.
  intros [Hu Hx [Hb Ht]] HQ. unfold call, check_cause. unfold usable in Hu. apply andb_true_iff in Hu as [-> Hs].
  apply negb_true_iff in Hs. rewrite Hs. cbn [negb List.find]. rewrite Hx. cbn [negb].
  by rewrite !(proj2 (Z.leb_le _ _)).
Qed.

Lemma wp_XFAIL x b Q s : (x = true -> b = true) -> Q tt s -> wp (XFAIL x b) Q s.
Proof. intros Hb HQ. destruct x; [by apply wp_assert; [apply Hb|]|exact HQ]. Qed.

Lemma wp_faults (Q : Z -> machine -> Prop) s : Q (faults s) s -> wp get_faults Q s.
Proof. done. Qed.

Lemma wp_set_handler h (Q : unit -> machine -> Prop) s : Q tt (Machine (ms s) (faults s) h) -> wp (set_handler h) Q s.
Proof. done. Qed.

Lemma wp_fault cause n (Q : unit -> machine -> Prop) s :
  test_fault_handler s cause (faults s) = Ok n ->
  Q tt (Machine (ms s) n (test_fault_handler s)) -> wp (fault cause) Q s.
Proof. unfold wp, fault. by intros ->. Qed.

(** an invariant of the body, indexed by the loop variable, holds at the end *)
Lemma wp_for (P : Z -> machine -> Prop) lo hi body (Q : unit -> machine -> Prop) s :
  lo <= hi -> P lo s ->
  (forall i s, lo <= i < hi -> P i s -> wp (body i) (fun _ => P (i + 1)) s) ->
  (forall s, P hi s -> Q tt s) -> wp (m_for lo hi body) Q s.
Proof.
  intros Hle H0 Hstep HQ. unfold m_for.
  assert (Hgen : forall n i s, lo <= i -> i + Z.of_nat n = hi -> P i s -> wp (m_loop n i body) Q s).
  { induction n as [|n IH]; intros i s1 Hi Hn H1; simpl.
    - apply HQ. by replace hi with i by lia.
    - apply wp_bind. eapply wp_mono; [apply Hstep; [lia|done]|].
      intros [] s2 H2. apply IH; [lia|lia|done]. }
  apply Hgen; [lia|lia|done].
Qed.

(** *** Accesses that pass the checks, and accesses that are skipped *)

(** [k] bytes at offset [t] can be accessed *)
Record allowed (p : cap) (perms : list Z) (t k : Z) : Prop := {
  al_usable : usable p = true;
  al_perms : forallb (has_perm (c_perms p)) perms = true;
  al_base : c_base p <= c_addr p + t;
  al_top : c_addr p + t + k <= c_top p;
  al_range : 0 <= c_addr p + t < 2 ^ 64;
  al_aligned : (c_addr p + t) mod k = 0;
}.

Lemma allowed_at p perms t k : allowed p perms t k -> at_off p t = c_addr p + t.
Proof. intros [_ _ _ _ Hr _]. by apply wrap_small. Qed.

Lemma find_perms perms l : forallb (has_perm perms) l = true ->
  List.find (fun p => negb (has_perm perms p)) l = None.
Proof.
  induction l as [|x l IH]; [done|]. simpl. intros [Hx Hl]%andb_true_iff. rewrite Hx. by apply IH.
Qed.

Lemma wp_access {A} p perms t k (ok : Z -> M A) skipped Q s : allowed p perms t k ->
  wp (ok (c_addr p + t)) Q s -> wp (access p perms t k ok skipped) Q s.
Proof.
  intros Hal Hok. unfold access. rewrite (allowed_at _ _ _ _ Hal).
  destruct Hal as [Hu Hp Hb Ht _ Ha]. unfold usable in Hu.
  apply andb_true_iff in Hu as [Htag Hs]. unfold check_cause.
  rewrite Htag, (find_perms _ _ Hp). apply negb_true_iff in Hs. rewrite Hs. cbn [negb].
  rewrite (proj2 (Z.leb_le _ _)), (proj2 (Z.leb_le _ _)) by lia. cbn [andb].
  by rewrite Ha.
Qed.

Lemma wp_skip {A} p perms t k (ok : Z -> M A) skipped cause n (Q : A -> machine -> Prop) s :
  check_cause p perms (at_off p t) k = Some cause ->
  test_fault_handler s cause (faults s) = Ok n ->
  Q skipped (Machine (ms s) n (test_fault_handler s)) -> wp (access p perms t k ok skipped) Q s.
Proof.
  intros Hc Hf HQ. unfold access. rewrite Hc. apply wp_bind. by eapply wp_fault.
Qed.

(** ** Integers in memory *)

Definition peek (m : mem) (a : Z) (k : nat) : Z := be_value (read_bytes m a k).

Lemma peek_ext m m' a k :
  (forall x, a <= x < a + Z.of_nat k -> read_byte m' x = read_byte m x) -> peek m' a k = peek m a k.
Proof.
  intros H. unfold peek. f_equal. apply list_eq_same_length with (n := k); rewrite ?length_read_bytes; auto.
  intros i x z Hi. rewrite !lookup_read_bytes by done. rewrite H by lia. congruence.
Qed.

Section poke.
Context (psize : Z).

Definition poke (m : mem) (a : Z) (k : nat) (v : Z) : mem := put_data psize m a (be_bytes k v).

Lemma peek_poke m a k v : peek (poke m a k v) a k = v mod 256 ^ Z.of_nat k.
Proof.
  unfold peek, poke, put_data. generalize (read_bytes_put (m_bytes m) (m_tags m ∖ {[granule psize a]}) a (be_bytes k v)).
  rewrite length_be_bytes. intros ->. apply be_value_bytes.
Qed.

Lemma read_byte_poke m a k v x : x < a \/ a + Z.of_nat k <= x -> read_byte (poke m a k v) x = read_byte m x.
Proof. intros Hx. unfold poke, put_data. rewrite read_byte_put_out; [done|]. by rewrite length_be_bytes. Qed.

Lemma peek_poke_other m a k v b l : b + Z.of_nat l <= a \/ a + Z.of_nat k <= b ->
  peek (poke m a k v) b l = peek m b l.
Proof. intros H. apply peek_ext. intros x Hx. apply read_byte_poke. lia. Qed.

(** [load] and [store] in terms of them *)
Lemma wp_load p t k stale (Q : Z -> machine -> Prop) s : allowed p [PERMIT_LOAD] t k ->
  Q (peek (ms s) (c_addr p + t) (Z.to_nat k)) s -> wp (load p t k stale) Q s.
Proof. intros Ha HQ. by apply wp_access. Qed.

Lemma wp_store p t k v (Q : unit -> machine -> Prop) s : allowed p [PERMIT_STORE] t k ->
  Q tt (set_mem (poke (ms s) (c_addr p + t) (Z.to_nat k) v) s) -> wp (store psize p t k v) Q s.
Proof. intros Ha HQ. by apply wp_access. Qed.

Lemma wp_load_c p t stale (Q : cap -> machine -> Prop) s :
  allowed p [PERMIT_LOAD; PERMIT_LOAD_CAPABILITY] t psize ->
  Q (cap_of_bytes (read_bytes (ms s) (c_addr p + t) (Z.to_nat psize)) (has_tag (ms s) (c_addr p + t))) s ->
  wp (load_c psize p t stale) Q s.
Proof. intros Ha HQ. by apply wp_access. Qed.

Lemma wp_store_c p t c (Q : unit -> machine -> Prop) s :
  allowed p [PERMIT_STORE; PERMIT_STORE_CAPABILITY] t psize ->
  Q tt (set_mem (put_cap (ms s) (c_addr p + t) (cap_bytes c) (c_tag c)) s) ->
  wp (store_c psize p t c) Q s.
Proof. intros Ha HQ. by apply wp_access. Qed.
End poke.

(** the value of an integer type of [k] bytes *)
Definition int_value (signed : bool) (k z : Z) : Z :=
  if signed then sgn (8 * k) z else wrap (8 * k) z.

Lemma int_value_small signed k z : 0 < k -> 0 <= z < 2 ^ (8 * k - 1) -> int_value signed k z = z.
Proof.
  intros Hk Hz. assert (2 ^ (8 * k) = 2 * 2 ^ (8 * k - 1)) as Hp.
  { rewrite <- Z.pow_succ_r by lia. f_equal. lia. }
  destruct signed; unfold int_value; [unfold sgn|]; rewrite ?wrap_small by lia; [|done].
  by rewrite (proj2 (Z.ltb_lt _ _)) by lia.
Qed.

Lemma pow256 k : 256 ^ Z.of_nat k = 2 ^ (8 * Z.of_nat k).
Proof. change 256 with (2 ^ 8). by rewrite <- Z.pow_mul_r by lia. Qed.

(** ** Capabilities in memory *)

(** the capability an address holds *)
Definition peek_c (m : mem) (a : Z) : cap := cap_of_bytes (read_bytes m a 32) (has_tag m a).

Lemma peek_put_cap m a c : cap_wf c -> peek_c (put_cap m a (cap_bytes c) (c_tag c)) a = c.
Proof.
  intros Hwf. unfold peek_c, put_cap.
  generalize (read_bytes_put (m_bytes m) (if c_tag c then {[a]} ∪ m_tags m else m_tags m ∖ {[a]}) a (cap_bytes c)).
  rewrite cap_bytes_length. intros ->.
  etrans; [|by apply cap_of_bytes_of_cap]. f_equal. unfold has_tag; cbn [m_tags].
  destruct (c_tag c).
  - apply bool_decide_eq_true, elem_of_union_l. by apply elem_of_singleton.
  - apply bool_decide_eq_false. intros [_ Hn]%elem_of_difference. by apply Hn, elem_of_singleton.
Qed.

Lemma peek_put_cap_other m a c k b : b + Z.of_nat k <= a \/ a + 32 <= b ->
  peek (put_cap m a (cap_bytes c) (c_tag c)) b k = peek m b k.
Proof.
  intros H. apply peek_ext. intros x Hx. unfold put_cap. rewrite read_byte_put_out; [done|].
  rewrite cap_bytes_length. lia.
Qed.

(** a data store elsewhere leaves a capability alone *)
Lemma peek_c_poke m a k v b : b mod 32 = 0 -> 0 < Z.of_nat k -> a / 32 = (a + Z.of_nat k - 1) / 32 ->
  a + Z.of_nat k <= b \/ b + 32 <= a -> peek_c (poke 32 m a k v) b = peek_c m b.
Proof.
  intros Hb Hk Hin Ho. unfold peek_c. f_equal.
  - apply list_eq_same_length with (n := 32%nat); rewrite ?length_read_bytes; auto.
    intros i x z Hi. rewrite !lookup_read_bytes by done. rewrite read_byte_poke by lia. congruence.
  - unfold has_tag, poke, put_data; cbn [m_tags]. apply bool_decide_ext.
    rewrite elem_of_difference, elem_of_singleton. unfold granule. split; [by intros [? _]|].
    intros Ht. split; [done|]. intros ->. revert Ho Hb. Z.div_mod_to_equations. lia.
Qed.

(** ** Capabilities by their permissions, bounds and offset *)

Definition pblk (perms base len off : Z) : cap := Cap true false perms 0 base len off.

(** with every permission, as integer pointers are given *)
Abbreviation blk := (pblk PERMS_ALL).

Lemma addr_blk perms base len off : 0 <= base + off < 2 ^ 64 -> c_addr (pblk perms base len off) = base + off.
Proof. apply wrap_small. Qed.

Lemma incr_blk perms base len off i :
  cheri_offset_increment (pblk perms base len off) i = Ok (pblk perms base len (u64 (off + i))).
Proof. done. Qed.

Lemma set_blk perms base len off o : cheri_offset_set (pblk perms base len off) o = Ok (pblk perms base len (u64 o)).
Proof. done. Qed.

Lemma bounds_blk perms base len off n : 0 <= base -> 0 <= off -> base + off < 2 ^ 64 -> off + n <= len ->
  cheri_bounds_set (pblk perms base len off) n = Ok (pblk perms (base + off) n 0).
Proof.
  intros Hb Ho Hw Hn. unfold cheri_bounds_set. rewrite addr_blk by lia.
  unfold c_top; cbn [pblk c_base c_len usable c_tag c_sealed negb andb c_perms c_otype].
  by rewrite !(proj2 (Z.leb_le _ _)) by lia.
Qed.

Lemma allowed_blk perms base len off ps t k :
  forallb (has_perm perms) ps = true -> 0 <= base -> 0 <= base + off < 2 ^ 64 ->
  0 <= off + t -> off + t + k <= len -> base + off + t < 2 ^ 64 -> (base + off + t) mod k = 0 ->
  allowed (pblk perms base len off) ps t k.
Proof.
  intros Hp Hb Ho Ht Hk Hw Hal. split; rewrite ?addr_blk by lia; try done; unfold c_top; simpl; lia.
Qed.

Lemma blk_wf perms base len off : 0 <= perms < 2 ^ 31 -> 0 <= base < 2 ^ 64 -> 0 <= len < 2 ^ 64 ->
  0 <= off < 2 ^ 64 -> cap_wf (pblk perms base len off).
Proof. intros Hp Hb Hl Ho. split; simpl; lia. Qed.

(** an access out of bounds *)
Lemma cause_length perms base len off ps a k :
  forallb (has_perm perms) ps = true -> a < base \/ base + len < a + k ->
  check_cause (pblk perms base len off) ps a k = Some cheri_fault_length.
Proof.
  intros Hp Ha. unfold check_cause. cbn [pblk c_tag c_sealed negb c_perms]. rewrite find_perms by done.
  unfold c_top; cbn [pblk c_base c_len].
  destruct (Z.leb_spec base a), (Z.leb_spec (a + k) (base + len)); done || lia.
Qed.

(** one past the end, even where the address wraps around *)
Lemma cause_past_end perms base len off ps t k :
  forallb (has_perm perms) ps = true -> 0 <= base -> 0 <= len -> base + len <= 2 ^ 64 -> 0 <= off + t < 2 ^ 64 ->
  len < off + t + k ->
  check_cause (pblk perms base len off) ps (at_off (pblk perms base len off) t) k = Some cheri_fault_length.
Proof.
  intros Hp Hb Hl0 Hl Ht Hk. apply cause_length; [done|]. unfold at_off, c_addr; cbn [pblk c_base c_off].
  rewrite wrap_add_l. destruct (decide (base + off + t < 2 ^ 64)).
  - rewrite wrap_small by lia. lia.
  - replace (base + off + t) with (base + off + t - 2 ^ 64 + 1 * 2 ^ 64) by lia.
    rewrite wrap_add_mult, wrap_small by lia. lia.
Qed.

(** an access without a permission *)
Lemma cause_perm perms base len off p ps a k : has_perm perms p = false ->
  check_cause (pblk perms base len off) (p :: ps) a k = Some (perm_cause p).
Proof. intros Hp. unfold check_cause. cbn. by rewrite Hp. Qed.

(** *** The capabilities of integer pointers *)

Lemma tocap_blk a : 0 < a < 2 ^ 64 -> cheri_tocap a = blk 0 (2 ^ 64 - 1) a.
Proof.
  intros Ha. unfold cheri_tocap, pblk. rewrite wrap_small by lia.
  rewrite (proj2 (Z.eqb_neq _ _)) by lia. unfold with_off, ddc; simpl. by rewrite wrap_small by lia.
Qed.

Lemma allowed_tocap a perms t k :
  forallb (has_perm PERMS_ALL) perms = true -> 0 < a -> 0 <= a + t -> 0 < k -> a + t + k <= 2 ^ 64 - 1 ->
  a < 2 ^ 64 -> (a + t) mod k = 0 -> allowed (cheri_tocap a) perms t k.
Proof. intros. rewrite tocap_blk by lia. by apply allowed_blk; lia || done. Qed.

Lemma addr_tocap a : 0 < a < 2 ^ 64 -> c_addr (cheri_tocap a) = a.
Proof. intros. by rewrite tocap_blk, addr_blk by lia. Qed.

Lemma ddc_blk : ddc = blk 0 (2 ^ 64 - 1) 0.
Proof. done. Qed.

Lemma allowed_ddc perms a k :
  forallb (has_perm PERMS_ALL) perms = true -> 0 <= a -> 0 < k -> a + k <= 2 ^ 64 - 1 -> a mod k = 0 ->
  allowed ddc perms a k.
Proof. intros. rewrite ddc_blk. by apply allowed_blk; lia || done. Qed.

(** *** The capabilities of variables

    A variable or array of [len] bytes at [a] is reached through a capability
    with exactly its bounds, which does not permit execution. *)

Definition PERMS_DATA := PERMS_ALL - PERMIT_EXECUTE.
Definition obj (a len : Z) : cap := pblk PERMS_DATA a len 0.

Lemma addr_obj a len : 0 <= a < 2 ^ 64 -> c_addr (obj a len) = a.
Proof. intros. unfold obj. rewrite addr_blk by lia. lia. Qed.

Lemma obj_wf a len : 0 < a -> 0 <= len -> a + len <= 2 ^ 64 - 1 -> cap_wf (obj a len).
Proof. intros. apply blk_wf; unfold PERMS_DATA, PERMS_ALL, PERMIT_EXECUTE; lia. Qed.

(** an object of [len] bytes that the linker or compiler has placed at [a] *)
Record placed (a len align : Z) : Prop := {
  pl_low : 0 < a;
  pl_high : a + len <= 2 ^ 64 - 1;
  pl_align : a mod align = 0;
}.

(** a capability store elsewhere leaves a capability alone *)
Lemma peek_c_put_cap_other m a c b : b + 32 <= a \/ a + 32 <= b ->
  peek_c (put_cap m a (cap_bytes c) (c_tag c)) b = peek_c m b.
Proof.
  intros Ho. unfold peek_c. f_equal.
  - apply list_eq_same_length with (n := 32%nat); rewrite ?length_read_bytes; auto.
    intros i x z Hi. rewrite !lookup_read_bytes by done. unfold put_cap.
    rewrite read_byte_put_out by (rewrite cap_bytes_length; lia).
    unfold read_byte; cbn [m_bytes]. congruence.
  - unfold has_tag, put_cap; cbn [m_tags]. apply bool_decide_ext. assert (b <> a) as Hne by lia.
    destruct (c_tag c); rewrite ?elem_of_union, ?elem_of_difference, elem_of_singleton; tauto.
Qed.

Lemma be_bytes_app n k z : be_bytes (n + k) z = be_bytes n (z / 256 ^ Z.of_nat k) ++ be_bytes k z.
Proof.
  revert z. induction k as [|k IH]; intros z.
  - rewrite Nat.add_0_r, Z.div_1_r. by rewrite app_nil_r.
  - rewrite Nat.add_succ_r. cbn [be_bytes]. rewrite IH, Z.div_div, <- app_assoc by lia.
    do 2 f_equal. rewrite Nat2Z.inj_succ, Z.pow_succ_r by lia. done.
Qed.

(** the low half of a big-endian doubleword *)
Lemma peek_poke_low m a v : peek (poke 32 m a 8 v) (a + 4) 4 = v mod 256 ^ 4.
Proof.
  assert (H : read_bytes (poke 32 m a 8 v) a 8 = be_bytes 8 v).
  { unfold poke, put_data. generalize (read_bytes_put (m_bytes m) (m_tags m ∖ {[granule 32 a]}) a (be_bytes 8 v)).
    by rewrite length_be_bytes. }
  change 8%nat with (4 + 4)%nat in H at 2 3. rewrite read_bytes_app, be_bytes_app in H.
  apply app_inj_1 in H as [_ H]; [|by rewrite length_read_bytes, length_be_bytes].
  unfold peek. change (a + 4) with (a + Z.of_nat 4). by rewrite H, be_value_bytes.
Qed.

(** [load_c] and [store_c] of 32-byte capabilities *)
Lemma wp_load_cap p t stale (Q : cap -> machine -> Prop) s :
  allowed p [PERMIT_LOAD; PERMIT_LOAD_CAPABILITY] t 32 -> Q (peek_c (ms s) (c_addr p + t)) s ->
  wp (load_c 32 p t stale) Q s.
Proof. intros Ha HQ. by apply wp_load_c. Qed.

Lemma peek_c_put_cap m a c b : cap_wf c -> b = a -> peek_c (put_cap m a (cap_bytes c) (c_tag c)) b = c.
Proof. intros ? ->. by apply peek_put_cap. Qed.

(** a data store inside a capability invalidates it *)
Lemma tag_poke m a k v b : granule 32 a = b -> c_tag (peek_c (poke 32 m a k v) b) = false.
Proof.
  intros <-. unfold peek_c, cap_of_bytes, has_tag, poke, put_data; cbn [c_tag m_tags].
  apply bool_decide_eq_false. intros [_ Hn]%elem_of_difference. by apply Hn, elem_of_singleton.
Qed.

(** ** Symbolic execution *)

(** a run that ends with result 0 and [n] faults taken *)
Definition passes (n : Z) (prog : M Z) (m : mem) : Prop :=
  wp prog (fun r s => r = 0 /\ faults s = n) (start m).

Ltac wp_step :=
  lazymatch goal with
  | |- wp (_ ≫= _) _ _ => apply wp_bind
  | |- wp (mret _) _ _ => apply wp_ret
  | |- wp (lift (Ok _)) _ _ => apply wp_lift
  | |- wp get_faults _ _ => apply wp_faults
  | |- wp (set_handler _) _ _ => apply wp_set_handler
  | |- wp (m_assert _) _ _ => apply wp_assert
  end.

(** an access through [pblk], inside its bounds *)
Ltac access_ok := apply allowed_blk; [reflexivity|lia|lia|lia|lia|lia|mlia].

(** addresses, as [base + constant] *)
Ltac addrs := rewrite ?addr_obj by lia; rewrite ?addr_blk by lia; rewrite ?Z.add_0_r; rewrite <- ?Z.add_assoc.

(** what memory holds after stores elsewhere *)
Ltac peeks :=
  unfold set_mem; cbn [ms faults test_fault_handler start];
  change (Z.to_nat 1) with 1%nat; change (Z.to_nat 2) with 2%nat; change (Z.to_nat 4) with 4%nat;
  change (Z.to_nat 8) with 8%nat; change (Z.to_nat 32) with 32%nat;
  repeat first
    [ rewrite peek_poke | rewrite peek_poke_other by lia | rewrite peek_put_cap_other by lia
    | rewrite peek_c_put_cap_other by lia | rewrite peek_c_poke by first [lia|mlia] ].

Ltac wp_mem_load := apply wp_load; [access_ok|addrs; peeks].
Ltac wp_mem_store := apply wp_store; [access_ok|addrs].
Ltac wp_mem_load_c := apply wp_load_cap; [access_ok|addrs; peeks].
Ltac wp_mem_store_c := apply wp_store_c; [access_ok|addrs].
