(* ===== verification/HybridFloat.v ===== *)
(** * HybridFloat: the clang-hybrid programs on floating point and packing.

    [clang_hybrid_load_double], [load_float] and [pack] of
    [cheri-c-tests/clang-hybrid], as programs of the monad of Machine.  Values
    are the binary floating-point numbers of the standard library's SpecFloat,
    decoded from the bytes of memory; a packed field is accessed byte by byte,
    as the unaligned instructions or the operating system do it. *)

From Stdlib Require Import SpecFloat.
From S2P Require Import Prelude CheriMem Machine.

(** ** Floating-point formats *)

Record format := Format {
  f_size : Z;       (* bytes *)
  f_ebits : Z;      (* bits of the exponent *)
}.

(** [double] and [float] *)
Definition DOUBLE := Format 8 11.
Definition FLOAT := Format 4 8.

Section format.
Context (f : format).

(** stored bits of the significand, and the parameters of SpecFloat *)
Definition f_mbits : Z := 8 * f_size f - 1 - f_ebits f.
Definition f_prec : Z := f_mbits + 1.
Definition f_emax : Z := 2 ^ (f_ebits f - 1).

Definition sf_of_bits (bits : Z) : spec_float :=
  let m := bits mod 2 ^ f_mbits in
  let e := bits / 2 ^ f_mbits mod 2 ^ f_ebits f in
  let s := Z.testbit bits (8 * f_size f - 1) in
  if e =? 0 then
    match m with Zpos p => S754_finite s p (emin f_prec f_emax) | _ => S754_zero s end
  else if e =? 2 ^ f_ebits f - 1 then
    if m =? 0 then S754_infinity s else S754_nan
  else
    match m + 2 ^ f_mbits with
    | Zpos p => S754_finite s p (e - 1 + emin f_prec f_emax)
    | _ => S754_nan
    end.

Definition sf_to_bits (x : spec_float) : Z :=
  let sign (s : bool) := Z.b2z s * 2 ^ (8 * f_size f - 1) in
  match x with
  | S754_zero s => sign s
  | S754_infinity s => sign s + (2 ^ f_ebits f - 1) * 2 ^ f_mbits
  | S754_nan => (2 ^ f_ebits f - 1) * 2 ^ f_mbits + 2 ^ (f_mbits - 1)
  | S754_finite s p e =>
      if Zpos p <? 2 ^ f_mbits then sign s + Zpos p
      else sign s + (e + 1 - emin f_prec f_emax) * 2 ^ f_mbits + (Zpos p - 2 ^ f_mbits)
  end.

(** a literal, and [+] *)
Definition real (n : Z) : spec_float := binary_normalize f_prec f_emax n 0 false.
Definition f_add : spec_float -> spec_float -> spec_float := SFadd f_prec f_emax.

(** conversion from another format *)
Definition f_convert (x : spec_float) : spec_float :=
  match x with
  | S754_finite s p e => binary_normalize f_prec f_emax (cond_Zopp s (Zpos p)) e s
  | _ => x
  end.
End format.

(** ** clang_hybrid_load_double and clang_hybrid_load_float *)

(** the rounds of the loop, with the pointer and the sum *)
Fixpoint sum_loop (f : format) (n : nat) (total : spec_float) (dp : cap) : M spec_float :=
  match n with
  | O => mret total
  | S n' =>
      bits ← load dp 0 (f_size f) 0;
      dp ← lift (cheri_offset_increment dp (f_size f));
      sum_loop f n' (f_add f total (sf_of_bits f bits)) dp
  end.

(** [total == 10.0] compares doubles *)
Definition double_test_body (array : Z) : M unit :=
  let dp := cheri_tocap array in
  total ← sum_loop DOUBLE 4 (S754_zero false) dp;
  m_assert (SFeqb total (real DOUBLE 10)).

Definition float_test_body (array : Z) : M unit :=
  let fp := cheri_tocap array in
  total ← sum_loop FLOAT 4 (S754_zero false) fp;
  m_assert (SFeqb (f_convert DOUBLE total) (real DOUBLE 10)).

(** the value of the configuration register is an argument *)
Definition clang_hybrid_load_double (config1 array : Z) : M Z :=
  (if negb (Z.land config1 0x1 =? 0) then double_test_body array else m_assert true) ;;
  n ← get_faults;
  m_assert (n =? 0) ;;
  mret 0.

Definition clang_hybrid_load_float (config1 array : Z) : M Z :=
  (if negb (Z.land config1 0x1 =? 0) then float_test_body array else m_assert true) ;;
  n ← get_faults;
  m_assert (n =? 0) ;;
  mret 0.

(** ** clang_hybrid_pack *)

(** the fields of the packed structure, by offset *)
Definition packed_a := 0.
Definition packed_b := 1.
Definition packed_c := 5.

(** an unaligned integer of [n] bytes, most significant first *)
Fixpoint store_bytes (p : cap) (t : Z) (bs : list Z) : M unit :=
  match bs with
  | [] => mret tt
  | b :: bs' => store 32 p t 1 b ;; store_bytes p (t + 1) bs'
  end.
Definition store_unaligned (p : cap) (t : Z) (n : nat) (v : Z) : M unit := store_bytes p t (be_bytes n v).

Fixpoint load_bytes (p : cap) (t : Z) (n : nat) : M (list Z) :=
  match n with
  | O => mret []
  | S n' => b ← load p t 1 0; bs ← load_bytes p (t + 1) n'; mret (b :: bs)
  end.
Definition load_unaligned (p : cap) (t : Z) (n : nat) : M Z := bs ← load_bytes p t n; mret (be_value bs).

Section pack.
Context (x : Z).     (* the static variable *)

Definition check_struct : M unit :=
  a ← load ddc (x + packed_a) 1 0;
  m_assert (int_value true 1 a =? 0x00) ;;
  b ← load_unaligned ddc (x + packed_b) 4;
  m_assert (int_value true 4 b =? 0x01020304) ;;
  c ← load ddc (x + packed_c) 1 0;
  m_assert (int_value true 1 c =? 0x05).

Definition clang_hybrid_pack : M Z :=
  store 32 ddc (x + packed_a) 1 0x00 ;;
  store 32 ddc (x + packed_c) 1 0x05 ;;
  store_unaligned ddc (x + packed_b) 4 0x01020304 ;;
  check_struct ;;
  n ← get_faults;
  m_assert (n =? 0) ;;
  mret 0.
End pack.

(** ** Proofs *)

(** an array whose elements are the numbers from 1 on *)
Definition holds_reals (f : format) (m : mem) (array : Z) (n : nat) : Prop :=
  forall i : nat, (i < n)%nat ->
    peek m (array + f_size f * Z.of_nat i) (Z.to_nat (f_size f)) = sf_to_bits f (real f (Z.of_nat i + 1)).

Lemma sum_loop_ok f array : 0 < f_size f -> placed array (f_size f * 4) (f_size f) ->
  forall n i total s (Q : spec_float -> machine -> Prop), (i + n <= 4)%nat -> holds_reals f (ms s) array 4 ->
  Q (foldl (fun t j => f_add f t (sf_of_bits f (sf_to_bits f (real f (Z.of_nat j + 1))))) total (seq i n)) s ->
  wp (sum_loop f n total (blk 0 (2 ^ 64 - 1) (array + f_size f * Z.of_nat i))) Q s.
Proof.
  intros Hf [Hl Hh Ha]. induction n as [|n IH]; intros i total s Q Hi Hm HQ; [done|].
  assert (f_size f * Z.of_nat i + f_size f <= f_size f * 4) by nia.
  cbn [sum_loop]. wp_step. apply wp_load.
  { apply allowed_blk; try (done || nia). rewrite Z.add_0_l, Z.add_0_r, <- Zplus_mod_idemp_l, Ha.
    rewrite Z.add_0_l, Z.mul_comm. apply Z_mod_mult. }
  rewrite addr_blk, Z.add_0_l, Z.add_0_r, Hm by nia || lia. rewrite incr_blk. repeat wp_step.
  rewrite wrap_small by nia.
  replace (array + f_size f * Z.of_nat i + f_size f) with (array + f_size f * Z.of_nat (S i)) by nia.
  apply IH; [lia|done|exact HQ].
Qed.

Lemma double_passes m config1 array : placed array 32 8 -> holds_reals DOUBLE m array 4 ->
  passes 0 (clang_hybrid_load_double config1 array) m.
Proof.
  intros Hp Hm. unfold passes, clang_hybrid_load_double, double_test_body. cbv zeta. wp_step.
  destruct (negb _); [|by repeat wp_step]. rewrite tocap_blk by (destruct Hp; lia). wp_step.
  replace array with (array + f_size DOUBLE * Z.of_nat 0) at 1 by (simpl; lia).
  apply sum_loop_ok; [done|done|lia|done|]. wp_step; [by vm_compute|]. by repeat wp_step.
Qed.

Lemma float_passes m config1 array : placed array 16 4 -> holds_reals FLOAT m array 4 ->
  passes 0 (clang_hybrid_load_float config1 array) m.
Proof.
  intros Hp Hm. unfold passes, clang_hybrid_load_float, float_test_body. cbv zeta. wp_step.
  destruct (negb _); [|by repeat wp_step]. rewrite tocap_blk by (destruct Hp; lia). wp_step.
  replace array with (array + f_size FLOAT * Z.of_nat 0) at 1 by (simpl; lia).
  apply sum_loop_ok; [done|done|lia|done|]. wp_step; [by vm_compute|]. by repeat wp_step.
Qed.

Lemma wp_store_byte a v (Q : unit -> machine -> Prop) s : 0 < a -> a + 1 <= 2 ^ 64 - 1 ->
  Q tt (set_mem (poke 32 (ms s) a 1 v) s) -> wp (store 32 ddc a 1 v) Q s.
Proof.
  intros Hl Hh HQ. apply wp_store; [apply allowed_ddc; done || lia || mlia|].
  by change (c_addr ddc + a) with a.
Qed.

Lemma wp_load_byte a (Q : Z -> machine -> Prop) s : 0 < a -> a + 1 <= 2 ^ 64 - 1 ->
  Q (peek (ms s) a 1) s -> wp (load ddc a 1 0) Q s.
Proof.
  intros Hl Hh HQ. apply wp_load; [apply allowed_ddc; done || lia || mlia|].
  by change (c_addr ddc + a) with a.
Qed.

Lemma pack_passes m x : placed x 6 1 -> passes 0 (clang_hybrid_pack x) m.
Proof.
  intros [Hl Hh _]. unfold passes, clang_hybrid_pack, check_struct, store_unaligned, load_unaligned.
  unfold packed_a, packed_b, packed_c.
  change (be_bytes 4 0x01020304) with [1; 2; 3; 4]. cbn [store_bytes load_bytes].
  repeat first [wp_step; try done | apply wp_store_byte; [lia..|]]. rewrite <- !Z.add_assoc; simpl Z.add.
  repeat first [wp_step; try done | apply wp_load_byte; [lia..|]; peeks].
Qed.
