(* ===== verification/HybridTests.v ===== *)
(** * HybridTests: the clang-hybrid programs.

    [clang_hybrid_cursor], [cursor_trivial], [opaque], [struct], [sub],
    [toy], [cast], [intcap], [load_data] and [store_data] of
    [cheri-c-tests/clang-hybrid], as programs of the monad of Machine.  Globals
    are at the addresses the programs are given; an integer pointer accesses
    memory through [ddc]; a capability is 32 bytes. *)

From S2P Require Import Prelude CheriMem Machine HybridFloat.

(** ** clang_hybrid_cursor *)

Section cursor.
Context (buffer : Z).     (* int buffer[42] *)

Definition set (x : cap) : M unit :=
  m_for 0 42 (fun i => store 32 x (4 * i) 4 i).

Fixpoint get_loop (n : nat) (x : cap) : M unit :=
  match n with
  | O => mret tt
  | S i =>
      v ← load x 0 4 0;
      m_assert (int_value true 4 v =? Z.of_nat i) ;;
      x ← lift (cheri_offset_increment x (-4));
      get_loop i x
  end.
Definition get (x : cap) : M unit := get_loop 42 x.

Definition clang_hybrid_cursor : M Z :=
  b ← lift (cheri_bounds_set (cheri_tocap buffer) (42 * 4));
  m_assert (buffer =? c_base b) ;;
  m_assert (0 =? c_off b) ;;
  m_assert (42 * 4 =? c_len b) ;;
  set b ;;
  b ← lift (cheri_offset_increment b (41 * 4));
  m_assert (41 * 4 =? c_off b) ;;
  m_assert (cheri_fromcap b =? u64 (buffer + 41 * 4)) ;;
  get b ;;
  v ← lift (cheri_offset_increment b 42);
  v ← lift (cheri_offset_set v 0);
  m_assert (c_off v =? 0) ;;
  f ← get_faults;
  m_assert (f =? 0) ;;
  mret 0.

(** ** clang_hybrid_cursor_trivial *)

Definition clang_hybrid_cursor_trivial (stale : Z) : M Z :=
  let b := cheri_tocap buffer in
  count ← get_faults;
  store 32 b (41 * 4) 4 12 ;;
  v ← lift (cheri_bounds_set b (42 * 4));
  v ← lift (cheri_offset_increment v (42 * 4));
  unused ← load v 0 4 stale;
  f ← get_faults;
  m_assert (f =? count + 1) ;;
  v ← lift (cheri_offset_increment v (u64 (-1 * 4)));
  x ← load v 0 4 unused;
  m_assert (int_value true 4 x =? 12) ;;
  v ← lift (cheri_offset_set v (-1));
  unused ← load v 0 4 x;
  f ← get_faults;
  m_assert (f =? count + 2) ;;
  v ← lift (cheri_offset_set v (41 * 4));
  x ← load v 0 4 unused;
  m_assert (int_value true 4 x =? 12) ;;
  f ← get_faults;
  m_assert (f =? 2) ;;
  mret 0.
End cursor.

(** ** clang_hybrid_opaque *)

Section opaque.
(** the addresses of the two globals, and what [sysarch] returns and stores *)
Context (example_object example_key : Z) (sysarch : Z * cap).

Definition example_init : M unit :=
  let '(r, sealing_cap) := sysarch in
  m_assert (r =? 0) ;;
  k ← lift (cheri_offset_set sealing_cap 4);
  store_c 32 ddc example_key k.

Definition example_constructor : M cap :=
  result ← lift (cheri_perms_and (cheri_tocap example_object) 0xd);
  key ← load_c 32 ddc example_key null_cap;
  lift (cheri_seal result key).

Definition example_method (o : cap) : M Z :=
  key ← load_c 32 ddc example_key null_cap;
  p ← lift (cheri_unseal o key);
  x ← load p 0 4 0;
  store 32 p 0 4 (int_value true 4 x + 1) ;;
  x ← load p 0 4 0;
  mret (int_value true 4 x).

Definition clang_hybrid_opaque : M Z :=
  example_init ;;
  e ← example_constructor;
  r ← example_method e;
  m_assert (r =? 1) ;;
  f ← get_faults;
  m_assert (f =? 0) ;;
  mret 0.
End opaque.

(** ** clang_hybrid_struct, sub, toy, cast *)

Definition struct_constructor (example_object : Z) : cap := cheri_tocap example_object.

Definition clang_hybrid_struct (example_object : Z) : M Z :=
  let e := struct_constructor example_object in
  x ← load e 0 4 0;
  m_assert (int_value true 4 x =? 0) ;;
  f ← get_faults;
  m_assert (f =? 0) ;;
  mret 0.

(** [str] is the address of the pointer variable, which the program loads. *)
Definition clang_hybrid_sub (str : Z) : M Z :=
  p ← load ddc str 8 0;
  let a := cheri_tocap p in
  b ← lift (cheri_offset_increment a 5);
  let x := sgn 32 (c_addr b - c_addr a) in
  m_assert (x =? 5) ;;
  f ← get_faults;
  m_assert (f =? 0) ;;
  mret 0.

Definition anotherTest (spare : Z) : Z := 53.

Definition clang_hybrid_toy : M Z :=
  let a := 42 in
  let a := a + anotherTest a in
  m_assert (a =? 42 + 53) ;;
  f ← get_faults;
  m_assert (f =? 0) ;;
  mret 0.

Definition clang_hybrid_cast (data : Z) : M Z :=
  let datacp := cheri_tocap data in
  m_assert (cheri_fromcap datacp =? data) ;;
  f ← get_faults;
  m_assert (f =? 0) ;;
  mret 0.

(** ** clang_hybrid_intcap *)

Section intcap.
Context (x digits : Z).    (* static __intcap_t x; static const char *digits *)

Definition increment : M unit :=
  v ← load_c 32 ddc x null_cap;
  v ← lift (cheri_offset_increment v 1);
  store_c 32 ddc x v.

Definition clang_hybrid_intcap : M Z :=
  store_c 32 ddc x (cap_of_int 1) ;;
  increment ;;
  v ← load_c 32 ddc x null_cap;
  m_assert (cap_eqb v (cap_of_int 2)) ;;
  d ← load ddc digits 8 0;
  store_c 32 ddc x (cheri_tocap d) ;;
  increment ;;
  cp ← load_c 32 ddc x null_cap;
  c ← load cp 0 1 0;
  m_assert (int_value true 1 c =? 49) ;;
  f ← get_faults;
  m_assert (f =? 0) ;;
  mret 0.
End intcap.

(** ** clang_hybrid_load_data and clang_hybrid_store_data

    [load_test.h] and [store_test.h] are included once for each of the eight
    integer types: [k] is the size of [TYPE], [data] where [NAME_data] is. *)

Definition load_test (signed : bool) (k data : Z) : M Z :=
  let datacp := cheri_tocap data in
  m_for 0 8 (fun i =>
    a ← load datacp (i * k) k 0;
    b ← load ddc (data + i * k) k 0;
    m_assert (int_value signed k a =? int_value signed k b)) ;;
  mret 0.

Definition store_test (signed : bool) (k data : Z) : M Z :=
  let datacp := cheri_tocap data in
  let same i :=
    a ← load datacp (i * k) k 0;
    b ← load ddc (data + i * k) k 0;
    m_assert (int_value signed k a =? int_value signed k b) in
  m_for 0 8 (fun i =>
    same i ;;
    store 32 ddc (data + i * k) k (i * 42) ;;
    same i ;;
    a ← load datacp (i * k) k 0;
    m_assert (int_value signed k a =? int_value signed k (i * 42)) ;;
    store 32 datacp (i * k) k (102442 * i) ;;
    same i ;;
    b ← load ddc (data + i * k) k 0;
    m_assert (int_value signed k b =? int_value signed k (i * 102442))) ;;
  mret 0.

(** the order in which the types are tested *)
Definition type_order : list (bool * Z) :=
  [(false, 1); (true, 1); (false, 2); (true, 2); (false, 4); (true, 4); (false, 8); (true, 8)].

Fixpoint run_types (test : bool -> Z -> Z -> M Z) (ts : list (bool * Z)) (datas : list Z) : M unit :=
  match ts, datas with
  | (signed, k) :: ts', data :: datas' => test signed k data ;; run_types test ts' datas'
  | _, _ => mret tt
  end.

Definition clang_hybrid_load_data (datas : list Z) : M Z :=
  run_types load_test type_order datas ;;
  f ← get_faults;
  m_assert (f =? 0) ;;
  mret 0.

Definition clang_hybrid_store_data (datas : list Z) : M Z :=
  run_types store_test type_order datas ;;
  f ← get_faults;
  m_assert (f =? 0) ;;
  mret 0.

(** ** Proofs *)

Section cursor_proofs.
Context (buffer : Z) (Hbuf : placed buffer (42 * 4) 4).

Lemma cursor_bounds : cheri_bounds_set (cheri_tocap buffer) (42 * 4) = Ok (blk buffer (42 * 4) 0).
Proof. destruct Hbuf. rewrite tocap_blk, bounds_blk by lia. done. Qed.

(** [n] elements hold their index *)
Definition filled (n : Z) (m : mem) : Prop := forall i, 0 <= i < n -> peek m (buffer + 4 * i) 4 = i.

Lemma set_fills s : wp (set (blk buffer (42 * 4) 0)) (fun _ s' => filled 42 (ms s') /\ faults s' = faults s) s.
Proof.
  destruct Hbuf as [Hl Hh Hal].
  apply wp_for with (P := fun n s' => filled n (ms s') /\ faults s' = faults s); [lia| | |done].
  - split; [intros i; lia|done].
  - intros i s1 Hi [Hf He]. apply wp_store.
    { apply allowed_blk; try (done || lia). mlia. }
    rewrite addr_blk by lia. split; [|done]. intros j Hj. unfold set_mem; cbn [ms].
    destruct (decide (j = i)) as [->|Hne].
    + replace (buffer + 0 + 4 * i) with (buffer + 4 * i) by lia. change (Z.to_nat 4) with 4%nat.
      rewrite peek_poke. apply Z.mod_small. lia.
    + rewrite peek_poke_other by lia. apply Hf. lia.
Qed.

Lemma get_checks n s (Q : unit -> machine -> Prop) : (n <= 42)%nat -> filled 42 (ms s) -> Q tt s ->
  wp (get_loop n (blk buffer (42 * 4) (u64 (4 * Z.of_nat n - 4)))) Q s.
Proof.
  destruct Hbuf as [Hl Hh Hal]. revert s. induction n as [|n IH]; intros s Hn Hf HQ; [done|].
  cbn [get_loop]. rewrite (wrap_small 64) by lia. wp_step. apply wp_load.
  { apply allowed_blk; try (done || lia). mlia. }
  rewrite addr_blk by lia. replace (buffer + _ + 0) with (buffer + 4 * Z.of_nat n) by lia.
  change (Z.to_nat 4) with 4%nat. rewrite Hf by lia.
  repeat wp_step.
  - rewrite int_value_small by lia. lia.
  - rewrite incr_blk. repeat wp_step.
    replace (4 * Z.of_nat (S n) - 4 + -4) with (4 * Z.of_nat n - 4) by lia. apply IH; [lia|done|done].
Qed.

Lemma cursor_passes m :
  wp (clang_hybrid_cursor buffer) (fun r s => r = 0 /\ faults s = 0 /\ filled 42 (ms s)) (start m).
Proof.
  pose proof Hbuf as [Hl Hh Hal]. unfold clang_hybrid_cursor. rewrite cursor_bounds.
  repeat wp_step; try (simpl; lia).
  eapply wp_mono; [apply set_fills|]. intros [] s [Hf He]. rewrite incr_blk.
  change (u64 (0 + 41 * 4)) with (41 * 4). repeat wp_step; try done.
  { unfold cheri_fromcap; cbn [pblk c_tag]. rewrite addr_blk, wrap_small by lia. lia. }
  change (41 * 4) with (u64 (4 * Z.of_nat 42 - 4)) at 1. apply get_checks; [lia|done|].
  rewrite incr_blk. repeat wp_step. rewrite set_blk. repeat wp_step; try done. by rewrite He.
Qed.

Lemma cursor_trivial_passes m stale : passes 2 (clang_hybrid_cursor_trivial buffer stale) m.
Proof.
  pose proof Hbuf as [Hl Hh Hal]. unfold passes, clang_hybrid_cursor_trivial. cbv zeta. rewrite cursor_bounds.
  repeat wp_step. apply wp_store.
  { apply allowed_tocap; try (done || lia). mlia. }
  rewrite addr_tocap by lia. set (s1 := set_mem _ _).
  assert (Hs1 : peek (ms s1) (buffer + 41 * 4) 4 = 12).
  { subst s1. unfold set_mem; cbn [ms]. change (Z.to_nat 4) with 4%nat. by rewrite peek_poke. }
  assert (Hh1 : test_fault_handler s1 = default_handler) by done.
  assert (Hf1 : faults s1 = 0) by done. clearbody s1.
  repeat wp_step. rewrite incr_blk. change (u64 (0 + 42 * 4)) with (42 * 4). repeat wp_step.
  eapply (wp_skip _ _ _ _ _ _ cheri_fault_length 1).
  { apply cause_length; [done|]. unfold at_off. rewrite addr_blk, wrap_small by lia. lia. }
  { by rewrite Hh1, Hf1. }
  repeat wp_step; [done|]. rewrite incr_blk. change (u64 (42 * 4 + u64 (-1 * 4))) with (41 * 4). repeat wp_step.
  assert (Hld : forall stale f h (Q : Z -> machine -> Prop), Q 12 (Machine (ms s1) f h) ->
    wp (load (blk buffer (42 * 4) (41 * 4)) 0 4 stale) Q (Machine (ms s1) f h)).
  { intros stale' f h Q HQ. apply wp_load.
    - apply allowed_blk; try (done || lia). mlia.
    - rewrite addr_blk by lia. rewrite Z.add_0_r. cbn [ms]. change (Z.to_nat 4) with 4%nat. by rewrite Hs1. }
  apply Hld. repeat wp_step; [done|]. rewrite set_blk. change (u64 (-1)) with (2 ^ 64 - 1). repeat wp_step.
  eapply (wp_skip _ _ _ _ _ _ cheri_fault_length 2).
  { apply cause_length; [done|]. unfold at_off. left. unfold c_addr; cbn [pblk c_base c_off].
    rewrite wrap_add_l. replace (buffer + (2 ^ 64 - 1) + 0) with (buffer - 1 + 1 * 2 ^ 64) by lia.
    rewrite wrap_add_mult, wrap_small by lia. lia. }
  { by rewrite Hh1. }
  repeat wp_step; [done|]. rewrite set_blk. change (u64 (41 * 4)) with (41 * 4). repeat wp_step.
  apply Hld. by repeat wp_step.
Qed.
End cursor_proofs.

Section opaque_proofs.
Context (example_object example_key : Z) (sealing_cap : cap).

(** What CHERI_GET_SEALCAP gives: a capability to object types, more than four
    of them, below the limit of 2^24. *)
Record sealing : Prop := {
  se_wf : cap_wf sealing_cap;
  se_usable : usable sealing_cap = true;
  se_perm : has_perm (c_perms sealing_cap) PERMIT_SEAL = true;
  se_len : 4 < c_len sealing_cap;
  se_max : c_base sealing_cap + 4 < 2 ^ 24;
}.

Context (Hobj : placed example_object 4096 4096) (Hkey : placed example_key 32 32).
Context (Hdisj : example_object + 4096 <= example_key \/ example_key + 32 <= example_object).
Context (Hseal : sealing).

Let key := with_off sealing_cap 4.

Lemma key_wf : cap_wf key.
Proof. destruct Hseal as [[? ? ? ? ?] _ _ _ _]. split; simpl; try lia. apply wrap_range. lia. Qed.

Lemma key_addr : c_addr key = c_base sealing_cap + 4.
Proof.
  destruct Hseal as [[? ? ? ? ?] _ _ _ Hmax]. unfold c_addr; simpl. rewrite (wrap_small 64 4) by lia.
  apply wrap_small. lia.
Qed.

(** the object, with the permissions it is given *)
Let sobj (sealed : bool) (otype : Z) : cap := Cap true sealed 0xd otype 0 (2 ^ 64 - 1) example_object.

Lemma obj_sealed : cheri_seal (sobj false 0) key = Ok (sobj true (c_base sealing_cap + 4)).
Proof.
  destruct Hseal as [[? ? ? ? ?] Hu Hp Hlen Hmax]. unfold cheri_seal. rewrite key_addr.
  change (usable (sobj false 0)) with true. change (usable key) with (usable sealing_cap).
  change (c_perms key) with (c_perms sealing_cap). rewrite Hu, Hp. cbn [andb]. unfold c_top.
  change (c_base key) with (c_base sealing_cap). change (c_len key) with (c_len sealing_cap).
  rewrite (proj2 (Z.leb_le _ _)), !(proj2 (Z.ltb_lt _ _)) by lia. done.
Qed.

Lemma obj_unsealed : cheri_unseal (sobj true (c_base sealing_cap + 4)) key = Ok (sobj false 0).
Proof.
  destruct Hseal as [[? ? ? ? ?] Hu Hp Hlen Hmax]. unfold cheri_unseal. rewrite key_addr.
  change (c_tag (sobj true _)) with true. change (c_sealed (sobj true _)) with true.
  change (c_otype (sobj true (c_base sealing_cap + 4))) with (c_base sealing_cap + 4).
  change (usable key) with (usable sealing_cap). change (c_perms key) with (c_perms sealing_cap).
  rewrite Hu, Hp, Z.eqb_refl. cbn [andb]. unfold c_top.
  change (c_base key) with (c_base sealing_cap). change (c_len key) with (c_len sealing_cap).
  rewrite (proj2 (Z.leb_le _ _)), (proj2 (Z.ltb_lt _ _)) by lia. done.
Qed.

Lemma obj_allowed perms k : forallb (has_perm 0xd) perms = true -> 0 < k <= 4 -> example_object mod k = 0 ->
  allowed (sobj false 0) perms 0 k.
Proof.
  intros Hp Hk Ha. destruct Hobj. assert (Haddr : c_addr (sobj false 0) = example_object) by (apply wrap_small; simpl; lia).
  split; rewrite ?Haddr, ?Z.add_0_r; try done; unfold c_top; simpl; lia.
Qed.

Lemma key_loads s (Q : cap -> machine -> Prop) :
  peek_c (ms s) example_key = key -> Q key s -> wp (load_c 32 ddc example_key null_cap) Q s.
Proof.
  intros Hk HQ. destruct Hkey. apply wp_load_c; [apply allowed_ddc; done || lia|]. fold key.
  change (c_addr ddc + example_key) with example_key. by rewrite <- Hk in HQ.
Qed.

Lemma opaque_passes m : peek m example_object 4 = 0 ->
  wp (clang_hybrid_opaque example_object example_key (0, sealing_cap))
     (fun r s => r = 0 /\ faults s = 0 /\ peek (ms s) example_object 4 = 1) (start m).
Proof.
  intros H0. pose proof Hobj as [Hol Hoh Hoa]. pose proof Hkey as [Hkl Hkh Hka].
  unfold clang_hybrid_opaque, example_init. repeat wp_step; [done|].
  unfold cheri_offset_set. pose proof Hseal as [_ Hu _ _ _]. unfold usable in Hu.
  apply andb_true_iff in Hu as [Ht Hs]. apply negb_true_iff in Hs. rewrite Ht, Hs. cbn [andb]. repeat wp_step.
  apply wp_store_c; [apply allowed_ddc; done || lia|]. fold key.
  change (c_addr ddc + example_key) with example_key.
  set (m1 := put_cap _ _ _ _).
  assert (Hk1 : peek_c m1 example_key = key) by apply peek_put_cap, key_wf.
  assert (Ho1 : peek m1 example_object 4 = 0) by (unfold m1; rewrite peek_put_cap_other by lia; done).
  clearbody m1. unfold example_constructor. repeat wp_step.
  rewrite tocap_blk by lia. change (cheri_perms_and _ 0xd) with (Ok (sobj false 0)). repeat wp_step.
  apply key_loads; [done|]. rewrite obj_sealed. repeat wp_step. unfold example_method. repeat wp_step.
  apply key_loads; [done|]. rewrite obj_unsealed. repeat wp_step.
  assert (Haddr : c_addr (sobj false 0) = example_object) by (apply wrap_small; simpl; lia).
  apply wp_load; [apply obj_allowed; try done; mlia|]. rewrite Haddr, Z.add_0_r. cbn [set_mem ms].
  change (Z.to_nat 4) with 4%nat. rewrite Ho1. change (int_value true 4 0 + 1) with 1. repeat wp_step.
  apply wp_store; [apply obj_allowed; try done; mlia|]. rewrite Haddr, Z.add_0_r. repeat wp_step.
  apply wp_load; [apply obj_allowed; try done; mlia|]. rewrite Haddr, Z.add_0_r. cbn [set_mem ms].
  change (Z.to_nat 4) with 4%nat. rewrite peek_poke. repeat wp_step; try done.
  split; [done|]. split; [done|]. unfold set_mem; cbn [ms]. by rewrite peek_poke.
Qed.
End opaque_proofs.

(** *** The small programs *)

Lemma struct_passes a m : placed a 4 4 -> peek m a 4 = 0 -> passes 0 (clang_hybrid_struct a) m.
Proof.
  intros [Hl Hh Ha] H0. unfold passes, clang_hybrid_struct, struct_constructor. repeat wp_step.
  apply wp_load; [apply allowed_tocap; try (done || lia); by rewrite Z.add_0_r|].
  rewrite addr_tocap, Z.add_0_r by lia. cbn [ms start]. change (Z.to_nat 4) with 4%nat. rewrite H0.
  by repeat wp_step.
Qed.

Lemma sub_passes p a m :
  placed p 8 8 -> placed a 17 1 -> peek m p 8 = a -> passes 0 (clang_hybrid_sub p) m.
Proof.
  intros [Hpl Hph Hpa] [Hl Hh _] Hp. unfold passes, clang_hybrid_sub. repeat wp_step.
  apply wp_load; [apply allowed_ddc; done || lia|]. change (c_addr ddc + p) with p. cbn [ms start].
  change (Z.to_nat 8) with 8%nat. rewrite Hp, tocap_blk, incr_blk by lia. repeat wp_step; try done.
  rewrite (wrap_small 64), !addr_blk by lia. by replace (0 + (a + 5) - (0 + a)) with 5 by lia.
Qed.

Lemma toy_passes m : passes 0 clang_hybrid_toy m.
Proof. done. Qed.

Lemma cast_passes a m : placed a 8 1 -> passes 0 (clang_hybrid_cast a) m.
Proof.
  intros [Hl Hh _]. unfold passes, clang_hybrid_cast. repeat wp_step; try done.
  unfold cheri_fromcap. rewrite tocap_blk by lia. cbn [pblk c_tag]. rewrite addr_blk by lia. lia.
Qed.

Section intcap_proofs.
Context (x digits str : Z).
Context (Hx : placed x 32 32) (Hd : placed digits 8 8) (Hs : placed str 11 1).
Context (Hxd : x + 32 <= digits \/ digits + 8 <= x) (Hxs : x + 32 <= str \/ str + 11 <= x).

(** everything but [x] is as in [m] *)
Definition only_x (m : mem) (c : cap) (m' : mem) : Prop :=
  peek_c m' x = c /\ forall a k, a + Z.of_nat k <= x \/ x + 32 <= a -> peek m' a k = peek m a k.

Lemma wp_store_x m c c' s (Q : unit -> machine -> Prop) : cap_wf c' -> only_x m c (ms s) ->
  (forall m', only_x m c' m' -> Q tt (set_mem m' s)) -> wp (store_c 32 ddc x c') Q s.
Proof.
  intros Hwf [_ Ho] HQ. destruct Hx. apply wp_store_c; [apply allowed_ddc; done || lia|].
  change (c_addr ddc + x) with x. apply HQ. split; [by apply peek_put_cap|].
  intros a k Ha. rewrite peek_put_cap_other by lia. by apply Ho.
Qed.

Lemma wp_load_x m c s (Q : cap -> machine -> Prop) : only_x m c (ms s) -> Q c s ->
  wp (load_c 32 ddc x null_cap) Q s.
Proof.
  intros [Hc _] HQ. destruct Hx. apply wp_load_c; [apply allowed_ddc; done || lia|].
  change (c_addr ddc + x) with x. by rewrite <- Hc in HQ.
Qed.

Lemma wp_increment m c s (Q : unit -> machine -> Prop) : c_tag c && c_sealed c = false -> cap_wf c ->
  only_x m c (ms s) -> (forall m', only_x m (with_off c (c_off c + 1)) m' -> Q tt (set_mem m' s)) ->
  wp (increment x) Q s.
Proof.
  intros Hts Hwf Ho HQ. unfold increment. repeat wp_step. eapply wp_load_x; [done|].
  unfold cheri_offset_increment, cheri_offset_set. rewrite Hts. repeat wp_step.
  eapply wp_store_x; [|done|done]. destruct Hwf. split; simpl; try lia. apply wrap_range. lia.
Qed.

Lemma hybrid_intcap_passes m : peek m digits 8 = str -> peek m (str + 1) 1 = 49 ->
  passes 0 (clang_hybrid_intcap x digits) m.
Proof.
  intros Hdig H1. destruct Hs as [Hsl Hsh _]. pose proof Hd as [Hdl Hdh Hda].
  unfold passes, clang_hybrid_intcap. repeat wp_step.
  apply (wp_store_x m (peek_c m x)); [by split|by split|]. intros m1 Hm1. repeat wp_step.
  apply (wp_increment m (cap_of_int 1)); [done|by split|exact Hm1|]. intros m2 Hm2. repeat wp_step.
  eapply wp_load_x; [exact Hm2|]. repeat wp_step; [done|].
  apply wp_load; [apply allowed_ddc; done || lia|]. change (c_addr ddc + digits) with digits.
  cbn [ms set_mem]. change (Z.to_nat 8) with 8%nat. rewrite (proj2 Hm2), Hdig by lia. repeat wp_step.
  assert (Hwf : cap_wf (cheri_tocap str)) by (rewrite tocap_blk by lia; apply blk_wf; unfold PERMS_ALL; lia).
  eapply wp_store_x; [done|exact Hm2|]. intros m3 Hm3. repeat wp_step.
  apply (wp_increment m (cheri_tocap str)); [by rewrite tocap_blk by lia|done|exact Hm3|]. intros m4 Hm4. repeat wp_step.
  eapply wp_load_x; [exact Hm4|]. rewrite tocap_blk by lia.
  change (with_off _ _) with (blk 0 (2 ^ 64 - 1) (u64 (str + 1))). rewrite wrap_small by lia. repeat wp_step.
  apply wp_load; [apply allowed_blk; try (done || lia); by rewrite Z.mod_1_r|].
  rewrite addr_blk by lia. replace (0 + (str + 1) + 0) with (str + 1) by lia. cbn [ms set_mem].
  change (Z.to_nat 1) with 1%nat. rewrite (proj2 Hm4), H1 by lia. by repeat wp_step.
Qed.
End intcap_proofs.

(** *** Loads and stores of the integer types *)

Section data_proofs.
Context (signed : bool) (k data : Z) (Hk : In k [1; 2; 4; 8]) (Hdata : placed data (8 * k) k).

Lemma k_bounds : 0 < k <= 8 /\ 256 ^ Z.of_nat (Z.to_nat k) = 2 ^ (8 * k).
Proof. by destruct Hk as [<-|[<-|[<-|[<-|[]]]]]. Qed.

Lemma elem_aligned i : (data + i * k) mod k = 0.
Proof. destruct Hdata as [_ _ Ha]. rewrite Z_mod_plus_full. done. Qed.

Lemma wp_load_elem i stale (Q : Z -> machine -> Prop) s : 0 <= i < 8 ->
  Q (peek (ms s) (data + i * k) (Z.to_nat k)) s -> wp (load (cheri_tocap data) (i * k) k stale) Q s.
Proof.
  intros Hi HQ. destruct Hdata as [Hl Hh _]. pose proof k_bounds as [Hkb _].
  apply wp_load; [|by rewrite addr_tocap by lia].
  apply allowed_tocap; try (done || nia). apply elem_aligned.
Qed.

Lemma wp_load_ptr i stale (Q : Z -> machine -> Prop) s : 0 <= i < 8 ->
  Q (peek (ms s) (data + i * k) (Z.to_nat k)) s -> wp (load ddc (data + i * k) k stale) Q s.
Proof.
  intros Hi HQ. destruct Hdata as [Hl Hh _]. pose proof k_bounds as [Hkb _].
  apply wp_load; [|exact HQ]. apply allowed_ddc; try (done || nia). apply elem_aligned.
Qed.

Lemma wp_store_elem i v (Q : unit -> machine -> Prop) s : 0 <= i < 8 ->
  Q tt (set_mem (poke 32 (ms s) (data + i * k) (Z.to_nat k) v) s) -> wp (store 32 (cheri_tocap data) (i * k) k v) Q s.
Proof.
  intros Hi HQ. destruct Hdata as [Hl Hh _]. pose proof k_bounds as [Hkb _].
  apply wp_store; [|by rewrite addr_tocap by lia].
  apply allowed_tocap; try (done || nia). apply elem_aligned.
Qed.

Lemma wp_store_ptr i v (Q : unit -> machine -> Prop) s : 0 <= i < 8 ->
  Q tt (set_mem (poke 32 (ms s) (data + i * k) (Z.to_nat k) v) s) -> wp (store 32 ddc (data + i * k) k v) Q s.
Proof.
  intros Hi HQ. destruct Hdata as [Hl Hh _]. pose proof k_bounds as [Hkb _].
  apply wp_store; [|exact HQ]. apply allowed_ddc; try (done || nia). apply elem_aligned.
Qed.

Lemma int_value_peek m a v : int_value signed k (peek (poke 32 m a (Z.to_nat k) v) a (Z.to_nat k)) = int_value signed k v.
Proof.
  rewrite peek_poke, (proj2 k_bounds). change (v mod 2 ^ (8 * k)) with (wrap (8 * k) v).
  unfold int_value, sgn. by rewrite wrap_wrap.
Qed.

Lemma load_test_passes s : wp (load_test signed k data) (fun r s' => r = 0 /\ s' = s) s.
Proof.
  unfold load_test. cbv zeta. wp_step.
  apply wp_for with (P := fun _ s' => s' = s); [lia|done| |by intros ? ->].
  intros i ? Hi ->. repeat wp_step. apply wp_load_elem; [done|]. repeat wp_step.
  apply wp_load_ptr; [done|]. wp_step; [lia|done].
Qed.

(** what the elements hold at the end *)
Definition stored (n : Z) (m : mem) : Prop :=
  forall i, 0 <= i < n -> peek m (data + i * k) (Z.to_nat k) = wrap (8 * k) (102442 * i).

Lemma store_test_passes s :
  wp (store_test signed k data) (fun r s' => r = 0 /\ faults s' = faults s /\ stored 8 (ms s')) s.
Proof.
  unfold store_test. cbv zeta. wp_step.
  apply wp_for with (P := fun n s' => faults s' = faults s /\ stored n (ms s')); [lia| | |done].
  { split; [done|]. intros i; lia. }
  intros i s1 Hi [Hf Hst]. pose proof k_bounds as [Hkb Hpow].
  assert (Hsame : forall s (Q : unit -> machine -> Prop), Q tt s ->
    wp (a ← load (cheri_tocap data) (i * k) k 0; b ← load ddc (data + i * k) k 0;
        m_assert (int_value signed k a =? int_value signed k b)) Q s).
  { intros s2 Q HQ. repeat wp_step. apply wp_load_elem; [done|]. repeat wp_step.
    apply wp_load_ptr; [done|]. wp_step; [lia|done]. }
  wp_step. apply Hsame. wp_step. apply wp_store_ptr; [done|]. wp_step.
  apply Hsame. wp_step. apply wp_load_elem; [done|]. unfold set_mem; cbn [ms].
  rewrite int_value_peek. repeat wp_step; [lia|]. apply wp_store_elem; [done|]. wp_step.
  apply Hsame. wp_step. apply wp_load_ptr; [done|]. unfold set_mem; cbn [ms]. rewrite int_value_peek.
  wp_step; [by rewrite (Z.mul_comm 102442), Z.eqb_refl|]. split; [done|]. cbn [ms]. intros j Hj.
  destruct (decide (j = i)) as [->|Hne]; [by rewrite peek_poke, Hpow|].
  rewrite !peek_poke_other by nia. apply Hst. lia.
Qed.
End data_proofs.

Lemma types_pass (test : bool -> Z -> Z -> M Z) ts datas s (Q : unit -> machine -> Prop) :
  (forall signed k data s, In k [1; 2; 4; 8] -> placed data (8 * k) k -> faults s = 0 ->
     wp (test signed k data) (fun _ s' => faults s' = 0) s) ->
  Forall (fun t => In (t.2) [1; 2; 4; 8]) ts ->
  Forall2 (fun (t : bool * Z) data => placed data (8 * t.2) t.2) ts datas ->
  faults s = 0 -> (forall s', faults s' = 0 -> Q tt s') -> wp (run_types test ts datas) Q s.
Proof.
  intros Ht Hts Hd. revert s. induction Hd as [|[signed k] data ts datas Hpl Hd IH]; intros s H0 HQ; [by apply HQ|].
  apply Forall_cons in Hts as [Hk Hts]. cbn [run_types]. wp_step.
  eapply wp_mono; [by apply Ht|]. intros r s' Hs'. by apply IH.
Qed.

Lemma type_sizes : Forall (fun t => In (t.2) [1; 2; 4; 8]) type_order.
Proof. unfold type_order. repeat (apply Forall_cons; split; [simpl; tauto|]). apply Forall_nil_2. Qed.

Lemma load_data_passes datas m :
  Forall2 (fun (t : bool * Z) data => placed data (8 * t.2) t.2) type_order datas ->
  passes 0 (clang_hybrid_load_data datas) m.
Proof.
  intros Hd. unfold passes, clang_hybrid_load_data. wp_step.
  apply types_pass; [|apply type_sizes|done|done|].
  - intros signed k data s Hk Hpl Hf. eapply wp_mono; [by apply load_test_passes|]. by intros r s' [_ ->].
  - intros s Hf. repeat wp_step; [by rewrite Hf|done].
Qed.

Lemma store_data_passes datas m :
  Forall2 (fun (t : bool * Z) data => placed data (8 * t.2) t.2) type_order datas ->
  passes 0 (clang_hybrid_store_data datas) m.
Proof.
  intros Hd. unfold passes, clang_hybrid_store_data. wp_step.
  apply types_pass; [|apply type_sizes|done|done|].
  - intros signed k data s Hk Hpl Hf. eapply wp_mono; [by apply store_test_passes|].
    intros r s' (_ & -> & _). done.
  - intros s Hf. repeat wp_step; [by rewrite Hf|done].
Qed.

(** ** The tests pass *)

(** C26: wherever the buffer is, the cursor test passes without an exception and
    leaves every element holding its index, and the trivial cursor test takes
    exactly the two length exceptions it expects, one past the end and one
    before the start, whatever the skipped loads leave behind. *)
Theorem hybrid_cursor_tests_pass buffer m stale :
  placed buffer (42 * 4) 4 ->
  wp (clang_hybrid_cursor buffer) (fun r s => r = 0 /\ faults s = 0 /\ filled buffer 42 (ms s)) (start m) /\
  passes 2 (clang_hybrid_cursor_trivial buffer stale) m.
Proof. intros Hb. split; [by apply cursor_passes|by apply cursor_trivial_passes]. Qed.

Lemma hybrid_cursor_tests_pass_witness :
  placed 0x1000 (42 * 4) 4 /\
  wp (clang_hybrid_cursor 0x1000) (fun r s => r = 0 /\ faults s = 0 /\ filled 0x1000 42 (ms s)) (start (Mem ∅ ∅)) /\
  passes 2 (clang_hybrid_cursor_trivial 0x1000 77) (Mem ∅ ∅).
Proof.
  assert (placed 0x1000 (42 * 4) 4) by (split; done || lia).
  split; [done|]. by apply hybrid_cursor_tests_pass.
Defined.

(** C25: with any sealing capability the system call may give, the object is
    sealed by the constructor, unsealed by the method and incremented through
    the restricted permissions, with no exception and no failed assertion. *)
Theorem hybrid_opaque_test_passes example_object example_key sealing_cap m :
  placed example_object 4096 4096 -> placed example_key 32 32 ->
  example_object + 4096 <= example_key \/ example_key + 32 <= example_object ->
  sealing sealing_cap -> peek m example_object 4 = 0 ->
  wp (clang_hybrid_opaque example_object example_key (0, sealing_cap))
     (fun r s => r = 0 /\ faults s = 0 /\ peek (ms s) example_object 4 = 1) (start m).
Proof. intros. by apply opaque_passes. Qed.

Lemma hybrid_opaque_test_passes_witness :
  sealing (Cap true false PERMS_ALL 0 0x100 0x1000 0) /\
  wp (clang_hybrid_opaque 0x1000 0x4000 (0, Cap true false PERMS_ALL 0 0x100 0x1000 0))
     (fun r s => r = 0 /\ faults s = 0 /\ peek (ms s) 0x1000 4 = 1) (start (Mem ∅ ∅)).
Proof.
  assert (Hs : sealing (Cap true false PERMS_ALL 0 0x100 0x1000 0)) by (repeat split; done).
  split; [done|]. apply hybrid_opaque_test_passes; [split; done || lia|split; done || lia|lia|done|done].
Defined.

(** C32: what a program stores through an integer pointer it loads through the
    capability for it, and the other way round, for integers of every size and
    sign; the numbers of both floating-point formats read through a capability
    add up; a packed structure holds what is stored at its unaligned field; the
    remaining programs of the directory pass as well. *)
Theorem hybrid_data_tests_pass m datas :
  Forall2 (fun (t : bool * Z) data => placed data (8 * t.2) t.2) type_order datas ->
  passes 0 (clang_hybrid_load_data datas) m /\
  passes 0 (clang_hybrid_store_data datas) m /\
  passes 0 clang_hybrid_toy m /\
  (forall a, placed a 4 4 -> peek m a 4 = 0 -> passes 0 (clang_hybrid_struct a) m) /\
  (forall p a, placed p 8 8 -> placed a 17 1 -> peek m p 8 = a -> passes 0 (clang_hybrid_sub p) m) /\
  (forall a, placed a 8 1 -> passes 0 (clang_hybrid_cast a) m) /\
  (forall x digits str, placed x 32 32 -> placed digits 8 8 -> placed str 11 1 ->
     x + 32 <= digits \/ digits + 8 <= x -> x + 32 <= str \/ str + 11 <= x ->
     peek m digits 8 = str -> peek m (str + 1) 1 = 49 -> passes 0 (clang_hybrid_intcap x digits) m) /\
  (forall config1 a, placed a 32 8 -> holds_reals DOUBLE m a 4 -> passes 0 (clang_hybrid_load_double config1 a) m) /\
  (forall config1 a, placed a 16 4 -> holds_reals FLOAT m a 4 -> passes 0 (clang_hybrid_load_float config1 a) m) /\
  (forall x, placed x 6 1 -> passes 0 (clang_hybrid_pack x) m).
Proof.
  intros Hd. split; [by apply load_data_passes|]. split; [by apply store_data_passes|].
  split; [apply toy_passes|]. split; [intros; by apply struct_passes|]. split; [intros; by eapply sub_passes|].
  split; [intros; by apply cast_passes|]. split; [intros x digits str **; by eapply hybrid_intcap_passes|].
  split; [intros; by apply double_passes|]. split; [intros; by apply float_passes|intros; by apply pack_passes].
Qed.

#[local] Abbreviation ex_datas := [0x100; 0x200; 0x300; 0x400; 0x500; 0x600; 0x700; 0x800].
(** "0123" at 0x2000 and its address at 0x1800; doubles at 0x4000 *)
#[local] Abbreviation ex_doubles := (concat (map (fun n => be_bytes 8 (sf_to_bits DOUBLE (real DOUBLE n))) [1; 2; 3; 4])).
#[local] Abbreviation ex_mem :=
  (put_data 32 (put_data 32 (put_data 32 (Mem ∅ ∅) 0x2000 [48; 49; 50; 51]) 0x1800 (be_bytes 8 0x2000)) 0x4000 ex_doubles).

Lemma ex_mem_doubles : holds_reals DOUBLE ex_mem 0x4000 4.
Proof. intros i Hi. do 4 (destruct i as [|i]; [by vm_compute|]). lia. Qed.

Lemma hybrid_data_tests_pass_witness :
  passes 0 (clang_hybrid_store_data ex_datas) ex_mem /\
  passes 0 (clang_hybrid_struct 0x3000) ex_mem /\ passes 0 (clang_hybrid_intcap 0x1000 0x1800) ex_mem /\
  passes 0 (clang_hybrid_load_double 1 0x4000) ex_mem /\ passes 0 (clang_hybrid_pack 0x5000) ex_mem.
Proof.
  assert (Hp : placed 0x3000 4 4 /\ placed 0x1000 32 32 /\ placed 0x1800 8 8 /\ placed 0x2000 11 1 /\
               placed 0x4000 32 8 /\ placed 0x5000 6 1) by (repeat split; done || lia).
  destruct Hp as (H4 & Hx & Hd & Hs & Hdb & Hpk).
  assert (Hm : peek ex_mem 0x3000 4 = 0 /\ peek ex_mem 0x1800 8 = 0x2000 /\ peek ex_mem (0x2000 + 1) 1 = 49)
    by by vm_compute.
  destruct Hm as (Hm0 & Hm1 & Hm2).
  assert (Hall : Forall2 (fun (t : bool * Z) data => placed data (8 * t.2) t.2) type_order ex_datas)
    by (repeat constructor; done).
  pose proof (hybrid_data_tests_pass ex_mem ex_datas Hall)
    as (_ & Hst & _ & Hstruct & _ & _ & Hint & Hdouble & _ & Hpack).
  refine (conj Hst (conj (Hstruct 0x3000 H4 Hm0) (conj _ (conj (Hdouble 1 0x4000 Hdb ex_mem_doubles) (Hpack 0x5000 Hpk))))).
  exact (Hint 0x1000 0x1800 0x2000 Hx Hd Hs ltac:(left; lia) ltac:(left; lia) Hm1 Hm2).
Defined.
