(* ===== verification/PurecapTests.v ===== *)
(** * PurecapTests: the clang-purecap programs on bounds and permissions.

    [clang_purecap_array], [input], [output], [badcall], [capcmp], [null],
    [smallint] and [union] of [cheri-c-tests/clang-purecap], as programs of the
    monad of Machine.  Every variable is reached through a capability with its
    bounds; their addresses are arguments.  A capability is 32 bytes. *)

From S2P Require Import Prelude CheriMem Machine IntMath.

(** ** What the programs share *)

Definition has_not_permission (c : cap) (p : Z) : bool := Z.land (c_perms c) p =? 0.
Definition has_permission (c : cap) (p : Z) : bool := Z.land (c_perms c) p =? p.

(** an array initialised from a string *)
Fixpoint init_bytes (c : cap) (t : Z) (bs : list Z) : M unit :=
  match bs with
  | [] => mret tt
  | b :: bs' => store 32 c t 1 b ;; init_bytes c (t + 1) bs'
  end.

(** "123456789" *)
Definition digits9 : list Z := [49; 50; 51; 52; 53; 54; 55; 56; 57; 0].

(** ** clang_purecap_array *)

Definition handler (cause n : Z) : res Z :=
  let* _ := c_assert (cause =? cheri_fault_length) in Ok (n + 1).

Definition clang_purecap_array (buffer : Z) : M Z :=
  set_handler handler ;;
  let count := 8 in
  let x := obj buffer count in
  m_assert (c_len x =? count) ;;
  m_for 0 count (fun i => store 32 x (4 * i) 4 i) ;;
  f ← get_faults;
  m_assert (f =? count - count / 4) ;;
  mret 0.

(** ** clang_purecap_input and clang_purecap_output *)

(** conversion to a pointer qualified [__input] or [__output] *)
Definition to_input (c : cap) : res cap :=
  cheri_perms_and c (PERMS_ALL - (PERMIT_STORE + PERMIT_STORE_CAPABILITY)).
Definition to_output (c : cap) : res cap :=
  cheri_perms_and c (PERMS_ALL - (PERMIT_LOAD + PERMIT_LOAD_CAPABILITY)).

Definition input_foo (x : cap) : M Z :=
  y ← load x 0 4 0;
  m_assert (has_not_permission x PERMIT_STORE) ;;
  m_assert (has_not_permission x PERMIT_STORE_CAPABILITY) ;;
  m_assert (has_permission x PERMIT_LOAD) ;;
  m_assert (has_permission x PERMIT_LOAD_CAPABILITY) ;;
  store 32 x 0 4 42 ;;
  mret (int_value true 4 y).

Definition clang_purecap_input (x : Z) : M Z :=
  store 32 (obj x 4) 0 4 47 ;;
  p ← lift (to_input (obj x 4));
  y ← input_foo p;
  v ← load (obj x 4) 0 4 0;
  m_assert (int_value true 4 v =? 47) ;;
  m_assert (y =? 47) ;;
  f ← get_faults;
  m_assert (f =? 1) ;;
  mret 0.

Definition output_foo (stale : Z) (x : cap) : M Z :=
  y ← load x 0 4 stale;
  m_assert (has_not_permission x PERMIT_LOAD) ;;
  m_assert (has_not_permission x PERMIT_LOAD_CAPABILITY) ;;
  m_assert (has_permission x PERMIT_STORE) ;;
  m_assert (has_permission x PERMIT_STORE_CAPABILITY) ;;
  store 32 x 0 4 42 ;;
  mret (int_value true 4 y).

Definition clang_purecap_output (stale x : Z) : M Z :=
  store 32 (obj x 4) 0 4 47 ;;
  p ← lift (to_output (obj x 4));
  _ ← output_foo stale p;
  v ← load (obj x 4) 0 4 0;
  m_assert (int_value true 4 v =? 42) ;;
  f ← get_faults;
  m_assert (f =? 1) ;;
  mret 0.

(** ** clang_purecap_badcall *)

(** the global [not_a_function], which is initialised to point to [a]; a call
    that is not skipped would run whatever [code] does *)
Definition clang_purecap_badcall (not_a_function : Z) (code : cap -> M unit) : M Z :=
  let x := cap_of_int 42 in
  call x (code x) ;;
  f ← get_faults;
  m_assert (f =? 1) ;;
  g ← load_c 32 (obj not_a_function 32) 0 null_cap;
  call g (code g) ;;
  f ← get_faults;
  m_assert (f =? 2) ;;
  mret 0.

(** ** clang_purecap_capcmp *)

Definition clang_purecap_capcmp (str : Z) : M Z :=
  let s := obj str 10 in
  init_bytes s 0 digits9 ;;
  end_ ← lift (cheri_offset_increment s 10);
  m_assert (c_off end_ =? c_len end_) ;;
  m_for 1 10 (fun i =>
    ptr ← lift (cheri_offset_increment s i);
    m_assert (c_base ptr =? c_base s) ;;
    m_assert (c_len ptr =? c_len s) ;;
    m_assert (cap_ltb s ptr) ;;
    m_assert (cap_ltb ptr end_)) ;;
  mret 0.

(** ** clang_purecap_null *)

Definition is_null (p : cap) : M unit :=
  m_assert (negb (c_tag p)) ;;
  m_assert (c_base p =? 0) ;;
  m_assert (c_off p =? 0) ;;
  m_assert (c_len p =? 2 ^ 64 - 1).

Definition clang_purecap_null (zero : Z) : M Z :=
  let z := obj zero 8 in
  is_null null_cap ;;
  v ← load z 0 8 0;
  is_null (cap_of_int v) ;;
  v ← load z 0 8 0;
  is_null (cap_of_int v) ;;
  v ← load z 0 8 0;
  store 32 z 0 8 (v + 42) ;;
  v ← load z 0 8 0;
  store 32 z 0 8 (v - 42) ;;
  v ← load z 0 8 0;
  is_null (cap_of_int v) ;;
  mret 0.

(** ** clang_purecap_smallint: integers in the low bits of aligned pointers *)

Definition get_int (p : cap) : res Z :=
  let* v := @c_and cap (cap_int false) p (cap_of_int 7) in Ok (u32 (cap_int_value false v)).

Definition set_int (p : cap) (val : Z) : res cap :=
  let val := Z.land val 7 in
  let* p := @c_and cap (cap_int false) p (cap_of_int (Z.lnot 7)) in
  @c_xor cap (cap_int false) p (cap_of_int val).

Definition get_pointer (p : cap) : res cap :=
  @c_and cap (cap_int false) p (cap_of_int (Z.lnot 7)).

Definition clang_purecap_smallint (str : Z) : M Z :=
  let s := obj str 10 in
  init_bytes s 0 digits9 ;;
  m_assert (Z.land (c_addr s) 7 =? 0) ;;
  p ← lift (set_int s 4);
  v ← lift (get_int p);
  m_assert (v =? 4) ;;
  ptr ← lift (get_pointer p);
  m_assert (cap_eqb ptr s) ;;
  c ← load ptr 0 1 0;
  m_assert (int_value true 1 c =? 49) ;;
  mret 0.

(** ** clang_purecap_union *)

Definition clang_purecap_union (ptr p : Z) : M Z :=
  let u := obj p 32 in
  c ← load_c 32 (obj ptr 32) 0 null_cap;
  store_c 32 u 0 c ;;
  v ← load_c 32 u 0 null_cap;
  m_assert (c_len v =? 8) ;;
  v ← load_c 32 u 0 null_cap;
  m_assert (c_tag v) ;;
  store 32 u (3 * 8) 8 400 ;;
  v ← load_c 32 u 0 null_cap;
  m_assert (negb (c_tag v)) ;;
  mret 0.

(** ** Proofs *)

(** the bytes an initialiser has stored, and nothing else *)
Record initialised (a : Z) (bs : list Z) (s s' : machine) : Prop := {
  in_bytes : forall (i : nat) b, bs !! i = Some b -> peek (ms s') (a + Z.of_nat i) 1 = b mod 256;
  in_frame : forall x k, x + Z.of_nat k <= a \/ a + Z.of_nat (length bs) <= x -> peek (ms s') x k = peek (ms s) x k;
  in_caps : forall b, b mod 32 = 0 -> b + 32 <= a \/ a + Z.of_nat (length bs) <= b -> peek_c (ms s') b = peek_c (ms s) b;
  in_faults : faults s' = faults s;
  in_handler : test_fault_handler s' = test_fault_handler s;
}.

Lemma wp_init_bytes a len t bs s : 0 < a -> a + len <= 2 ^ 64 - 1 -> 0 <= t -> t + Z.of_nat (length bs) <= len ->
  wp (init_bytes (obj a len) t bs) (fun _ => initialised (a + t) bs s) s.
Proof.
  intros Ha Hl. revert t s. induction bs as [|b bs IH]; intros t s Ht Hb; [by split|].
  cbn [init_bytes length] in *. unfold obj in *. wp_step. wp_mem_store.
  eapply wp_mono; [apply IH; lia|]. intros [] s' [Hin Hfr Hcs Hf Hh]. split; [| | |by rewrite Hf|by rewrite Hh].
  - intros [|i] c Hc; simpl in Hc.
    + injection Hc as ->. rewrite Hfr by lia. peeks. replace (a + t + Z.of_nat 0) with (a + t) by lia.
      by rewrite peek_poke.
    + replace (a + t + Z.of_nat (S i)) with (a + (t + 1) + Z.of_nat i) by lia. by apply Hin.
  - intros x k Hx. cbn [length] in Hx. rewrite Hfr by lia. peeks. done.
  - intros x Hx0 Hx. cbn [length] in Hx. rewrite Hcs by lia. peeks. done.
Qed.

(** [h] counts the exceptions [causes], in this order; of any other it may do
    anything, so that a program that runs under every such [h] takes these *)
Definition expects (causes : list Z) (h : Z -> Z -> res Z) : Prop :=
  forall i cause, causes !! i = Some cause -> h cause (Z.of_nat i) = Ok (Z.of_nat i + 1).

(** with the exceptions [causes] and no others, the program returns 0 and leaves the memory [m'] *)
Definition takes (causes : list Z) (p : M Z) (m m' : mem) : Prop :=
  forall h, expects causes h ->
    wp p (fun r s => r = 0 /\ faults s = Z.of_nat (length causes) /\ ms s = m') (Machine m 0 h).

(** the memory after [n] rounds of the array test *)
Definition array_mem (buffer : Z) (m : mem) (n : Z) : mem :=
  let m := if 0 <? n then poke 32 m buffer 4 0 else m in
  if 1 <? n then poke 32 m (buffer + 4) 4 1 else m.

Lemma array_passes m buffer h : placed buffer 8 4 ->
  wp (clang_purecap_array buffer) (fun r s => r = 0 /\ faults s = 6 /\ ms s = array_mem buffer m 8) (Machine m 0 h).
Proof.
  intros [Hl Hh Ha]. unfold clang_purecap_array, obj. cbv zeta. repeat wp_step; [done|].
  apply wp_for with (P := fun n s => test_fault_handler s = handler /\ faults s = Z.max 0 (n - 2) /\
    ms s = array_mem buffer m n); [lia|done| |].
  - intros i s Hi (Hs & Hf & Hm). destruct (decide (i < 2)) as [Hin|Hout].
    + wp_mem_store. unfold set_mem. cbn [ms faults test_fault_handler]. rewrite Hm. split; [done|]. split; [lia|].
      assert (i = 0 \/ i = 1) as [->| ->] by lia; [|done]. change (4 * 0) with 0. by rewrite Z.add_0_r.
    + eapply (wp_skip _ _ _ _ _ _ cheri_fault_length (faults s + 1)).
      * apply cause_past_end; done || lia.
      * by rewrite Hs.
      * split; [done|]. cbn [faults ms]. split; [lia|]. rewrite Hm. unfold array_mem.
        by rewrite !(proj2 (Z.ltb_lt _ _)) by lia.
  - intros s (_ & Hf & Hm). repeat wp_step; by rewrite Hf.
Qed.

Lemma input_passes m x : placed x 4 4 -> takes [cheri_fault_store] (clang_purecap_input x) m (poke 32 m x 4 47).
Proof.
  intros [Hl Hh Ha] h Hex. unfold clang_purecap_input, obj. wp_step. wp_mem_store. repeat wp_step.
  change (to_input _) with (Ok (pblk (Z.land PERMS_DATA (PERMS_ALL - 40)) x 4 0)). repeat wp_step.
  unfold input_foo. repeat wp_step. wp_mem_load. repeat wp_step; [done..|].
  eapply (wp_skip _ _ _ _ _ _ cheri_fault_store 1); [by apply cause_perm|by apply (Hex 0%nat)|]. repeat wp_step.
  wp_mem_load. by repeat wp_step.
Qed.

Lemma output_passes m stale x : placed x 4 4 ->
  takes [cheri_fault_load] (clang_purecap_output stale x) m (poke 32 (poke 32 m x 4 47) x 4 42).
Proof.
  intros [Hl Hh Ha] h Hex. unfold clang_purecap_output, obj. wp_step. wp_mem_store. repeat wp_step.
  change (to_output _) with (Ok (pblk (Z.land PERMS_DATA (PERMS_ALL - 20)) x 4 0)). repeat wp_step.
  unfold output_foo. repeat wp_step.
  eapply (wp_skip _ _ _ _ _ _ cheri_fault_load 1); [by apply cause_perm|by apply (Hex 0%nat)|].
  repeat wp_step; [done..|]. wp_mem_store. repeat wp_step. wp_mem_load.
  by repeat wp_step.
Qed.

Lemma badcall_passes m not_a_function a code : placed not_a_function 32 32 ->
  peek_c m not_a_function = obj a 4 ->
  takes [cheri_fault_tag; cheri_fault_execute] (clang_purecap_badcall not_a_function code) m m.
Proof.
  intros [Hl Hh Ha] Hg h Hex. unfold clang_purecap_badcall, obj in *. cbv zeta. wp_step.
  apply (wp_fault cheri_fault_tag 1); [by apply (Hex 0%nat)|]. repeat wp_step; [done|].
  wp_mem_load_c. rewrite Hg. wp_step.
  unfold call. rewrite cause_perm by done. apply (wp_fault _ 2); [by apply (Hex 1%nat)|]. by repeat wp_step.
Qed.

Lemma capcmp_passes m str : placed str 10 1 -> passes 0 (clang_purecap_capcmp str) m.
Proof.
  intros [Hl Hh _]. unfold passes, clang_purecap_capcmp. cbv zeta. wp_step.
  eapply wp_mono; [apply wp_init_bytes; simpl; lia|]. intros [] s [_ _ _ Hf _]. unfold obj. rewrite incr_blk.
  repeat wp_step; [done|].
  apply wp_for with (P := fun _ s' => faults s' = 0); [lia|done| |by intros s' Hs'].
  intros i s' Hi Hs'. rewrite incr_blk, !(wrap_small 64) by lia. repeat wp_step; try done; try apply Z.eqb_refl.
  - unfold cap_ltb; cbn [pblk c_tag]. rewrite !addr_blk by lia. lia.
  - unfold cap_ltb; cbn [pblk c_tag]. rewrite !addr_blk by lia. lia.
Qed.

Lemma null_passes m zero : placed zero 8 8 -> peek m zero 8 = 0 -> passes 0 (clang_purecap_null zero) m.
Proof.
  intros [Hl Hh Ha] H0. unfold passes, clang_purecap_null, is_null, obj. cbv zeta. repeat wp_step; try done.
  wp_mem_load. rewrite H0. repeat wp_step; try done. wp_mem_load. rewrite H0. repeat wp_step; try done.
  wp_mem_load. rewrite H0. wp_step. wp_mem_store. repeat wp_step. wp_mem_load. wp_step. wp_mem_store. repeat wp_step.
  wp_mem_load. by repeat wp_step.
Qed.

Lemma smallint_passes m str : placed str 10 8 -> passes 0 (clang_purecap_smallint str) m.
Proof.
  intros [Hl Hh Ha]. unfold passes, clang_purecap_smallint. cbv zeta. wp_step.
  eapply wp_mono; [apply wp_init_bytes; simpl; lia|]. intros [] s [Hin _ _ Hf _]. repeat wp_step.
  { unfold obj. change 7 with (2 ^ 3 - 1). rewrite land_mask, addr_blk by lia. rewrite Z.add_0_r. by apply Z.eqb_eq. }
  change (set_int (obj str 10) 4) with (Ok (pblk PERMS_DATA str 10 4)). repeat wp_step.
  change (get_int (pblk PERMS_DATA str 10 4)) with (Ok 4). repeat wp_step; [done|].
  change (get_pointer (pblk PERMS_DATA str 10 4)) with (Ok (pblk PERMS_DATA str 10 0)). repeat wp_step.
  { unfold cap_eqb, obj. apply andb_true_iff. split; [done|apply Z.eqb_refl]. }
  wp_mem_load. specialize (Hin 0%nat 49 eq_refl). rewrite Z.add_0_r in Hin. change (Z.of_nat 0) with 0 in Hin.
  rewrite Z.add_0_r in Hin. rewrite Hin. by repeat wp_step.
Qed.

Lemma union_passes m ptr buffer p : placed ptr 32 32 -> placed p 32 32 -> placed buffer 8 1 ->
  peek_c m ptr = obj buffer 8 -> passes 0 (clang_purecap_union ptr p) m.
Proof.
  intros [Hql Hqh Hqa] [Hl Hh Ha] [Hbl Hbh _] Hg. unfold passes, clang_purecap_union. cbv zeta.
  assert (Hwf : cap_wf (obj buffer 8)) by (apply obj_wf; lia).
  unfold obj in *. wp_step. wp_mem_load_c. rewrite Hg.
  wp_step. wp_mem_store_c. repeat wp_step. wp_mem_load_c. rewrite peek_put_cap by done.
  repeat wp_step; [done|]. wp_mem_load_c. rewrite peek_put_cap by done.
  repeat wp_step; [done|]. wp_mem_store. repeat wp_step. wp_mem_load_c. rewrite tag_poke.
  - by repeat wp_step.
  - unfold granule. mlia.
Qed.

(** ** The tests pass *)

(** C23: the programs that expect exceptions take exactly the ones they expect,
    whatever else the handler would do, and the memory they leave is known to the
    byte and tag.  Six length exceptions of eight stores to an array of two
    elements, of which the two within it are made; one store exception through an
    input pointer, so that the variable keeps its 47; one load exception through
    an output pointer, through which 42 is stored; a tag and then an execute
    exception for calls of what is no function, whatever code is there, with the
    memory as it was. *)
Theorem purecap_fault_tests_pass m buffer x stale not_a_function a code h :
  placed buffer 8 4 -> placed x 4 4 -> placed not_a_function 32 32 -> peek_c m not_a_function = obj a 4 ->
  wp (clang_purecap_array buffer)
    (fun r s => r = 0 /\ faults s = 6 /\ ms s = poke 32 (poke 32 m buffer 4 0) (buffer + 4) 4 1) (Machine m 0 h) /\
  takes [cheri_fault_store] (clang_purecap_input x) m (poke 32 m x 4 47) /\
  takes [cheri_fault_load] (clang_purecap_output stale x) m (poke 32 (poke 32 m x 4 47) x 4 42) /\
  takes [cheri_fault_tag; cheri_fault_execute] (clang_purecap_badcall not_a_function code) m m.
Proof.
  intros Hb Hx Hf Ha. split; [by apply array_passes|]. split; [by apply input_passes|].
  split; [by apply output_passes|by eapply badcall_passes].
Qed.

(** C33: comparison within an object, the null pointer, integers in the low
    bits of aligned pointers and pointers overwritten in a union behave as the
    programs assert, with no exception. *)
Theorem purecap_pointer_tests_pass m str str8 zero ptr buffer p :
  placed str 10 1 -> placed str8 10 8 -> placed zero 8 8 -> peek m zero 8 = 0 ->
  placed ptr 32 32 -> placed p 32 32 -> placed buffer 8 1 -> peek_c m ptr = obj buffer 8 ->
  passes 0 (clang_purecap_capcmp str) m /\
  passes 0 (clang_purecap_null zero) m /\
  passes 0 (clang_purecap_smallint str8) m /\
  passes 0 (clang_purecap_union ptr p) m.
Proof.
  intros. split; [by apply capcmp_passes|]. split; [by apply null_passes|].
  split; [by apply smallint_passes|by eapply union_passes].
Qed.

(** a pointer to the variable at 0x100 is at 0x200, one to the array at 0x108
    at 0x220 *)
#[local] Abbreviation ex_mem :=
  (put_cap (put_cap (Mem ∅ ∅) 0x200 (cap_bytes (obj 0x100 4)) true) 0x220 (cap_bytes (obj 0x108 8)) true).

Lemma ex_mem_pointers :
  peek_c ex_mem 0x200 = obj 0x100 4 /\ peek_c ex_mem 0x220 = obj 0x108 8 /\ peek ex_mem 0x300 8 = 0.
Proof. by vm_compute. Qed.

(** a handler that fails on any other exception *)
#[local] Abbreviation only_for causes :=
  (fun cause n => if bool_decide (causes !! Z.to_nat n = Some cause) then Ok (n + 1) else Err ETrap).

Lemma purecap_fault_tests_pass_witness :
  takes [cheri_fault_store] (clang_purecap_input 0x400) ex_mem (poke 32 ex_mem 0x400 4 47) /\
  takes [cheri_fault_load] (clang_purecap_output 5 0x400) ex_mem (poke 32 (poke 32 ex_mem 0x400 4 47) 0x400 4 42) /\
  takes [cheri_fault_tag; cheri_fault_execute] (clang_purecap_badcall 0x200 (fun _ => mret tt)) ex_mem ex_mem /\
  expects [cheri_fault_tag; cheri_fault_execute] (only_for [cheri_fault_tag; cheri_fault_execute]) /\
  expects [cheri_fault_tag; cheri_fault_execute] default_handler.
Proof.
  assert (Hp : placed 0x500 8 4 /\ placed 0x400 4 4 /\ placed 0x200 32 32) by (repeat split; done).
  destruct Hp as (H1 & H2 & H3). pose proof (proj1 ex_mem_pointers) as H4.
  destruct (purecap_fault_tests_pass ex_mem 0x500 0x400 5 0x200 0x100 (fun _ => mret tt) default_handler H1 H2 H3 H4)
    as (_ & T1 & T2 & T3).
  split; [exact T1|]. split; [exact T2|]. split; [exact T3|]. split; [|done].
  intros i cause Hi. rewrite Nat2Z.id. by rewrite bool_decide_true.
Defined.

Lemma purecap_pointer_tests_pass_witness :
  passes 0 (clang_purecap_capcmp 0x500) ex_mem /\ passes 0 (clang_purecap_null 0x300) ex_mem /\
  passes 0 (clang_purecap_smallint 0x600) ex_mem /\ passes 0 (clang_purecap_union 0x220 0x700) ex_mem.
Proof.
  assert (Hp : placed 0x500 10 1 /\ placed 0x600 10 8 /\ placed 0x300 8 8 /\ placed 0x220 32 32 /\
               placed 0x700 32 32 /\ placed 0x108 8 1) by (repeat split; done).
  destruct Hp as (H1 & H2 & H3 & H4 & H5 & H6). destruct ex_mem_pointers as (_ & H7 & H8).
  exact (purecap_pointer_tests_pass ex_mem 0x500 0x600 0x300 0x220 0x108 0x700 H1 H2 H3 H8 H4 H5 H6 H7).
Defined.
