(* ===== verification/PurecapObjects.v ===== *)
(** * PurecapObjects: the clang-purecap programs on globals, stack and values.

    [clang_purecap_init], [intcap], [stack_cap], [byval_args], [union_struct] and
    [atomic] of [cheri-c-tests/clang-purecap], as programs of the monad of Machine: pointers
    that are initialised statically, integers held in capabilities, arrays on
    the stack, structures passed by value and atomic variables.  The addresses
    of the variables are arguments.  A capability is 32 bytes. *)

From S2P Require Import Prelude CheriMem Machine IntMath PurecapTests.

(** ** clang_purecap_init *)

Section init.
(** the globals, the program counter capability and the function's pointer *)
Context (foo bar called x f : Z) (pcc test_fn_ptr : cap).

Definition test_fn_body : M unit :=
  v ← load (obj called 4) 0 4 0;
  store 32 (obj called 4) 0 4 (int_value true 4 v + 1).

(** the code at a function pointer *)
Definition code (g : cap) : M unit :=
  if decide (g = test_fn_ptr) then test_fn_body else lift (Err EUndef).

Definition check_char (i v : Z) : M unit :=
  b ← load_c 32 (obj bar 32) 0 null_cap;
  c ← load b i 1 0;
  m_assert (int_value true 1 c =? v).

Definition clang_purecap_init : M Z :=
  check_char 0 48 ;;
  check_char 1 49 ;;
  check_char 2 50 ;;
  check_char 3 51 ;;
  check_char 4 52 ;;
  check_char 5 0 ;;
  b ← load_c 32 (obj bar 32) 0 null_cap;
  m_assert (has_not_permission b PERMIT_EXECUTE) ;;
  m_assert (c_len b =? 6) ;;
  m_assert (cap_eqb b (obj foo 6)) ;;
  g ← load_c 32 (obj f 32) 0 null_cap;
  m_assert (cap_eqb g test_fn_ptr) ;;
  xf ← load_c 32 (obj x 64) 32 null_cap;
  m_assert (cap_eqb xf test_fn_ptr) ;;
  m_assert (has_permission g PERMIT_EXECUTE) ;;
  m_assert (c_len pcc =? c_len g) ;;
  m_assert (c_base pcc =? c_base g) ;;
  xf ← load_c 32 (obj x 64) 32 null_cap;
  call xf (code xf) ;;
  g ← load_c 32 (obj f 32) 0 null_cap;
  call g (code g) ;;
  v ← load (obj called 4) 0 4 0;
  m_assert (int_value true 4 v =? 2) ;;
  mret 0.
End init.

(** ** clang_purecap_intcap *)

Section intcap.
Context (str tmp one two : Z).

Definition c_plus (c : cap) (n : Z) : M cap := lift (@c_add cap (cap_int true) c (cap_of_int n)).
Definition c_minus (c : cap) (n : Z) : M cap := lift (@c_sub cap (cap_int true) c (cap_of_int n)).

(** "0123456789" *)
Definition digits10 : list Z := [48; 49; 50; 51; 52; 53; 54; 55; 56; 57; 0].

(** a global [__intcap_t] that must hold [n], as a capability and as a number *)
Definition check_int (g n : Z) : M unit :=
  v ← load_c 32 (obj g 32) 0 null_cap;
  m_assert (cap_eqb v (cap_of_int n)) ;;
  m_assert (cap_int_value false v =? n).

Definition check_word (g i n : Z) : M unit :=
  w ← load (obj g 32) (8 * i) 8 0;
  m_assert (w =? n).

Definition intcap_pointer : M unit :=
  let s := obj str 11 in
  init_bytes s 0 digits10 ;;
  let foo := cap_of_int 42 in
  m_assert (negb (c_tag foo)) ;;
  m_assert (c_off foo =? 42) ;;
  m_assert (c_base foo =? 0) ;;
  let foo := s in
  m_assert (c_tag foo) ;;
  m_assert (c_tag foo) ;;
  foo ← c_plus foo 5;
  c ← load foo 0 1 0;
  m_assert (int_value true 1 c =? 53) ;;
  m_assert (c_off foo =? 5) ;;
  m_assert (c_base foo =? c_base s) ;;
  m_assert (c_len foo =? c_len s) ;;
  foo ← c_plus foo 50;
  store_c 32 (obj tmp 32) 0 foo ;;
  foo ← load_c 32 (obj tmp 32) 0 null_cap;
  foo ← c_minus foo 50;
  c ← load foo 0 1 0;
  m_assert (int_value true 1 c =? 53) ;;
  m_assert (c_off foo =? 5) ;;
  m_assert (cap_ltb (cap_of_int (2 ^ 64 - 1)) foo).

Definition intcap_values : M unit :=
  check_int one 1 ;;
  check_word one 0 0 ;;
  check_word one 1 1 ;;
  check_word one 2 0 ;;
  check_word one 3 0 ;;
  tmp2 ← load_c 32 (obj two 32) 0 null_cap;
  m_assert (cap_eqb tmp2 (cap_of_int 2)) ;;
  m_assert (cap_int_value false tmp2 =? 2) ;;
  store_c 32 (obj two 32) 0 (cap_of_int 3) ;;
  check_int two 3 ;;
  store_c 32 (obj two 32) 0 tmp2 ;;
  check_int two 2.

Definition clang_purecap_intcap : M Z :=
  intcap_pointer ;;
  intcap_values ;;
  mret 0.
End intcap.

(** ** clang_purecap_stack_cap *)

Definition sizes : list Z := [131072; 262144; 1048576].

Definition check_overlap (a b : cap) : M unit :=
  let basea := c_base a in
  let baseb := c_base b in
  let topa := u64 (basea + c_len a) in
  let topb := u64 (baseb + c_len b) in
  m_assert ((topb <=? basea) || (topa <=? baseb)).

Definition check_sizes (ptrs : Z) : M unit :=
  m_for 0 3 (fun i =>
    p ← load_c 32 (obj ptrs 96) (32 * i) null_cap;
    m_assert (nth (Z.to_nat i) sizes 0 <=? c_len p)).

(** the arguments are the capabilities for the three arrays on the stack *)
Definition do_test (ptrs : Z) (foo bar baz : cap) : M unit :=
  store_c 32 (obj ptrs 96) 0 foo ;;
  store_c 32 (obj ptrs 96) 32 bar ;;
  store_c 32 (obj ptrs 96) 64 baz ;;
  check_overlap foo bar ;;
  check_overlap bar baz ;;
  check_overlap foo baz ;;
  check_sizes ptrs.

Definition clang_purecap_stack_cap (ptrs : Z) (foo bar baz : cap) : M Z :=
  do_test ptrs foo bar baz ;; mret 0.

(** ** clang_purecap_byval_args *)

Definition memset (c : cap) (v n : Z) : M unit := m_for 0 n (fun i => store 32 c i 1 v).

Definition foo_byval (f : cap) : M unit := memset f 42 1024.

(** passing a structure by value: the callee gets a copy, at [f] *)
Definition by_value (src f : cap) (n : Z) : M unit :=
  m_for 0 n (fun i => b ← load src i 1 0; store 32 f i 1 b).

Definition clang_purecap_byval_args (global_foo f : Z) : M Z :=
  let g := obj global_foo 1024 in
  memset g 0 1024 ;;
  v ← load g 0 1 0;
  m_assert (int_value true 1 v =? 0) ;;
  by_value g (obj f 1024) 1024 ;;
  foo_byval (obj f 1024) ;;
  v ← load g 0 1 0;
  m_assert (int_value true 1 v =? 0) ;;
  mret 0.

(** ** clang_purecap_union_struct *)

(** the members of [Bar] in [union CallData], by offset *)
Definition Bar_c := 0.
Definition Bar_i := 32.
Definition Bar_c2 := 64.

(** the callee's copy of the union, member by member *)
Definition pass_CallData (src dst : cap) : M unit :=
  c ← load_c 32 src Bar_c null_cap;
  store_c 32 dst Bar_c c ;;
  i ← load src Bar_i 4 0;
  store 32 dst Bar_i 4 i ;;
  c2 ← load_c 32 src Bar_c2 null_cap;
  store_c 32 dst Bar_c2 c2.

Definition union_f (foo : cap) : M unit :=
  d ← load_c 32 foo Bar_c null_cap;
  e ← load_c 32 foo Bar_c2 null_cap;
  j ← load foo Bar_i 4 0;
  v ← load d 0 1 0;
  m_assert (int_value true 1 v =? 104) ;;        (* 'h' *)
  v ← load e 0 1 0;
  m_assert (int_value true 1 v =? 119) ;;        (* 'w' *)
  m_assert (int_value true 4 j =? 9).

(** [hello] and [world] are the string literals, [arg] the callee's copy *)
Definition clang_purecap_union_struct (foo arg hello world : Z) : M Z :=
  let u := obj foo 96 in
  store_c 32 u Bar_c (obj hello 6) ;;
  store 32 u Bar_i 4 9 ;;
  store_c 32 u Bar_c2 (obj world 6) ;;
  pass_CallData u (obj arg 96) ;;
  union_f (obj arg 96) ;;
  mret 0.

(** ** clang_purecap_atomic *)

Section atomic.
(** the variables, and the pointers to them *)
Context (c h w d p : Z) (cp hp wp_ dp pp newval : Z).

Definition c11_atomic_increment (x : cap) (k : Z) : M unit :=
  v ← load x 0 k 0;
  store 32 x 0 k (int_value true k v + 1).

Definition c11_atomic_exchange (x v : cap) : M cap :=
  old ← load_c 32 x 0 null_cap;
  store_c 32 x 0 v ;;
  mret old.

(** compare-and-exchange; the second result is what [expected] holds after *)
Definition c11_atomic_compare_exchange (x expected v : cap) : M (bool * cap) :=
  old ← load_c 32 x 0 null_cap;
  if cap_eqb old expected then store_c 32 x 0 v ;; mret (true, expected)
  else mret (false, old).

Definition check_len (q n : Z) : M unit :=
  r ← load_c 32 (obj q 32) 0 null_cap;
  m_assert (c_len r =? n).

Definition increment_through (q k : Z) : M unit :=
  r ← load_c 32 (obj q 32) 0 null_cap;
  c11_atomic_increment r k.

Definition check_var (x k n : Z) : M unit :=
  v ← load (obj x k) 0 k 0;
  m_assert (int_value true k v =? n).

Definition check_p (n : cap) : M unit :=
  v ← load_c 32 (obj p 32) 0 null_cap;
  m_assert (cap_eqb v n).

Definition atomic_integers : M unit :=
  check_len cp 1 ;; check_len hp 2 ;; check_len wp_ 4 ;; check_len dp 8 ;;
  c11_atomic_increment (obj c 1) 1 ;;
  c11_atomic_increment (obj h 2) 2 ;;
  c11_atomic_increment (obj w 4) 4 ;;
  c11_atomic_increment (obj d 8) 8 ;;
  increment_through cp 1 ;; increment_through hp 2 ;; increment_through wp_ 4 ;; increment_through dp 8 ;;
  check_var c 1 2 ;; check_var h 2 2 ;; check_var w 4 2 ;; check_var d 8 2.

Definition atomic_pointers : M unit :=
  check_len pp 32 ;;
  check_p null_cap ;;
  store_c 32 (obj p 32) 0 (cap_of_int 1) ;;
  check_p (cap_of_int 1) ;;
  let expected := cap_of_int 1 in
  r ← c11_atomic_compare_exchange (obj p 32) expected (obj newval 4);
  m_assert (fst r) ;;
  check_p (obj newval 4) ;;
  xchg_value ← c11_atomic_exchange (obj p 32) (cap_of_int 2);
  m_assert (cap_eqb xchg_value (obj newval 4)) ;;
  check_p (cap_of_int 2) ;;
  store_c 32 (obj p 32) 0 (cap_of_int 3) ;;
  check_p (cap_of_int 3).

Definition clang_purecap_atomic : M Z :=
  atomic_integers ;;
  atomic_pointers ;;
  mret 0.
End atomic.

(** ** Proofs *)

(** *** init *)

Section init_proofs.
Context (foo bar called x f : Z) (pcc : cap) (m : mem) (test_fn : Z).
Let fn := with_off pcc test_fn.

(** what the linker has put where, and what [pcc] permits *)
Record linked : Prop := {
  ln_bar : placed bar 32 32;
  ln_foo : placed foo 6 1;
  ln_called : placed called 4 4;
  ln_x : placed x 64 32;
  ln_f : placed f 32 32;
  ln_sep : (called + 4 <= f \/ f + 32 <= called) /\ (called + 4 <= x \/ x + 64 <= called);
  ln_bar_is : peek_c m bar = obj foo 6;
  ln_string : forall i, 0 <= i < 6 -> peek m (foo + i) 1 = nth (Z.to_nat i) [48; 49; 50; 51; 52; 0] 0;
  ln_f_is : peek_c m f = fn;
  ln_x_is : peek_c m (x + 32) = fn;
  ln_called_is : peek m called 4 = 0;
  ln_pcc : usable pcc = true /\ has_perm (c_perms pcc) PERMIT_EXECUTE = true;
  ln_code : c_base pcc <= c_addr fn /\ c_addr fn + 4 <= c_top pcc;
}.

Context (Hln : linked).

Lemma wp_check_char s i v (Q : unit -> machine -> Prop) : ms s = m -> 0 <= i < 6 ->
  nth (Z.to_nat i) [48; 49; 50; 51; 52; 0] 0 = v -> 0 <= v < 128 -> Q tt s -> wp (check_char bar i v) Q s.
Proof.
  intros Hs Hi Hv Hr HQ. destruct Hln as [[Hbl Hbh Hba] [Hl Hh _] _ _ _ _ Hbar Hstr _ _ _ _ _].
  unfold check_char, obj in *. wp_step. wp_mem_load_c. rewrite Hs, Hbar. wp_step. wp_mem_load.
  rewrite Hs, Hstr, Hv by done. wp_step; [|done]. rewrite int_value_small by lia. apply Z.eqb_refl.
Qed.

Lemma wp_call_fn g s (Q : unit -> machine -> Prop) : g = fn ->
  wp (test_fn_body called) Q s -> wp (call g (code called fn g)) Q s.
Proof.
  intros -> HQ. destruct Hln as [_ _ _ _ _ _ _ _ _ _ _ [Hu Hx] Hr].
  apply wp_call; [by split|]. unfold code. by rewrite decide_True.
Qed.

Lemma init_passes :
  wp (clang_purecap_init foo bar called x f pcc fn)
     (fun r s => r = 0 /\ faults s = 0 /\ peek (ms s) called 4 = 2) (start m).
Proof.
  unfold clang_purecap_init.
  do 6 (wp_step; apply wp_check_char; [done|lia|done|lia|]).
  pose proof Hln as [[Hbl Hbh Hba] [Hol Hoh _] [Hcl Hch Hca] [Hxl Hxh Hxa] [Hfl Hfh Hfa] [Hs1 Hs2] Hbar _ Hf Hx Hc [_ Hex] _].
  unfold obj. wp_step. wp_mem_load_c. rewrite Hbar. unfold obj. repeat wp_step; [done|done|apply cap_eqb_refl|].
  wp_mem_load_c. rewrite Hf. repeat wp_step; [apply cap_eqb_refl|]. wp_mem_load_c. rewrite Hx.
  repeat wp_step; [apply cap_eqb_refl|exact Hex|apply Z.eqb_refl|apply Z.eqb_refl|].
  wp_mem_load_c. wp_step. apply wp_call_fn; [done|]. unfold test_fn_body, obj. wp_step.
  wp_mem_load. rewrite Hc. change (int_value true 4 0 + 1) with 1. wp_mem_store.
  wp_step. wp_mem_load_c. rewrite Hf. wp_step. apply wp_call_fn; [done|]. unfold test_fn_body, obj. wp_step.
  wp_mem_load. change (int_value true 4 (1 mod 256 ^ Z.of_nat 4) + 1) with 2. wp_mem_store.
  wp_step. wp_mem_load. repeat wp_step; [done|]. split; [done|]. split; [done|]. peeks. done.
Qed.
End init_proofs.

(** *** intcap *)

(** the words of a capability that memory holds *)
Lemma peek_words m a c : read_bytes m a 32 = cap_bytes c ->
  peek m a 8 = be_value (take 8 (cap_bytes c)) /\ peek m (a + 8) 8 = be_value (take 8 (drop 8 (cap_bytes c))) /\
  peek m (a + 16) 8 = be_value (take 8 (drop 16 (cap_bytes c))) /\
  peek m (a + 24) 8 = be_value (take 8 (drop 24 (cap_bytes c))).
Proof.
  intros H. change 32%nat with (8 + (8 + (8 + 8)))%nat in H. rewrite !read_bytes_app in H. rewrite <- H.
  replace (a + Z.of_nat 8 + Z.of_nat 8) with (a + 16) by lia.
  replace (a + 16 + Z.of_nat 8) with (a + 24) by lia. change (a + Z.of_nat 8) with (a + 8).
  done.
Qed.

Section intcap_proofs.
Context (str tmp one two : Z) (m : mem).

Record intcap_globals : Prop := {
  ig_str : placed str 11 1;
  ig_tmp : placed tmp 32 32;
  ig_one : placed one 32 32;
  ig_two : placed two 32 32;
  ig_sep1 : (str + 11 <= one \/ one + 32 <= str) /\ (str + 11 <= two \/ two + 32 <= str);
  ig_sep2 : str + 11 <= tmp \/ tmp + 32 <= str;
  ig_sep3 : (tmp + 32 <= one \/ one + 32 <= tmp) /\ (tmp + 32 <= two \/ two + 32 <= tmp) /\
            (one + 32 <= two \/ two + 32 <= one);
  ig_one_is : read_bytes m one 32 = cap_bytes (cap_of_int 1) /\ has_tag m one = false;
  ig_two_is : peek_c m two = cap_of_int 2;
}.

Context (Hg : intcap_globals).

(** the globals are still as they were *)
Definition kept (s : machine) : Prop :=
  faults s = 0 /\ peek_c (ms s) one = cap_of_int 1 /\ peek_c (ms s) two = cap_of_int 2 /\
  forall i, In i [0; 8; 16; 24] -> peek (ms s) (one + i) 8 = if i =? 8 then 1 else 0.

Lemma start_kept : kept (start m).
Proof.
  destruct Hg as [_ _ _ _ _ _ _ [Hone Htag] Htwo]. split; [done|]. cbn [start ms]. split; [|split; [done|]].
  - unfold peek_c. by rewrite Hone, Htag.
  - destruct (peek_words m one _ Hone) as (H0 & H1 & H2 & H3).
    intros i [<-|[<-|[<-|[<-|[]]]]]; [rewrite Z.add_0_r|..]; [rewrite H0|rewrite H1|rewrite H2|rewrite H3]; by vm_compute.
Qed.

Lemma c_plus_obj a len off n s (Q : cap -> machine -> Prop) : 0 <= off < 2 ^ 62 -> 0 <= n < 2 ^ 62 ->
  Q (pblk PERMS_DATA a len (off + n)) s -> wp (c_plus (pblk PERMS_DATA a len off) n) Q s.
Proof.
  intros Ho Hn HQ. unfold c_plus. cbn [c_add cap_int]. unfold on_offset, cap_int_value, norm.
  cbn [c_off pblk cap_of_int with_off null_cap]. rewrite (wrap_small 64 n) by lia.
  change (sgn 64) with (int_value true 8). rewrite !int_value_small by lia. cbn [res_bind].
  rewrite set_blk, wrap_small by lia. by wp_step.
Qed.

Lemma c_minus_obj a len off n s (Q : cap -> machine -> Prop) : 0 <= n <= off -> off < 2 ^ 62 ->
  Q (pblk PERMS_DATA a len (off - n)) s -> wp (c_minus (pblk PERMS_DATA a len off) n) Q s.
Proof.
  intros Hn Ho HQ. unfold c_minus. cbn [c_sub cap_int]. unfold on_offset, cap_int_value, norm.
  cbn [c_off pblk cap_of_int with_off null_cap]. rewrite (wrap_small 64 n) by lia.
  change (sgn 64) with (int_value true 8). rewrite !int_value_small by lia. cbn [res_bind].
  rewrite set_blk, wrap_small by lia. by wp_step.
Qed.

(** storing a capability in [tmp] keeps them *)
Lemma kept_frame s s' : faults s' = faults s ->
  (forall a k, a + Z.of_nat k <= tmp \/ tmp + 32 <= a -> peek (ms s') a k = peek (ms s) a k) ->
  (forall b, b mod 32 = 0 -> b + 32 <= tmp \/ tmp + 32 <= b -> peek_c (ms s') b = peek_c (ms s) b) ->
  kept s -> kept s'.
Proof.
  destruct Hg as [_ _ [Hol Hoh Hoa] [Hwl Hwh Hwa] _ _ (Hs4 & Hs5 & Hs6) _ _].
  intros Hf Hp Hc (Hk & H1 & H2 & H3). split; [by rewrite Hf|].
  rewrite !Hc by lia. split; [done|]. split; [done|]. intros i Hi. rewrite Hp; [by apply H3|].
  destruct Hi as [<-|[<-|[<-|[<-|[]]]]]; lia.
Qed.

Lemma kept_init s : initialised (str + 0) digits10 (start m) s -> kept s.
Proof.
  destruct Hg as [_ _ [Hol Hoh Hoa] [Hwl Hwh Hwa] [Hs1 Hs2] _ _ _ _].
  intros [_ Hp Hc Hf _]. destruct start_kept as (Hk & H1 & H2 & H3). split; [by rewrite Hf|].
  simpl length in *. rewrite !Hc by lia. split; [done|]. split; [done|].
  intros i Hi. rewrite Hp; [by apply H3|]. destruct Hi as [<-|[<-|[<-|[<-|[]]]]]; lia.
Qed.

Lemma intcap_pointer_ok : wp (intcap_pointer str tmp) (fun _ => kept) (start m).
Proof.
  pose proof Hg as [[Hsl Hsh _] [Htl Hth Hta] _ _ _ Hs3 _ _ _].
  unfold intcap_pointer. cbv zeta. wp_step.
  eapply wp_mono; [apply wp_init_bytes; simpl; lia|]. intros [] s Hin.
  pose proof (in_bytes _ _ _ _ Hin 5%nat 53 eq_refl) as Hb5.
  replace (str + 0 + Z.of_nat 5) with (str + 5) in Hb5 by lia.
  apply kept_init in Hin. unfold obj. repeat wp_step; [done..|].
  apply c_plus_obj; [lia|lia|]. change (0 + 5) with 5. repeat wp_step. wp_mem_load. rewrite Hb5.
  repeat wp_step; [done|done|apply Z.eqb_refl|apply Z.eqb_refl|].
  apply c_plus_obj; [lia|lia|]. change (5 + 50) with 55. wp_step. wp_mem_store_c. wp_step. wp_mem_load_c.
  rewrite peek_put_cap by (apply blk_wf; unfold PERMS_DATA, PERMS_ALL, PERMIT_EXECUTE; lia).
  wp_step. apply c_minus_obj; [lia|lia|]. change (55 - 50) with 5. repeat wp_step. wp_mem_load. rewrite Hb5.
  repeat wp_step; [done..|].
  eapply kept_frame; [| | |exact Hin]; [done| |].
  - intros a k Ha. peeks. done.
  - intros b Hb Ha. peeks. done.
Qed.

Lemma wp_check_int g n s (Q : unit -> machine -> Prop) : placed g 32 32 -> peek_c (ms s) g = cap_of_int n ->
  0 <= n < 2 ^ 64 -> Q tt s -> wp (check_int g n) Q s.
Proof.
  intros [Hl Hh Ha] Hc Hn HQ. unfold check_int, obj. wp_step. wp_mem_load_c. rewrite Hc.
  repeat wp_step; [| |done].
  - unfold cap_eqb. by rewrite Z.eqb_refl, Bool.eqb_reflx.
  - unfold cap_int_value, norm; cbn [cap_of_int with_off c_off]. rewrite !wrap_small by (rewrite ?wrap_small by lia; lia).
    apply Z.eqb_refl.
Qed.

Lemma intcap_passes : passes 0 (clang_purecap_intcap str tmp one two) m.
Proof.
  unfold passes, clang_purecap_intcap. wp_step. eapply wp_mono; [apply intcap_pointer_ok|].
  intros [] s (Hf & H1 & H2 & H3). pose proof Hg as [_ _ Hone Htwo _ _ _ _ _].
  unfold intcap_values. repeat wp_step. apply wp_check_int; [done|done|lia|].
  pose proof Hone as [Hol Hoh Hoa]. pose proof Htwo as [Hwl Hwh Hwa].
  assert (Hword : forall i n (Q : unit -> machine -> Prop), In (8 * i) [0; 8; 16; 24] ->
    n = (if 8 * i =? 8 then 1 else 0) -> Q tt s -> wp (check_word one i n) Q s).
  { intros i n Q Hi Hn HQ. unfold check_word, obj. wp_step. apply wp_load.
    - apply allowed_blk; try (done || lia); destruct Hi as [Hi|[Hi|[Hi|[Hi|[]]]]]; rewrite <- ?Hi; try lia; mlia.
    - rewrite addr_blk by lia. replace (one + 0 + 8 * i) with (one + 8 * i) by lia. peeks.
      rewrite H3 by done. apply wp_assert; [|done]. rewrite Hn. apply Z.eqb_refl. }
  do 4 (wp_step; apply Hword; [simpl; tauto|done|]).
  unfold obj. wp_step. wp_mem_load_c. rewrite H2. repeat wp_step; [done|done|].
  wp_mem_store_c. wp_step. apply wp_check_int; [done| |lia|].
  { peeks. by apply peek_put_cap. }
  wp_step. wp_mem_store_c. apply wp_check_int; [done| |lia|done].
  peeks. by apply peek_put_cap.
Qed.
End intcap_proofs.

(** *** stack_cap *)

(** a stack array of [n] elements: exact or padded bounds, inside the address space *)
Record stack_array (a len n : Z) : Prop := {
  sa_low : 0 < a;
  sa_size : 0 <= n <= len;
  sa_high : a + len <= 2 ^ 64 - 1;
}.

Lemma overlap_ok a la na b lb nb s (Q : unit -> machine -> Prop) :
  stack_array a la na -> stack_array b lb nb -> a + la <= b \/ b + lb <= a -> Q tt s ->
  wp (check_overlap (obj a la) (obj b lb)) Q s.
Proof.
  intros [Ha1 Ha2 Ha3] [Hb1 Hb2 Hb3] Hd HQ. unfold check_overlap. cbv zeta. apply wp_assert; [|done].
  cbn [obj pblk c_base c_len]. rewrite !wrap_small by lia. apply orb_true_iff. rewrite !Z.leb_le. lia.
Qed.

Lemma stack_cap_passes m ptrs a la b lb c lc :
  placed ptrs 96 32 -> stack_array a la 131072 -> stack_array b lb 262144 -> stack_array c lc 1048576 ->
  a + la <= b \/ b + lb <= a -> b + lb <= c \/ c + lc <= b -> a + la <= c \/ c + lc <= a ->
  passes 0 (clang_purecap_stack_cap ptrs (obj a la) (obj b lb) (obj c lc)) m.
Proof.
  intros [Hl Hh Ha] Hsa Hsb Hsc Hab Hbc Hac. unfold passes, clang_purecap_stack_cap, do_test. wp_step.
  repeat wp_step. wp_mem_store_c. repeat wp_step. wp_mem_store_c. repeat wp_step. wp_mem_store_c.
  wp_step. eapply overlap_ok; [done|done|done|]. wp_step. eapply overlap_ok; [done|done|done|].
  wp_step. eapply overlap_ok; [done|done|done|].
  assert (Hwf : forall x lx nx, stack_array x lx nx -> cap_wf (obj x lx)) by (intros x lx nx []; apply obj_wf; lia).
  set (s1 := set_mem _ _).
  assert (H0 : peek_c (ms s1) ptrs = obj a la).
  { subst s1. peeks. by eapply peek_put_cap, Hwf. }
  assert (H1 : peek_c (ms s1) (ptrs + 32) = obj b lb).
  { subst s1. peeks. by eapply peek_put_cap, Hwf. }
  assert (H2 : peek_c (ms s1) (ptrs + 64) = obj c lc).
  { subst s1. peeks. by eapply peek_put_cap, Hwf. }
  assert (Hf : faults s1 = 0) by done. clearbody s1.
  apply wp_for with (P := fun _ s => s = s1); [lia|done| |by intros s ->].
  intros i s Hi ->. wp_step. wp_mem_load_c.
  assert (i = 0 \/ i = 1 \/ i = 2) as [->|[->| ->]] by lia.
  - change (32 * 0) with 0. rewrite Z.add_0_r, H0. apply wp_assert; [|done]. destruct Hsa. change (nth _ sizes 0) with 131072. apply Z.leb_le. cbn [obj pblk c_len]. lia.
  - change (32 * 1) with 32. rewrite H1. apply wp_assert; [|done]. destruct Hsb. change (nth _ sizes 0) with 262144. apply Z.leb_le. cbn [obj pblk c_len]. lia.
  - change (32 * 2) with 64. rewrite H2. apply wp_assert; [|done]. destruct Hsc. change (nth _ sizes 0) with 1048576. apply Z.leb_le. cbn [obj pblk c_len]. lia.
Qed.

(** *** byval_args *)

(** [n] bytes at [a] that are [v] *)
Definition all_bytes (a n v : Z) (m : mem) : Prop := forall i, 0 <= i < n -> peek m (a + i) 1 = v.

(** nothing outside the [n] bytes at [a] has changed *)
Definition outside (a n : Z) (s s' : machine) : Prop :=
  faults s' = faults s /\ forall x, x < a \/ a + n <= x -> peek (ms s') x 1 = peek (ms s) x 1.

Lemma wp_memset a n v s (Q : unit -> machine -> Prop) : placed a n 1 -> 0 <= n -> 0 <= v < 256 ->
  (forall s', all_bytes a n v (ms s') -> outside a n s s' -> Q tt s') -> wp (memset (obj a n) v n) Q s.
Proof.
  intros [Hl Hh _] Hn Hv HQ. unfold memset, obj.
  apply wp_for with (P := fun k s' => all_bytes a k v (ms s') /\ outside a n s s'); [lia| | |].
  - split; [intros i; lia|done].
  - intros i s1 Hi [Hall [Hf Hout]]. wp_mem_store. peeks. split.
    + intros j Hj. destruct (decide (j = i)) as [->|Hne]; [rewrite peek_poke; apply Z.mod_small; lia|].
      rewrite peek_poke_other by lia. apply Hall. lia.
    + split; [done|]. intros x Hx. peeks. by apply Hout.
  - intros s' [Hall Hout]. by apply HQ.
Qed.

Lemma wp_by_value a b n v s (Q : unit -> machine -> Prop) : placed a n 1 -> placed b n 1 -> 0 <= n ->
  a + n <= b \/ b + n <= a -> 0 <= v < 256 -> all_bytes a n v (ms s) ->
  (forall s', all_bytes b n v (ms s') -> outside b n s s' -> Q tt s') -> wp (by_value (obj a n) (obj b n) n) Q s.
Proof.
  intros [Hl Hh _] [Hbl Hbh _] Hn Hd Hv Hsrc HQ. unfold by_value, obj.
  apply wp_for with (P := fun k s' => all_bytes b k v (ms s') /\ outside b n s s'); [lia| | |].
  - split; [intros i; lia|done].
  - intros i s1 Hi [Hall [Hf Hout]]. wp_step. wp_mem_load. rewrite Hout, Hsrc by lia. wp_mem_store. peeks. split.
    + intros j Hj. destruct (decide (j = i)) as [->|Hne]; [rewrite peek_poke; apply Z.mod_small; lia|].
      rewrite peek_poke_other by lia. apply Hall. lia.
    + split; [done|]. intros x Hx. peeks. by apply Hout.
  - intros s' [Hall Hout]. by apply HQ.
Qed.

Lemma byval_passes m g f : placed g 1024 1 -> placed f 1024 1 -> g + 1024 <= f \/ f + 1024 <= g ->
  wp (clang_purecap_byval_args g f)
     (fun r s => r = 0 /\ faults s = 0 /\ all_bytes g 1024 0 (ms s) /\ all_bytes f 1024 42 (ms s)) (start m).
Proof.
  intros Hg Hf Hd. pose proof Hg as [Hgl Hgh _]. unfold clang_purecap_byval_args. cbv zeta. wp_step.
  apply wp_memset; [done|lia|lia|]. intros s1 Hz [Hf1 _].
  assert (Hassoc : forall (k : M Z) Q s, all_bytes g 1024 0 (ms s) -> wp k Q s ->
    wp (v ← load (obj g 1024) 0 1 0; m_assert (int_value true 1 v =? 0) ;; k) Q s).
  { intros k Q s Hs Hk. wp_step. unfold obj. wp_mem_load.
    pose proof (Hs 0 ltac:(lia)) as H0. rewrite Z.add_0_r in H0. rewrite H0. wp_step. by apply wp_assert. }
  apply Hassoc; [done|]. wp_step. apply wp_by_value with (v := 0); [done|done|lia|done|lia|done|].
  intros s2 _ [Hf2 Ho2].
  assert (Hz2 : all_bytes g 1024 0 (ms s2)) by (intros i Hi; rewrite Ho2 by lia; by apply Hz).
  wp_step. apply wp_memset; [done|lia|lia|]. intros s3 H42 [Hf3 Ho3].
  assert (Hz3 : all_bytes g 1024 0 (ms s3)) by (intros i Hi; rewrite Ho3 by lia; by apply Hz2).
  apply Hassoc; [done|]. wp_step. by rewrite Hf3, Hf2, Hf1.
Qed.

(** *** union_struct *)

(** the literals, apart from both unions *)
Record union_layout (foo arg hello world : Z) (m : mem) : Prop := {
  ul_foo : placed foo 96 32;
  ul_arg : placed arg 96 32;
  ul_copy : foo + 96 <= arg \/ arg + 96 <= foo;
  ul_hello : placed hello 6 1;
  ul_world : placed world 6 1;
  ul_hello_foo : hello + 6 <= foo \/ foo + 96 <= hello;
  ul_hello_arg : hello + 6 <= arg \/ arg + 96 <= hello;
  ul_world_foo : world + 6 <= foo \/ foo + 96 <= world;
  ul_world_arg : world + 6 <= arg \/ arg + 96 <= world;
  ul_h : peek m hello 1 = 104;
  ul_w : peek m world 1 = 119;
}.

Lemma union_struct_passes foo arg hello world m : union_layout foo arg hello world m ->
  passes 0 (clang_purecap_union_struct foo arg hello world) m.
Proof.
  intros [[Hfl Hfh Hfa] [Hal Hah Haa] Hc [Hhl Hhh _] [Hwl Hwh _] H1 H2 H3 H4 Hh Hw].
  assert (cap_wf (obj hello 6) /\ cap_wf (obj world 6)) as [Hwf1 Hwf2] by (split; apply obj_wf; lia).
  unfold passes, clang_purecap_union_struct, pass_CallData, union_f, Bar_c, Bar_i, Bar_c2, obj in *. cbv zeta.
  wp_step. wp_mem_store_c. wp_step. wp_mem_store. wp_step. wp_mem_store_c. repeat wp_step.
  wp_mem_load_c. rewrite peek_put_cap by done. wp_step. wp_mem_store_c. wp_step.
  wp_mem_load. wp_step. wp_mem_store. wp_step.
  wp_mem_load_c. rewrite peek_put_cap by done. wp_mem_store_c. repeat wp_step.
  wp_mem_load_c. rewrite peek_put_cap by done. wp_step.
  wp_mem_load_c. rewrite peek_put_cap by done. wp_step.
  wp_mem_load. wp_step. wp_mem_load. rewrite Hh. repeat wp_step; [done|].
  wp_mem_load. rewrite Hw. by repeat wp_step.
Qed.

(** *** atomic *)

Section atomic_proofs.
Context (c h w d p cp hp wp_ dp pp newval : Z) (m : mem).

(** the globals, in the order they are declared *)
Record atomic_globals : Prop := {
  ag_c : 0 < c;
  ag_h : c + 1 <= h /\ h mod 2 = 0;
  ag_w : h + 2 <= w /\ w mod 4 = 0;
  ag_d : w + 4 <= d /\ d mod 8 = 0;
  ag_p : d + 8 <= p /\ p mod 32 = 0;
  ag_cp : p + 32 <= cp /\ cp mod 32 = 0;
  ag_hp : cp + 32 <= hp /\ hp mod 32 = 0;
  ag_wp : hp + 32 <= wp_ /\ wp_ mod 32 = 0;
  ag_dp : wp_ + 32 <= dp /\ dp mod 32 = 0;
  ag_pp : dp + 32 <= pp /\ pp mod 32 = 0;
  ag_end : pp + 32 <= 2 ^ 64 - 1;
  ag_newval : placed newval 4 4;
  ag_zero : peek m c 1 = 0 /\ peek m h 2 = 0 /\ peek m w 4 = 0 /\ peek m d 8 = 0;
  ag_null : peek_c m p = null_cap;
  ag_pointers : peek_c m cp = obj c 1 /\ peek_c m hp = obj h 2 /\ peek_c m wp_ = obj w 4 /\
                peek_c m dp = obj d 8 /\ peek_c m pp = obj p 32;
}.

Context (Hg : atomic_globals).

Lemma wp_atomic_increment x k n s (Q : unit -> machine -> Prop) : placed x k k -> 0 < k <= 8 ->
  peek (ms s) x (Z.to_nat k) = n -> 0 <= n < 100 ->
  Q tt (set_mem (poke 32 (ms s) x (Z.to_nat k) (n + 1)) s) -> wp (c11_atomic_increment (obj x k) k) Q s.
Proof.
  intros [Hl Hh Ha] Hk Hn Hr HQ. unfold c11_atomic_increment. wp_step.
  assert (Hpow : 128 <= 2 ^ (8 * k - 1)) by (change 128 with (2 ^ 7); apply Z.pow_le_mono_r; lia).
  assert (Hal : forall ps, forallb (has_perm PERMS_DATA) ps = true -> allowed (obj x k) ps 0 k).
  { intros ps Hps. apply allowed_blk; try (done || lia). replace (x + 0 + 0) with x by lia. done. }
  apply wp_load; [by apply Hal|]. rewrite addr_obj, Z.add_0_r, Hn by lia. rewrite int_value_small by lia.
  apply wp_store; [by apply Hal|]. by rewrite addr_obj, Z.add_0_r by lia.
Qed.

Lemma wp_check_len q r n s (Q : unit -> machine -> Prop) : placed q 32 32 -> peek_c (ms s) q = r ->
  c_len r = n -> Q tt s -> wp (check_len q n) Q s.
Proof.
  intros [Hl Hh Ha] Hr Hn HQ. unfold check_len. wp_step. wp_mem_load_c. rewrite Hr.
  apply wp_assert; [lia|done].
Qed.

Lemma wp_increment_through q x k n s (Q : unit -> machine -> Prop) : placed q 32 32 -> placed x k k -> 0 < k <= 8 ->
  peek_c (ms s) q = obj x k -> peek (ms s) x (Z.to_nat k) = n -> 0 <= n < 100 ->
  Q tt (set_mem (poke 32 (ms s) x (Z.to_nat k) (n + 1)) s) -> wp (increment_through q k) Q s.
Proof.
  intros [Hl Hh Ha] Hx Hk Hr Hn Hb HQ. unfold increment_through. wp_step. wp_mem_load_c. rewrite Hr.
  by apply (wp_atomic_increment x k n).
Qed.

Lemma wp_check_var x k n s (Q : unit -> machine -> Prop) : placed x k k -> 0 < k <= 8 ->
  peek (ms s) x (Z.to_nat k) = n -> 0 <= n < 100 -> Q tt s -> wp (check_var x k n) Q s.
Proof.
  intros [Hl Hh Ha] Hk Hn Hr HQ. unfold check_var. wp_step.
  assert (Hpow : 128 <= 2 ^ (8 * k - 1)) by (change 128 with (2 ^ 7); apply Z.pow_le_mono_r; lia).
  apply wp_load; [apply allowed_blk; try (done || lia); by replace (x + 0 + 0) with x by lia|].
  rewrite addr_obj, Z.add_0_r, Hn by lia. apply wp_assert; [|done]. rewrite int_value_small by lia. apply Z.eqb_refl.
Qed.

Lemma atomic_integers_ok s : ms s = m -> wp (atomic_integers c h w d cp hp wp_ dp)
  (fun _ s' => faults s' = faults s /\ peek_c (ms s') p = null_cap /\ peek_c (ms s') pp = obj p 32) s.
Proof.
  intros Hs. destruct Hg as [Hc [Hh Hha] [Hw Hwa] [Hd Hda] [Hp Hpa] [Hcp Hcpa] [Hhp Hhpa] [Hwp Hwpa] [Hdp Hdpa] [Hpp Hppa] Hend _
    (H1 & H2 & H3 & H4) Hnull (P1 & P2 & P3 & P4 & P5)].
  rewrite <- Hs in H1, H2, H3, H4, Hnull, P1, P2, P3, P4, P5.
  assert (placed c 1 1) by (split; [lia|lia|apply Z.mod_1_r]).
  assert (placed h 2 2) by (split; [lia|lia|done]). assert (placed w 4 4) by (split; [lia|lia|done]).
  assert (placed d 8 8) by (split; [lia|lia|done]). assert (placed cp 32 32) by (split; [lia|lia|done]).
  assert (placed hp 32 32) by (split; [lia|lia|done]). assert (placed wp_ 32 32) by (split; [lia|lia|done]).
  assert (placed dp 32 32) by (split; [lia|lia|done]).
  unfold atomic_integers.
  wp_step. eapply wp_check_len; [done|exact P1|done|]. wp_step. eapply wp_check_len; [done|exact P2|done|].
  wp_step. eapply wp_check_len; [done|exact P3|done|]. wp_step. eapply wp_check_len; [done|exact P4|done|].
  wp_step. apply (wp_atomic_increment c 1 0); [done|lia|exact H1|lia|].
  wp_step. apply (wp_atomic_increment h 2 0); [done|lia|peeks; exact H2|lia|].
  wp_step. apply (wp_atomic_increment w 4 0); [done|lia|peeks; exact H3|lia|].
  wp_step. apply (wp_atomic_increment d 8 0); [done|lia|peeks; exact H4|lia|].
  wp_step. apply (wp_increment_through cp c 1 1); [done|done|lia|peeks; exact P1|peeks; done|lia|].
  wp_step. apply (wp_increment_through hp h 2 1); [done|done|lia|peeks; exact P2|peeks; done|lia|].
  wp_step. apply (wp_increment_through wp_ w 4 1); [done|done|lia|peeks; exact P3|peeks; done|lia|].
  wp_step. apply (wp_increment_through dp d 8 1); [done|done|lia|peeks; exact P4|peeks; done|lia|].
  wp_step. apply wp_check_var; [done|lia|peeks; done|lia|]. wp_step. apply wp_check_var; [done|lia|peeks; done|lia|].
  wp_step. apply wp_check_var; [done|lia|peeks; done|lia|]. apply wp_check_var; [done|lia|peeks; done|lia|].
  peeks. done.
Qed.
Lemma placed_p : placed p 32 32.
Proof. destruct Hg. split; [lia|lia|tauto]. Qed.

Lemma wp_check_p x s (Q : unit -> machine -> Prop) : peek_c (ms s) p = x -> Q tt s -> wp (check_p p x) Q s.
Proof.
  intros Hx HQ. destruct placed_p as [Hl Hh Ha]. unfold check_p. wp_step. wp_mem_load_c. rewrite Hx.
  apply wp_assert; [apply cap_eqb_refl|done].
Qed.

(** storing [x] in [p] *)
Lemma wp_store_p x s (Q : unit -> machine -> Prop) : cap_wf x ->
  (forall s', faults s' = faults s -> peek_c (ms s') p = x -> Q tt s') -> wp (store_c 32 (obj p 32) 0 x) Q s.
Proof.
  intros Hwf HQ. destruct placed_p as [Hl Hh Ha]. wp_mem_store_c. apply HQ; [done|]. peeks. by apply peek_put_cap.
Qed.

Lemma cap_of_int_wf n : 0 <= n < 2 ^ 64 -> cap_wf (cap_of_int n).
Proof. intros. split; simpl; rewrite ?wrap_small by lia; lia. Qed.

Lemma atomic_pointers_ok s : faults s = 0 -> peek_c (ms s) p = null_cap -> peek_c (ms s) pp = obj p 32 ->
  wp (atomic_pointers p pp newval) (fun _ s' => faults s' = 0 /\ peek_c (ms s') p = cap_of_int 3) s.
Proof.
  intros Hf Hnull Hpp. destruct placed_p as [Hl Hh Ha].
  assert (Hpl : placed pp 32 32) by (destruct Hg; split; [lia|lia|tauto]).
  assert (Hnw : cap_wf (obj newval 4)) by (destruct Hg as [_ _ _ _ _ _ _ _ _ _ _ [? ? _] _ _ _]; apply obj_wf; lia).
  unfold atomic_pointers. cbv zeta. wp_step. eapply wp_check_len; [done|exact Hpp|done|].
  wp_step. apply wp_check_p; [done|]. wp_step. apply wp_store_p; [by apply cap_of_int_wf|]. intros s1 Hf1 H1.
  wp_step. apply wp_check_p; [done|]. wp_step. unfold c11_atomic_compare_exchange. wp_step. wp_mem_load_c.
  rewrite H1, cap_eqb_refl. wp_step. apply wp_store_p; [done|]. intros s2 Hf2 H2. repeat wp_step; [done|].
  apply wp_check_p; [done|]. unfold c11_atomic_exchange. repeat wp_step. wp_mem_load_c. rewrite H2. wp_step.
  apply wp_store_p; [by apply cap_of_int_wf|]. intros s3 Hf3 H3. repeat wp_step; [apply cap_eqb_refl|].
  apply wp_check_p; [done|]. wp_step. apply wp_store_p; [by apply cap_of_int_wf|]. intros s4 Hf4 H4.
  apply wp_check_p; [done|]. split; [congruence|done].
Qed.

Lemma atomic_passes :
  wp (clang_purecap_atomic c h w d p cp hp wp_ dp pp newval)
     (fun r s => r = 0 /\ faults s = 0 /\ peek_c (ms s) p = cap_of_int 3) (start m).
Proof.
  unfold clang_purecap_atomic. wp_step. eapply wp_mono; [by apply atomic_integers_ok|].
  intros [] s (Hf & Hnull & Hpp). wp_step. eapply wp_mono; [by apply atomic_pointers_ok|].
  intros [] s' [Hf' H']. done.
Qed.
End atomic_proofs.

(** ** The tests pass *)

(** C31: wherever the linker and the compiler place the objects, the programs on
    statically initialised pointers, integers in capabilities, large stack
    arrays, structures and unions passed by value and atomic variables run without an
    exception and without a failed assertion; both functions called through
    pointers run once, and the callee of a structure passed by value writes its
    copy only. *)
Theorem purecap_object_tests_pass m :
  (forall foo bar called x f pcc fn, linked foo bar called x f pcc m fn ->
     wp (clang_purecap_init foo bar called x f pcc (with_off pcc fn))
        (fun r s => r = 0 /\ faults s = 0 /\ peek (ms s) called 4 = 2) (start m)) /\
  (forall str tmp one two, intcap_globals str tmp one two m -> passes 0 (clang_purecap_intcap str tmp one two) m) /\
  (forall ptrs a la b lb c lc, placed ptrs 96 32 ->
     stack_array a la 131072 -> stack_array b lb 262144 -> stack_array c lc 1048576 ->
     a + la <= b \/ b + lb <= a -> b + lb <= c \/ c + lc <= b -> a + la <= c \/ c + lc <= a ->
     passes 0 (clang_purecap_stack_cap ptrs (obj a la) (obj b lb) (obj c lc)) m) /\
  (forall g f, placed g 1024 1 -> placed f 1024 1 -> g + 1024 <= f \/ f + 1024 <= g ->
     wp (clang_purecap_byval_args g f)
        (fun r s => r = 0 /\ faults s = 0 /\ all_bytes g 1024 0 (ms s) /\ all_bytes f 1024 42 (ms s)) (start m)) /\
  (forall c h w d p cp hp wp_ dp pp newval, atomic_globals c h w d p cp hp wp_ dp pp newval m ->
     wp (clang_purecap_atomic c h w d p cp hp wp_ dp pp newval)
        (fun r s => r = 0 /\ faults s = 0 /\ peek_c (ms s) p = cap_of_int 3) (start m)) /\
  (forall foo arg hello world, union_layout foo arg hello world m ->
     passes 0 (clang_purecap_union_struct foo arg hello world) m).
Proof.
  split; [intros; by apply init_passes|]. split; [intros; by apply intcap_passes|].
  split; [intros ptrs a la b lb c lc **; by eapply stack_cap_passes|].
  split; [intros; by apply byval_passes|]. split; [intros; by apply atomic_passes|].
  intros. by apply union_struct_passes.
Qed.

(** memories that satisfy the hypotheses *)
#[local] Abbreviation ex_pcc := (pblk PERMS_ALL 0x10000 0x1000 0).
#[local] Abbreviation store_ptr m a c := (put_cap m a (cap_bytes c) (c_tag c)).
#[local] Abbreviation init_mem :=
  (put_data 32 (store_ptr (store_ptr (store_ptr (Mem ∅ ∅) 0x100 (obj 0x200 6))
     0x120 (with_off ex_pcc 0x40)) 0x160 (with_off ex_pcc 0x40)) 0x200 [48; 49; 50; 51; 52; 0]).
#[local] Abbreviation atomic_mem :=
  (store_ptr (store_ptr (store_ptr (store_ptr (store_ptr (store_ptr (Mem ∅ ∅) 0x40 null_cap) 0x60 (obj 1 1))
     0x80 (obj 2 2)) 0xa0 (obj 4 4)) 0xc0 (obj 8 8)) 0xe0 (obj 0x40 32)).
#[local] Abbreviation intcap_mem := (store_ptr (store_ptr (Mem ∅ ∅) 0x100 (cap_of_int 1)) 0x120 (cap_of_int 2)).

Lemma init_mem_linked : linked 0x200 0x100 0x208 0x140 0x120 ex_pcc init_mem 0x40.
Proof.
  split; try (split; done || lia); try by vm_compute.
  intros i Hi. assert (i = 0 \/ i = 1 \/ i = 2 \/ i = 3 \/ i = 4 \/ i = 5) as Hc by lia.
  by destruct Hc as [->|[->|[->|[->|[->| ->]]]]]; vm_compute.
Qed.

Lemma intcap_mem_globals : intcap_globals 0x200 0x300 0x100 0x120 intcap_mem.
Proof. split; try lia; try (split; done || lia); by vm_compute. Qed.

Lemma atomic_mem_globals : atomic_globals 1 2 4 8 0x40 0x60 0x80 0xa0 0xc0 0xe0 0x200 atomic_mem.
Proof. split; try lia; try (split; done || lia); by vm_compute. Qed.

(** "hello" and "world" at 0x400 and 0x410 *)
#[local] Abbreviation union_mem :=
  (put_data 32 (put_data 32 (Mem ∅ ∅) 0x400 [104; 101; 108; 108; 111; 0]) 0x410 [119; 111; 114; 108; 100; 0]).

Lemma union_mem_layout : union_layout 0x100 0x200 0x400 0x410 union_mem.
Proof. split; try lia; try (split; done || lia); by vm_compute. Qed.

Lemma purecap_object_tests_pass_witness :
  wp (clang_purecap_init 0x200 0x100 0x208 0x140 0x120 ex_pcc (with_off ex_pcc 0x40))
     (fun r s => r = 0 /\ faults s = 0 /\ peek (ms s) 0x208 4 = 2) (start init_mem) /\
  passes 0 (clang_purecap_intcap 0x200 0x300 0x100 0x120) intcap_mem /\
  wp (clang_purecap_atomic 1 2 4 8 0x40 0x60 0x80 0xa0 0xc0 0xe0 0x200)
     (fun r s => r = 0 /\ faults s = 0 /\ peek_c (ms s) 0x40 = cap_of_int 3) (start atomic_mem) /\
  passes 0 (clang_purecap_union_struct 0x100 0x200 0x400 0x410) union_mem /\
  wp (clang_purecap_byval_args 0x1000 0x2000)
     (fun r s => r = 0 /\ faults s = 0 /\ all_bytes 0x1000 1024 0 (ms s) /\ all_bytes 0x2000 1024 42 (ms s))
     (start union_mem).
Proof.
  pose proof (purecap_object_tests_pass init_mem) as (Hinit & _).
  pose proof (purecap_object_tests_pass intcap_mem) as (_ & Hint & _).
  pose proof (purecap_object_tests_pass atomic_mem) as (_ & _ & _ & _ & Hat & _).
  pose proof (purecap_object_tests_pass union_mem) as (_ & _ & _ & Hby & _ & Hun).
  assert (placed 0x1000 1024 1 /\ placed 0x2000 1024 1) as [Hg Hf] by (split; split; done || lia).
  refine (conj (Hinit _ _ _ _ _ _ _ init_mem_linked) (conj (Hint _ _ _ _ intcap_mem_globals)
    (conj (Hat _ _ _ _ _ _ _ _ _ _ _ atomic_mem_globals) (conj (Hun _ _ _ _ union_mem_layout) _)))).
  exact (Hby 0x1000 0x2000 Hg Hf ltac:(left; lia)).
Defined.
