(* ===== verification/PurecapReturn.v ===== *)
(** * PurecapReturn: the tests of return addresses.

    [clang_purecap_capret.c], a function written in assembly that returns
    through a capability register, and [clang_purecap_capretaddr.c], which
    asserts where the return address of a call is.  A call leaves the program
    counter capability, at the instruction after its delay slot, in $c17; where
    the compiler has put functions and calls are arguments. *)

From S2P Require Import Prelude CheriMem Machine PurecapTests.

(** ** Calls *)

(** what [cjalr] at offset [call] of the code leaves in $c17 *)
Definition return_capability (pcc : cap) (call : Z) : cap :=
  Cap (c_tag pcc) (c_sealed pcc) (c_perms pcc) (c_otype pcc) (c_base pcc) (c_len pcc) (u64 (call + 8)).

(** a jump through a capability *)
Definition jump (c : cap) : res cap :=
  match check_cause c [PERMIT_EXECUTE] (c_addr c) 4 with
  | Some _ => Err ETrap
  | None => Ok c
  end.

(** ** clang_purecap_capret *)

Inductive instr := CJR (r : Z) | NOP.

Definition _capret_foo : list instr := [CJR 17; NOP].

(** the instructions of a function from its first; the result is where it
    returns to, after the delay slot of the jump *)
Fixpoint exec_leaf (code : list instr) (regs : Z -> cap) : res cap :=
  match code with
  | NOP :: code' => exec_leaf code' regs
  | [CJR r; NOP] => jump (regs r)
  | _ => Err EUndef
  end.

(** the call, and the end of the program at the instruction after it *)
Definition clang_purecap_capret (pcc : cap) (call : Z) : M Z :=
  let regs r := if r =? 17 then return_capability pcc call else null_cap in
  back ← lift (exec_leaf _capret_foo regs);
  if decide (back = return_capability pcc call) then mret 0 else lift (Err EUndef).

(** ** clang_purecap_capretaddr *)

(** [ret] is [__builtin_return_address(0)] *)
Definition capretaddr_foo (include_xfail : bool) (ret testfn : cap) : M unit :=
  m_assert (Z.b2z (c_tag ret) =? 1) ;;
  m_assert (has_permission ret PERMIT_EXECUTE) ;;
  m_assert (c_off testfn <? c_off ret) ;;
  m_assert (u64 (c_off ret - c_off testfn) <? 100 * 4) ;;
  XFAIL include_xfail (has_not_permission ret PERMIT_STORE_CAPABILITY) ;;
  XFAIL include_xfail (has_not_permission ret PERMIT_STORE).

(** [testfn] is at the offset [fn] of the code; the address that [foo] returns to
    is after the call at the offset [call] *)
Definition clang_purecap_capretaddr (include_xfail : bool) (pcc : cap) (fn call : Z) : M Z :=
  let testfn := Cap (c_tag pcc) (c_sealed pcc) (c_perms pcc) (c_otype pcc) (c_base pcc) (c_len pcc) fn in
  capretaddr_foo include_xfail (return_capability pcc call) testfn ;;
  mret 0.

(** ** They pass, when the call is where the test expects it *)

(** a program counter capability of [len] bytes of code at [base] *)
Record code_capability (pcc : cap) : Prop := {
  cc_usable : usable pcc = true;
  cc_perms : has_perm (c_perms pcc) PERMIT_EXECUTE = true;
  cc_range : 0 <= c_base pcc /\ c_base pcc + c_len pcc < 2 ^ 64;
}.

(** code that cannot be written *)
Definition read_only (pcc : cap) : bool :=
  has_not_permission pcc PERMIT_STORE_CAPABILITY && has_not_permission pcc PERMIT_STORE.

(** the function returns to the instruction after the delay slot of the call *)
Lemma capret_passes pcc call m : code_capability pcc -> 0 <= call -> call + 12 <= c_len pcc ->
  passes 0 (clang_purecap_capret pcc call) m.
Proof.
  intros [Hu Hp [Hb Hl]] Hcall Hlen. unfold usable in Hu. apply andb_true_iff in Hu as [Ht Hs].
  apply negb_true_iff in Hs. unfold passes, clang_purecap_capret. apply wp_bind.
  cbn [exec_leaf _capret_foo]. change (17 =? 17) with true. cbn iota.
  unfold jump, check_cause, return_capability, c_addr, c_top. cbn [c_tag c_sealed c_perms c_base c_off c_len].
  rewrite Ht, Hs. cbn [negb List.find]. rewrite Hp. cbn [negb].
  rewrite (wrap_small 64 (call + 8)) by lia. rewrite wrap_small by lia.
  rewrite !(proj2 (Z.leb_le _ _)) by lia. cbn [andb]. apply wp_lift.
  rewrite decide_True by done. by apply wp_ret.
Qed.

(** the test passes if the call is among the first 97 instructions of [testfn] *)
Lemma capretaddr_passes include_xfail pcc fn call m : code_capability pcc ->
  0 <= fn <= call -> call + 12 <= c_len pcc -> call < fn + 4 * 98 ->
  (include_xfail = true -> read_only pcc = true) ->
  passes 0 (clang_purecap_capretaddr include_xfail pcc fn call) m.
Proof.
  intros [Hu Hp [Hb Hl]] Hfn Hlen Hnear Hx. unfold usable in Hu. apply andb_true_iff in Hu as [Ht _].
  unfold passes, clang_purecap_capretaddr, capretaddr_foo, return_capability, has_permission, has_perm in *.
  cbn [c_tag c_perms c_off]. rewrite Ht. rewrite (wrap_small 64 (call + 8)) by lia.
  rewrite (wrap_small 64 (call + 8 - fn)) by lia.
  apply wp_bind. do 4 (apply wp_bind, wp_assert; [done || (apply Z.ltb_lt; lia)|]).
  unfold read_only, has_not_permission in *. cbn [c_perms].
  apply wp_bind, wp_XFAIL; [intros H%Hx%andb_true_iff; apply H|].
  apply wp_XFAIL; [intros H%Hx%andb_true_iff; apply H|by apply wp_ret].
Qed.
