(* ===== verification/VarArgs.v ===== *)
(** * VarArgs: variadic functions.

    [clang_purecap_va_args], [va_copy], [va_die] and [va_list_global] of
    [cheri-c-tests/clang-purecap].  What the language leaves to the ABI, how
    unnamed arguments are passed and read, is modelled as the compiler of the
    tests does it, and comes first: the caller of a variadic function stores the
    unnamed arguments in an area on its stack, an integer in a doubleword and a
    pointer in the next aligned capability; [va_start] gives a capability to
    exactly that area which does not permit stores, and [va_arg] loads from it
    and advances it.  A capability is 32 bytes. *)

From S2P Require Import Prelude CheriMem Machine IntMath PurecapTests.

(** ** The variadic calling convention *)

Inductive vararg := VInt (n : Z) | VPtr (c : cap).
Inductive vtype := TInt | TPtr.

Definition type_of (v : vararg) : vtype := match v with VInt _ => TInt | VPtr _ => TPtr end.

Definition align_up (o : Z) : Z := o + (- o) mod 32.

(** where each argument goes, from offset [o] on, and where the last one ends *)
Fixpoint slots (o : Z) (args : list vararg) : list (Z * vararg) :=
  match args with
  | [] => []
  | VInt n :: args' => (o, VInt n) :: slots (o + 8) args'
  | VPtr c :: args' => (align_up o, VPtr c) :: slots (align_up o + 32) args'
  end.

Fixpoint slots_end (o : Z) (args : list vararg) : Z :=
  match args with
  | [] => o
  | VInt _ :: args' => slots_end (o + 8) args'
  | VPtr _ :: args' => slots_end (align_up o + 32) args'
  end.

Fixpoint push (area : cap) (l : list (Z * vararg)) : M unit :=
  match l with
  | [] => mret tt
  | (o, VInt n) :: l' => store 32 area o 8 n ;; push area l'
  | (o, VPtr c) :: l' => store_c 32 area o c ;; push area l'
  end.

(** the call of a variadic function: its arguments in the area at [a] *)
Definition pass_args (a : Z) (args : list vararg) : M unit :=
  push (obj a (slots_end 0 args)) (slots 0 args).

Definition va_start (a : Z) (args : list vararg) : res cap :=
  cheri_perms_and (obj a (slots_end 0 args)) (PERMS_ALL - (PERMIT_STORE + PERMIT_STORE_CAPABILITY)).

(** [va_arg] gives the argument and the list after it; [stale] is what the
    register holds when the load is skipped *)
Definition va_arg_int (ap : cap) (stale : Z) : M (Z * cap) :=
  x ← load ap 4 4 stale;
  ap' ← lift (cheri_offset_increment ap 8);
  mret (int_value true 4 x, ap').

Definition va_arg_ptr (ap stale : cap) : M (cap * cap) :=
  ap ← lift (cheri_offset_increment ap ((- c_addr ap) mod 32));
  c ← load_c 32 ap 0 stale;
  ap' ← lift (cheri_offset_increment ap 32);
  mret (c, ap').

(** ** clang_purecap_va_copy *)

Definition va_copy (ap : cap) : cap := ap.

Fixpoint copy_loop (n : nat) (ap ap2 : cap) : M unit :=
  match n with
  | O => mret tt
  | S n' =>
      r ← va_arg_int ap 0;
      r2 ← va_arg_int ap2 0;
      m_assert (r.1 =? r2.1) ;;
      copy_loop n' r.2 r2.2
  end.

(** 1, ..., 8 *)
Definition ints8 : list vararg := [VInt 1; VInt 2; VInt 3; VInt 4; VInt 5; VInt 6; VInt 7; VInt 8].

Definition clang_purecap_va_copy (area : Z) : M Z :=
  pass_args area ints8 ;;
  ap ← lift (va_start area ints8);
  let ap2 := va_copy ap in
  m_assert (c_len ap =? c_len ap2) ;;
  copy_loop 8 ap ap2 ;;
  mret 0.

(** ** clang_purecap_va_die *)

(** the loop from [i], [n] iterations from its end; it breaks at a fault *)
Fixpoint die_loop (n : nat) (i stale : Z) (ap : cap) : M unit :=
  match n with
  | O => mret tt
  | S n' =>
      r ← va_arg_int ap stale;
      f ← get_faults;
      if 0 <? f then m_assert (i =? 9)
      else m_assert (r.1 =? i) ;; die_loop n' (i + 1) stale r.2
  end.

Definition clang_purecap_va_die (area stale : Z) : M Z :=
  pass_args area ints8 ;;
  ap ← lift (va_start area ints8);
  f ← get_faults;
  m_assert (f =? 0) ;;
  die_loop 9 1 stale ap ;;
  f ← get_faults;
  m_assert (f =? 1) ;;
  mret 0.

(** ** clang_purecap_va_args *)

Section va_args.
(** whether INCLUDE_XFAIL is defined; the string, the table of pointers into it,
    the areas of the two calls, the counter and the pointer to [inc] *)
Context (include_xfail : bool) (str ptrs area area2 gint : Z) (inc_ptr : cap).

(** the arguments [i, ptrs[i]], ... of the call *)
Fixpoint call_args (n : nat) (i : Z) : M (list vararg) :=
  match n with
  | O => mret []
  | S n' =>
      p ← load_c 32 (obj ptrs 640) (32 * i) null_cap;
      rest ← call_args n' (i + 1);
      mret (VInt i :: VPtr p :: rest)
  end.

Fixpoint pairs_loop (n : nat) (i : Z) (ap : cap) : M unit :=
  match n with
  | O => mret tt
  | S n' =>
      r ← va_arg_int ap 0;
      q ← va_arg_ptr r.2 null_cap;
      m_assert (r.1 =? i) ;;
      m_assert (c_tag q.1) ;;
      e ← load_c 32 (obj ptrs 640) (32 * i) null_cap;
      m_assert (cap_eqb q.1 e) ;;
      c ← load q.1 0 1 0;
      d ← load (obj str 22) i 1 0;
      m_assert (int_value true 1 c =? int_value true 1 d) ;;
      pairs_loop n' (i + 1) q.2
  end.

Definition printstuff (argpairs : Z) (args : list vararg) : M unit :=
  ap ← lift (va_start area args);
  m_assert (c_len ap =? argpairs * 32 * 2) ;;
  m_assert (has_not_permission ap PERMIT_STORE) ;;
  m_assert (has_not_permission ap PERMIT_STORE_CAPABILITY) ;;
  pairs_loop (Z.to_nat argpairs) 0 ap.

(** [gint++] *)
Definition inc : M unit :=
  v ← load (obj gint 4) 0 4 0;
  v' ← lift (int_incr (int_value true 4 v));
  store 32 (obj gint 4) 0 4 v'.

(** [incfp()], [n] times *)
Fixpoint call_incfp (n : nat) (incfp : cap) : M unit :=
  match n with
  | O => mret tt
  | S n' =>
      call incfp (if decide (incfp = inc_ptr) then inc else lift (Err EUndef)) ;;
      call_incfp n' incfp
  end.

(** without INCLUDE_XFAIL the list is only started and ended *)
Definition check_fp (intarg : Z) (args : list vararg) : M unit :=
  ap ← lift (va_start area2 args);
  if include_xfail then
    m_assert (c_len ap =? 32) ;;
    r ← va_arg_ptr ap null_cap;
    call_incfp (Z.to_nat intarg) r.1 ;;
    g ← load (obj gint 4) 0 4 0;
    m_assert (int_value true 4 g =? intarg)
  else mret tt.

Definition clang_purecap_va_args : M Z :=
  args ← call_args 8 0;
  pass_args area args ;;
  printstuff 8 args ;;
  pass_args area2 [VPtr inc_ptr] ;;
  check_fp 3 [VPtr inc_ptr] ;;
  f ← get_faults;
  m_assert (f =? 0) ;;
  mret 0.
End va_args.

(** ** clang_purecap_va_list_global *)

Section va_list_global.
(** [global_info], the area of the call, the strings; what the register that
    the third [va_arg] does not load holds *)
Context (global_info area arg1 arg2 : Z) (stale : cap) (stale_char : Z).

Definition info : cap := obj global_info 64.   (* [vap] at 0, [num_args] at 32 *)

(** [va_arg(info->vap, char * )] *)
Definition va_arg_global : M cap :=
  ap ← load_c 32 info 0 null_cap;
  r ← va_arg_ptr ap stale;
  store_c 32 info 0 r.2 ;;
  mret r.1.

Definition check_vap (f : cap -> bool) : M unit :=
  ap ← load_c 32 info 0 null_cap;
  m_assert (f ap).

Definition check_nth (cp : cap) (i v : Z) : M unit :=
  c ← load cp i 1 0;
  m_assert (int_value true 1 c =? v).

(** the body of the loop: whether it breaks *)
Definition print_body (i : Z) : M bool :=
  check_vap (fun ap => c_off ap =? 32 * i) ;;
  cp ← va_arg_global;
  check_vap (fun ap => c_off ap =? 32 * (i + 1)) ;;
  m_assert (negb (cap_eqb cp null_cap)) ;;
  c ← load cp 0 1 stale_char;
  m_assert (negb (int_value true 1 c =? 0)) ;;
  if i =? 2 then
    f ← get_faults;
    m_assert (f =? 1) ;;
    check_vap (fun ap => c_off ap =? c_len ap + 32) ;;
    mret true
  else
    check_nth cp 0 97 ;;
    check_nth cp 1 114 ;;
    check_nth cp 2 103 ;;
    check_nth cp 3 (49 + i) ;;
    mret false.

Fixpoint print_loop (n : nat) (i : Z) : M unit :=
  match n with
  | O => mret tt
  | S n' =>
      break ← print_body i;
      if break : bool then mret tt else print_loop n' (i + 1)
  end.

Definition print_impl : M unit :=
  n ← load info 32 4 0;
  m_assert (int_value true 4 n =? 3) ;;
  check_vap (fun ap => c_len ap =? 32 * 2) ;;
  check_vap (fun ap => c_off ap =? 0) ;;
  print_loop (Z.to_nat (int_value true 4 n)) 0 ;;
  f ← get_faults;
  m_assert (f =? 1).

(** the call of [printstuff], up to the call of [print_impl] *)
Definition printstuff_start (args : list vararg) : M unit :=
  pass_args area args ;;
  store 32 info 32 4 3 ;;
  ap ← lift (va_start area args);
  store_c 32 info 0 ap.

(** NULL is all zeros, so the [memset] of the list stores it *)
Definition clang_purecap_va_list_global : M Z :=
  printstuff_start [VPtr (obj arg1 5); VPtr (obj arg2 5)] ;;
  print_impl ;;
  check_vap (fun ap => c_off ap =? c_len ap + 32) ;;
  store_c 32 info 0 null_cap ;;
  mret 0.
End va_list_global.

(** ** Proofs *)

Lemma align_up_spec o : align_up o mod 32 = 0 /\ o <= align_up o < o + 32.
Proof. unfold align_up. split; mlia. Qed.

Lemma slots_end_le args o : o <= slots_end o args.
Proof.
  revert o. induction args as [|[n|c] args IH]; intros o; cbn [slots_end]; [lia|..].
  - specialize (IH (o + 8)). lia.
  - specialize (IH (align_up o + 32)). pose proof (align_up_spec o). lia.
Qed.

(** arguments of their types: promoted integers, well-formed capabilities *)
Definition arg_ok (v : vararg) : Prop :=
  match v with
  | VInt n => - 2 ^ 31 <= n < 2 ^ 31
  | VPtr c => cap_wf c
  end.

Definition holds (m : mem) (x : Z) (v : vararg) : Prop :=
  match v with
  | VInt n => peek m (x + 4) 4 = wrap 32 n
  | VPtr c => peek_c m x = c
  end.

(** [s'] differs from [s] in the bytes from [lo] to [hi] at most *)
Record only_in (lo hi : Z) (s s' : machine) : Prop := {
  oi_faults : faults s' = faults s;
  oi_handler : test_fault_handler s' = test_fault_handler s;
  oi_peek : forall x k, x + Z.of_nat k <= lo \/ hi <= x -> peek (ms s') x k = peek (ms s) x k;
  oi_cap : forall b, b mod 32 = 0 -> b + 32 <= lo \/ hi <= b -> peek_c (ms s') b = peek_c (ms s) b;
}.

Lemma only_in_trans lo mid hi s1 s2 s3 : lo <= mid <= hi ->
  only_in lo mid s1 s2 -> only_in mid hi s2 s3 -> only_in lo hi s1 s3.
Proof.
  intros Hm [F1 H1 P1 C1] [F2 H2 P2 C2]. split; [congruence|congruence|..].
  - intros x k Hx. rewrite P2, P1 by lia. done.
  - intros b Hb Hx. rewrite C2, C1 by lia. done.
Qed.

Lemma holds_only_in lo hi s s' x v : only_in lo hi s s' -> x + 32 <= lo \/ (x + 8 <= lo /\ type_of v = TInt) ->
  (type_of v = TPtr -> x mod 32 = 0) -> holds (ms s) x v -> holds (ms s') x v.
Proof.
  intros [_ _ P C] Hx Hal. destruct v as [n|c]; simpl.
  - rewrite P by (destruct Hx as [?|[? _]]; lia). done.
  - destruct Hx as [Hx|[_ Hx]]; [|done]. rewrite C by (lia || by apply Hal). done.
Qed.

Section area.
Context (a len : Z) (Ha : placed a len 32).

Lemma wp_push args : forall o s (Q : unit -> machine -> Prop), 0 <= o -> o mod 8 = 0 -> slots_end o args <= len ->
  Forall arg_ok args ->
  (forall s', only_in (a + o) (a + slots_end o args) s s' ->
     Forall (fun p => holds (ms s') (a + p.1) p.2) (slots o args) -> Q tt s') ->
  wp (push (obj a len) (slots o args)) Q s.
Proof.
  destruct Ha as [Hl Hh Hal]. induction args as [|v args IH]; intros o s Q Ho Ho8 Hend Hok HQ.
  { apply HQ; [by split|constructor]. }
  apply Forall_cons in Hok as [Hv Hok]. destruct v as [n|c]; cbn [slots slots_end push] in *.
  - pose proof (slots_end_le args (o + 8)). wp_step. wp_mem_store.
    assert (H1 : only_in (a + o) (a + (o + 8)) s (set_mem (poke 32 (ms s) (a + o) (Z.to_nat 8) n) s)).
    { split; [done|done|..]; intros; peeks; done. }
    apply IH; [lia|mlia|lia|done|]. intros s' Hs' Hall. apply HQ.
    + eapply only_in_trans; [|exact H1|exact Hs']; lia.
    + apply Forall_cons. split; [|done]. cbn [fst snd].
      eapply holds_only_in; [exact Hs'|right; split; [lia|done]|done|].
      cbn [holds]. peeks. by rewrite peek_poke_low.
  - pose proof (align_up_spec o) as [Hm Hb]. pose proof (slots_end_le args (align_up o + 32)).
    wp_step. wp_mem_store_c. set (b := align_up o) in *.
    assert (H1 : only_in (a + o) (a + (b + 32)) s
      (set_mem (put_cap (ms s) (a + b) (cap_bytes c) (c_tag c)) s)).
    { split; [done|done|..]; intros; peeks; done. }
    apply IH; [lia|mlia|lia|done|]. intros s' Hs' Hall. apply HQ.
    + eapply only_in_trans; [|exact H1|exact Hs']; lia.
    + apply Forall_cons. split; [|done]. cbn [fst snd].
      eapply holds_only_in; [exact Hs'|left; lia|intros _; mlia|].
      cbn [holds]. peeks. by apply peek_put_cap.
Qed.
End area.

(** *** Reading *)

Definition PERMS_VA := Z.land PERMS_DATA (PERMS_ALL - (PERMIT_STORE + PERMIT_STORE_CAPABILITY)).

Lemma va_start_eq a args : va_start a args = Ok (pblk PERMS_VA a (slots_end 0 args) 0).
Proof. done. Qed.

Lemma sgn_wrap n : - 2 ^ 31 <= n < 2 ^ 31 -> int_value true 4 (wrap 32 n) = n.
Proof.
  intros Hn. unfold int_value. change (8 * 4) with 32. transitivity (sgn 32 n).
  - unfold sgn. by rewrite wrap_wrap.
  - by apply sgn_small.
Qed.

Section reading.
Context (a e : Z) (Ha : placed a e 32).

Lemma wp_va_arg_int o n stale s (Q : Z * cap -> machine -> Prop) : 0 <= o -> o mod 8 = 0 -> o + 8 <= e ->
  arg_ok (VInt n) -> holds (ms s) (a + o) (VInt n) -> Q (n, pblk PERMS_VA a e (o + 8)) s ->
  wp (va_arg_int (pblk PERMS_VA a e o) stale) Q s.
Proof.
  destruct Ha as [Hl Hh Hal]. intros Ho Ho8 He Hn Hm HQ. unfold va_arg_int. wp_step. wp_mem_load.
  rewrite Z.add_assoc. simpl in Hm. rewrite Hm, incr_blk, (wrap_small 64) by lia. repeat wp_step.
  by rewrite sgn_wrap by exact Hn.
Qed.

Lemma wp_va_arg_ptr o c stale s (Q : cap * cap -> machine -> Prop) : 0 <= o -> align_up o + 32 <= e ->
  holds (ms s) (a + align_up o) (VPtr c) -> Q (c, pblk PERMS_VA a e (align_up o + 32)) s ->
  wp (va_arg_ptr (pblk PERMS_VA a e o) stale) Q s.
Proof.
  destruct Ha as [Hl Hh Hal]. intros Ho He Hm HQ. pose proof (align_up_spec o) as [Hm0 Hb]. unfold va_arg_ptr.
  rewrite addr_blk, incr_blk by lia. wp_step.
  replace (o + (- (a + o)) mod 32) with (align_up o) by (unfold align_up; mlia).
  rewrite wrap_small by lia. repeat wp_step. wp_mem_load_c. simpl in Hm. rewrite Hm, incr_blk, (wrap_small 64) by lia.
  by repeat wp_step.
Qed.

(** past the last argument *)
Lemma wp_va_arg_past o stale n s (Q : Z * cap -> machine -> Prop) : 0 <= o <= e -> e < o + 8 ->
  test_fault_handler s cheri_fault_length (faults s) = Ok n ->
  Q (int_value true 4 stale, pblk PERMS_VA a e (o + 8)) (Machine (ms s) n (test_fault_handler s)) ->
  wp (va_arg_int (pblk PERMS_VA a e o) stale) Q s.
Proof.
  destruct Ha as [Hl Hh Hal]. intros Ho He Hn HQ. assert (32 <= a) by mlia. unfold va_arg_int. wp_step.
  eapply (wp_skip _ _ _ _ _ _ cheri_fault_length n); [apply cause_past_end; done || lia|done|].
  rewrite incr_blk, (wrap_small 64) by lia. by repeat wp_step.
Qed.

End reading.

Lemma wp_pass_args a args s (Q : unit -> machine -> Prop) : placed a (slots_end 0 args) 32 -> Forall arg_ok args ->
  (forall s', only_in a (a + slots_end 0 args) s s' ->
     Forall (fun p => holds (ms s') (a + p.1) p.2) (slots 0 args) -> Q tt s') -> wp (pass_args a args) Q s.
Proof.
  intros Ha Hok HQ. apply wp_push; [done|lia|done|lia|done|]. rewrite Z.add_0_r. exact HQ.
Qed.

(** *** va_copy and va_die *)

(** the eight integers as the area holds them *)
Lemma ints8_held a m : Forall (fun p => holds m (a + p.1) p.2) (slots 0 ints8) ->
  forall i, 0 <= i < 8 -> holds m (a + 8 * i) (VInt (i + 1)).
Proof.
  intros H i Hi. cbn [slots ints8 Z.add] in H. rewrite !Forall_cons in H. cbn [fst snd] in H.
  assert (i = 0 \/ i = 1 \/ i = 2 \/ i = 3 \/ i = 4 \/ i = 5 \/ i = 6 \/ i = 7) as Hc by lia.
  destruct H as (H0 & H1 & H2 & H3 & H4 & H5 & H6 & H7 & _).
  by destruct Hc as [->|[->|[->|[->|[->|[->|[->| ->]]]]]]].
Qed.

Lemma int_ok n : 0 <= n < 100 -> arg_ok (VInt n).
Proof. simpl. lia. Qed.

Lemma ints8_ok : Forall arg_ok ints8.
Proof. unfold ints8. repeat (apply Forall_cons; split; [apply int_ok; lia|]). by apply Forall_nil_2. Qed.

Section ints8_proofs.
Context (area : Z) (Ha : placed area 64 32).

Lemma copy_loop_ok s n : (n <= 8)%nat -> Forall (fun p => holds (ms s) (area + p.1) p.2) (slots 0 ints8) ->
  let ap := pblk PERMS_VA area 64 (64 - 8 * Z.of_nat n) in wp (copy_loop n ap ap) (fun _ s' => s' = s) s.
Proof.
  intros Hn Hall. pose proof (ints8_held area _ Hall) as Hm. induction n as [|n IH]; [done|].
  set (o := 64 - 8 * Z.of_nat (S n)). cbv zeta. cbn [copy_loop].
  assert (Ho : holds (ms s) (area + o) (VInt (7 - Z.of_nat n + 1))).
  { replace o with (8 * (7 - Z.of_nat n)) by lia. apply Hm. lia. }
  wp_step. eapply (wp_va_arg_int area 64 Ha _ (7 - Z.of_nat n + 1)); [lia|mlia|lia|apply int_ok; lia|exact Ho|].
  wp_step. eapply (wp_va_arg_int area 64 Ha _ (7 - Z.of_nat n + 1)); [lia|mlia|lia|apply int_ok; lia|exact Ho|].
  repeat wp_step; [apply Z.eqb_refl|]. cbn [snd].
  replace (o + 8) with (64 - 8 * Z.of_nat n) by lia. apply IH. lia.
Qed.

Lemma va_copy_passes m : passes 0 (clang_purecap_va_copy area) m.
Proof.
  unfold passes, clang_purecap_va_copy. wp_step. apply wp_pass_args; [done|apply ints8_ok|]. intros s Hs Hall.
  rewrite va_start_eq. unfold va_copy. cbv zeta. repeat wp_step; [apply Z.eqb_refl|].
  eapply wp_mono; [exact (copy_loop_ok s 8 ltac:(lia) Hall)|]. intros [] s' ->. wp_step.
  by rewrite (oi_faults _ _ _ _ Hs).
Qed.

Lemma die_loop_ok stale s n : (n <= 8)%nat -> faults s = 0 -> test_fault_handler s = default_handler ->
  Forall (fun p => holds (ms s) (area + p.1) p.2) (slots 0 ints8) ->
  wp (die_loop (S n) (9 - Z.of_nat n) stale (pblk PERMS_VA area 64 (64 - 8 * Z.of_nat n)))
     (fun _ s' => faults s' = 1) s.
Proof.
  intros Hn Hf Hh Hall. pose proof (ints8_held area _ Hall) as Hm. induction n as [|n IH].
  - cbn [die_loop]. wp_step. eapply (wp_va_arg_past _ _ Ha _ _ 1); [lia|lia|by rewrite Hh, Hf|].
    repeat wp_step. cbn [faults]. change (0 <? 1) with true. by apply wp_assert.
  - set (o := 64 - 8 * Z.of_nat (S n)). remember (S n) as k eqn:Hk. cbn [die_loop]. subst k.
    assert (Ho : holds (ms s) (area + o) (VInt (9 - Z.of_nat (S n)))).
    { replace o with (8 * (9 - Z.of_nat (S n) - 1)) by lia.
      replace (VInt (9 - Z.of_nat (S n))) with (VInt (9 - Z.of_nat (S n) - 1 + 1)) by (f_equal; lia). apply Hm. lia. }
    wp_step. eapply (wp_va_arg_int area 64 Ha _ (9 - Z.of_nat (S n))); [lia|mlia|lia|apply int_ok; lia|exact Ho|].
    repeat wp_step. rewrite Hf. change (0 <? 0) with false. cbv iota. wp_step. wp_step; [apply Z.eqb_refl|]. cbn [snd].
    replace (o + 8) with (64 - 8 * Z.of_nat n) by lia.
    replace (9 - Z.of_nat (S n) + 1) with (9 - Z.of_nat n) by lia. apply IH. lia.
Qed.

Lemma va_die_passes m stale : passes 1 (clang_purecap_va_die area stale) m.
Proof.
  unfold passes, clang_purecap_va_die. wp_step. apply wp_pass_args; [done|apply ints8_ok|]. intros s Hs Hall.
  pose proof (oi_faults _ _ _ _ Hs) as Hf. rewrite va_start_eq. repeat wp_step; [by rewrite Hf|].
  eapply wp_mono; [refine (die_loop_ok stale s 8 ltac:(lia) Hf _ Hall); by rewrite (oi_handler _ _ _ _ Hs)|].
  intros [] s' Hs'. by repeat wp_step; rewrite Hs'.
Qed.
End ints8_proofs.

(** *** va_args *)

Section va_args_proofs.
Context (include_xfail : bool) (str ptrs area area2 gint : Z) (inc_ptr : cap) (m : mem).

Record va_args_layout : Prop := {
  vl_str : placed str 22 1;
  vl_ptrs : placed ptrs 640 32;
  vl_area : placed area 512 32;
  vl_area2 : placed area2 32 32;
  vl_sep : area + 512 <= ptrs \/ ptrs + 640 <= area;
  vl_inc : cap_wf inc_ptr;
  vl_table : forall i, 0 <= i < 8 -> peek_c m (ptrs + 32 * i) = pblk PERMS_DATA str 22 i;
}.

(** the counter and the function that [check_fp] calls with INCLUDE_XFAIL *)
Record counter_layout : Prop := {
  cn_placed : placed gint 4 4;
  cn_zero : peek m gint 4 = 0;
  cn_area : area + 512 <= gint \/ gint + 4 <= area;
  cn_area2 : area2 + 32 <= gint \/ gint + 4 <= area2;
  cn_call : callable inc_ptr;
}.

Context (Hly : va_args_layout) (Hcn : include_xfail = true -> counter_layout).

Fixpoint pairs (n : nat) (i : Z) : list vararg :=
  match n with
  | O => []
  | S n' => VInt i :: VPtr (pblk PERMS_DATA str 22 i) :: pairs n' (i + 1)
  end.

Lemma pairs_ok n : forall i, 0 <= i -> i + Z.of_nat n <= 8 -> Forall arg_ok (pairs n i).
Proof.
  destruct Hly as [[Hl Hh _] _ _ _ _ _ _]. induction n as [|n IH]; intros i Hi Hn; [constructor|].
  cbn [pairs]. apply Forall_cons. split; [apply int_ok; lia|]. apply Forall_cons. split; [|apply IH; lia].
  apply blk_wf; unfold PERMS_DATA, PERMS_ALL, PERMIT_EXECUTE; lia.
Qed.

Lemma wp_call_args n : forall i s (Q : list vararg -> machine -> Prop), ms s = m -> 0 <= i -> i + Z.of_nat n <= 8 ->
  Q (pairs n i) s -> wp (call_args ptrs n i) Q s.
Proof.
  destruct Hly as [_ [Hl Hh Ha] _ _ _ _ Htab]. induction n as [|n IH]; intros i s Q Hs Hi Hn HQ; [done|].
  cbn [call_args]. wp_step. wp_mem_load_c. rewrite Hs, Htab by lia. repeat wp_step. apply IH; [done|lia|lia|].
  by repeat wp_step.
Qed.

Lemma pairs_loop_ok n : forall i s, (i = 8 - Z.of_nat n) -> 0 <= i ->
  (forall j, 0 <= j < 8 -> peek_c (ms s) (ptrs + 32 * j) = pblk PERMS_DATA str 22 j) ->
  Forall (fun p => holds (ms s) (area + p.1) p.2) (slots (64 * i) (pairs n i)) ->
  wp (pairs_loop str ptrs n i (pblk PERMS_VA area 512 (64 * i))) (fun _ s' => s' = s) s.
Proof.
  destruct Hly as [[Hsl Hsh _] [Hpl Hph Hpa] Har _ _ _ _]. induction n as [|n IH]; intros i s Hi H0 Htab Hall; [done|].
  cbn [pairs slots pairs_loop] in *.
  assert (Hal : align_up (64 * i + 8) = 64 * i + 32) by (unfold align_up; mlia). rewrite Hal in Hall.
  apply Forall_cons in Hall as [Hint Hall]. apply Forall_cons in Hall as [Hptr Hall]. cbn [fst snd] in Hint, Hptr.
  wp_step. eapply (wp_va_arg_int area 512 Har _ (i)); [lia|mlia|lia|apply int_ok; lia|exact Hint|].
  wp_step. cbn [fst snd]. eapply wp_va_arg_ptr; [exact Har|lia|rewrite Hal; lia|rewrite Hal; exact Hptr|].
  rewrite Hal. repeat wp_step; [apply Z.eqb_refl|done|]. wp_mem_load_c. rewrite Htab by lia.
  repeat wp_step; [apply cap_eqb_refl|]. cbn [fst snd].
  wp_mem_load. repeat wp_step. wp_mem_load. repeat wp_step; [apply Z.eqb_refl|].
  replace (64 * i + 32 + 32) with (64 * (i + 1)) in Hall by lia.
  replace (64 * i + (32 + 32)) with (64 * (i + 1)) by lia. apply IH; [lia|lia|done|done].
Qed.

Lemma call_incfp_ok n : counter_layout -> forall k s, 0 <= k -> k + Z.of_nat n < 2 ^ 31 -> peek (ms s) gint 4 = k ->
  wp (call_incfp gint inc_ptr n inc_ptr)
    (fun _ s' => faults s' = faults s /\ peek (ms s') gint 4 = k + Z.of_nat n) s.
Proof.
  intros [[Hl Hh Ha] _ _ _ Hc]. induction n as [|n IH]; intros k s H0 Hk Hg; cbn [call_incfp].
  { apply wp_ret. split; [done|lia]. }
  wp_step. apply wp_call; [exact Hc|]. rewrite decide_True by done. unfold inc, obj. wp_step. wp_mem_load.
  rewrite Hg, int_value_small by lia. unfold int_incr. rewrite (proj2 (Z.eqb_neq _ _)) by lia. wp_step. wp_step.
  wp_mem_store. eapply wp_mono; [apply (IH (k + 1)); [lia|lia|]|].
  - cbn [set_mem ms]. peeks. change (256 ^ Z.of_nat 4) with (2 ^ 32). apply Z.mod_small. lia.
  - intros [] s' [Hf Hp]. cbn [set_mem faults] in Hf. split; [done|lia].
Qed.

(** the call of [check_fp] *)
Lemma check_fp_ok s : peek_c (ms s) area2 = inc_ptr ->
  (include_xfail = true -> peek (ms s) gint 4 = 0) ->
  wp (check_fp include_xfail area2 gint inc_ptr 3 [VPtr inc_ptr]) (fun _ s' => faults s' = faults s) s.
Proof.
  intros Hp Hg. unfold check_fp. rewrite va_start_eq. change (slots_end 0 [VPtr inc_ptr]) with 32. wp_step. wp_step.
  destruct include_xfail; [|by wp_step]. specialize (Hg eq_refl). pose proof (Hcn eq_refl) as Hc.
  repeat wp_step; [done|]. eapply wp_va_arg_ptr; [exact (vl_area2 Hly)|lia|vm_compute; discriminate| |].
  { by rewrite Z.add_0_r. }
  cbn [fst snd]. wp_step. eapply wp_mono; [by apply (call_incfp_ok 3 Hc 0 s)|]. intros [] s' [Hf Hv].
  destruct Hc as [[Hl Hh Ha] _ _ _ _]. unfold obj. wp_step. wp_mem_load. rewrite Hv. by repeat wp_step.
Qed.

Lemma va_args_passes : passes 0 (clang_purecap_va_args include_xfail str ptrs area area2 gint inc_ptr) m.
Proof.
  pose proof Hly as [_ [Hpl Hph Hpa] Har Har2 Hsep Hinc Htab]. unfold passes, clang_purecap_va_args.
  wp_step. apply wp_call_args; [done|lia|simpl; lia|]. wp_step.
  apply wp_pass_args; [exact Har|apply pairs_ok; simpl; lia|]. intros s Hs Hall. change (slots_end 0 _) with 512 in Hs.
  unfold printstuff. rewrite va_start_eq. change (slots_end 0 (pairs 8 0)) with 512. repeat wp_step; [done..|].
  eapply wp_mono; [refine (pairs_loop_ok 8 0 s eq_refl _ _ Hall); [lia|]|].
  { intros j Hj. rewrite (oi_cap _ _ _ _ Hs); [by apply Htab|mlia|lia]. }
  intros [] s' ->. wp_step. apply wp_pass_args; [exact Har2|apply Forall_cons; split; [exact Hinc|by apply Forall_nil_2]|]. intros s2 Hs2 Hall2.
  change (slots_end 0 [VPtr inc_ptr]) with 32 in Hs2.
  apply Forall_cons in Hall2 as [Hp2 _]. wp_step. eapply wp_mono; [apply check_fp_ok|].
  - by rewrite <- (Z.add_0_r area2).
  - intros Hx. destruct (Hcn Hx) as [_ Hz Hd1 Hd2 _]. rewrite (oi_peek _ _ _ _ Hs2), (oi_peek _ _ _ _ Hs) by lia. done.
  - intros [] s3 Hf3. repeat wp_step; rewrite Hf3, (oi_faults _ _ _ _ Hs2), (oi_faults _ _ _ _ Hs); done.
Qed.
End va_args_proofs.

(** *** va_list_global *)

(** a run that ends in an error *)
Definition fails_with {A} (e : err) (prog : M A) (s : machine) : Prop := prog s = Err e.

Lemma fails_bind_l {A B} e (m : M A) (k : A -> M B) s : fails_with e m s -> fails_with e (m ≫= k) s.
Proof. unfold fails_with, mbind, M_bind. by intros ->. Qed.

Lemma fails_bind_r {A B} e (m : M A) (k : A -> M B) P s : wp m P s ->
  (forall a s', P a s' -> fails_with e (k a) s') -> fails_with e (m ≫= k) s.
Proof.
  unfold wp, fails_with, mbind, M_bind. destruct (m s) as [[a s']|]; [|done]. simpl. auto.
Qed.

Lemma fails_assert b s : b = false -> fails_with EAssert (m_assert b) s.
Proof. by intros ->. Qed.

Section va_list_global_proofs.
Context (gi area arg1 arg2 : Z) (m : mem).

Record global_layout : Prop := {
  gl_info : placed gi 64 32;
  gl_area : placed area 64 32;
  gl_arg1 : placed arg1 5 1;
  gl_arg2 : placed arg2 5 1;
  gl_sep : gi + 64 <= area \/ area + 64 <= gi;
  gl_sep1 : (gi + 64 <= arg1 \/ arg1 + 5 <= gi) /\ (area + 64 <= arg1 \/ arg1 + 5 <= area);
  gl_sep2 : (gi + 64 <= arg2 \/ arg2 + 5 <= gi) /\ (area + 64 <= arg2 \/ arg2 + 5 <= area);
  gl_str1 : forall j, 0 <= j < 4 -> peek m (arg1 + j) 1 = nth (Z.to_nat j) [97; 114; 103; 49] 0;
  gl_str2 : forall j, 0 <= j < 4 -> peek m (arg2 + j) 1 = nth (Z.to_nat j) [97; 114; 103; 50] 0;
}.

Context (Hgl : global_layout).

(** the list in [global_info] is at offset [o] *)
Record at_arg (o : Z) (s : machine) : Prop := {
  aa_vap : peek_c (ms s) gi = pblk PERMS_VA area 64 o;
  aa_num : peek (ms s) (gi + 32) 4 = 3;
  aa_arg1 : peek_c (ms s) area = obj arg1 5;
  aa_arg2 : peek_c (ms s) (area + 32) = obj arg2 5;
  aa_str1 : forall j, 0 <= j < 4 -> peek (ms s) (arg1 + j) 1 = nth (Z.to_nat j) [97; 114; 103; 49] 0;
  aa_str2 : forall j, 0 <= j < 4 -> peek (ms s) (arg2 + j) 1 = nth (Z.to_nat j) [97; 114; 103; 50] 0;
  aa_handler : test_fault_handler s = default_handler;
}.

Lemma va_wf o : 0 <= o < 2 ^ 64 -> cap_wf (pblk PERMS_VA area 64 o).
Proof. intros. destruct Hgl as [_ [? ? _] _ _ _ _ _ _ _]. apply blk_wf; try lia. by vm_compute. Qed.

(** storing the list advanced to [o] *)
Lemma wp_store_vap o o' s (Q : unit -> machine -> Prop) : 0 <= o' < 2 ^ 64 -> at_arg o s ->
  (forall s', at_arg o' s' -> faults s' = faults s -> Q tt s') ->
  wp (store_c 32 (info gi) 0 (pblk PERMS_VA area 64 o')) Q s.
Proof.
  destruct Hgl as [[Hl Hh Ha] [Hal Hah Haa] [Hl1 Hh1 _] [Hl2 Hh2 _] Hsep [Hs1 _] [Hs2 _] _ _].
  intros Ho [_ Hn A1 A2 S1 S2 Hd] HQ. unfold info. wp_mem_store_c. apply HQ; [|done]. split.
  - peeks. by apply peek_put_cap, va_wf.
  - peeks. done.
  - peeks. done.
  - peeks. done.
  - intros j Hj. peeks. by apply S1.
  - intros j Hj. peeks. by apply S2.
  - done.
Qed.

Lemma wp_load_vap o s (Q : cap -> machine -> Prop) : at_arg o s -> Q (pblk PERMS_VA area 64 o) s ->
  wp (load_c 32 (info gi) 0 null_cap) Q s.
Proof.
  intros H HQ. destruct Hgl as [[Hl Hh Ha] _ _ _ _ _ _ _ _]. unfold info. wp_mem_load_c.
  by rewrite (aa_vap _ _ H).
Qed.

Lemma wp_check_vap o f s (Q : unit -> machine -> Prop) : at_arg o s -> f (pblk PERMS_VA area 64 o) = true ->
  Q tt s -> wp (check_vap gi f) Q s.
Proof.
  intros H Hf HQ. unfold check_vap. wp_step. eapply wp_load_vap; [done|]. by apply wp_assert.
Qed.

(** a [va_arg] inside the list *)
Lemma wp_va_arg_global o c stale s (Q : cap -> machine -> Prop) : In (o, c) [(0, obj arg1 5); (32, obj arg2 5)] ->
  at_arg o s -> (forall s', at_arg (o + 32) s' -> faults s' = faults s -> Q c s') ->
  wp (va_arg_global gi stale) Q s.
Proof.
  intros Hin H HQ. destruct Hgl as [_ Ha _ _ _ _ _ _ _]. unfold va_arg_global. wp_step. eapply wp_load_vap; [done|].
  assert (Ho : (o = 0 \/ o = 32) /\ align_up o = o /\ holds (ms s) (area + o) (VPtr c)).
  { destruct H as [_ _ A1 A2 _ _ _]. destruct Hin as [[= <- <-]|[[= <- <-]|[]]]; simpl; rewrite ?Z.add_0_r; auto. }
  destruct Ho as (Hor & Hal & Hm). wp_step. eapply (wp_va_arg_ptr area 64 Ha o c); rewrite ?Hal; [lia|lia|exact Hm|].
  cbn [fst snd]. wp_step. eapply wp_store_vap; [lia|exact H|]. intros s' Hs' Hf. wp_step. by apply HQ.
Qed.

(** the one past its end *)
Lemma wp_va_arg_global_past stale s (Q : cap -> machine -> Prop) : at_arg 64 s ->
  (forall s', at_arg 96 s' -> faults s' = faults s + 1 -> Q stale s') -> wp (va_arg_global gi stale) Q s.
Proof.
  intros H HQ. destruct Hgl as [_ [Hl Hh Ha] _ _ _ _ _ _ _]. unfold va_arg_global. wp_step.
  eapply wp_load_vap; [done|]. unfold va_arg_ptr. repeat wp_step. rewrite addr_blk by lia.
  replace ((- (area + 64)) mod 32) with 0 by mlia. rewrite incr_blk. change (u64 (64 + 0)) with 64. repeat wp_step.
  eapply (wp_skip _ _ _ _ _ _ cheri_fault_length (faults s + 1)).
  { apply cause_past_end; done || lia. }
  { by rewrite (aa_handler _ _ H). }
  repeat wp_step. rewrite incr_blk. change (u64 (64 + 32)) with 96. repeat wp_step.
  eapply (wp_store_vap 64); [lia|by destruct H|]. intros s' Hs' Hf. cbn [fst]. by apply HQ.
Qed.

Lemma wp_check_nth a i v s (Q : unit -> machine -> Prop) : placed a 5 1 -> 0 <= i < 5 -> peek (ms s) (a + i) 1 = v ->
  0 <= v < 128 -> Q tt s -> wp (check_nth (obj a 5) i v) Q s.
Proof.
  intros [Hl Hh _] Hi Hp Hv HQ. unfold check_nth. wp_step. wp_mem_load. rewrite Hp.
  apply wp_assert; [|done]. rewrite int_value_small by lia. apply Z.eqb_refl.
Qed.

(** an argument that is there: the string is as expected *)
Lemma print_round i a stale sc s : In (i, a) [(0, arg1); (1, arg2)] -> at_arg (32 * i) s ->
  wp (print_body gi stale sc i) (fun b s' => b = false /\ at_arg (32 * (i + 1)) s' /\ faults s' = faults s) s.
Proof.
  intros Hin H. unfold print_body. wp_step. eapply wp_check_vap; [exact H|apply Z.eqb_refl|].
  assert (Hia : In (32 * i, obj a 5) [(0, obj arg1 5); (32, obj arg2 5)]).
  { destruct Hin as [[= <- <-]|[[= <- <-]|[]]]; [by left|by right; left]. }
  wp_step. eapply wp_va_arg_global; [exact Hia|exact H|]. intros s1 H1 Hf1.
  replace (32 * i + 32) with (32 * (i + 1)) in H1 by lia.
  wp_step. eapply wp_check_vap; [exact H1|apply Z.eqb_refl|].
  assert (Ha : placed a 5 1) by (destruct Hgl; by destruct Hin as [[= <- <-]|[[= <- <-]|[]]]).
  assert (Hstr : (forall j, 0 <= j < 4 -> peek (ms s1) (a + j) 1 = nth (Z.to_nat j) [97; 114; 103; 49 + i] 0) /\ i < 2).
  { destruct H1 as [_ _ _ _ S1 S2 _]. by destruct Hin as [[= <- <-]|[[= <- <-]|[]]]. }
  destruct Hstr as [Hstr Hi2]. assert (0 <= i) by (destruct Hin as [[= <- <-]|[[= <- <-]|[]]]; lia).
  pose proof Ha as [Hl Hh _]. repeat wp_step.
  { done. }
  pose proof (Hstr 0 ltac:(lia)) as Hs0. rewrite Z.add_0_r in Hs0. wp_mem_load. rewrite Hs0. repeat wp_step; [done|].
  rewrite (proj2 (Z.eqb_neq i 2)) by lia. cbv iota.
  wp_step. apply wp_check_nth; [done|lia|by rewrite Z.add_0_r|lia|].
  wp_step. apply wp_check_nth; [done|lia|apply (Hstr 1); lia|lia|].
  wp_step. apply wp_check_nth; [done|lia|apply (Hstr 2); lia|lia|].
  wp_step. apply wp_check_nth; [done|lia|apply (Hstr 3); lia|lia|]. by wp_step.
Qed.

Lemma start_ok : wp (printstuff_start gi area [VPtr (obj arg1 5); VPtr (obj arg2 5)])
  (fun _ s => at_arg 0 s /\ faults s = 0) (start m).
Proof.
  destruct Hgl as [[Hl Hh Ha] Har [Hl1 Hh1 _] [Hl2 Hh2 _] Hsep [Hs1 Hs1'] [Hs2 Hs2'] Hstr1 Hstr2].
  pose proof Har as [Hal Hah Haa]. unfold printstuff_start. wp_step. apply wp_pass_args; [exact Har| |].
  { apply Forall_cons. split; [apply obj_wf; lia|]. apply Forall_cons. split; [apply obj_wf; lia|by apply Forall_nil_2]. }
  intros s Hs Hall. change (slots_end 0 _) with 64 in Hs. cbn [slots] in Hall. rewrite !Forall_cons in Hall.
  destruct Hall as (H1 & H2 & _). cbn [fst snd holds] in H1, H2. change (align_up 0) with 0 in H1, H2.
  change (align_up (0 + 32)) with 32 in H2. rewrite Z.add_0_r in H1.
  destruct Hs as [Hf Hd Hp Hc]. unfold info. wp_step. wp_mem_store. rewrite va_start_eq.
  change (slots_end 0 _) with 64. repeat wp_step. wp_mem_store_c. split; [|exact Hf]. split.
  - peeks. by apply peek_put_cap, va_wf.
  - peeks. done.
  - peeks. done.
  - peeks. done.
  - intros j Hj. peeks. rewrite Hp by lia. by apply Hstr1.
  - intros j Hj. peeks. rewrite Hp by lia. by apply Hstr2.
  - done.
Qed.

Lemma last_round_ok sc s : at_arg 64 s -> faults s = 0 ->
  wp (print_body gi (obj arg2 5) sc 2) (fun b s' => b = true /\ at_arg 96 s' /\ faults s' = 1) s.
Proof.
  intros H Hf. destruct Hgl as [_ _ _ [Hl Hh _] _ _ _ _ _]. unfold print_body.
  wp_step. eapply wp_check_vap; [exact H|done|]. wp_step. apply wp_va_arg_global_past; [done|]. intros s' H' Hf'.
  wp_step. eapply wp_check_vap; [exact H'|done|]. repeat wp_step; [done|].
  pose proof (aa_str2 _ _ H' 0 ltac:(lia)) as Hs0. rewrite Z.add_0_r in Hs0. wp_mem_load. rewrite Hs0.
  repeat wp_step; [done|]. change (2 =? 2) with true. cbv iota. repeat wp_step; [by rewrite Hf', Hf|].
  eapply wp_check_vap; [exact H'|done|]. wp_step. by rewrite Hf', Hf.
Qed.

Lemma last_round_fails stale sc s : c_tag stale = false -> at_arg 64 s -> faults s = 0 ->
  fails_with EAssert (print_body gi stale sc 2) s.
Proof.
  intros Ht H Hf. unfold print_body.
  eapply fails_bind_r; [eapply (wp_check_vap 64 _ _ (fun _ s' => s' = s)); [exact H|done|done]|]. intros [] ? ->.
  eapply fails_bind_r.
  { eapply (wp_va_arg_global_past stale s (fun c s' => c = stale /\ at_arg 96 s' /\ faults s' = 1)); [exact H|].
    intros s' H' Hf'. rewrite Hf' , Hf. done. }
  intros ? s1 (-> & H1 & Hf1).
  eapply fails_bind_r; [eapply (wp_check_vap 96 _ _ (fun _ s' => s' = s1)); [exact H1|done|done]|]. intros [] ? ->.
  destruct (negb (cap_eqb stale null_cap)) eqn:Hnull; [|by apply fails_bind_l, fails_assert].
  eapply fails_bind_r; [apply (wp_assert _ (fun _ s' => s' = s1)); done|]. intros [] ? ->.
  eapply fails_bind_r.
  { apply (wp_skip _ _ _ _ _ _ cheri_fault_tag 2 (fun c s' => c = sc /\ faults s' = 2)); [|by rewrite (aa_handler _ _ H1), Hf1|done].
    unfold check_cause. by rewrite Ht. }
  intros ? s2 [-> Hf2].
  destruct (negb (int_value true 1 sc =? 0)) eqn:Hc; [|by apply fails_bind_l, fails_assert].
  eapply fails_bind_r; [apply (wp_assert _ (fun _ s' => s' = s2)); done|]. intros [] ? ->. change (2 =? 2) with true. cbv iota.
  eapply fails_bind_r; [apply (wp_faults (fun f s' => f = 2)); done|]. intros ? s3 ->.
  by apply fails_bind_l, fails_assert.
Qed.

(** up to the third iteration *)
Definition third (stale : cap) (sc : Z) : M unit := print_loop gi stale sc 1 2.

Lemma first_rounds stale sc s : at_arg 0 s -> faults s = 0 ->
  exists s', at_arg 64 s' /\ faults s' = 0 /\ print_loop gi stale sc 3 0 s = third stale sc s'.
Proof.
  intros H Hf. pose proof (print_round 0 arg1 stale sc s ltac:(by left) H) as H1. unfold wp in H1.
  destruct (print_body gi stale sc 0 s) as [[b1 s1]|] eqn:E1; [|done]. destruct H1 as (-> & H1 & Hf1).
  pose proof (print_round 1 arg2 stale sc s1 ltac:(by right; left) H1) as H2. unfold wp in H2.
  destruct (print_body gi stale sc 1 s1) as [[b2 s2]|] eqn:E2; [|done]. destruct H2 as (-> & H2 & Hf2).
  exists s2. split; [done|]. split; [congruence|]. cbn [print_loop]. unfold mbind, M_bind. rewrite E1. cbn [res_bind].
  change (0 + 1) with 1. rewrite E2. done.
Qed.

Lemma print_impl_eq stale sc s : at_arg 0 s -> faults s = 0 ->
  exists s', at_arg 64 s' /\ faults s' = 0 /\
    print_impl gi stale sc s = (third stale sc ;; f ← get_faults; m_assert (f =? 1)) s'.
Proof.
  intros H Hf. destruct (first_rounds stale sc s H Hf) as (s' & H' & Hf' & Heq). exists s'. split; [done|]. split; [done|].
  destruct Hgl as [[Hl Hh Ha] _ _ _ _ _ _ _ _].
  assert (Hn : load (info gi) 32 4 0 s = Ok (3, s)).
  { assert (Hw : wp (load (info gi) 32 4 0) (fun v s' => v = 3 /\ s' = s) s).
    { unfold info. wp_mem_load. by rewrite (aa_num _ _ H). }
    unfold wp in Hw. destruct (load (info gi) 32 4 0 s) as [[v s1]|]; [|done]. by destruct Hw as [-> ->]. }
  assert (Hc : forall f, f (pblk PERMS_VA area 64 0) = true -> check_vap gi f s = Ok (tt, s)).
  { intros f Hfv. pose proof (wp_check_vap 0 f s (fun _ s' => s' = s) H Hfv eq_refl) as Hw. unfold wp in Hw.
    destruct (check_vap gi f s) as [[[] s1]|]; [|done]. by rewrite Hw. }
  unfold print_impl, mbind, M_bind. rewrite Hn. cbn [res_bind]. change (m_assert _ s) with (@Ok (unit * machine) (tt, s)).
  cbn [res_bind]. rewrite Hc by done. cbn [res_bind]. rewrite Hc by done. cbn [res_bind]. change (Z.to_nat (int_value true 4 3)) with 3%nat. by rewrite Heq.
Qed.

Lemma va_list_global_passes sc : passes 1 (clang_purecap_va_list_global gi area arg1 arg2 (obj arg2 5) sc) m.
Proof.
  unfold passes, clang_purecap_va_list_global. wp_step. eapply wp_mono; [apply start_ok|]. intros [] s [H Hf]. wp_step.
  assert (Himpl : wp (print_impl gi (obj arg2 5) sc) (fun _ s' => at_arg 96 s' /\ faults s' = 1) s).
  { destruct (print_impl_eq (obj arg2 5) sc s H Hf) as (s1 & H1 & Hf1 & Heq). unfold wp at 1. rewrite Heq.
    apply (wp_bind (third (obj arg2 5) sc)). unfold third. cbn [print_loop]. wp_step.
    eapply wp_mono; [by apply last_round_ok|]. intros ? s2 (-> & H2 & Hf2). repeat wp_step; [by rewrite Hf2|done]. }
  eapply wp_mono; [exact Himpl|]. intros [] s1 [H1 Hf1]. wp_step. eapply wp_check_vap; [exact H1|done|].
  destruct Hgl as [[Hl Hh Ha] _ _ _ _ _ _ _ _]. unfold info. wp_step. wp_mem_store_c. by wp_step.
Qed.

Lemma va_list_global_fails stale sc : c_tag stale = false ->
  fails_with EAssert (clang_purecap_va_list_global gi area arg1 arg2 stale sc) (start m).
Proof.
  intros Ht. unfold clang_purecap_va_list_global. eapply fails_bind_r; [apply start_ok|]. intros [] s [H Hf].
  apply fails_bind_l. destruct (print_impl_eq stale sc s H Hf) as (s1 & H1 & Hf1 & Heq). unfold fails_with. rewrite Heq.
  apply (fails_bind_l EAssert (third stale sc)), (fails_bind_l EAssert (print_body gi stale sc 2)).
  by apply last_round_fails.
Qed.
End va_list_global_proofs.

(** ** The tests pass *)

(** C29: both copies of an argument list give the same integers; reading one
    integer more than was passed is one length exception, at the ninth
    [va_arg], whatever its register holds; and eight pairs of an index and a
    pointer into a string arrive as they were passed; with INCLUDE_XFAIL, so
    does a function pointer, whose three calls count to three. *)
Theorem variadic_tests_pass m area stale :
  placed area 64 32 ->
  passes 0 (clang_purecap_va_copy area) m /\
  passes 1 (clang_purecap_va_die area stale) m /\
  forall include_xfail str ptrs area area2 gint inc_ptr, va_args_layout str ptrs area area2 inc_ptr m ->
    (include_xfail = true -> counter_layout area area2 gint inc_ptr m) ->
    passes 0 (clang_purecap_va_args include_xfail str ptrs area area2 gint inc_ptr) m.
Proof.
  intros Ha. split; [by apply va_copy_passes|]. split; [by apply va_die_passes|].
  intros. by apply va_args_passes.
Qed.

(** the table of pointers at 0x2000 *)
#[local] Abbreviation args_mem :=
  (fold_left (fun m i => put_cap m (0x2000 + 32 * i) (cap_bytes (pblk PERMS_DATA 0x3000 22 i)) true)
     [0; 1; 2; 3; 4; 5; 6; 7] (Mem ∅ ∅)).
#[local] Abbreviation ex_inc := (pblk PERMS_ALL 0x10000 0x1000 0x40).

Lemma args_layout : va_args_layout 0x3000 0x2000 0x4000 0x5000 ex_inc args_mem.
Proof.
  split; [by split..|lia|by vm_compute|]. intros i Hi. apply (elem_of_seqZ 0 8) in Hi. revert i Hi.
  apply Forall_forall. change (seqZ 0 8) with [0; 1; 2; 3; 4; 5; 6; 7]. repeat constructor; by vm_compute.
Qed.

Lemma args_counter : counter_layout 0x4000 0x5000 0x6000 ex_inc args_mem.
Proof. split; [by split|by vm_compute|lia|lia|by split; vm_compute]. Qed.

Lemma variadic_tests_pass_witness :
  passes 0 (clang_purecap_va_copy 0x1000) args_mem /\ passes 1 (clang_purecap_va_die 0x1000 99) args_mem
  /\ passes 0 (clang_purecap_va_args true 0x3000 0x2000 0x4000 0x5000 0x6000 ex_inc) args_mem.
Proof.
  assert (Ha : placed 0x1000 64 32) by (split; done).
  pose proof (variadic_tests_pass args_mem 0x1000 99 Ha) as (H1 & H2 & H3). split; [exact H1|]. split; [exact H2|].
  apply H3; [exact args_layout|intros _; exact args_counter].
Defined.

(** C30: [clang_purecap_va_list_global] relies on what the skipped load of its
    third [va_arg] leaves in the register: with the second argument still
    there, it passes with the one exception it expects; with anything that is
    not a valid pointer, one of its assertions fails. *)
Theorem va_list_global_depends_on_register gi area arg1 arg2 m stale_char :
  global_layout gi area arg1 arg2 m ->
  passes 1 (clang_purecap_va_list_global gi area arg1 arg2 (obj arg2 5) stale_char) m /\
  forall stale, c_tag stale = false ->
    clang_purecap_va_list_global gi area arg1 arg2 stale stale_char (start m) = Err EAssert.
Proof.
  intros H. split; [by apply va_list_global_passes|]. intros stale Ht. by apply va_list_global_fails.
Qed.

#[local] Abbreviation strings_mem :=
  (put_data 32 (put_data 32 (Mem ∅ ∅) 0x3000 [97; 114; 103; 49; 0]) 0x3008 [97; 114; 103; 50; 0]).

Lemma strings_layout : global_layout 0x1000 0x2000 0x3000 0x3008 strings_mem.
Proof.
  split; try lia; try (split; done || lia);
    (intros j Hj; assert (j = 0 \/ j = 1 \/ j = 2 \/ j = 3) as Hc by lia;
     by destruct Hc as [->|[->|[->| ->]]]; vm_compute).
Qed.

Lemma va_list_global_depends_on_register_witness :
  passes 1 (clang_purecap_va_list_global 0x1000 0x2000 0x3000 0x3008 (obj 0x3008 5) 0) strings_mem /\
  clang_purecap_va_list_global 0x1000 0x2000 0x3000 0x3008 null_cap 0 (start strings_mem) = Err EAssert.
Proof.
  pose proof (va_list_global_depends_on_register 0x1000 0x2000 0x3000 0x3008 strings_mem 0 strings_layout) as [H1 H2].
  exact (conj H1 (H2 null_cap eq_refl)).
Defined.
