(* ===== verification/LibcTests.v ===== *)
(** * LibcTests: the tests of the C library's strings, printf, qsort and setjmp.

    [libc_string.c], [libc_printf.c], [libc_qsort.c] and [libc_setjmp.c], and
    [clang_purecap_funptr.c], as programs of the monad of Machine.  The
    library's functions are parameters with their contracts as classes;
    [strlen] of [crt_init_globals.c] and the routines of [memcpy.c] are
    instances.  [setjmp] and [longjmp] are the continuations they stand for. *)

From stdpp Require Import sorting.
From S2P Require Import Prelude CheriMem Memcpy LibcCopy CrtInit Machine PurecapTests.

(** ** C strings in memory *)

(** through [c], the bytes [s] and a NUL can be read *)
Record c_string (m : mem) (c : cap) (s : list Z) : Prop := {
  cs_bytes : Forall (fun b => 0 < b < 256) s;
  cs_readable : readable c (c_addr c) (Z.of_nat (length s) + 1);
  cs_held : read_bytes m (c_addr c) (length s + 1) = s ++ [0];
}.

(** the order of strings, as unsigned characters *)
Fixpoint bytes_compare (a b : list Z) : comparison :=
  match a, b with
  | [], [] => Eq
  | [], _ => Lt
  | _, [] => Gt
  | x :: a', y :: b' => match x ?= y with Eq => bytes_compare a' b' | c => c end
  end.

(** ** The contracts of the library *)

Definition strcmp_fn := cap -> cap -> mem -> res Z.
Definition strlen_fn := cap -> mem -> res Z.

Class Strcmp_ok (f : strcmp_fn) : Prop :=
  strcmp_compares a b sa sb m : c_string m a sa -> c_string m b sb ->
    exists r, f a b m = Ok r /\ (r ?= 0) = bytes_compare sa sb.

Class Strlen_ok (f : strlen_fn) : Prop :=
  strlen_counts c s m : c_string m c s -> f c m = Ok (Z.of_nat (length s)).

(** what copying [n] bytes from [s] to [d] does to the bytes of memory *)
Definition bytes_copied (d s n : Z) (m m' : mem) : Prop :=
  forall x, read_byte m' x = if decide (d <= x < d + n) then read_byte m (s + (x - d)) else read_byte m x.

Class Strcpy_ok (f : cap -> cap -> mem -> res (cap * mem)) : Prop :=
  strcpy_copies dst src s m : c_string m src s ->
    let n := Z.of_nat (length s) + 1 in
    region_ok dst (c_addr dst) n -> region_ok src (c_addr src) n ->
    c_addr dst + n <= c_addr src \/ c_addr src + n <= c_addr dst ->
    exists m', f dst src m = Ok (dst, m') /\ bytes_copied (c_addr dst) (c_addr src) n m m'.

(** a format with conversions to strings only *)
Fixpoint expand (fmt : list Z) (args : list (list Z)) : option (list Z) :=
  match fmt, args with
  | [], _ => Some []
  | 37 :: 115 :: fmt', arg :: args' => out ← expand fmt' args'; Some (arg ++ out)      (* %s *)
  | 37 :: _, _ => None
  | c :: fmt', _ => out ← expand fmt' args; Some (c :: out)
  end.

Class Sprintf_ok (f : cap -> cap -> list cap -> mem -> res (Z * mem)) : Prop :=
  sprintf_prints dst fmt args sf ss out m :
    c_string m fmt sf -> Forall2 (c_string m) args ss -> expand sf ss = Some out ->
    let n := Z.of_nat (length out) + 1 in
    region_ok dst (c_addr dst) n ->
    exists m', f dst fmt args m = Ok (Z.of_nat (length out), m')
      /\ read_bytes m' (c_addr dst) (length out + 1) = out ++ [0]
      /\ forall x, x < c_addr dst \/ c_addr dst + n <= x -> read_byte m' x = read_byte m x.

(** *** qsort *)

(** an element of [size] bytes: its bytes, and the tags of its capabilities *)
Definition elem_at (m : mem) (size a : Z) : list Z * list bool :=
  (read_bytes m a (Z.to_nat size),
   map (fun j => has_tag m (a + 32 * Z.of_nat j)) (seq 0 (Z.to_nat (size / 32)))).

(** the elements of an array have changed places, and nothing else *)
Record permuted (base size : Z) (n : nat) (m m' : mem) : Prop := {
  pm_elems : exists p, p ≡ₚ seq 0 n /\
    forall i k, p !! i = Some k ->
      elem_at m' size (base + size * Z.of_nat i) = elem_at m size (base + size * Z.of_nat k);
  pm_bytes : forall x, x < base \/ base + size * Z.of_nat n <= x -> read_byte m' x = read_byte m x;
  pm_tags : forall g, g + 32 <= base \/ base + size * Z.of_nat n <= g -> has_tag m' g = has_tag m g;
}.

(** an array in one object, of elements that hold capabilities *)
Record array_ok (base : cap) (size : Z) (n : nat) : Prop := {
  ar_region : region_ok base (c_addr base) (size * Z.of_nat n);
  ar_align : c_addr base mod 32 = 0;
  ar_size : 0 < size /\ size mod 32 = 0;
}.

Definition qsort_fn := cap -> Z -> Z -> (cap -> cap -> M Z) -> M unit.

(** the comparison orders elements, wherever they are, by a key *)
Definition compares (compare : cap -> cap -> M Z) (key : list Z * list bool -> Z)
    (base : cap) (size : Z) (n : nat) (s : machine) : Prop :=
  forall m' i j pi pj, permuted (c_addr base) size n (ms s) m' -> (i < n)%nat -> (j < n)%nat ->
    cheri_offset_increment base (size * Z.of_nat i) = Ok pi ->
    cheri_offset_increment base (size * Z.of_nat j) = Ok pj ->
    exists r, compare pi pj (set_mem m' s) = Ok (r, set_mem m' s)
      /\ (r ?= 0) = (key (elem_at m' size (c_addr base + size * Z.of_nat i))
                     ?= key (elem_at m' size (c_addr base + size * Z.of_nat j))).

Class Qsort_ok (f : qsort_fn) : Prop :=
  qsort_sorts base n size compare key s :
    array_ok base size n -> compares compare key base size n s ->
    exists m', f base (Z.of_nat n) size compare s = Ok (tt, set_mem m' s)
      /\ permuted (c_addr base) size n (ms s) m'
      /\ forall i j, (i < j < n)%nat ->
           key (elem_at m' size (c_addr base + size * Z.of_nat i))
           <= key (elem_at m' size (c_addr base + size * Z.of_nat j)).

(** a function of the library in a program *)
Definition run {A} (f : mem -> res A) : M A := fun s => let* a := f (ms s) in Ok (a, s).
Definition run_mem {A} (f : mem -> res (A * mem)) : M A := fun s =>
  let* (a, m) := f (ms s) in Ok (a, set_mem m s).

(** ** libc_string *)

Section string.
Context (strcmp : strcmp_fn) (strlen : strlen_fn) (strcpy : cap -> cap -> mem -> res (cap * mem)) (memcpy : copy_fn).

Definition libc_string (str str2 str3 : Z) : M Z :=
  let s := obj str 10 in
  let s2 := obj str2 10 in
  let s3 := obj str3 10 in
  init_bytes s 0 digits9 ;;
  init_bytes s2 0 digits9 ;;
  m_assert (c_len s =? 10) ;;
  r ← run (strcmp s s2);
  m_assert (r =? 0) ;;
  n ← run (strlen s);
  m_assert (n =? 9) ;;
  run_mem (strcpy s3 s2) ;;
  r ← run (strcmp s s3);
  m_assert (r =? 0) ;;
  run_mem (memcpy s3 s2 10) ;;
  r ← run (strcmp s s3);
  m_assert (r =? 0) ;;
  mret 0.
End string.

(** ** libc_printf *)

(** "hello world", "hello %s" and "world" *)
Definition hello_world : list Z := [104; 101; 108; 108; 111; 32; 119; 111; 114; 108; 100].
Definition hello_format : list Z := [104; 101; 108; 108; 111; 32; 37; 115].
Definition world : list Z := [119; 111; 114; 108; 100].

Definition libc_printf (sprintf : cap -> cap -> list cap -> mem -> res (Z * mem))
    (expected out : Z) (fmt arg : cap) : M Z :=
  let e := obj expected 12 in
  let o := obj out (12 + 8) in
  init_bytes e 0 (hello_world ++ [0]) ;;
  len ← run_mem (sprintf o fmt [arg]);
  m_assert (len =? 12 - 1) ;;
  m_for 0 12 (fun i =>
    a ← load e i 1 0;
    b ← load o i 1 0;
    m_assert (int_value true 1 a =? int_value true 1 b)) ;;
  mret 0.

(** ** clang_purecap_funptr *)

(** a call that returns a pointer *)
Definition call_ptr (f : cap) (body : M cap) (stale : cap) : M cap :=
  match check_cause f [PERMIT_EXECUTE] (c_addr f) 4 with
  | Some cause => fault cause ;; mret stale
  | None => body
  end.

(** "astring" *)
Definition astring : list Z := [97; 115; 116; 114; 105; 110; 103].

(** every pointer has the size of a capability *)
Definition sizeof_pointer := 32.

(** the function [retsrt] is at [fp], and what it returns at [str] *)
Definition clang_purecap_funptr (strcmp : strcmp_fn) (fp : cap) (str strval : Z) : M Z :=
  m_assert (sizeof_pointer =? sizeof_pointer) ;;
  p ← call_ptr fp (mret (obj str 8)) null_cap;
  r ← run (strcmp p (obj strval 8));
  m_assert (r =? 0) ;;
  mret 0.

(** ** libc_qsort *)

Section qsort.
Context (strcmp : strcmp_fn) (qsort : qsort_fn).

(** the strings that the elements at [a] and [b] point to, at byte offset [o] *)
Definition compare_values (o : Z) (a b : cap) : M Z :=
  pa ← load_c 32 a o null_cap;
  pb ← load_c 32 b o null_cap;
  run (strcmp pa pb).

Definition compare := compare_values 0.

(** [value] of [struct dict_entry], which has 64 bytes *)
Definition value_offset := 32.
Definition compare1 := compare_values value_offset.

(** [array[i]] and [array1[i].value] *)
Definition array_at (array i : Z) : M cap := load_c 32 (obj array (7 * 32)) (32 * i) null_cap.
Definition value_at (array1 i : Z) : M cap := load_c 32 (obj array1 (7 * 64)) (64 * i + value_offset) null_cap.

Definition libc_qsort (array array1 : Z) : M Z :=
  m_for 0 7 (fun i =>
    p ← array_at array i;
    m_assert (c_tag p) ;;
    p ← value_at array1 i;
    m_assert (c_tag p)) ;;
  qsort (obj array (7 * 32)) 7 32 compare ;;
  qsort (obj array1 (7 * 64)) 7 64 compare1 ;;
  m_for 0 7 (fun i =>
    p ← array_at array i;
    m_assert (c_tag p) ;;
    p ← value_at array1 i;
    m_assert (c_tag p) ;;
    p ← array_at array i;
    c ← load p 0 1 0;
    m_assert (int_value true 1 c =? 97 + i) ;;
    p ← value_at array1 i;
    c ← load p 0 1 0;
    m_assert (int_value true 1 c =? 97 + i)) ;;
  mret 0.
End qsort.

(** the letters the two arrays are initialised with *)
Definition letters : list Z := [99; 100; 98; 97; 102; 101; 103].

(** ** libc_setjmp *)

(** the state: [position], and whether [buf] can be jumped to *)
Record jump_state := Jump_state { position : Z; buf_live : bool }.

(** a computation returns or jumps to [buf] with a value *)
Inductive outcome (A : Type) :=
  | Returned (a : A)
  | Jumped (v : Z).
Arguments Returned {A} a.
Arguments Jumped {A} v.

Definition J (A : Type) : Type := jump_state -> res (outcome A * jump_state).

#[export] Instance J_ret : MRet J := fun A a s => Ok (Returned a, s).
#[export] Instance J_bind : MBind J := fun A B k m s =>
  let* (o, s) := m s in
  match o with
  | Returned a => k a s
  | Jumped v => Ok (Jumped v, s)
  end.

Definition j_assert (b : bool) : J unit := fun s => let* _ := c_assert b in Ok (Returned tt, s).
Definition get_position : J Z := fun s => Ok (Returned (position s), s).
Definition advance : J unit := fun s => Ok (Returned tt, Jump_state (position s + 1) (buf_live s)).

(** [longjmp(buf, v)], undefined once the function that called [setjmp] has
    returned; the value is never 0 *)
Definition longjmp (v : Z) : J unit := fun s =>
  if buf_live s then Ok (Jumped (if v =? 0 then 1 else v), s) else Err EUndef.

(** [result = setjmp(buf)] in a function whose rest is [k]: [k] runs with 0 and
    again with the value of each jump, at most [fuel] of them *)
Fixpoint resume {A} (fuel : nat) (k : Z -> J A) (result : Z) : J A := fun s =>
  let* (o, s) := k result s in
  match o with
  | Returned a => Ok (Returned a, Jump_state (position s) false)
  | Jumped v => match fuel with
                | O => Err EFuel
                | S fuel' => resume fuel' k v s
                end
  end.
Definition setjmp {A} (fuel : nat) (k : Z -> J A) : J A := fun s =>
  resume fuel k 0 (Jump_state (position s) true).

Definition dolongjump : J unit :=
  p ← get_position;
  j_assert (p =? 3) ;;
  advance ;;
  longjmp 2.

Definition dosetjump (fuel : nat) : J unit :=
  p ← get_position;
  j_assert (p =? 1) ;;
  advance ;;
  setjmp fuel (fun result =>
    (if result =? 0 then
       p ← get_position;
       j_assert (p =? 2) ;;
       advance ;;
       dolongjump
     else mret tt) ;;
    p ← get_position;
    j_assert (p =? 4)).

Definition libc_setjmp (fuel : nat) : J Z :=
  p ← get_position;
  j_assert (p =? 0) ;;
  advance ;;
  dosetjump fuel ;;
  mret 0.

(** ** Proofs: strings in memory *)

Lemma wp_run {A} (f : mem -> res A) a (Q : A -> machine -> Prop) s : f (ms s) = Ok a -> Q a s -> wp (run f) Q s.
Proof. intros Hf HQ. unfold wp, run. by rewrite Hf. Qed.

Lemma wp_run_mem {A} (f : mem -> res (A * mem)) a m (Q : A -> machine -> Prop) s :
  f (ms s) = Ok (a, m) -> Q a (set_mem m s) -> wp (run_mem f) Q s.
Proof. intros Hf HQ. unfold wp, run_mem. by rewrite Hf. Qed.

(** bytes elsewhere and the counter are as they were *)
Record changes_only (a n : Z) (s s' : machine) : Prop := {
  co_bytes : forall x, x < a \/ a + n <= x -> read_byte (ms s') x = read_byte (ms s) x;
  co_faults : faults s' = faults s;
}.

Lemma c_string_ext m m' c s : c_string m c s ->
  (forall x, c_addr c <= x < c_addr c + Z.of_nat (length s) + 1 -> read_byte m' x = read_byte m x) ->
  c_string m' c s.
Proof.
  intros [Hb Hr Hh] Hx. split; [done|done|]. rewrite <- Hh. apply read_bytes_ext. intros. apply Hx. lia.
Qed.

Lemma obj_readable a len n : 0 < a -> a + len <= 2 ^ 64 - 1 -> n <= len -> 0 <= n -> readable (obj a len) a n.
Proof. intros. split; try done; unfold c_top; simpl; lia. Qed.

Lemma obj_region a len n : 0 < a -> a + len <= 2 ^ 64 - 1 -> n <= len -> 0 <= n ->
  region_ok (obj a len) (c_addr (obj a len)) n.
Proof. intros. rewrite addr_obj by lia. split; try done; unfold c_top; simpl; lia. Qed.

Lemma peek_byte m a : peek m a 1 = read_byte m a.
Proof. done. Qed.

Lemma initialised_read a bs s s' : initialised a bs s s' -> Forall (fun b => 0 <= b < 256) bs ->
  read_bytes (ms s') a (length bs) = bs.
Proof.
  intros [Hin _ _ _ _] Hb. apply list_eq_same_length with (n := length bs); rewrite ?length_read_bytes; auto.
  intros i x z Hi. rewrite lookup_read_bytes by done. intros [= <-] Hz.
  rewrite <- peek_byte, (Hin i z Hz). apply Z.mod_small. by eapply Forall_lookup_1 in Hb.
Qed.

(** an array initialised with a string *)
Lemma wp_init_string a s0 s (Q : unit -> machine -> Prop) :
  let n := Z.of_nat (length s0) + 1 in
  placed a n 1 -> Forall (fun b => 0 < b < 256) s0 ->
  (forall s', c_string (ms s') (obj a n) s0 -> changes_only a n s s' -> Q tt s') ->
  wp (init_bytes (obj a n) 0 (s0 ++ [0])) Q s.
Proof.
  intros n [Hl Hh _] Hs HQ. eapply wp_mono.
  { apply wp_init_bytes; rewrite ?length_app; simpl; unfold n in *; lia. }
  intros [] s' Hi. rewrite Z.add_0_r in Hi. apply HQ.
  - split; [done|rewrite addr_obj by lia; apply obj_readable; lia|]. rewrite addr_obj by lia.
    pose proof (initialised_read _ _ _ _ Hi) as Hread. rewrite length_app in Hread. apply Hread.
    apply Forall_app_2; [|by repeat constructor]. eapply Forall_impl; [exact Hs|]. simpl. lia.
  - destruct Hi as [_ Hf _ Hfa _]. split; [|done]. intros x Hx. rewrite <- !peek_byte. apply Hf.
    rewrite length_app. simpl. lia.
Qed.

Lemma bytes_copied_string d s len m m' c : bytes_copied (c_addr d) (c_addr c) len m m' ->
  c_string m c s -> len = Z.of_nat (length s) + 1 -> readable d (c_addr d) len -> c_string m' d s.
Proof.
  intros Hc [Hb Hr Hh] -> Hd. split; [done|done|]. rewrite <- Hh.
  apply list_eq_same_length with (n := (length s + 1)%nat); rewrite ?length_read_bytes; auto.
  intros i x z Hi. rewrite !lookup_read_bytes by done. intros [= <-] [= <-].
  rewrite Hc, decide_True by lia. f_equal. lia.
Qed.

Lemma bytes_compare_refl s : bytes_compare s s = Eq.
Proof. induction s as [|x s IH]; [done|]. simpl. by rewrite Z.compare_refl. Qed.

(** the comparison of equal strings *)
Lemma wp_strcmp_eq `{!Strcmp_ok strcmp} a b s0 s (Q : Z -> machine -> Prop) :
  c_string (ms s) a s0 -> c_string (ms s) b s0 -> Q 0 s -> wp (run (strcmp a b)) Q s.
Proof.
  intros Ha Hb HQ. destruct (strcmp_compares a b s0 s0 (ms s) Ha Hb) as (r & Hr & Hc).
  rewrite bytes_compare_refl, Z.compare_eq_iff in Hc. subst r. by eapply wp_run.
Qed.

(** three arrays apart from each other *)
Definition apart (a la b lb : Z) : Prop := a + la <= b \/ b + lb <= a.

(** "123456789" in the array at [a] *)
Definition digits_at (m : mem) (a : Z) : Prop := c_string m (obj a 10) (take 9 digits9).

Lemma wp_digits a s (Q : unit -> machine -> Prop) : placed a 10 1 ->
  (forall s', digits_at (ms s') a -> changes_only a 10 s s' -> Q tt s') -> wp (init_bytes (obj a 10) 0 digits9) Q s.
Proof. intros Ha HQ. by apply (wp_init_string a (take 9 digits9)); [|repeat constructor|]. Qed.

Lemma digits_ext m m' a : placed a 10 1 -> digits_at m a ->
  (forall x, a <= x < a + 10 -> read_byte m' x = read_byte m x) -> digits_at m' a.
Proof.
  intros [Hl Hh _] Hd Hx. apply (c_string_ext m); [done|]. rewrite addr_obj by lia. simpl. intros x Hr. apply Hx. lia.
Qed.

Lemma digits_kept m m' a d src : placed a 10 1 -> digits_at m a -> bytes_copied d src 10 m m' ->
  apart a 10 d 10 -> digits_at m' a.
Proof.
  unfold apart. intros Ha Hd Hc Hap. apply (digits_ext m); [done|done|]. intros x Hx. rewrite Hc.
  by rewrite decide_False by lia.
Qed.

Lemma digits_copied m m' a d : placed a 10 1 -> placed d 10 1 -> digits_at m a -> bytes_copied d a 10 m m' ->
  digits_at m' d.
Proof.
  intros [Hl Hh _] [Ll Lh _] Hd Hc. apply (bytes_copied_string _ _ 10 m _ (obj a 10)); rewrite ?addr_obj by lia; try done.
  apply obj_readable; lia.
Qed.

Section string_proofs.
Context (strcmp : strcmp_fn) (strlen : strlen_fn) (strcpy : cap -> cap -> mem -> res (cap * mem)) (memcpy : copy_fn).
Context `{!Strcmp_ok strcmp, !Strlen_ok strlen, !Strcpy_ok strcpy, !Memcpy_ok memcpy}.

Lemma libc_string_passes m str str2 str3 : placed str 10 1 -> placed str2 10 1 -> placed str3 10 1 ->
  apart str 10 str2 10 -> apart str 10 str3 10 -> apart str2 10 str3 10 ->
  passes 0 (libc_string strcmp strlen strcpy memcpy str str2 str3) m.
Proof.
  intros H1 H2 H3 H12 H13 H23. unfold passes, libc_string. cbv zeta.
  pose proof H1 as [L1 U1 _]. pose proof H2 as [L2 U2 _]. pose proof H3 as [L3 U3 _].
  wp_step. apply wp_digits; [done|]. intros s1 D1 [_ F1]. wp_step. apply wp_digits; [done|]. intros s2 D2 [B2 F2].
  assert (D1' : digits_at (ms s2) str) by (apply (digits_ext (ms s1)); [done..|]; intros; apply B2; unfold apart in *; lia).
  repeat wp_step; [done|]. eapply wp_strcmp_eq; [exact D1'|exact D2|]. repeat wp_step; [done|].
  apply wp_run with 9; [by apply (strlen_counts _ (take 9 digits9))|]. repeat wp_step; [done|].
  destruct (strcpy_copies (obj str3 10) (obj str2 10) _ (ms s2) D2) as (m3 & Hrun & Hcp);
    [apply obj_region; simpl; lia..|rewrite !addr_obj by lia; unfold apart in *; simpl; lia|].
  apply wp_run_mem with (obj str3 10) m3; [done|]. rewrite !addr_obj in Hcp by lia.
  change (bytes_copied str3 str2 10 (ms s2) m3) in Hcp.
  pose proof (digits_kept _ _ str _ _ H1 D1' Hcp H13) as D13. pose proof (digits_kept _ _ str2 _ _ H2 D2 Hcp H23) as D23.
  wp_step. eapply wp_strcmp_eq; [exact D13|by apply (digits_copied (ms s2) _ str2)|]. repeat wp_step; [done|].
  destruct (memcpy_copies (obj str3 10) (obj str2 10) 10 m3) as (m4 & Hrun4 & Hcp4);
    [apply obj_region; lia..|lia|rewrite !addr_obj by lia; unfold apart in *; lia|].
  apply wp_run_mem with (obj str3 10) m4; [done|]. rewrite !addr_obj in Hcp4 by lia.
  pose proof (copy_post_bytes _ _ _ _ _ _ Hcp4) as Hb4. change (bytes_copied str3 str2 10 m3 m4) in Hb4.
  wp_step. eapply wp_strcmp_eq; [by apply (digits_kept m3 m4 str str3 str2)|by apply (digits_copied m3 _ str2)|].
  repeat wp_step; [done|]. split; [done|]. cbn [faults set_mem]. by rewrite F2, F1.
Qed.
End string_proofs.

Lemma libc_printf_passes `{!Sprintf_ok sprintf} m expected out fmt arg : placed expected 12 1 -> placed out 20 1 ->
  apart expected 12 out 20 -> c_string m fmt hello_format -> c_string m arg world ->
  apart expected 12 (c_addr fmt) 9 -> apart expected 12 (c_addr arg) 6 ->
  passes 0 (libc_printf sprintf expected out fmt arg) m.
Proof.
  intros H1 H2 H12 Hf Ha Hef Hea. unfold apart, passes, libc_printf in *. cbv zeta.
  pose proof H1 as [L1 U1 _]. pose proof H2 as [L2 U2 _].
  wp_step. apply (wp_init_string expected hello_world); [done|by repeat constructor|]. intros s1 [_ _ He] [B1 F1].
  assert (c_string (ms s1) fmt hello_format /\ c_string (ms s1) arg world) as [Hf1 Ha1].
  { split; (apply (c_string_ext m); [done|]); simpl; intros x Hx; apply B1; simpl; lia. }
  destruct (sprintf_prints (obj out 20) fmt [arg] _ _ hello_world (ms s1) Hf1 (List.Forall2_cons _ _ Ha1 (List.Forall2_nil _)))
    as (m2 & Hrun & Hout & B2); [done|apply obj_region; simpl; lia|]. rewrite addr_obj in Hout, B2 by lia.
  wp_step. apply wp_run_mem with 11 m2; [done|]. repeat wp_step; [done|]. rewrite addr_obj in He by lia.
  assert (Hsame : forall i : nat, (i < 12)%nat -> read_byte m2 (expected + Z.of_nat i) = read_byte m2 (out + Z.of_nat i)).
  { intros i Hi. rewrite B2 by (simpl; lia).
    pose proof (lookup_read_bytes (ms s1) expected 12 i Hi) as E1. pose proof (lookup_read_bytes m2 out 12 i Hi) as E2.
    change (length hello_world + 1)%nat with 12%nat in *. rewrite He in E1. rewrite Hout in E2. congruence. }
  apply wp_for with (P := fun _ s => ms s = m2 /\ faults s = 0); [lia|done| |].
  - intros i s Hi [Hm Hfl]. repeat wp_step. unfold obj. wp_mem_load. wp_step. wp_mem_load. wp_step; [|done].
    rewrite Hm, !peek_byte. replace i with (Z.of_nat (Z.to_nat i)) by lia. rewrite Hsame by lia. apply Z.eqb_refl.
  - intros s [_ Hfl]. by wp_step.
Qed.

Lemma funptr_passes `{!Strcmp_ok strcmp} m fp str strval :
  check_cause fp [PERMIT_EXECUTE] (c_addr fp) 4 = None ->
  c_string m (obj str 8) astring -> c_string m (obj strval 8) astring ->
  passes 0 (clang_purecap_funptr strcmp fp str strval) m.
Proof.
  intros Hc Hs Hv. unfold passes, clang_purecap_funptr, call_ptr. rewrite Hc. repeat wp_step; [done|].
  apply wp_strcmp_eq with astring; [done|done|by repeat wp_step].
Qed.

(** [longjmp] comes back to [setjmp] once *)
Lemma libc_setjmp_passes fuel : (1 <= fuel)%nat ->
  libc_setjmp fuel (Jump_state 0 false) = Ok (Returned 0, Jump_state 4 false).
Proof. destruct fuel as [|[|fuel]]; [lia|done|done]. Qed.

(** the test of a program that has run it before fails *)
Lemma libc_setjmp_again fuel n live : n <> 0 -> libc_setjmp fuel (Jump_state n live) = Err EAssert.
Proof. intros Hn. unfold libc_setjmp, mbind, J_bind. simpl. by rewrite (proj2 (Z.eqb_neq n 0) Hn). Qed.

(** ** Proofs: qsort *)

Lemma wp_inv {A} (c : M A) (P : A -> Prop) s : wp c (fun a s' => s' = s /\ P a) s -> exists a, c s = Ok (a, s) /\ P a.
Proof. unfold wp. destruct (c s) as [[a s']|]; [|done]. intros [-> HP]. by exists a. Qed.

(** the capability at offset [o] of an element *)
Definition elem_cap (o : Z) (e : list Z * list bool) : cap :=
  cap_of_bytes (take 32 (drop (Z.to_nat o) e.1)) (nth (Z.to_nat (o / 32)) e.2 false).

Lemma elem_cap_at m size a o : 0 <= o -> o + 32 <= size -> o mod 32 = 0 ->
  elem_cap o (elem_at m size a) = peek_c m (a + o).
Proof.
  intros Ho Hs Hm. unfold elem_cap, elem_at, peek_c; cbn [fst snd].
  replace (Z.to_nat size) with (Z.to_nat o + (32 + Z.to_nat (size - o - 32)))%nat by lia.
  rewrite read_bytes_app, drop_app_length' by (by rewrite length_read_bytes).
  rewrite read_bytes_app, take_app_length' by (by rewrite length_read_bytes). rewrite Z2Nat.id by lia. f_equal.
  assert (Z.to_nat (o / 32) < Z.to_nat (size / 32))%nat by mlia.
  rewrite (nth_indep _ false (has_tag m (a + 32 * Z.of_nat 0))) by (by rewrite length_map, length_seq).
  rewrite (map_nth (fun j => has_tag m (a + 32 * Z.of_nat j))), seq_nth by lia. f_equal. mlia.
Qed.

Lemma peek_c_ext m m' a : (forall x, a <= x < a + 32 -> read_byte m' x = read_byte m x) -> has_tag m' a = has_tag m a ->
  peek_c m' a = peek_c m a.
Proof. intros Hb Ht. unfold peek_c. rewrite Ht. f_equal. apply read_bytes_ext. intros. apply Hb. lia. Qed.

Lemma sorted_lookup (l : list Z) : (forall i j x y, (i < j)%nat -> l !! i = Some x -> l !! j = Some y -> x <= y) ->
  StronglySorted Z.le l.
Proof.
  induction l as [|x l IH]; intros H; [constructor|]. constructor.
  - apply IH. intros i j ? ? Hij Hi Hj. apply (H (S i) (S j)); [lia|done|done].
  - apply Forall_lookup_2. intros i y Hy. apply (H 0%nat (S i)); [lia|done|done].
Qed.

Lemma lookup_sorted {A} (R : A -> A -> Prop) l i j x y : StronglySorted R l -> (i < j)%nat ->
  l !! i = Some x -> l !! j = Some y -> R x y.
Proof.
  intros Hs. revert i j. induction Hs as [|z l Hs IH Hz]; intros i j Hij Hi Hj; [done|].
  destruct j as [|j]; [lia|]. destruct i as [|i]; simpl in *.
  - injection Hi as ->. by eapply Forall_lookup_1 in Hz.
  - apply (IH i j); [lia|done|done].
Qed.

Lemma sorted_same (l1 l2 : list Z) : StronglySorted Z.le l1 -> StronglySorted Z.le l2 -> l1 ≡ₚ l2 -> l1 = l2.
Proof. intros H1 H2 Hp. apply (StronglySorted_unique Z.le); done. Qed.

(** an array of seven elements, of which the capabilities at offset [o] point to
    strings of one letter, at [lit] *)
Record table (m : mem) (a size o : Z) (lit : nat -> Z) : Prop := {
  tb_placed : placed a (size * 7) 32;
  tb_size : 0 < size /\ size mod 32 = 0;
  tb_offset : 0 <= o /\ o mod 32 = 0 /\ o + 32 <= size;
  tb_caps : forall i, (i < 7)%nat -> peek_c m (a + size * Z.of_nat i + o) = obj (lit i) 2;
  tb_strings : forall i, (i < 7)%nat -> c_string m (obj (lit i) 2) [nth i letters 0];
  tb_lits : forall i, (i < 7)%nat -> placed (lit i) 2 1 /\ apart (lit i) 2 a (size * 7);
}.

(** sorted, the [i]th points to the [i]th letter of the alphabet *)
Definition sorted_table (m : mem) (a size o : Z) (lit : nat -> Z) : Prop :=
  forall i, (i < 7)%nat -> exists k, (k < 7)%nat /\
    peek_c m (a + size * Z.of_nat i + o) = obj (lit k) 2 /\ read_byte m (lit k) = 97 + Z.of_nat i.

Section table_proofs.
Context (m : mem) (a size o : Z) (lit : nat -> Z) (Ht : table m a size o lit).

(** the letter that an element points to *)
Definition letter_key (e : list Z * list bool) : Z := read_byte m (c_addr (elem_cap o e)).

Lemma lit_addr i : (i < 7)%nat -> c_addr (obj (lit i) 2) = lit i.
Proof. intros Hi. destruct (tb_lits _ _ _ _ _ Ht i Hi) as [[? ? _] _]. apply addr_obj. lia. Qed.

Lemma lit_letter i : (i < 7)%nat -> read_byte m (lit i) = nth i letters 0.
Proof.
  intros Hi. destruct (tb_strings _ _ _ _ _ Ht i Hi) as [_ _ Hh]. rewrite (lit_addr i Hi) in Hh.
  by injection Hh as -> _.
Qed.

Section permuted.
Context (m' : mem) (Hp : permuted a size 7 m m').

Lemma lit_kept i x : (i < 7)%nat -> lit i <= x < lit i + 2 -> read_byte m' x = read_byte m x.
Proof.
  intros Hi Hx. destruct (tb_lits _ _ _ _ _ Ht i Hi) as [_ Ha]. unfold apart in Ha.
  apply (pm_bytes _ _ _ _ _ Hp). lia.
Qed.

Lemma permuted_table : exists p, p ≡ₚ seq 0 7 /\ forall i k, p !! i = Some k ->
  (k < 7)%nat /\ peek_c m' (a + size * Z.of_nat i + o) = obj (lit k) 2 /\
  letter_key (elem_at m' size (a + size * Z.of_nat i)) = nth k letters 0 /\
  c_string m' (obj (lit k) 2) [nth k letters 0].
Proof.
  destruct (pm_elems _ _ _ _ _ Hp) as (p & Hperm & Hel). destruct (tb_offset _ _ _ _ _ Ht) as (Ho0 & Ho1 & Ho2).
  exists p. split; [done|]. intros i k Hk.
  assert (Hlt : (k < 7)%nat).
  { apply list_elem_of_lookup_2 in Hk. rewrite Hperm in Hk. apply elem_of_seq in Hk. lia. }
  assert (Hcap : peek_c m' (a + size * Z.of_nat i + o) = obj (lit k) 2).
  { rewrite <- elem_cap_at with (size := size) by lia. rewrite (Hel i k Hk), elem_cap_at by lia.
    by apply (tb_caps _ _ _ _ _ Ht). }
  split; [done|]. split; [done|]. split.
  - unfold letter_key. rewrite elem_cap_at, Hcap, lit_addr by lia. by apply lit_letter.
  - apply (c_string_ext m); [by apply (tb_strings _ _ _ _ _ Ht)|]. rewrite lit_addr by done. simpl.
    intros x Hx. apply (lit_kept k); [done|lia].
Qed.
End permuted.

(** the comparison functions of the test order the elements by their letters *)
Lemma compare_values_ok `{!Strcmp_ok strcmp} s : ms s = m ->
  compares (compare_values strcmp o) letter_key (obj a (size * 7)) size 7 s.
Proof.
  intros Hm m' i j pi pj Hp Hi Hj Hpi Hpj. destruct (tb_placed _ _ _ _ _ Ht) as [Hl Hh Hal].
  destruct (tb_offset _ _ _ _ _ Ht) as (Ho0 & Ho1 & Ho2). destruct (tb_size _ _ _ _ _ Ht) as [Hs0 Hs1].
  rewrite addr_obj in * by lia. rewrite Hm in Hp. destruct (permuted_table m' Hp) as (p & Hperm & Hel).
  assert (length p = 7%nat) as Hlen by (by rewrite Hperm).
  destruct (lookup_lt_is_Some_2 p i) as [ki Hki]; [lia|]. destruct (lookup_lt_is_Some_2 p j) as [kj Hkj]; [lia|].
  destruct (Hel i ki Hki) as (Hlti & Hci & Hli & Hsi). destruct (Hel j kj Hkj) as (Hltj & Hcj & Hlj & Hsj).
  assert (forall x : nat, (x < 7)%nat -> 0 <= size * Z.of_nat x /\ size * Z.of_nat x + size <= size * 7 /\
    (size * Z.of_nat x) mod 32 = 0) as Hin.
  { intros x Hx. split; [nia|]. split; [nia|]. by rewrite <- Zmult_mod_idemp_l, Hs1. }
  pose proof (Hin i Hi) as (Hi0 & Hi1 & Hi2). pose proof (Hin j Hj) as (Hj0 & Hj1 & Hj2).
  unfold obj in Hpi, Hpj. rewrite incr_blk, wrap_small, Z.add_0_l in Hpi, Hpj by lia. injection Hpi as <-. injection Hpj as <-.
  apply wp_inv. unfold compare_values.
  wp_step. wp_mem_load_c. rewrite Z.add_assoc, Hci. wp_step. wp_mem_load_c. rewrite Z.add_assoc, Hcj.
  destruct (strcmp_compares _ _ _ _ m' Hsi Hsj) as (r & Hr & Hcmp). apply wp_run with r; [done|]. split; [done|].
  rewrite Hcmp, Hli, Hlj. cbn [bytes_compare]. by destruct (nth ki letters 0 ?= nth kj letters 0).
Qed.

(** sorting by the letters puts them in the order of the alphabet *)
Lemma qsort_sorts_table `{!Strcmp_ok strcmp} `{!Qsort_ok qsort} s : ms s = m ->
  exists m', qsort (obj a (size * 7)) 7 size (compare_values strcmp o) s = Ok (tt, set_mem m' s)
    /\ permuted a size 7 m m' /\ sorted_table m' a size o lit.
Proof.
  intros Hm. destruct (tb_placed _ _ _ _ _ Ht) as [Hl Hh Hal]. destruct (tb_size _ _ _ _ _ Ht) as [Hs0 Hs1].
  destruct (qsort_sorts (obj a (size * 7)) 7 size (compare_values strcmp o) letter_key s) as (m' & Hrun & Hp & Hsorted).
  { split; [apply obj_region; lia|by rewrite addr_obj by lia|done]. }
  { by apply compare_values_ok. }
  rewrite addr_obj in * by lia. rewrite Hm in Hp. exists m'. split; [done|]. split; [done|].
  destruct (permuted_table m' Hp) as (p & Hperm & Hel). assert (length p = 7%nat) as Hlen by (by rewrite Hperm).
  assert (Hord : (fun k => nth k letters 0) <$> p = [97; 98; 99; 100; 101; 102; 103]).
  { apply sorted_same; [|by repeat constructor|].
    - apply sorted_lookup. intros i j x y Hij Hx Hy.
      rewrite list_lookup_fmap_Some in Hx, Hy. destruct Hx as (ki & -> & Hi). destruct Hy as (kj & -> & Hj).
      apply lookup_lt_Some in Hj as Hj'. destruct (Hel i ki Hi) as (_ & _ & <- & _).
      destruct (Hel j kj Hj) as (_ & _ & <- & _). apply Hsorted. lia.
    - rewrite Hperm. change ((fun k => nth k letters 0) <$> seq 0 7) with [99; 100; 98; 97; 102; 101; 103].
      by apply (bool_decide_unpack _). }
  intros i Hi. destruct (lookup_lt_is_Some_2 p i) as [k Hk]; [lia|]. destruct (Hel i k Hk) as (Hlt & Hc & _ & _).
  exists k. split; [done|]. split; [done|]. rewrite (lit_kept m' Hp k), lit_letter by (done || lia).
  assert (Hn : ((fun k => nth k letters 0) <$> p) !! i = Some (nth k letters 0)) by (by rewrite list_lookup_fmap, Hk).
  rewrite Hord in Hn. revert Hn. generalize (nth k letters 0). clear -Hi. intros x Hn.
  do 7 (destruct i as [|i]; [by injection Hn as <-|]). lia.
Qed.
End table_proofs.

(** sorting one table leaves another alone *)
Section frame.
Context (m m' : mem) (a size o : Z) (lit : nat -> Z) (b bsize : Z).
Context (Hp : permuted b bsize 7 m m') (Hap : apart a (size * 7) b (bsize * 7)).
Context (Hlit : forall i, (i < 7)%nat -> apart (lit i) 2 b (bsize * 7)).
Context (Hsize : 0 < size) (Ho : 0 <= o /\ o + 32 <= size).

Lemma frame_cap i : (i < 7)%nat ->
  peek_c m' (a + size * Z.of_nat i + o) = peek_c m (a + size * Z.of_nat i + o).
Proof using Hp Hap Hsize Ho.
  intros Hi. unfold apart in Hap. change (Z.of_nat 7) with 7 in *.
  assert (0 <= size * Z.of_nat i /\ size * Z.of_nat i + size <= size * 7) by nia. apply peek_c_ext.
  - intros x Hx. apply (pm_bytes _ _ _ _ _ Hp). change (Z.of_nat 7) with 7. lia.
  - apply (pm_tags _ _ _ _ _ Hp). change (Z.of_nat 7) with 7. lia.
Qed.

Lemma frame_byte i x : (i < 7)%nat -> lit i <= x < lit i + 2 -> read_byte m' x = read_byte m x.
Proof using Hp Hlit.
  intros Hi Hx. pose proof (Hlit i Hi) as Ha. unfold apart in Ha.
  apply (pm_bytes _ _ _ _ _ Hp). change (Z.of_nat 7) with 7. lia.
Qed.

Lemma frame_table : table m a size o lit -> table m' a size o lit.
Proof using All.
  intros Ht. pose proof Ht as [H1 H2 H3 H4 H5 H6]. split; try done.
  - intros i Hi. rewrite frame_cap by done. by apply H4.
  - intros i Hi. apply (c_string_ext m); [by apply H5|]. rewrite (lit_addr m a size o lit Ht i Hi).
    intros x Hx. apply (frame_byte i); [done|cbn [length] in Hx; lia].
Qed.

Lemma frame_sorted : sorted_table m a size o lit -> sorted_table m' a size o lit.
Proof using All.
  intros Hs i Hi. destruct (Hs i Hi) as (k & Hk & Hc & Hl). exists k. split; [done|].
  rewrite frame_cap, (frame_byte k) by (done || lia). done.
Qed.
End frame.

(** loads of the two arrays *)
Lemma wp_table_load a size o (lit : nat -> Z) k i s (Q : cap -> machine -> Prop) :
  0 <= i < 7 -> placed a (size * 7) 32 -> 0 < size /\ size mod 32 = 0 -> 0 <= o /\ o mod 32 = 0 /\ o + 32 <= size ->
  peek_c (ms s) (a + size * i + o) = obj (lit k) 2 -> Q (obj (lit k) 2) s ->
  wp (load_c 32 (obj a (size * 7)) (size * i + o) null_cap) Q s.
Proof.
  intros Hi [Hl Hh Hal] [Hs0 Hs1] (Ho0 & Ho1 & Ho2) Hc HQ.
  assert (0 <= size * i /\ size * i + size <= size * 7 /\ (size * i) mod 32 = 0) as (H0 & H1 & H2).
  { split; [nia|]. split; [nia|]. by rewrite <- Zmult_mod_idemp_l, Hs1. }
  unfold obj at 1. apply wp_load_cap; [access_ok|]. rewrite addr_blk, Z.add_0_r by lia. rewrite Z.add_assoc.
  by rewrite Hc.
Qed.

Lemma libc_qsort_passes `{!Strcmp_ok strcmp} `{!Qsort_ok qsort} m array array1 lit lit1 :
  table m array 32 0 lit -> table m array1 64 32 lit1 -> apart array (32 * 7) array1 (64 * 7) ->
  (forall i, (i < 7)%nat -> apart (lit i) 2 array1 (64 * 7)) -> (forall i, (i < 7)%nat -> apart (lit1 i) 2 array (32 * 7)) ->
  wp (libc_qsort strcmp qsort array array1)
     (fun r s => r = 0 /\ faults s = 0 /\ sorted_table (ms s) array 32 0 lit /\ sorted_table (ms s) array1 64 32 lit1)
     (start m).
Proof.
  intros Ht Ht1 Hap Hlit Hlit1. unfold libc_qsort, array_at, value_at, compare, compare1, value_offset.
  pose proof Ht as [P S O C _ L]. pose proof Ht1 as [P1 S1 O1 C1 _ L1].
  wp_step. apply wp_for with (P := fun _ s => s = start m); [lia|done| |].
  { intros i s Hi ->. assert (i = Z.of_nat (Z.to_nat i)) as Hn by lia.
    wp_step. rewrite <- (Z.add_0_r (32 * i)). apply (wp_table_load _ 32 0 lit (Z.to_nat i)); try done.
    { rewrite Hn at 1. apply C. lia. }
    repeat wp_step; [done|]. apply (wp_table_load _ 64 32 lit1 (Z.to_nat i)); try done.
    { rewrite Hn at 1. apply C1. lia. } }
  intros s ->. destruct (qsort_sorts_table m array 32 0 lit Ht (start m) eq_refl) as (m1 & Hrun & Hp & Hs).
  wp_step. unfold wp at 1. change (32 * 7) with (7 * 32) in Hrun. rewrite Hrun.
  assert (Ht1' : table m1 array1 64 32 lit1).
  { apply (frame_table m m1 _ _ _ _ array 32 Hp); try done; try lia. unfold apart in *. lia. }
  destruct (qsort_sorts_table m1 array1 64 32 lit1 Ht1' (set_mem m1 (start m)) eq_refl) as (m2 & Hrun2 & Hp2 & Hs2).
  wp_step. unfold wp at 1. change (64 * 7) with (7 * 64) in Hrun2. rewrite Hrun2.
  assert (Hs' : sorted_table m2 array 32 0 lit) by (by apply (frame_sorted m1 m2 _ _ _ _ array1 64 Hp2); try done; lia).
  change (set_mem m2 (set_mem m1 (start m))) with (start m2). wp_step.
  apply wp_for with (P := fun _ s => s = start m2); [lia|done| |by intros s ->; wp_step].
  intros i s Hi ->. assert (i = Z.of_nat (Z.to_nat i)) as Hn by lia.
  destruct (Hs' (Z.to_nat i)) as (k & Hk & Hc & Hb); [lia|]. destruct (Hs2 (Z.to_nat i)) as (k1 & Hk1 & Hc1 & Hb1); [lia|].
  rewrite <- Hn in Hc, Hb, Hc1, Hb1. rewrite <- (Z.add_0_r (32 * i)).
  destruct (L k Hk) as [[] _]. destruct (L1 k1 Hk1) as [[] _].
  wp_step. apply (wp_table_load _ 32 0 lit k); try done. repeat wp_step; [done|].
  apply (wp_table_load _ 64 32 lit1 k1); try done. repeat wp_step; [done|].
  apply (wp_table_load _ 32 0 lit k); try done. wp_step. unfold obj. wp_mem_load. rewrite peek_byte, Hb. repeat wp_step.
  { rewrite int_value_small by (simpl; lia). apply Z.eqb_refl. }
  apply (wp_table_load _ 64 32 lit1 k1); try done. wp_step. unfold obj. wp_mem_load. rewrite peek_byte, Hb1. wp_step.
  { rewrite int_value_small by (simpl; lia). apply Z.eqb_refl. }
  done.
Qed.

(** ** Functions that keep the contracts

    [strlen] is the one of [crt_init_globals.c]; [strcpy] and [memcpy] use the
    routine of [memcpy.c]; the others are written here. *)

Definition strlen_c : strlen_fn := fun c m => strlen (Z.to_nat (c_len c)) m c.

Lemma c_string_split m c s : c_string m c s ->
  read_bytes m (c_addr c) (length s) = s /\ read_byte m (c_addr c + Z.of_nat (length s)) = 0.
Proof.
  intros [_ _ Hh]. rewrite read_bytes_app in Hh. cbn [read_bytes] in Hh.
  apply app_inj_2 in Hh as [H1 H2]; [|done]. split; [done|]. by injection H2.
Qed.

Lemma c_string_room m c s : c_string m c s -> (length s < Z.to_nat (c_len c))%nat.
Proof. intros [_ [_ _ Hb Ht _] _]. unfold c_top in Ht. lia. Qed.

#[export] Instance strlen_contract : Strlen_ok strlen_c.
Proof.
  intros c s m Hs. destruct (c_string_split m c s Hs) as [Hb Hz]. apply strlen_correct; try done.
  - eapply Forall_impl; [exact (cs_bytes _ _ _ Hs)|]. simpl. lia.
  - pose proof (c_string_room m c s Hs). lia.
  - apply Hs.
Qed.

Definition strcpy_c (dst src : cap) (m : mem) : res (cap * mem) :=
  let* n := strlen_c src m in routine_fn MEMCPY_C dst src (n + 1) m.

#[export] Instance strcpy_contract : Strcpy_ok strcpy_c.
Proof.
  intros dst src s m Hs n Hd Hsrc Hap. unfold strcpy_c. rewrite (strlen_counts src s m Hs). cbn [res_bind].
  destruct (memcpy_copies dst src n m Hd Hsrc ltac:(lia) Hap) as (m' & Hrun & Hp).
  exists m'. split; [done|]. exact (copy_post_bytes _ _ _ _ _ _ Hp).
Qed.

Fixpoint strcmp_loop (fuel : nat) (a b : cap) (t : Z) (m : mem) : res Z :=
  let* x := ldb m a t in
  let* y := ldb m b t in
  if (x =? y) && negb (x =? 0) then
    match fuel with
    | O => Err EFuel
    | S fuel' => strcmp_loop fuel' a b (t + 1) m
    end
  else Ok (x - y).
Definition strcmp_c : strcmp_fn := fun a b m => strcmp_loop (Z.to_nat (c_len a)) a b 0 m.

Lemma ldb_readable m c n t : readable c (c_addr c) n -> 0 <= t < n -> ldb m c t = Ok (read_byte m (c_addr c + t)).
Proof. intros Hr Ht. unfold ldb. by rewrite (readable_load m c _ n) by (first [done|lia|mlia]). Qed.

Lemma string_head m a s : read_bytes m a (length s + 1) = s ++ [0] -> read_byte m a = nth 0 s 0.
Proof. destruct s; simpl; congruence. Qed.

Lemma string_tail m a x s : read_bytes m a (length (x :: s) + 1) = (x :: s) ++ [0] ->
  read_bytes m (a + 1) (length s + 1) = s ++ [0].
Proof. simpl. congruence. Qed.

Lemma strcmp_loop_ok m a b na nb : readable a (c_addr a) na -> readable b (c_addr b) nb ->
  forall sa sb t fuel, (length sa <= fuel)%nat -> 0 <= t ->
  t + Z.of_nat (length sa) + 1 <= na -> t + Z.of_nat (length sb) + 1 <= nb ->
  Forall (fun x => 0 < x < 256) sa -> Forall (fun x => 0 < x < 256) sb ->
  read_bytes m (c_addr a + t) (length sa + 1) = sa ++ [0] -> read_bytes m (c_addr b + t) (length sb + 1) = sb ++ [0] ->
  exists r, strcmp_loop fuel a b t m = Ok r /\ (r ?= 0) = bytes_compare sa sb.
Proof.
  intros Ha Hb. induction sa as [|x sa IH]; intros sb t fuel Hf Ht Hna Hnb Hxa Hxb Hra Hrb;
    pose proof (string_head _ _ _ Hra) as Hx; pose proof (string_head _ _ _ Hrb) as Hy;
    cbn [length] in *; destruct fuel as [|fuel]; try lia;
    cbn [strcmp_loop]; rewrite (ldb_readable _ _ na), (ldb_readable _ _ nb) by (done || lia);
    cbn [res_bind]; rewrite Hx, Hy; destruct sb as [|y sb]; cbn [nth length] in *.
  1,3: by exists 0.
  1-2: apply Forall_cons_1 in Hxb as [Hy0 _]; rewrite (proj2 (Z.eqb_neq 0 y)) by lia; exists (0 - y);
       split; [done|]; cbn [bytes_compare]; apply Z.compare_lt_iff; lia.
  all: apply Forall_cons_1 in Hxa as [Hx0 Hxa].
  - rewrite (proj2 (Z.eqb_neq x 0)) by lia. exists (x - 0).
    split; [done|]. cbn [bytes_compare]. apply Z.compare_gt_iff. lia.
  - apply Forall_cons_1 in Hxb as [Hy0 Hxb]. cbn [bytes_compare].
    destruct (Z.compare_spec x y) as [->|Hlt|Hgt].
    + rewrite Z.eqb_refl, (proj2 (Z.eqb_neq y 0)) by lia. cbn [andb negb].
      apply string_tail in Hra, Hrb. rewrite <- !Z.add_assoc in Hra, Hrb. apply IH; done || lia.
    + rewrite (proj2 (Z.eqb_neq x y)) by lia. exists (x - y). split; [done|]. apply Z.compare_lt_iff. lia.
    + rewrite (proj2 (Z.eqb_neq x y)) by lia. exists (x - y). split; [done|]. apply Z.compare_gt_iff. lia.
Qed.

#[export] Instance strcmp_contract : Strcmp_ok strcmp_c.
Proof.
  intros a b sa sb m Ha Hb. pose proof (c_string_room m a sa Ha). destruct Ha as [Fa Ra Ha], Hb as [Fb Rb Hb].
  unfold strcmp_c. eapply strcmp_loop_ok; rewrite ?Z.add_0_r; done || lia.
Qed.

Definition get_string (m : mem) (c : cap) : res (list Z) :=
  let* n := strlen_c c m in Ok (read_bytes m (c_addr c) (Z.to_nat n)).
Fixpoint get_strings (m : mem) (cs : list cap) : res (list (list Z)) :=
  match cs with
  | [] => Ok []
  | c :: cs' => let* s := get_string m c in let* ss := get_strings m cs' in Ok (s :: ss)
  end.
Definition sprintf_plain (dst fmt : cap) (args : list cap) (m : mem) : res (Z * mem) :=
  let* f := get_string m fmt in
  let* ss := get_strings m args in
  let* out := of_opt (expand f ss) in
  Ok (Z.of_nat (length out),
      Mem (put_bytes (m_bytes m) (c_addr dst) (out ++ [0]))
          (m_tags m ∖ list_to_set (map (fun i => granule 32 (c_addr dst + Z.of_nat i)) (seq 0 (length out + 1))))).

Lemma get_string_ok m c s : c_string m c s -> get_string m c = Ok s.
Proof.
  intros Hs. unfold get_string. rewrite (strlen_counts c s m Hs). cbn [res_bind]. rewrite Nat2Z.id.
  f_equal. apply (c_string_split m c s Hs).
Qed.

Lemma get_strings_ok m cs ss : Forall2 (c_string m) cs ss -> get_strings m cs = Ok ss.
Proof. induction 1 as [|c s cs ss Hs _ IH]; [done|]. simpl. by rewrite (get_string_ok m c s Hs), IH. Qed.

#[export] Instance sprintf_contract : Sprintf_ok sprintf_plain.
Proof.
  intros dst fmt args sf ss out m Hf Ha Ho n Hd. unfold sprintf_plain.
  rewrite (get_string_ok m fmt sf Hf), (get_strings_ok m args ss Ha). cbn [res_bind]. rewrite Ho. cbn [of_opt res_bind].
  eexists. split; [done|]. split.
  - etrans; [|apply read_bytes_put]. by rewrite length_app.
  - intros x Hx. rewrite read_byte_put_out by (rewrite length_app; simpl; lia). done.
Qed.

(** *** qsort: the order is found first, then every element put in its place *)

Section reorder.
Context (base size : Z) (n : nat) (order : list nat).

(** where what is at [x] comes from *)
Definition source (x : Z) : Z :=
  base + size * Z.of_nat (nth (Z.to_nat ((x - base) / size)) order 0%nat) + (x - base) mod size.

Definition reorder (m : mem) : mem :=
  Mem (put_bytes (m_bytes m) base
         ((fun t => read_byte m (source (base + Z.of_nat t))) <$> seq 0 (Z.to_nat (size * Z.of_nat n))))
      (filter (fun g => g + 32 <= base \/ base + size * Z.of_nat n <= g) (m_tags m)
       ∪ list_to_set (filter (fun g => has_tag m (source g) = true)
           ((fun j => base + 32 * Z.of_nat j) <$> seq 0 (Z.to_nat (size * Z.of_nat n / 32))))).

Lemma reorder_byte_out m x : 0 < size -> x < base \/ base + size * Z.of_nat n <= x ->
  read_byte (reorder m) x = read_byte m x.
Proof. intros Hs Hx. unfold reorder. by rewrite read_byte_put_out by (rewrite length_fmap, length_seq; nia). Qed.

Lemma reorder_byte_in m t : 0 <= t < size * Z.of_nat n ->
  read_byte (reorder m) (base + t) = read_byte m (source (base + t)).
Proof.
  intros Ht. unfold read_byte at 1, reorder; cbn [m_bytes].
  replace (base + t) with (base + Z.of_nat (Z.to_nat t)) by lia.
  rewrite (lookup_put_bytes_in _ _ _ _ (read_byte m (source (base + Z.of_nat (Z.to_nat t))))); [done|].
  rewrite list_lookup_fmap, lookup_seq_lt by lia. done.
Qed.

Lemma reorder_tag_out m g : 0 < size -> g + 32 <= base \/ base + size * Z.of_nat n <= g ->
  has_tag (reorder m) g = has_tag m g.
Proof.
  intros Hs Hg. unfold has_tag, reorder; cbn [m_tags]. apply bool_decide_ext.
  rewrite elem_of_union, elem_of_filter, elem_of_list_to_set, list_elem_of_filter. split; [|by left].
  intros [[_ H]|[_ H]]; [done|]. apply list_elem_of_fmap in H as (j & -> & Hj). apply elem_of_seq in Hj.
  exfalso. assert (32 * (size * Z.of_nat n / 32) <= size * Z.of_nat n) by (apply Z.mul_div_le; lia). lia.
Qed.

Lemma reorder_tag_in m j : 0 <= 32 * Z.of_nat j -> 32 * Z.of_nat j + 32 <= size * Z.of_nat n ->
  has_tag (reorder m) (base + 32 * Z.of_nat j) = has_tag m (source (base + 32 * Z.of_nat j)).
Proof.
  intros H0 H1. apply eq_iff_eq_true. unfold has_tag at 1, reorder; cbn [m_tags].
  rewrite bool_decide_eq_true, elem_of_union, elem_of_filter, elem_of_list_to_set, list_elem_of_filter. split.
  - intros [[H _]|[H _]]; [lia|done].
  - intros H. right. split; [done|]. apply list_elem_of_fmap. exists j. split; [done|]. apply elem_of_seq. mlia.
Qed.

Lemma source_elem i t k : 0 < size -> 0 <= t < size -> order !! i = Some k ->
  source (base + (size * Z.of_nat i + t)) = base + size * Z.of_nat k + t.
Proof.
  intros Hs Ht Hk. unfold source. replace (base + (size * Z.of_nat i + t) - base) with (t + Z.of_nat i * size) by lia.
  rewrite Z_div_plus_full, Z_mod_plus_full, Z.div_small, Z.mod_small by lia. rewrite Z.add_0_l, Nat2Z.id.
  by rewrite (nth_lookup_Some _ _ _ _ Hk).
Qed.

Lemma reorder_elem m i k : 0 < size -> size mod 32 = 0 -> length order = n -> order !! i = Some k ->
  elem_at (reorder m) size (base + size * Z.of_nat i) = elem_at m size (base + size * Z.of_nat k).
Proof.
  intros Hs Hm Hl Hk. apply lookup_lt_Some in Hk as Hi.
  assert (size * Z.of_nat i + size <= size * Z.of_nat n) by nia.
  unfold elem_at. f_equal.
  - apply list_eq_same_length with (n := Z.to_nat size); rewrite ?length_read_bytes; auto.
    intros t x y Ht. rewrite !lookup_read_bytes by done. intros [= <-] [= <-].
    rewrite <- !Z.add_assoc, reorder_byte_in by nia. rewrite (source_elem _ _ k) by (done || lia). f_equal. lia.
  - apply map_ext_in. intros j Hj. apply in_seq in Hj.
    assert (32 * Z.of_nat j + 32 <= size) by mlia.
    assert (exists q, size * Z.of_nat i = 32 * Z.of_nat q) as (q & Hq).
    { exists (Z.to_nat (size / 32 * Z.of_nat i)). rewrite Z2Nat.id by (apply Z.mul_nonneg_nonneg; mlia).
      rewrite Z.mul_assoc, <- Z_div_exact_2 by lia. done. }
    replace (base + size * Z.of_nat i + 32 * Z.of_nat j) with (base + 32 * Z.of_nat (q + j)) by lia.
    rewrite reorder_tag_in by lia. replace (32 * Z.of_nat (q + j)) with (size * Z.of_nat i + 32 * Z.of_nat j) by lia.
    by rewrite (source_elem _ _ k) by (done || lia).
Qed.

Lemma reorder_permuted m : 0 < size -> size mod 32 = 0 -> order ≡ₚ seq 0 n -> permuted base size n m (reorder m).
Proof.
  intros Hs Hm Hp. split; [|intros; by apply reorder_byte_out|intros; by apply reorder_tag_out].
  exists order. split; [done|]. intros i k. apply reorder_elem; [done|done|]. by rewrite Hp, length_seq.
Qed.
End reorder.

Lemma permuted_refl base size n m : permuted base size n m m.
Proof.
  split; [|done|done]. exists (seq 0 n). split; [done|]. intros i k Hk.
  apply lookup_seq in Hk as [-> _]. done.
Qed.

(** whether the element at [i] may come before the one at [j] *)
Definition before (compare : cap -> cap -> M Z) (base : cap) (size : Z) (n : nat) (s : machine) (i j : nat) : bool :=
  let ptr k := cheri_offset_increment base (size * Z.of_nat (Nat.min k (n - 1))) in
  match ptr i, ptr j with
  | Ok pi, Ok pj => match compare pi pj s with Ok (r, _) => r <=? 0 | Err _ => true end
  | _, _ => true
  end.

Definition before_rel compare base size n s (i j : nat) : Prop := before compare base size n s i j = true.

#[local] Instance before_rel_dec compare base size n s : RelDecision (before_rel compare base size n s).
Proof. intros i j. unfold before_rel. solve_decision. Defined.

Definition qsort_plain : qsort_fn := fun base nmemb size compare s =>
  let n := Z.to_nat nmemb in
  let order := merge_sort (before_rel compare base size n s) (seq 0 n) in
  Ok (tt, set_mem (reorder (c_addr base) size n order (ms s)) s).

Section qsort_plain.
Context (base : cap) (n : nat) (size : Z) (compare : cap -> cap -> M Z) (key : list Z * list bool -> Z) (s : machine).
Context (Hok : array_ok base size n) (Hcmp : compares compare key base size n s) (Hn : (0 < n)%nat).

Let key_at (m : mem) (i : nat) : Z := key (elem_at m size (c_addr base + size * Z.of_nat i)).

Lemma before_key i j :
  before compare base size n s i j = (key_at (ms s) (Nat.min i (n - 1)) <=? key_at (ms s) (Nat.min j (n - 1))).
Proof using Hok Hcmp Hn.
  unfold before. rewrite !offset_increment_usable by apply Hok.
  destruct (Hcmp (ms s) (Nat.min i (n - 1)) (Nat.min j (n - 1))
    (with_off base (c_off base + size * Z.of_nat (Nat.min i (n - 1))))
    (with_off base (c_off base + size * Z.of_nat (Nat.min j (n - 1))))) as (r & Hr & Hk);
    [apply permuted_refl|lia|lia|rewrite offset_increment_usable by apply Hok; done..|].
  replace (set_mem (ms s) s) with s in Hr by (by destruct s). rewrite Hr.
  apply Bool.eq_iff_eq_true. rewrite !Z.leb_le. unfold Z.le. by rewrite Hk.
Qed.

Lemma qsort_plain_ok : exists m', qsort_plain base (Z.of_nat n) size compare s = Ok (tt, set_mem m' s)
  /\ permuted (c_addr base) size n (ms s) m'
  /\ forall i j, (i < j < n)%nat -> key_at m' i <= key_at m' j.
Proof using Hok Hcmp Hn.
  unfold qsort_plain. rewrite Nat2Z.id. set (R := before_rel compare base size n s).
  assert (Hperm : merge_sort R (seq 0 n) ≡ₚ seq 0 n) by apply merge_sort_Permutation.
  assert (Hss : StronglySorted R (merge_sort R (seq 0 n))).
  { apply StronglySorted_merge_sort; unfold R, before_rel.
    - intros i j k. rewrite !before_key, !Z.leb_le. lia.
    - intros i j. rewrite !before_key, !Z.leb_le. lia. }
  destruct Hok as [_ _ [Hs0 Hs1]]. pose proof (reorder_permuted (c_addr base) size n _ (ms s) Hs0 Hs1 Hperm) as Hp.
  eexists. split; [done|]. split; [exact Hp|]. intros i j Hij.
  revert Hss Hperm Hp. generalize (merge_sort R (seq 0 n)). intros order Hss Hperm Hp.
  assert (length order = n) as Hl by (by rewrite Hperm, length_seq).
  destruct (lookup_lt_is_Some_2 order i) as [ki Hi]; [lia|]. destruct (lookup_lt_is_Some_2 order j) as [kj Hj]; [lia|].
  assert (forall x k, order !! x = Some k -> (k < n)%nat) as Hlt.
  { intros x k Hk. apply list_elem_of_lookup_2 in Hk. rewrite Hperm in Hk. apply elem_of_seq in Hk. lia. }
  pose proof (Hlt i ki Hi). pose proof (Hlt j kj Hj).
  assert (HR : R ki kj) by (by apply (lookup_sorted R order i j); [|lia| |]).
  unfold R, before_rel in HR. rewrite before_key, Z.leb_le, !Nat.min_l in HR by lia.
  unfold key_at. by rewrite (reorder_elem _ _ _ _ _ i ki), (reorder_elem _ _ _ _ _ j kj) by done.
Qed.
End qsort_plain.

#[export] Instance qsort_contract : Qsort_ok qsort_plain.
Proof.
  intros base n size compare key s Hok Hcmp. destruct n as [|n]; [|by apply qsort_plain_ok; [| |lia]].
  destruct Hok as [_ _ [Hs0 Hs1]]. eexists. split; [done|]. split; [by apply reorder_permuted|lia].
Qed.

(** ** The library as a whole *)

Record libc := Libc {
  l_memcpy : copy_fn;
  l_memmove : copy_fn;
  l_strcmp : strcmp_fn;
  l_strlen : strlen_fn;
  l_strcpy : cap -> cap -> mem -> res (cap * mem);
  l_sprintf : cap -> cap -> list cap -> mem -> res (Z * mem);
  l_qsort : qsort_fn;
}.

Class LibcLaws (l : libc) : Prop := {
  #[export] l_memcpy_ok :: Memcpy_ok (l_memcpy l);
  #[export] l_memmove_ok :: Memmove_ok (l_memmove l);
  #[export] l_strcmp_ok :: Strcmp_ok (l_strcmp l);
  #[export] l_strlen_ok :: Strlen_ok (l_strlen l);
  #[export] l_strcpy_ok :: Strcpy_ok (l_strcpy l);
  #[export] l_sprintf_ok :: Sprintf_ok (l_sprintf l);
  #[export] l_qsort_ok :: Qsort_ok (l_qsort l);
}.

Definition repository_libc : libc :=
  Libc (routine_fn MEMCPY_C) (routine_fn MEMMOVE_C) strcmp_c strlen_c strcpy_c sprintf_plain qsort_plain.

#[export] Instance repository_libc_laws : LibcLaws repository_libc.
Proof. split; apply _. Defined.

(** ** The tests pass *)

(** C27: with any library that keeps the contracts, for every placement of their
    objects, the tests of memcpy, memmove, the string functions, printf and a
    function pointer run without a trap and without a failed assertion; a
    structure or a table that is copied is all that changes; and the jump out of
    a function returns to [setjmp] once, with the variable it had stepped. *)
Theorem libc_tests_pass (l : libc) m : LibcLaws l ->
  (forall t1 t2 a1 a2, struct_ptr t1 a1 -> struct_ptr t2 a2 -> apart a1 96 a2 96 ->
     exists m', libc_memcpy (l_memcpy l) t1 t2 m = Ok m'
       /\ forall x, ~ (a1 <= x < a1 + 96) -> ~ (a2 <= x < a2 + 96) -> read_byte m' x = read_byte m x) /\
  (forall buffer pointees ab ap, static_data buffer pointees ab ap m ->
     exists m', libc_memmove (l_memmove l) buffer m = Ok m'
       /\ forall x, ~ (ab <= x < ab + 256) -> read_byte m' x = read_byte m x) /\
  (forall str str2 str3, placed str 10 1 -> placed str2 10 1 -> placed str3 10 1 ->
     apart str 10 str2 10 -> apart str 10 str3 10 -> apart str2 10 str3 10 ->
     passes 0 (libc_string (l_strcmp l) (l_strlen l) (l_strcpy l) (l_memcpy l) str str2 str3) m) /\
  (forall expected out fmt arg, placed expected 12 1 -> placed out 20 1 -> apart expected 12 out 20 ->
     c_string m fmt hello_format -> c_string m arg world ->
     apart expected 12 (c_addr fmt) 9 -> apart expected 12 (c_addr arg) 6 ->
     passes 0 (libc_printf (l_sprintf l) expected out fmt arg) m) /\
  (forall fp str strval, check_cause fp [PERMIT_EXECUTE] (c_addr fp) 4 = None ->
     c_string m (obj str 8) astring -> c_string m (obj strval 8) astring ->
     passes 0 (clang_purecap_funptr (l_strcmp l) fp str strval) m) /\
  (forall fuel, (1 <= fuel)%nat ->
     libc_setjmp fuel (Jump_state 0 false) = Ok (Returned 0, Jump_state 4 false)).
Proof.
  intros Hl. split; [intros t1 t2 a1 a2 **; by apply libc_memcpy_passes; [apply _| | |]|].
  split; [intros buffer pointees ab ap **; by apply (libc_memmove_passes _ buffer pointees ab ap); [apply _|]|].
  split; [intros; apply libc_string_passes; done || apply _|]. split; [intros; apply libc_printf_passes; done || apply _|].
  split; [intros; apply funptr_passes; done || apply _|]. apply libc_setjmp_passes.
Qed.

(** C15: with any [qsort] and [strcmp] that keep their contracts, the array of
    strings and the array of structures are both sorted: whatever order the
    library puts equal or unequal elements through, each pointer arrives with
    its tag, and the [i]th points to the [i]th letter of the alphabet; the test
    passes. *)
Theorem libc_qsort_sorts (l : libc) m array array1 lit lit1 : LibcLaws l ->
  table m array 32 0 lit -> table m array1 64 32 lit1 -> apart array (32 * 7) array1 (64 * 7) ->
  (forall i, (i < 7)%nat -> apart (lit i) 2 array1 (64 * 7)) -> (forall i, (i < 7)%nat -> apart (lit1 i) 2 array (32 * 7)) ->
  wp (libc_qsort (l_strcmp l) (l_qsort l) array array1)
     (fun r s => r = 0 /\ faults s = 0 /\ sorted_table (ms s) array 32 0 lit /\ sorted_table (ms s) array1 64 32 lit1)
     (start m).
Proof. intros Hl. apply libc_qsort_passes; done || apply _. Qed.

(** strings at 0x3000 and on, one after the other 16 bytes apart *)
#[local] Abbreviation string_mem :=
  (foldl (fun m e => put_data 32 m (fst e) (snd e ++ [0])) (Mem ∅ ∅)
     [(0x3000, hello_format); (0x3010, world); (0x3020, astring); (0x3030, astring)]).

Lemma obj_string m a s : 0 < a < 2 ^ 63 -> Forall (fun b => 0 < b < 256) s -> Z.of_nat (length s) < 2 ^ 62 ->
  read_bytes m a (length s + 1) = s ++ [0] -> c_string m (obj a (Z.of_nat (length s) + 1)) s.
Proof. intros Ha Hs Hl Hh. split; rewrite ?addr_obj by lia; [done|apply obj_readable; lia|done]. Qed.

Lemma string_mem_strings :
  c_string string_mem (obj 0x3000 9) hello_format /\ c_string string_mem (obj 0x3010 6) world /\
  c_string string_mem (obj 0x3020 8) astring /\ c_string string_mem (obj 0x3030 8) astring.
Proof.
  split; [apply (obj_string _ _ hello_format)|]; [lia|by repeat constructor|done|by vm_compute|].
  split; [apply (obj_string _ _ world)|]; [lia|by repeat constructor|done|by vm_compute|].
  split; apply (obj_string _ _ astring); first [lia|by repeat constructor|by vm_compute].
Qed.

Lemma libc_tests_pass_witness :
  (exists m', libc_memcpy (routine_fn MEMCPY_C) (block_cap 0x1000 96) (block_cap 0x2000 96) string_mem = Ok m') /\
  (exists m', libc_memmove (routine_fn MEMMOVE_C) (block_cap 0x1000 320) sample_static = Ok m') /\
  passes 0 (libc_string strcmp_c strlen_c strcpy_c (routine_fn MEMCPY_C) 0x100 0x200 0x300) string_mem /\
  passes 0 (libc_printf sprintf_plain 0x100 0x200 (obj 0x3000 9) (obj 0x3010 6)) string_mem /\
  passes 0 (clang_purecap_funptr strcmp_c (pblk PERMS_ALL 0x10000 0x1000 0x40) 0x3020 0x3030) string_mem.
Proof.
  pose proof (libc_tests_pass repository_libc string_mem repository_libc_laws) as (Hcpy & _ & Hstr & Hpr & Hfn & _).
  pose proof (libc_tests_pass repository_libc sample_static repository_libc_laws) as (_ & Hmv & _).
  destruct string_mem_strings as (S1 & S2 & S3 & S4).
  assert (placed 0x100 10 1 /\ placed 0x200 10 1 /\ placed 0x300 10 1 /\ placed 0x100 12 1 /\ placed 0x200 20 1)
    as (P1 & P2 & P3 & P4 & P5) by (repeat split; done).
  split; [|split; [|split; [|split]]].
  - destruct (Hcpy (block_cap 0x1000 96) (block_cap 0x2000 96) 0x1000 0x2000) as (m' & Hrun & _);
      [apply block_struct; done || lia|apply block_struct; done || lia|left; lia|]. by exists m'.
  - destruct (Hmv _ _ _ _ sample_static_ok) as (m' & Hrun & _). by exists m'.
  - apply Hstr; first [assumption|left; lia].
  - apply Hpr; first [assumption|left; vm_compute; congruence|left; done].
  - apply Hfn; [done|exact S3|exact S4].
Defined.

(** the tables of the program: strings at 0x4000 and at 0x4100, pointers to them
    at 0x1000, and structures with their places and pointers at 0x2000 *)
Definition ex_lit (i : nat) : Z := 0x4000 + 2 * Z.of_nat i.
Definition ex_lit1 (i : nat) : Z := 0x4100 + 2 * Z.of_nat i.
Definition put_entry (m : mem) (i : nat) : mem :=
  let l := nth i letters 0 in
  let m := put_data 32 (put_data 32 m (ex_lit i) [l; 0]) (ex_lit1 i) [l; 0] in
  let m := put_cap m (0x1000 + 32 * Z.of_nat i) (cap_bytes (obj (ex_lit i) 2)) true in
  put_cap (put_data 32 m (0x2000 + 64 * Z.of_nat i) (be_bytes 4 (l - 97)))
    (0x2000 + 64 * Z.of_nat i + 32) (cap_bytes (obj (ex_lit1 i) 2)) true.
#[local] Abbreviation table_mem := (foldl put_entry (Mem ∅ ∅) (seq 0 7)).

(** a property of seven numbers, checked one by one *)
Lemma seven (P : nat -> Prop) : P 0%nat -> P 1%nat -> P 2%nat -> P 3%nat -> P 4%nat -> P 5%nat -> P 6%nat ->
  forall i, (i < 7)%nat -> P i.
Proof. intros ??????? i Hi. do 7 (destruct i as [|i]; [done|]). lia. Qed.

Lemma table_mem_tables : table table_mem 0x1000 32 0 ex_lit /\ table table_mem 0x2000 64 32 ex_lit1.
Proof.
  split; (split; [split; done|done|done| | |]); apply seven.
  1-7,22-28: by vm_compute.
  8-14,22-28: split; [split; done|right; vm_compute; congruence].
  all: apply (obj_string _ _ [_]); [vm_compute; split; congruence|by repeat constructor|done|by vm_compute].
Qed.

Lemma libc_qsort_sorts_witness :
  wp (libc_qsort strcmp_c qsort_plain 0x1000 0x2000)
     (fun r s => r = 0 /\ faults s = 0 /\ sorted_table (ms s) 0x1000 32 0 ex_lit /\ sorted_table (ms s) 0x2000 64 32 ex_lit1)
     (start table_mem).
Proof.
  destruct table_mem_tables as [T1 T2].
  apply (libc_qsort_sorts repository_libc table_mem 0x1000 0x2000 ex_lit ex_lit1 repository_libc_laws T1 T2).
  - left. lia.
  - unfold apart, ex_lit. lia.
  - unfold apart, ex_lit1. lia.
Defined.
