(* ===== verification/LibcMalloc.v ===== *)
(** * LibcMalloc: the test of the allocator.

    [libc_malloc.c], with [check_allocation] and [check_size], as a program of
    the monad of Machine.  The allocator is a class: its operations, and the
    contract they have; an allocator that hands out memory in sequence is an
    instance. *)

From S2P Require Import Prelude CheriMem Memcpy Machine PurecapTests.

(** ** Allocators *)

Class AllocOps := {
  heap_state : Type;
  heap_wf : heap_state -> Prop;
  live : heap_state -> list (Z * Z);      (* base and length of the blocks in use *)
  executable : bool;                      (* whether a block may permit execution *)
  malloc : Z -> heap_state -> mem -> res (cap * heap_state * mem);
  calloc : Z -> Z -> heap_state -> mem -> res (cap * heap_state * mem);
  free : cap -> heap_state -> mem -> res (heap_state * mem);
}.

(** the contents of the blocks in use are the same *)
Definition kept `{AllocOps} (h : heap_state) (m m' : mem) : Prop :=
  forall b l x, (b, l) ∈ live h -> b <= x < b + l ->
    read_byte m' x = read_byte m x /\ has_tag m' x = has_tag m x.

(** a block that can hold an object of [n] bytes *)
Record block `{AllocOps} (c : cap) (n : Z) : Prop := {
  bk_usable : usable c = true;
  bk_off : c_off c = 0;
  bk_len : n <= c_len c;
  bk_perms : forallb (has_perm (c_perms c))
    [PERMIT_STORE_CAPABILITY; PERMIT_STORE; PERMIT_LOAD_CAPABILITY; PERMIT_LOAD] = true;
  bk_exec : executable = false -> has_not_permission c PERMIT_EXECUTE = true;
  bk_range : 0 < c_base c /\ c_base c + c_len c <= 2 ^ 64 - 1;
  bk_align : 32 <= n -> c_base c mod 32 = 0;
}.

(** what an allocation of [n] bytes gives: NULL, or a block apart from those in use *)
Definition allocated `{AllocOps} (n : Z) (h : heap_state) (m : mem) (c : cap) (h' : heap_state) (m' : mem) : Prop :=
  heap_wf h' /\ kept h m m'
  /\ ((c_tag c = false /\ live h' = live h)
      \/ (block c n /\ live h' = (c_base c, c_len c) :: live h
          /\ forall b l, (b, l) ∈ live h -> b + l <= c_base c \/ c_base c + c_len c <= b)).

Class Allocator_ok (A : AllocOps) : Prop := {
  malloc_allocates n h m : heap_wf h -> 0 < n < 2 ^ 63 ->
    exists c h' m', malloc n h m = Ok (c, h', m') /\ allocated n h m c h' m';
  calloc_allocates n k h m : heap_wf h -> 0 < n * k < 2 ^ 63 ->
    exists c h' m', calloc n k h m = Ok (c, h', m') /\ allocated (n * k) h m c h' m'
      /\ (c_tag c = true -> forall x, c_base c <= x < c_base c + n * k -> read_byte m' x = 0);
  free_gives_back c h m : heap_wf h -> usable c = true -> c_off c = 0 -> (c_base c, c_len c) ∈ live h ->
    exists h' m', free c h m = Ok (h', m') /\ heap_wf h' /\ live h ≡ₚ (c_base c, c_len c) :: live h' /\ kept h' m m';
}.

(** ** The program *)

Section program.
Context `{AllocOps}.
(** whether INCLUDE_XFAIL and SLOW_TESTS are defined *)
Context (include_xfail slow_tests : bool).

Definition run_heap {A} (f : mem -> res (A * heap_state * mem)) : M (A * heap_state) := fun s =>
  let* (a, h, m) := f (ms s) in Ok ((a, h), set_mem m s).

Definition run_free (c : cap) (h : heap_state) : M heap_state := fun s =>
  let* (h, m) := free c h (ms s) in Ok (h, set_mem m s).

Definition check_allocation (a : cap) (size : Z) : M unit :=
  m_assert (c_tag a) ;;
  m_assert (u64 size <=? u64 (c_len a - c_off a)) ;;
  XFAIL include_xfail (has_not_permission a PERMIT_EXECUTE) ;;
  m_assert (has_permission a PERMIT_STORE_CAPABILITY) ;;
  m_assert (has_permission a PERMIT_STORE) ;;
  m_assert (has_permission a PERMIT_LOAD_CAPABILITY) ;;
  m_assert (has_permission a PERMIT_LOAD) ;;
  m_assert (c_off a =? 0) ;;
  m_assert (u64 size <=? c_len a) ;;
  if 32 <=? u64 size then m_assert (Z.land (c_base a) (32 - 1) =? 0) else mret tt.

(** [stale] is what the register of a skipped load holds *)
Definition check_size (stale : Z) (size : Z) (h : heap_state) : M heap_state :=
  '(a, h) ← run_heap (malloc (u64 size) h);
  check_allocation a size ;;
  '(b, h) ← run_heap (calloc (u64 size) 1 h);
  check_allocation b size ;;
  m_for 0 (size - 1) (fun i => v ← load b i 1 stale; m_assert (sgn 8 v =? 0)) ;;
  h ← run_free a h;
  run_free b h.

(** [for (int i = 1; i <= max; i++)], with [n] rounds left *)
Fixpoint malloc_rounds (stale : Z) (n : nat) (i : Z) (h : heap_state) : M heap_state :=
  match n with
  | O => mret h
  | S n' =>
      h ← check_size stale (Z.shiftl 1 i) h;
      h ← check_size stale (Z.shiftl 1 i + 1) h;
      malloc_rounds stale n' (i + 1) h
  end.

Definition max : Z := if slow_tests then 27 else 20.

(** the program and the heap it leaves *)
Definition libc_malloc (stale : Z) (h : heap_state) : M (Z * heap_state) :=
  h ← malloc_rounds stale (Z.to_nat max) 1 h;
  mret (0, h).
End program.

(** ** Refused allocations *)

(** An allocation that is refused gives the error [ETrap], which the program does
    not give otherwise: so a run shows whether an allocation was refused. *)
Definition mark {A H : Type} (f : mem -> res (cap * H * A)) (m : mem) : res (cap * H * A) :=
  let* (c, h, x) := f m in if c_tag c then Ok (c, h, x) else Err ETrap.

Definition marked (A : AllocOps) : AllocOps := {|
  heap_state := heap_state;
  heap_wf := heap_wf;
  live := live;
  executable := executable;
  malloc n h := mark (malloc n h);
  calloc n k h := mark (calloc n k h);
  free := free;
|}.

(** Programs [m] and [m'] that have the same results, except that [m] fails an
    assertion where [m'] ends with the mark, if it may. *)
Definition outcome {A} (may_fail : bool) (m m' : M A) (Q : A -> machine -> Prop) (s : machine) : Prop :=
  match m' s with
  | Ok (a, s') => m s = Ok (a, s') /\ Q a s'
  | Err e => may_fail = true /\ e = ETrap /\ m s = Err EAssert
  end.

Lemma outcome_bind {A B} b (m m' : M A) (k k' : A -> M B) Q s :
  outcome b m m' (fun a s' => outcome b (k a) (k' a) Q s') s -> outcome b (m ≫= k) (m' ≫= k') Q s.
Proof.
  unfold outcome, mbind, M_bind. destruct (m' s) as [[a s']|]; cbn [res_bind].
  - by intros [-> H].
  - by intros (? & ? & ->).
Qed.

Lemma outcome_wp {A} b (m : M A) Q s : wp m Q s -> outcome b m m Q s.
Proof. unfold outcome, wp. by destruct (m s) as [[a s']|]. Qed.

Lemma outcome_mono {A} b (m m' : M A) (P Q : A -> machine -> Prop) s :
  outcome b m m' P s -> (forall a s', P a s' -> Q a s') -> outcome b m m' Q s.
Proof. unfold outcome. destruct (m' s) as [[a s']|]; [|auto]. intros [? ?]. auto. Qed.

(** an allocation, whose result is asserted to be no NULL by what follows *)
Lemma outcome_alloc {A : AllocOps} {B} b f c h m' (k : cap * heap_state -> M B)
    (k' : cap * heap_state (AllocOps := marked A) -> M B) Q s :
  f (ms s) = Ok (c, h, m') ->
  (c_tag c = false -> b = true /\ k (c, h) (set_mem m' s) = Err EAssert) ->
  (c_tag c = true -> outcome b (k (c, h)) (k' (c, h)) Q (set_mem m' s)) ->
  outcome b (run_heap f ≫= k) (run_heap (H := marked A) (mark f) ≫= k') Q s.
Proof.
  intros Hf Hnull Hblock. unfold outcome, mbind, M_bind, run_heap, mark. rewrite Hf. cbn [res_bind].
  destruct (c_tag c); cbn [res_bind]; [by apply Hblock|]. by destruct Hnull.
Qed.

(** As long as [keeps] holds of the heap, two blocks of up to [size] bytes can be
    allocated, and it holds when both have been given back. *)
Definition room `{AllocOps} (size : Z) (keeps : heap_state -> Prop) : Prop :=
  forall n h m, keeps h -> 0 < n <= size ->
    exists a h1 m1 b h2 m2, malloc n h m = Ok (a, h1, m1) /\ c_tag a = true
      /\ calloc n 1 h1 m1 = Ok (b, h2, m2) /\ c_tag b = true
      /\ forall h3 m3 h4 m4, free a h2 m2 = Ok (h3, m3) -> free b h3 m3 = Ok (h4, m4) -> keeps h4.

(** ** One size *)

Section proofs.
Context {A : AllocOps} {Hok : Allocator_ok A}.
Context (include_xfail : bool) (Hxf : include_xfail = true -> executable = false).
#[local] Abbreviation check_allocation := (check_allocation include_xfail).
#[local] Abbreviation check_size A := (check_size (H := A) include_xfail).
#[local] Abbreviation malloc_rounds A := (malloc_rounds (H := A) include_xfail).

(** the first assertion fails of NULL ... *)
Lemma check_allocation_null {B} a size (k : unit -> M B) s : c_tag a = false ->
  (check_allocation a size ≫= k) s = Err EAssert.
Proof. intros Ht. unfold check_allocation, mbind, M_bind, m_assert, lift. by rewrite Ht. Qed.

(** ... and all hold of a block *)
Lemma check_allocation_ok a size (Q : unit -> machine -> Prop) s : 0 < size < 2 ^ 63 -> block a size -> Q tt s ->
  wp (check_allocation a size) Q s.
Proof.
  intros Hsz [Hu Ho Hl Hp Hx Hr Hal] HQ. unfold check_allocation, has_permission. unfold usable in Hu.
  apply andb_true_iff in Hu as [Hu _]. cbn [forallb] in Hp. unfold has_perm in Hp.
  rewrite !andb_true_iff in Hp. destruct Hp as (Hp1 & Hp2 & Hp3 & Hp4 & _).
  rewrite (wrap_small 64 size), Ho by lia. rewrite (wrap_small 64 (c_len a - 0)) by lia.
  do 2 (apply wp_bind, wp_assert; [done || (by apply Z.leb_le; lia)|]). apply wp_bind.
  apply wp_XFAIL; [auto|].
  do 5 (apply wp_bind, wp_assert; [done || (by apply Z.leb_le; lia)|]).
  apply wp_bind, wp_assert; [by apply Z.leb_le; lia|].
  destruct (Z.leb_spec 32 size) as [H32|]; [|by apply wp_ret].
  apply wp_assert; [|done]. change (32 - 1) with (2 ^ 5 - 1). rewrite land_mask by lia.
  change (2 ^ 5) with 32. by rewrite Hal.
Qed.

Lemma check_zero_ok c n stale (Q : unit -> machine -> Prop) s : block c n -> 0 < n ->
  (forall x, c_base c <= x < c_base c + n -> read_byte (ms s) x = 0) -> Q tt s ->
  wp (m_for 0 (n - 1) (fun i => v ← load c i 1 stale; m_assert (sgn 8 v =? 0))) Q s.
Proof.
  intros [Hu Ho Hl Hp _ [Hr1 Hr2] _] Hn Hz HQ.
  assert (Haddr : c_addr c = c_base c) by (unfold c_addr; rewrite Ho, Z.add_0_r; apply wrap_small; lia).
  cbn [forallb] in Hp. rewrite !andb_true_iff in Hp. destruct Hp as (_ & _ & _ & Hp & _).
  apply wp_for with (P := fun _ s' => s' = s); [lia|done| |by intros ? ->].
  intros i s' Hi ->. apply wp_bind, wp_load.
  - split; rewrite ?Haddr; try done; [by cbn; rewrite Hp|lia|unfold c_top; lia|lia|mlia].
  - apply wp_assert; [|done]. unfold peek. rewrite Haddr. change (Z.to_nat 1) with 1%nat. cbn [read_bytes].
    rewrite Hz by lia. done.
Qed.

(** freeing the two blocks, in the order of their allocation *)
Lemma free_both a c h h1 h2 m1 m2 : heap_wf h2 -> usable a = true -> c_off a = 0 -> usable c = true -> c_off c = 0 ->
  live h1 = (c_base a, c_len a) :: live h -> live h2 = (c_base c, c_len c) :: live h1 -> kept h m1 m2 ->
  exists h3 m3 h4 m4, free a h2 m2 = Ok (h3, m3) /\ free c h3 m3 = Ok (h4, m4)
    /\ heap_wf h4 /\ live h4 ≡ₚ live h /\ kept h m1 m4.
Proof.
  intros Hwf2 Hua Hoa Huc Hoc Hl1 Hl2 Hk.
  assert (Hina : (c_base a, c_len a) ∈ live h2) by (rewrite Hl2, Hl1; right; left).
  destruct (free_gives_back a h2 m2 Hwf2 Hua Hoa Hina) as (h3 & m3 & Hf3 & Hwf3 & Hl3 & Hk3).
  assert (Hp3 : live h3 ≡ₚ (c_base c, c_len c) :: live h).
  { rewrite Hl2, Hl1, Permutation_swap in Hl3. symmetry. by eapply Permutation_cons_inv. }
  assert (Hinc : (c_base c, c_len c) ∈ live h3) by (rewrite Hp3; left).
  destruct (free_gives_back c h3 m3 Hwf3 Huc Hoc Hinc) as (h4 & m4 & Hf4 & Hwf4 & Hl4 & Hk4).
  assert (Hp4 : live h4 ≡ₚ live h) by (rewrite Hp3 in Hl4; symmetry; by eapply Permutation_cons_inv).
  exists h3, m3, h4, m4. do 4 (split; [done|]). intros x l y Hin Hy.
  destruct (Hk4 x l y ltac:(by rewrite Hp4) Hy) as [E1 T1].
  destruct (Hk3 x l y ltac:(rewrite Hp3; by right) Hy) as [E2 T2].
  destruct (Hk x l y Hin Hy) as [E3 T3]. split; congruence.
Qed.

Context (top : Z) (keeps : heap_state -> Prop).

(** what a part of the program does to the heap and the machine *)
Record undisturbed (b : bool) (h : heap_state) (s : machine) (h' : heap_state) (s' : machine) : Prop := {
  un_wf : heap_wf h';
  un_live : live h' ≡ₚ live h;
  un_kept : kept h (ms s) (ms s');
  un_faults : faults s' = faults s;
  un_room : b = false -> keeps h';
}.

Lemma undisturbed_trans b h s h1 s1 h2 s2 :
  undisturbed b h s h1 s1 -> undisturbed b h1 s1 h2 s2 -> undisturbed b h s h2 s2.
Proof.
  intros [_ L1 K1 F1 _] [W2 L2 K2 F2 R2]. split; [done|by rewrite L2, L1| |congruence|done].
  intros x l y Hin Hy. destruct (K1 x l y Hin Hy) as [E1 T1].
  destruct (K2 x l y ltac:(by rewrite L1) Hy) as [E2 T2]. split; congruence.
Qed.

(** [check_size]: the heap is as it was, no exception is taken, and every block in
    use keeps its contents; it fails only where an allocation is refused. *)
Lemma check_size_ok b stale size h s : heap_wf h -> 0 < size < 2 ^ 62 ->
  (b = false -> room top keeps /\ keeps h /\ size <= top) ->
  outcome b (check_size A stale size h) (check_size (marked A) stale size h) (undisturbed b h s) s.
Proof.
  intros Hwf Hsz Hroom. assert (Hu : u64 size = size) by (apply wrap_small; lia).
  unfold LibcMalloc.check_size. rewrite Hu.
  destruct (malloc_allocates size h (ms s) Hwf) as (a & h1 & m1 & Hm & Hwf1 & Hk1 & Ha); [lia|].
  destruct (calloc_allocates size 1 h1 m1 Hwf1) as (c & h2 & m2 & Hc & (Hwf2 & Hk2 & Hcc) & Hzero); [lia|].
  rewrite Z.mul_1_r in *.
  assert (Hgranted : b = false -> c_tag a = true /\ c_tag c = true
    /\ forall h3 m3 h4 m4, free a h2 m2 = Ok (h3, m3) -> free c h3 m3 = Ok (h4, m4) -> keeps h4).
  { intros E. destruct (Hroom E) as (Hr & Hkeep & Hle).
    destruct (Hr size h (ms s) Hkeep ltac:(lia)) as (a' & h1' & m1' & c' & h2' & m2' & Hm' & Ht & Hc' & Htc & Hfree).
    rewrite Hm in Hm'. simplify_eq. rewrite Hc in Hc'. by simplify_eq. }
  eapply outcome_alloc; [exact Hm|intros Ht|intros Hta].
  { split; [destruct b; [done|by destruct (Hgranted eq_refl) as [? _]; congruence]|by apply check_allocation_null]. }
  destruct Ha as [[? _]|(Hba & Hl1 & _)]; [congruence|].
  apply outcome_bind, outcome_wp, check_allocation_ok; [lia|done|].
  eapply outcome_alloc; [exact Hc|intros Ht|intros Htc].
  { split; [destruct b; [done|by destruct (Hgranted eq_refl) as (_ & ? & _); congruence]|by apply check_allocation_null]. }
  destruct Hcc as [[? _]|(Hbc & Hl2 & _)]; [congruence|].
  apply outcome_bind, outcome_wp, check_allocation_ok; [lia|done|].
  apply outcome_bind, outcome_wp, check_zero_ok; [done|lia|by apply Hzero|].
  assert (Hkept : kept h (ms s) m2).
  { intros x l y Hin Hy. destruct (Hk1 x l y Hin Hy) as [E1 T1].
    destruct (Hk2 x l y ltac:(rewrite Hl1; by right) Hy) as [E2 T2]. split; congruence. }
  destruct (free_both a c h h1 h2 (ms s) m2 Hwf2 (bk_usable _ _ Hba) (bk_off _ _ Hba) (bk_usable _ _ Hbc)
    (bk_off _ _ Hbc) Hl1 Hl2 Hkept) as (h3 & m3 & h4 & m4 & Hf3 & Hf4 & Hwf4 & Hl4 & Hk4).
  apply outcome_bind, outcome_wp. unfold wp, run_free. cbn [set_mem ms marked free]. rewrite Hf3. cbn [res_bind].
  apply outcome_wp. unfold wp. cbn [set_mem ms marked free]. rewrite Hf4. cbn [res_bind].
  split; try done. intros E. by eapply Hgranted.
Qed.

(** the rounds *)
Lemma malloc_rounds_ok b stale last n : forall i h s, heap_wf h -> 1 <= i -> i + Z.of_nat n = last + 1 -> last < 31 ->
  (b = false -> room top keeps /\ keeps h /\ 2 ^ last + 1 <= top) ->
  outcome b (malloc_rounds A stale n i h) (malloc_rounds (marked A) stale n i h) (undisturbed b h s) s.
Proof.
  induction n as [|n IH]; intros i h s Hwf Hi Hlast H31 Hb; cbn [LibcMalloc.malloc_rounds].
  - split; [done|]. split; try done. intros E. by destruct (Hb E) as (_ & ? & _).
  - rewrite Z.shiftl_mul_pow2, Z.mul_1_l by lia.
    pose proof (Z.pow_le_mono_r 2 i last ltac:(lia) ltac:(lia)) as Hpow.
    pose proof (Z.pow_le_mono_r 2 last 30 ltac:(lia) ltac:(lia)) as Hpow30.
    pose proof (Z.pow_pos_nonneg 2 i ltac:(lia) ltac:(lia)) as Hpos.
    apply outcome_bind. eapply outcome_mono; [apply check_size_ok; [done|lia|]|].
    { intros E. destruct (Hb E) as (? & ? & ?). split_and!; [done|done|lia]. }
    intros h1 s1 U1.
    apply outcome_bind. eapply outcome_mono; [apply check_size_ok; [apply U1|lia|]|].
    { intros E. destruct (Hb E) as (? & ? & ?). split_and!; [done|by apply U1|lia]. }
    intros h2 s2 U2. pose proof (undisturbed_trans _ _ _ _ _ _ _ U1 U2) as U.
    eapply outcome_mono; [apply IH; [apply U2|lia|lia|done|]|].
    { intros E. destruct (Hb E) as (? & ? & ?). split_and!; [done|by apply U2|lia]. }
    intros h3 s3 U3. by eapply undisturbed_trans.
Qed.
End proofs.

(** ** An allocator: blocks in sequence, from the start when none is in use *)

Section sequential.
Context (lo hi : Z).

Record bump := Bump { bp_brk : Z; bp_live : list (Z * Z) }.

(** multiples of 32 from [z] *)
Definition round32 (z : Z) : Z := (z + 31) / 32 * 32.

Definition bump_malloc (n : Z) (h : bump) (m : mem) : res (cap * bump * mem) :=
  let a := round32 (bp_brk h) in
  if a + n <=? hi
  then Ok (pblk PERMS_DATA a n 0, Bump (a + n) ((a, n) :: bp_live h), m)
  else Ok (null_cap, h, m).

Definition zeroed (a n : Z) (m : mem) : mem :=
  Mem (put_bytes (m_bytes m) a (replicate (Z.to_nat n) 0)) (m_tags m).

Definition bump_calloc (n k : Z) (h : bump) (m : mem) : res (cap * bump * mem) :=
  let* (c, h, m) := bump_malloc (n * k) h m in
  Ok (c, h, if c_tag c then zeroed (c_base c) (n * k) m else m).

Fixpoint remove_block (x : Z * Z) (l : list (Z * Z)) : option (list (Z * Z)) :=
  match l with
  | [] => None
  | y :: l' => if decide (x = y) then Some l' else l' ← remove_block x l'; Some (y :: l')
  end.

Definition bump_free (c : cap) (h : bump) (m : mem) : res (bump * mem) :=
  match remove_block (c_base c, c_len c) (bp_live h) with
  | Some l => Ok (Bump (match l with [] => lo | _ => bp_brk h end) l, m)
  | None => Err EUndef
  end.

Definition bump_wf (h : bump) : Prop :=
  lo <= bp_brk h /\ forall b l, (b, l) ∈ bp_live h -> lo <= b /\ b + l <= bp_brk h.

#[export] Instance bump_ops : AllocOps := {
  heap_state := bump;
  heap_wf := bump_wf;
  live := bp_live;
  executable := false;
  malloc := bump_malloc;
  calloc := bump_calloc;
  free := bump_free;
}.

Lemma remove_block_ok x l : x ∈ l -> exists l', remove_block x l = Some l' /\ l ≡ₚ x :: l'.
Proof.
  induction l as [|y l IH]; [by intros ?%elem_of_nil|]. cbn [remove_block]. case_decide as Hxy.
  - intros _. subst. by exists l.
  - intros [?|Hin]%elem_of_cons; [done|]. destruct (IH Hin) as (l' & -> & Hp).
    exists (y :: l'). split; [done|]. by rewrite Hp, Permutation_swap.
Qed.

Lemma round32_spec z : z <= round32 z <= z + 31 /\ round32 z mod 32 = 0.
Proof. unfold round32. split; mlia. Qed.

Lemma bump_malloc_ok n h m : 0 < lo -> hi <= 2 ^ 64 - 1 -> bump_wf h -> 0 < n ->
  exists c h', bump_malloc n h m = Ok (c, h', m) /\ allocated n h m c h' m
    /\ (c_tag c = true -> bp_brk h <= c_base c /\ c_len c = n).
Proof.
  intros Hlo Hhi [Hbrk Hlive] Hn. unfold bump_malloc.
  destruct (round32_spec (bp_brk h)) as [Hr Hm]. set (a := round32 (bp_brk h)) in *.
  assert (Hkept : @kept bump_ops h m m) by (by intros b l x _ _).
  destruct (Z.leb_spec (a + n) hi) as [Hle|Hgt].
  - eexists _, _. split; [done|]. split; [|by intros _; simpl; lia]. split; [|split; [done|right]].
    + split; [simpl; lia|]. intros b l [[= -> ->]|Hin]%elem_of_cons; [simpl; lia|].
      specialize (Hlive b l Hin). simpl. lia.
    + split; [split; simpl; done || lia|]. split; [done|].
      intros b l Hin. specialize (Hlive b l Hin). simpl. lia.
  - eexists _, _. split; [done|]. split; [|done]. split; [done|]. split; [done|left].
    done.
Qed.

Lemma bump_ok : 0 < lo <= hi -> hi <= 2 ^ 64 - 1 -> Allocator_ok bump_ops.
Proof.
  intros Hlo Hhi. split.
  - intros n h m Hwf Hn. destruct (bump_malloc_ok n h m) as (c & h' & Hm & Ha & _); [lia|done|done|lia|].
    by exists c, h', m.
  - intros n k h m Hwf Hn. destruct (bump_malloc_ok (n * k) h m) as (c & h' & Hm & Ha & Hb); [lia|done|done|lia|].
    cbn [calloc bump_ops]. unfold bump_calloc. rewrite Hm. cbn [res_bind]. eexists _, _, _. split; [done|].
    destruct (c_tag c) eqn:Ht; [|by split; [done|]]. destruct (Hb eq_refl) as [Hbase Hlen].
    assert (Hout : forall x, x < c_base c -> read_byte (zeroed (c_base c) (n * k) m) x = read_byte m x).
    { intros x Hx. unfold zeroed. rewrite read_byte_put_out; [done|by left]. }
    destruct Ha as (Hwf' & _ & Hcases). split.
    + split; [done|]. split; [|done]. intros b l x Hin Hx. split; [|done]. apply Hout.
      destruct Hwf as [_ Hlive]. specialize (Hlive b l Hin). lia.
    + intros _ x Hx. unfold zeroed, read_byte; cbn [m_bytes].
      replace x with (c_base c + Z.of_nat (Z.to_nat (x - c_base c))) by lia.
      erewrite lookup_put_bytes_in; [done|]. apply lookup_replicate. split; [done|lia].
  - intros c h m [Hbrk Hlive] Hu Ho Hin. cbn [free bump_ops live] in *. unfold bump_free.
    destruct (remove_block_ok (c_base c, c_len c) (bp_live h) Hin) as (l & -> & Hl). eexists _, _. split; [done|].
    assert (Hsub : forall b k, (b, k) ∈ l -> (b, k) ∈ bp_live h) by (intros b k Hb; rewrite Hl; by right).
    split; [|split; [done|]].
    + split; cbn [bp_brk bp_live]; [destruct l; [done|exact Hbrk]|].
      intros b k Hb. specialize (Hlive b k (Hsub b k Hb)). destruct l; [by apply elem_of_nil in Hb|done].
    + by intros b k x _ _.
Qed.

(** from the start there is room for two blocks, whenever none is in use *)
Lemma bump_room size : 2 * (size + 31) <= hi - lo -> room (H := bump_ops) size (fun h => h = Bump lo []).
Proof.
  intros Hsize n h m -> Hn. destruct (round32_spec lo) as [Ha _]. set (a := round32 lo) in *.
  destruct (round32_spec (a + n)) as [Hb _]. set (b := round32 (a + n)) in *.
  exists (pblk PERMS_DATA a n 0), (Bump (a + n) [(a, n)]), m,
    (pblk PERMS_DATA b n 0), (Bump (b + n) [(b, n); (a, n)]), (zeroed b n m).
  cbn [malloc calloc free bump_ops]. unfold bump_calloc, bump_malloc. cbn [bp_brk bp_live]. fold a.
  rewrite (proj2 (Z.leb_le _ _)) by lia. split; [done|]. split; [done|].
  rewrite Z.mul_1_r. fold b. rewrite (proj2 (Z.leb_le _ _)) by lia. split; [done|]. split; [done|].
  intros h3 m3 h4 m4. unfold bump_free. cbn [bp_live c_base c_len pblk remove_block].
  rewrite (decide_False (P := (a, n) = (b, n))) by (intros [= Hab]; lia). rewrite decide_True by done.
  cbn [mbind option_bind]. intros [= <- <-]. cbn [bp_live remove_block]. rewrite decide_True by done. by intros [= <- <-].
Qed.
End sequential.


