(* ===== verification/TestRuntime.v ===== *)
(** * TestRuntime: the handler behind the tests that expect exceptions.

    [cheri-c-tests/test_runtime.c]: the handler of SIGPROT, which calls
    [test_fault_handler] and skips the instruction that was denied, and the
    emulation of the branch when that instruction was in a delay slot.  The
    machine context is a record of the fields the code reads and writes; shifts
    out of range are undefined, and the left shifts of signed values wrap, as
    the compiler of the tests has it. *)

From S2P Require Import Prelude CheriMem Machine.

(** ** Opcodes *)

Definition MIPS_BRANCH_REGIMM := 0x1.
Definition MIPS_BRANCH_CHERI := 0x12.
Definition MIPS_BRANCH_J := 0x2.
Definition MIPS_BRANCH_JAL := 0x3.
Definition MIPS_BRANCH_JR := 0x8.
Definition MIPS_BRANCH_JALR := 0x9.
Definition MIPS_BRANCH_BEQ := 0x4.
Definition MIPS_BRANCH_BNE := 0x5.
Definition MIPS_BRANCH_BLEZ := 0x6.
Definition MIPS_BRANCH_BGTZ := 0x7.
Definition MIPS_BRANCH_BEQL := 0x14.
Definition MIPS_BRANCH_BNEL := 0x15.
Definition MIPS_BRANCH_BLEZL := 0x16.
Definition MIPS_BRANCH_BGTZL := 0x17.

Definition MIPS_BRANCH_BLTZ := 0x0.
Definition MIPS_BRANCH_BGEZ := 0x1.
Definition MIPS_BRANCH_BLTZAL := 0x10.
Definition MIPS_BRANCH_BGEZAL := 0x11.
Definition MIPS_BRANCH_BLTZL := 0x2.
Definition MIPS_BRANCH_BGEZL := 0x3.
Definition MIPS_BRANCH_BLTZALL := 0x12.
Definition MIPS_BRANCH_BGEZALL := 0x13.

Definition CHERI_BRANCH_CBTU := 0x09.
Definition CHERI_BRANCH_CBTS := 0x0a.
Definition CHERI_BRANCH_CJR := 0x07.
Definition CHERI_BRANCH_CJALR := 0x08.

(** ** The machine context *)

Record context := Context_ {
  mc_pc : Z;               (* register_t *)
  mc_regs : list Z;        (* register_t[32] *)
  cause : Z;               (* the CP0 register *)
  cf_regs : list cap;      (* struct cheri_frame: 27 registers, then cf_pcc *)
  cf_capcause : Z;
  cp2state_sized : bool;   (* mc_cp2state_len == sizeof(struct cheri_frame) *)
}.

Definition set_pc (c : context) (pc : Z) : context :=
  Context_ pc (mc_regs c) (cause c) (cf_regs c) (cf_capcause c) (cp2state_sized c).

Definition pcc_index := 27.
Definition cf_pcc (c : context) : cap := nth (Z.to_nat pcc_index) (cf_regs c) null_cap.

Section runtime.
Context (cap_size SIGPROT : Z).      (* sizeof(void * ), and a constant of the system *)
Context (m : mem).

(** ** Fields of an instruction *)

Definition signExtend (val size : Z) : Z :=
  let shift := 64 - size in Z.shiftr (sgn 64 (Z.shiftl val shift)) shift.

(** the shift counts must be below the width *)
Definition getImm (instr start len : Z) : res Z :=
  let right := u64 (cap_size - len) in
  let left := start - len + 1 in
  if (right <? 32) && (0 <=? left) && (left <? 32) then
    let mask := u32 (Z.shiftl (Z.shiftr 0xffffffff right) left) in
    Ok (Z.shiftr (Z.land instr mask) left)
  else Err EUndef.

Definition getSImm (instr start len : Z) : res Z :=
  let* v := getImm instr start len in Ok (signExtend v len).

Definition getOpcode (instr : Z) : res Z := getImm instr 31 6.

(** ** Registers *)

(** the frame is part of the context; its size is checked *)
Definition getCHERIFrame (c : context) : res unit := c_assert (cp2state_sized c).

Definition getCapRegAtIndex (c : context) (idx : Z) : res cap :=
  let* _ := getCHERIFrame c in
  if idx =? 0xff then Ok (cf_pcc c)
  else
    let* _ := c_assert ((idx <? 26) && (0 <=? idx)) in
    of_opt (cf_regs c !! Z.to_nat idx).

Definition getReg (c : context) (instr opidx : Z) : res Z :=
  let* regno := getImm instr opidx 5 in
  if regno =? 0 then Ok 0 else of_opt (mc_regs c !! Z.to_nat regno).

Definition getCapReg (c : context) (instr opidx : Z) : res cap :=
  let* regno := getImm instr opidx 5 in getCapRegAtIndex c regno.

(** the capability to the instruction at [pc] *)
Definition getAdjustedPc (c : context) (pc : Z) : res cap :=
  let* _ := getCHERIFrame c in
  let base := c_base (cf_pcc c) in
  let* _ := c_assert (base <? u64 (base + u64 pc)) in
  let* _ := c_assert (u64 pc <? c_len (cf_pcc c)) in
  cheri_offset_increment (cf_pcc c) (u64 pc).

Definition fetch (c : context) (pc : Z) : res Z :=
  let* p := getAdjustedPc c pc in
  let* bs := load_data m p 0 4 in
  Ok (be_value bs).

Definition isInDelaySlot (c : context) : res bool :=
  let* b := getImm (u32 (cause c)) 31 1 in Ok (negb (b =? 0)).

(** ** Branches *)

(** one of several cases of a switch *)
Definition is_one_of (x : Z) (l : list Z) : bool := existsb (Z.eqb x) l.

(** [emulateBranch] of the instruction [instr] *)
Definition emulate (c : context) (pc instr : Z) : res (bool * context) :=
  let* imm := getSImm instr 15 16 in
  let offset := sgn 64 (Z.shiftl imm 2) in
  let branchPc := sgn 64 (pc + offset + 4) in
  let normalPc := sgn 64 (pc + 8) in
  let* regVal := getReg c instr 25 in
  let* regVal2 := getReg c instr 20 in
  let branch (taken : bool) := Ok (true, set_pc c (if taken then branchPc else normalPc)) in
  let* op := getOpcode instr in
  if op =? MIPS_BRANCH_REGIMM then
    let* rop := getImm instr 20 5 in
    if is_one_of rop [MIPS_BRANCH_BLTZL; MIPS_BRANCH_BLTZALL] then
      let* _ := c_assert (regVal <? 0) in branch (regVal <? 0)
    else if is_one_of rop [MIPS_BRANCH_BLTZ; MIPS_BRANCH_BLTZAL] then branch (regVal <? 0)
    else if is_one_of rop [MIPS_BRANCH_BGEZL; MIPS_BRANCH_BGEZ] then
      let* _ := c_assert (regVal <? 0) in branch (0 <=? regVal)
    else if is_one_of rop [MIPS_BRANCH_BGEZAL; MIPS_BRANCH_BGEZALL] then branch (0 <=? regVal)
    else Ok (false, c)
  else if is_one_of op [MIPS_BRANCH_J; MIPS_BRANCH_JAL] then
    let* target := getImm instr 25 0 in
    Ok (true, set_pc c (Z.land (Z.shiftl target 2) (Z.shiftl (Z.shiftr pc 28) 28)))
  else if is_one_of op [MIPS_BRANCH_JR; MIPS_BRANCH_JALR] then
    let* r := getReg c instr 25 in Ok (true, set_pc c r)
  else if is_one_of op [MIPS_BRANCH_BEQL; MIPS_BRANCH_BEQ] then branch (regVal =? regVal2)
  else if is_one_of op [MIPS_BRANCH_BNEL; MIPS_BRANCH_BNE] then branch (negb (regVal =? regVal2))
  else if is_one_of op [MIPS_BRANCH_BLEZL; MIPS_BRANCH_BLEZ] then branch (regVal <=? 0)
  else if is_one_of op [MIPS_BRANCH_BGTZL; MIPS_BRANCH_BGTZ] then branch (0 <? regVal)
  else if op =? MIPS_BRANCH_CHERI then
    let* cop := getImm instr 25 5 in
    if cop =? CHERI_BRANCH_CBTU then
      let* r := getCapReg c instr 20 in branch (negb (c_tag r))
    else if cop =? CHERI_BRANCH_CBTS then
      let* r := getCapReg c instr 20 in branch (c_tag r)
    else if is_one_of cop [CHERI_BRANCH_CJR; CHERI_BRANCH_CJALR] then
      let* r := getReg c instr 10 in
      let* _ := getCHERIFrame c in
      let* t := getCapReg c instr 15 in
      Ok (true, Context_ r (mc_regs c) (cause c) (<[Z.to_nat pcc_index := t]> (cf_regs c)) (cf_capcause c)
          (cp2state_sized c))
    else Ok (false, c)
  else Ok (false, c).

Definition emulateBranch (c : context) (pc : Z) : res (bool * context) :=
  let* instr := fetch c pc in emulate c pc instr.

(** ** The signal handler

    [h] is [test_fault_handler], from the capability, the cause and [faults] to
    [faults]; a branch that is not emulated ends the program. *)

Definition capsighandler (h : cap -> Z -> Z -> res Z) (signo : Z) (c : context) (faults : Z) : res (context * Z) :=
  let* isDelaySlot := isInDelaySlot c in
  let pc := mc_pc c in
  let* _ := getCHERIFrame c in
  let* reg := getCapRegAtIndex c (Z.land (cf_capcause c) 0xff) in
  let* _ := c_assert (signo =? SIGPROT) in
  let* faults := h reg (Z.shiftr (cf_capcause c) 8) faults in
  if isDelaySlot then
    let* _ := c_assert (4 <? pc) in
    let* (emulated, c) := emulateBranch c pc in
    let* _ := c_assert emulated in
    Ok (c, faults)
  else Ok (set_pc c (sgn 64 (mc_pc c + 4)), faults).
End runtime.

(** ** The branches of the processor, for reference *)

Definition f_op (instr : Z) : Z := instr / 2 ^ 26.
Definition f_rs (instr : Z) : Z := instr / 2 ^ 21 mod 2 ^ 5.
Definition f_rt (instr : Z) : Z := instr / 2 ^ 16 mod 2 ^ 5.
Definition f_imm (instr : Z) : Z := sgn 16 instr.

Definition gpr (c : context) (r : Z) : Z := if r =? 0 then 0 else nth (Z.to_nat r) (mc_regs c) 0.
Definition cap_reg (c : context) (r : Z) : cap := nth (Z.to_nat r) (cf_regs c) null_cap.

(** whether a conditional branch is taken; [None] is any other instruction *)
Definition branch_taken (c : context) (instr : Z) : option bool :=
  let s := gpr c (f_rs instr) in
  let t := gpr c (f_rt instr) in
  let op := f_op instr in
  if op =? 0x1 then
    if is_one_of (f_rt instr) [0x0; 0x2; 0x10; 0x12] then Some (s <? 0)
    else if is_one_of (f_rt instr) [0x1; 0x3; 0x11; 0x13] then Some (0 <=? s)
    else None
  else if is_one_of op [0x4; 0x14] then Some (s =? t)
  else if is_one_of op [0x5; 0x15] then Some (negb (s =? t))
  else if is_one_of op [0x6; 0x16] then Some (s <=? 0)
  else if is_one_of op [0x7; 0x17] then Some (0 <? s)
  else if op =? 0x12 then
    if f_rs instr =? 0x9 then Some (negb (c_tag (cap_reg c (f_rt instr))))
    else if f_rs instr =? 0xa then Some (c_tag (cap_reg c (f_rt instr)))
    else None
  else None.

(** a likely branch does not execute its delay slot unless it is taken *)
Definition is_likely (instr : Z) : bool :=
  is_one_of (f_op instr) [0x14; 0x15; 0x16; 0x17]
  || (f_op instr =? 0x1) && is_one_of (f_rt instr) [0x2; 0x3; 0x12; 0x13].

Definition next_pc (pc instr : Z) (taken : bool) : Z := if taken then pc + 4 + 4 * f_imm instr else pc + 8.

(** BGEZ and BGEZL *)
Definition is_bgez (instr : Z) : bool := (f_op instr =? 0x1) && is_one_of (f_rt instr) [0x1; 0x3].

(** ** Proofs *)

Lemma getImm_field instr start len : 0 <= instr < 2 ^ 32 -> 0 < len <= 32 -> 0 <= start - len + 1 -> start < 32 ->
  getImm 32 instr start len = Ok (instr / 2 ^ (start - len + 1) mod 2 ^ len).
Proof.
  intros Hi Hl Hs Hs'. unfold getImm. rewrite (wrap_small 64) by lia.
  rewrite (proj2 (Z.ltb_lt (32 - len) 32)), (proj2 (Z.leb_le 0 _)), (proj2 (Z.ltb_lt (start - len + 1) 32)) by lia.
  cbn [andb]. f_equal.
  assert (Hm : Z.shiftr 0xffffffff (32 - len) = 2 ^ len - 1).
  { rewrite Z.shiftr_div_pow2 by lia. change 0xffffffff with (2 ^ 32 - 1).
    replace (2 ^ 32) with (2 ^ len * 2 ^ (32 - len)) by (rewrite <- Z.pow_add_r by lia; f_equal; lia).
    assert (0 < 2 ^ (32 - len)) by (apply Z.pow_pos_nonneg; lia).
    symmetry. apply Z.div_unique with (2 ^ (32 - len) - 1); lia. }
  rewrite Hm. unfold wrap.
  assert (0 < 2 ^ (start - len + 1)) by (apply Z.pow_pos_nonneg; lia).
  assert (0 < 2 ^ len) by (apply Z.pow_pos_nonneg; lia).
  assert (Hb : 2 ^ len * 2 ^ (start - len + 1) <= 2 ^ 32).
  { rewrite <- Z.pow_add_r by lia. apply Z.pow_le_mono_r; lia. }
  rewrite Z.mod_small by (rewrite Z.shiftl_mul_pow2 by lia; nia).
  rewrite Z.shiftr_land, Z.shiftr_shiftl_l by lia. rewrite Z.sub_diag, Z.shiftl_0_r, land_mask by lia.
  by rewrite Z.shiftr_div_pow2 by lia.
Qed.

Lemma signExtend_16 v : 0 <= v < 2 ^ 16 -> signExtend v 16 = sgn 16 v.
Proof.
  intros Hv. unfold signExtend, sgn. change (64 - 16) with 48. change (64 - 1) with 63. change (16 - 1) with 15.
  rewrite Z.shiftl_mul_pow2, Z.shiftr_div_pow2 by lia. rewrite !wrap_small by lia.
  destruct (Z.ltb_spec v (2 ^ 15)), (Z.ltb_spec (v * 2 ^ 48) (2 ^ 63)); try lia.
  - by rewrite Z.div_mul.
  - replace (v * 2 ^ 48 - 2 ^ 64) with ((v - 2 ^ 16) * 2 ^ 48) by lia. by rewrite Z.div_mul.
Qed.

Lemma sgn_small64 z : - 2 ^ 63 <= z < 2 ^ 63 -> sgn 64 z = z.
Proof. intros. by apply sgn_small. Qed.

(** contexts as the kernel saves them *)
Record context_ok (c : context) : Prop := {
  ok_pc : 0 <= mc_pc c < 2 ^ 62;
  ok_regs : length (mc_regs c) = 32%nat;
  ok_values : Forall (fun r => - 2 ^ 63 <= r < 2 ^ 63) (mc_regs c);
  ok_caps : length (cf_regs c) = 28%nat;
  ok_frame : cp2state_sized c = true;
}.

Section fields.
Context (c : context) (instr : Z) (Hc : context_ok c) (Hi : 0 <= instr < 2 ^ 32).

Lemma fields_op : getImm 32 instr 31 6 = Ok (f_op instr).
Proof. rewrite getImm_field by lia. f_equal. unfold f_op. change (31 - 6 + 1) with 26. apply Z.mod_small. mlia. Qed.

Lemma fields_rs : getImm 32 instr 25 5 = Ok (f_rs instr).
Proof. by rewrite getImm_field by lia. Qed.

Lemma fields_rt : getImm 32 instr 20 5 = Ok (f_rt instr).
Proof. by rewrite getImm_field by lia. Qed.

Lemma fields_imm : getSImm 32 instr 15 16 = Ok (f_imm instr).
Proof.
  unfold getSImm. rewrite getImm_field by lia. cbn [res_bind]. f_equal. change (2 ^ (15 - 16 + 1)) with 1.
  rewrite Z.div_1_r, signExtend_16 by (apply Z.mod_pos_bound; lia).
  unfold f_imm, sgn. change (instr mod 2 ^ 16) with (wrap 16 instr). by rewrite wrap_wrap.
Qed.

Lemma field_reg r : 0 <= r < 32 -> (if r =? 0 then Ok 0 else of_opt (mc_regs c !! Z.to_nat r)) = Ok (gpr c r).
Proof.
  intros Hr. unfold gpr. destruct (Z.eqb_spec r 0); [done|].
  destruct (lookup_lt_is_Some_2 (mc_regs c) (Z.to_nat r)) as [v Hv]; [rewrite (ok_regs _ Hc); lia|].
  by rewrite Hv, (nth_lookup_Some _ _ _ _ Hv).
Qed.

Lemma fields_reg_s : getReg 32 c instr 25 = Ok (gpr c (f_rs instr)).
Proof. unfold getReg. rewrite fields_rs. cbn [res_bind]. apply field_reg. unfold f_rs. mlia. Qed.

Lemma fields_reg_t : getReg 32 c instr 20 = Ok (gpr c (f_rt instr)).
Proof. unfold getReg. rewrite fields_rt. cbn [res_bind]. apply field_reg. unfold f_rt. mlia. Qed.

Lemma fields_cap : f_rt instr < 26 -> getCapReg 32 c instr 20 = Ok (cap_reg c (f_rt instr)).
Proof.
  intros Hr. assert (0 <= f_rt instr < 32) by (unfold f_rt; mlia).
  unfold getCapReg. rewrite fields_rt. cbn [res_bind]. unfold getCapRegAtIndex, getCHERIFrame.
  rewrite (ok_frame _ Hc). cbn [c_assert res_bind].
  rewrite (proj2 (Z.eqb_neq (f_rt instr) 255)), (proj2 (Z.ltb_lt (f_rt instr) 26)), (proj2 (Z.leb_le 0 _)) by lia.
  cbn [andb c_assert res_bind]. unfold cap_reg.
  destruct (lookup_lt_is_Some_2 (cf_regs c) (Z.to_nat (f_rt instr))) as [v Hv]; [rewrite (ok_caps _ Hc); lia|].
  by rewrite Hv, (nth_lookup_Some _ _ _ _ Hv).
Qed.

Lemma imm_range : - 2 ^ 15 <= f_imm instr < 2 ^ 15.
Proof. apply (sgn_range 16). lia. Qed.

Lemma branch_pc pc : 0 <= pc < 2 ^ 62 ->
  sgn 64 (pc + sgn 64 (Z.shiftl (f_imm instr) 2) + 4) = next_pc pc instr true /\ sgn 64 (pc + 8) = next_pc pc instr false.
Proof.
  intros Hpc. pose proof imm_range. rewrite Z.shiftl_mul_pow2 by lia. change (2 ^ 2) with 4.
  rewrite (sgn_small64 (f_imm instr * 4)) by lia. rewrite !sgn_small64 by lia. unfold next_pc. split; lia.
Qed.
End fields.

Lemma emulate_start c pc instr : context_ok c -> 0 <= instr < 2 ^ 32 -> 0 <= pc < 2 ^ 62 ->
  emulate 32 c pc instr =
    let regVal := gpr c (f_rs instr) in
    let regVal2 := gpr c (f_rt instr) in
    let branch (taken : bool) := Ok (true, set_pc c (next_pc pc instr taken)) in
    let op := f_op instr in
    if op =? MIPS_BRANCH_REGIMM then
      let rop := f_rt instr in
      if is_one_of rop [MIPS_BRANCH_BLTZL; MIPS_BRANCH_BLTZALL] then
        let* _ := c_assert (regVal <? 0) in branch (regVal <? 0)
      else if is_one_of rop [MIPS_BRANCH_BLTZ; MIPS_BRANCH_BLTZAL] then branch (regVal <? 0)
      else if is_one_of rop [MIPS_BRANCH_BGEZL; MIPS_BRANCH_BGEZ] then
        let* _ := c_assert (regVal <? 0) in branch (0 <=? regVal)
      else if is_one_of rop [MIPS_BRANCH_BGEZAL; MIPS_BRANCH_BGEZALL] then branch (0 <=? regVal)
      else Ok (false, c)
    else if is_one_of op [MIPS_BRANCH_J; MIPS_BRANCH_JAL] then Err EUndef
    else if is_one_of op [MIPS_BRANCH_JR; MIPS_BRANCH_JALR] then Ok (true, set_pc c regVal)
    else if is_one_of op [MIPS_BRANCH_BEQL; MIPS_BRANCH_BEQ] then branch (regVal =? regVal2)
    else if is_one_of op [MIPS_BRANCH_BNEL; MIPS_BRANCH_BNE] then branch (negb (regVal =? regVal2))
    else if is_one_of op [MIPS_BRANCH_BLEZL; MIPS_BRANCH_BLEZ] then branch (regVal <=? 0)
    else if is_one_of op [MIPS_BRANCH_BGTZL; MIPS_BRANCH_BGTZ] then branch (0 <? regVal)
    else if op =? MIPS_BRANCH_CHERI then
      let cop := f_rs instr in
      if cop =? CHERI_BRANCH_CBTU then
        let* r := getCapReg 32 c instr 20 in branch (negb (c_tag r))
      else if cop =? CHERI_BRANCH_CBTS then
        let* r := getCapReg 32 c instr 20 in branch (c_tag r)
      else if is_one_of cop [CHERI_BRANCH_CJR; CHERI_BRANCH_CJALR] then
        let* r := getReg 32 c instr 10 in
        let* _ := getCHERIFrame c in
        let* t := getCapReg 32 c instr 15 in
        Ok (true, Context_ r (mc_regs c) (cause c) (<[Z.to_nat pcc_index := t]> (cf_regs c)) (cf_capcause c)
          (cp2state_sized c))
      else Ok (false, c)
    else Ok (false, c).
Proof.
  intros Hc Hi Hpc. destruct (branch_pc instr pc Hpc) as [Ht Hn]. unfold emulate.
  rewrite fields_imm by done. cbn [res_bind]. rewrite fields_reg_s, fields_reg_t by done. cbn [res_bind].
  unfold getOpcode. rewrite fields_op by done. cbn [res_bind]. cbv zeta.
  rewrite fields_rt, fields_rs by done. cbn [res_bind]. rewrite Ht, Hn. unfold next_pc. done.
Qed.

Lemma is_one_of_spec x l : is_one_of x l = true <-> In x l.
Proof.
  unfold is_one_of. rewrite existsb_exists. split.
  - intros (y & Hy & ->%Z.eqb_eq). done.
  - intros H. exists x. by rewrite Z.eqb_refl.
Qed.

(** one after the other, the alternatives of the reference *)
Ltac op_cases x := repeat match goal with
  | H : In x (_ :: _) |- _ => destruct H as [H|H]
  | H : In x [] |- _ => destruct H
  end.

(** C8: for every conditional branch of the processor, on general and on
    capability registers, except BGEZ and BGEZL, [emulateBranch] continues
    where the processor would have: at the target of a taken branch and after
    the delay slot otherwise, which a likely branch only has when it is taken. *)
Theorem emulate_branch_correct c pc instr taken :
  context_ok c -> 0 <= instr < 2 ^ 32 -> 0 <= pc < 2 ^ 62 ->
  branch_taken c instr = Some taken -> is_bgez instr = false ->
  (is_likely instr = true -> taken = true) -> (f_op instr = 0x12 -> f_rt instr < 26) ->
  emulate 32 c pc instr = Ok (true, set_pc c (next_pc pc instr taken)).
Proof.
  intros Hc Hi Hpc Hb Hbgez Hlik Hcap. rewrite emulate_start by done. cbv zeta.
  pose proof (fields_cap c instr Hc Hi) as Hcr.
  unfold branch_taken, is_likely, is_bgez in *. set (op := f_op instr) in *. clearbody op.
  set (t := gpr c (f_rt instr)) in *. clearbody t. set (v := gpr c (f_rs instr)) in *. clearbody v.
  unfold MIPS_BRANCH_REGIMM, MIPS_BRANCH_CHERI. destruct (Z.eqb_spec op 1) as [->|Hop].
  - set (rt := f_rt instr) in *. clearbody rt. cbn [andb] in Hbgez.
    destruct (is_one_of rt [0; 2; 16; 18]) eqn:Hl.
    + injection Hb as Hb. apply is_one_of_spec in Hl. op_cases rt; subst rt.
      * by rewrite <- Hb.
      * rewrite Hb, (Hlik eq_refl). done.
      * by rewrite <- Hb.
      * rewrite Hb, (Hlik eq_refl). done.
    + destruct (is_one_of rt [1; 3; 17; 19]) eqn:Hr; [|done]. injection Hb as Hb.
      apply is_one_of_spec in Hr. op_cases rt; subst rt; try done; by rewrite <- Hb.
  - destruct (is_one_of op [4; 20]) eqn:E1; [injection Hb as Hb; apply is_one_of_spec in E1; op_cases op; subst op; by rewrite <- Hb|].
    destruct (is_one_of op [5; 21]) eqn:E2; [injection Hb as Hb; apply is_one_of_spec in E2; op_cases op; subst op; by rewrite <- Hb|].
    destruct (is_one_of op [6; 22]) eqn:E3; [injection Hb as Hb; apply is_one_of_spec in E3; op_cases op; subst op; by rewrite <- Hb|].
    destruct (is_one_of op [7; 23]) eqn:E4; [injection Hb as Hb; apply is_one_of_spec in E4; op_cases op; subst op; by rewrite <- Hb|].
    destruct (Z.eqb_spec op 18) as [->|]; [|done]. specialize (Hcr (Hcap eq_refl)). cbn.
    unfold CHERI_BRANCH_CBTU, CHERI_BRANCH_CBTS. rewrite Hcr. cbn [res_bind].
    destruct (f_rs instr =? 9); [by injection Hb as <-|]. destruct (f_rs instr =? 10); [by injection Hb as <-|done].
Qed.

(** where a pointer is 16 bytes, a register field comes with the opcode *)
Lemma getImm_16_reg instr : getImm 16 instr 25 5 = Ok (instr / 2 ^ 21 mod 2 ^ 11).
Proof.
  transitivity (Ok (Z.shiftr (Z.land instr (Z.shiftl (2 ^ 11 - 1) 21)) 21)); [done|]. f_equal.
  rewrite Z.shiftr_land, Z.shiftr_shiftl_l, Z.sub_diag, Z.shiftl_0_r by lia.
  by rewrite land_mask, Z.shiftr_div_pow2 by lia.
Qed.

Lemma getSImm_16_imm instr : exists v, getSImm 16 instr 15 16 = Ok v.
Proof. by eexists. Qed.

(** C20: what [emulateBranch] gets wrong.  BGEZ and BGEZL fail an assertion
    exactly when they are taken; J and JAL shift by the width of the type; JR
    and JALR, which are SPECIAL instructions, are not recognised, while ADDI
    and ADDIU are taken for them; and where a pointer is not 32 bytes, every
    other instruction makes it shift out of range or index past the saved
    registers. *)
Theorem emulate_branch_defects c pc instr :
  context_ok c -> 0 <= instr < 2 ^ 32 -> 0 <= pc < 2 ^ 62 ->
  (is_bgez instr = true -> branch_taken c instr = Some true -> emulate 32 c pc instr = Err EAssert) /\
  (f_op instr = 0x2 \/ f_op instr = 0x3 -> emulate 32 c pc instr = Err EUndef) /\
  (f_op instr = 0x0 -> emulate 32 c pc instr = Ok (false, c)) /\
  (f_op instr = 0x8 \/ f_op instr = 0x9 -> emulate 32 c pc instr = Ok (true, set_pc c (gpr c (f_rs instr)))) /\
  (f_op instr <> 0x0 -> emulate 8 c pc instr = Err EUndef /\ emulate 16 c pc instr = Err EUndef).
Proof.
  intros Hc Hi Hpc. rewrite emulate_start by done. cbv zeta.
  unfold branch_taken, is_bgez. repeat split.
  - intros [->%Z.eqb_eq Hrt]%andb_true_iff Hb. cbn in Hb. apply is_one_of_spec in Hrt.
    assert (Hs : (gpr c (f_rs instr) <? 0) = false).
    { op_cases (f_rt instr); rewrite <- Hrt in Hb; injection Hb as Hb; lia. }
    cbn. rewrite Hs. by op_cases (f_rt instr); rewrite <- Hrt.
  - by intros [-> | ->].
  - by intros ->.
  - by intros [-> | ->].
  - assert (Hop : 1 <= f_op instr < 2 ^ 6) by (unfold f_op in *; mlia).
    assert (Hr : 32 <= instr / 2 ^ 21 mod 2 ^ 11) by (unfold f_op in Hop; rewrite Z.mod_small by mlia; mlia).
    destruct (getSImm_16_imm instr) as [imm Himm]. unfold emulate. rewrite Himm. cbn [res_bind].
    unfold getReg at 1. rewrite getImm_16_reg. cbn [res_bind].
    rewrite (proj2 (Z.eqb_neq _ 0)) by lia. by rewrite lookup_ge_None_2 by (rewrite (ok_regs _ Hc); lia).
Qed.

(** *** The handler *)

Lemma delay_slot_bit cap_size c : In cap_size [8; 16; 32] -> isInDelaySlot cap_size c = Ok (Z.testbit (cause c) 31).
Proof.
  intros Hcs. unfold isInDelaySlot.
  assert (Hx : getImm cap_size (u32 (cause c)) 31 1 = Ok (Z.shiftr (Z.land (u32 (cause c)) (Z.shiftl (2 ^ 1 - 1) 31)) 31)).
  { by destruct Hcs as [<-|[<-|[<-|[]]]]. }
  rewrite Hx. cbn [res_bind]. f_equal. rewrite Z.shiftr_land, Z.shiftr_shiftl_l, Z.sub_diag, Z.shiftl_0_r by lia.
  rewrite land_mask, Z.shiftr_div_pow2 by lia. change (2 ^ 1) with 2.
  rewrite <- (Z.mod_pow2_bits_low (cause c) 32 31) by lia. change (cause c mod 2 ^ 32) with (u32 (cause c)).
  rewrite Z.testbit_eqb by lia. pose proof (Z.mod_pos_bound (u32 (cause c) / 2 ^ 31) 2 ltac:(lia)).
  destruct (Z.eqb_spec (u32 (cause c) / 2 ^ 31 mod 2) 0), (Z.eqb_spec (u32 (cause c) / 2 ^ 31 mod 2) 1); done || lia.
Qed.

(** the low byte of the capability cause names a register that was saved *)
Lemma cause_register c : context_ok c ->
  (Z.land (cf_capcause c) 0xff = 0xff \/ Z.land (cf_capcause c) 0xff < 26) ->
  exists r, getCapRegAtIndex c (Z.land (cf_capcause c) 0xff) = Ok r.
Proof.
  intros Hc Hr. change 0xff with (2 ^ 8 - 1) in *. rewrite land_mask in * by lia.
  pose proof (Z.mod_pos_bound (cf_capcause c) (2 ^ 8) ltac:(lia)) as Hb. unfold getCapRegAtIndex, getCHERIFrame.
  rewrite (ok_frame _ Hc). cbn [c_assert res_bind].
  destruct (Z.eqb_spec (cf_capcause c mod 2 ^ 8) 255) as [|Hne]; [by eexists|].
  rewrite (proj2 (Z.ltb_lt _ 26)), (proj2 (Z.leb_le 0 _)) by lia. cbn [andb c_assert res_bind].
  destruct (lookup_lt_is_Some_2 (cf_regs c) (Z.to_nat (cf_capcause c mod 2 ^ 8))) as [v ->]; [rewrite (ok_caps _ Hc); lia|].
  by exists v.
Qed.

(** C16: outside a delay slot the signal handler does what the other files take
    an exception to be: [test_fault_handler] runs once, with the cause, and the
    instruction is skipped; in any of the ABIs the tests are compiled for, and
    with the failures of the handler passed on. *)
Theorem capsighandler_skips cap_size SIGPROT m c n (h : Z -> Z -> res Z) :
  In cap_size [8; 16; 32] -> context_ok c -> Z.testbit (cause c) 31 = false ->
  Z.land (cf_capcause c) 0xff = 0xff \/ Z.land (cf_capcause c) 0xff < 26 ->
  capsighandler cap_size SIGPROT m (fun _ => h) SIGPROT c n =
    let* (_, s) := fault (Z.shiftr (cf_capcause c) 8) (Machine m n h) in Ok (set_pc c (mc_pc c + 4), faults s).
Proof.
  intros Hcs Hc Hds Hr. unfold capsighandler. rewrite delay_slot_bit by done. cbn [res_bind]. rewrite Hds.
  unfold getCHERIFrame at 1. rewrite (ok_frame _ Hc). cbn [c_assert res_bind].
  destruct (cause_register c Hc Hr) as [r ->]. cbn [res_bind]. rewrite Z.eqb_refl. cbn [c_assert res_bind].
  unfold fault. cbn [test_fault_handler Machine.faults].
  destruct (h (Z.shiftr (cf_capcause c) 8) n) as [n'|e]; [|done]. cbn [res_bind Machine.faults].
  destruct Hc as [Hpc _ _ _ _]. by rewrite sgn_small64 by lia.
Qed.

(** the types of the saved context *)
Record context_wf (c : context) : Prop := {
  cw_pc : - 2 ^ 63 <= mc_pc c < 2 ^ 63;
  cw_regs : length (mc_regs c) = 32%nat;
  cw_values : Forall (fun r => - 2 ^ 63 <= r < 2 ^ 63) (mc_regs c);
  cw_caps : length (cf_regs c) = 28%nat;
}.

(** [c'] is [c] but for the program counters *)
Record same_registers (c c' : context) : Prop := {
  sr_regs : mc_regs c' = mc_regs c;
  sr_cause : cause c' = cause c;
  sr_capcause : cf_capcause c' = cf_capcause c;
  sr_frame : cp2state_sized c' = cp2state_sized c;
  sr_caps : forall i, i <> Z.to_nat pcc_index -> cf_regs c' !! i = cf_regs c !! i;
}.

Definition steps_to (c : context) (r : res (bool * context)) : Prop :=
  forall b c', r = Ok (b, c') -> context_wf c' /\ same_registers c c'.

Lemma steps_bind {A} c (r : res A) k : (forall a, r = Ok a -> steps_to c (k a)) -> steps_to c (res_bind r k).
Proof. intros H b c' Hk. apply res_bind_Ok_inv in Hk as (a & Ha & Hk). by eapply H. Qed.

Lemma steps_same c b : context_wf c -> steps_to c (Ok (b, c)).
Proof. intros Hc b' c' [= <- <-]. split; [done|by split]. Qed.

Lemma steps_pc c b pc : context_wf c -> - 2 ^ 63 <= pc < 2 ^ 63 -> steps_to c (Ok (b, set_pc c pc)).
Proof. intros [_ Hr Hv Hcap] Hpc b' c' [= <- <-]. split; by split. Qed.

Lemma getReg_range cap_size c instr opidx v : context_wf c -> getReg cap_size c instr opidx = Ok v -> - 2 ^ 63 <= v < 2 ^ 63.
Proof.
  intros [_ _ Hv _] H. apply res_bind_Ok_inv in H as (r & _ & H). destruct (r =? 0); [injection H as <-; lia|].
  destruct (mc_regs c !! Z.to_nat r) as [x|] eqn:Hx; [|done]. injection H as <-. by eapply (Forall_lookup_1 _ _ _ _ Hv).
Qed.

Lemma land_lt_pow2 a b k : 0 <= k -> 0 <= a < 2 ^ k -> 0 <= Z.land a b < 2 ^ k.
Proof.
  intros Hk Ha. assert (Hm : Z.land a b = Z.land a b mod 2 ^ k).
  { rewrite <- land_mask by done. rewrite <- Z.land_assoc, (Z.land_comm b), Z.land_assoc, land_mask by done.
    by rewrite Z.mod_small. }
  rewrite Hm. apply Z.mod_pos_bound. by apply Z.pow_pos_nonneg.
Qed.

Lemma getImm_range cap_size instr start len v : 0 <= instr < 2 ^ 32 -> getImm cap_size instr start len = Ok v -> 0 <= v < 2 ^ 32.
Proof.
  intros Hi. unfold getImm. destruct (Z.leb_spec 0 (start - len + 1)) as [Hs|]; [|by rewrite andb_false_r].
  destruct (_ && _ && _); [|done]. intros [= <-]. rewrite Z.shiftr_div_pow2 by lia.
  pose proof (land_lt_pow2 instr (u32 (Z.shiftl (Z.shiftr 0xffffffff (u64 (cap_size - len))) (start - len + 1))) 32 ltac:(lia) Hi).
  assert (0 < 2 ^ (start - len + 1)) by (apply Z.pow_pos_nonneg; lia).
  split; [apply Z.div_pos; lia|]. apply Z.div_lt_upper_bound; nia.
Qed.

Lemma emulate_steps cap_size c pc instr : context_wf c -> 0 <= instr < 2 ^ 32 -> steps_to c (emulate cap_size c pc instr).
Proof.
  intros Hc Hi. pose proof (fun z => sgn_range 64 z ltac:(lia)) as Hrange. change (64 - 1) with 63 in Hrange.
  unfold emulate. apply steps_bind. intros imm _. apply steps_bind. intros regVal _. apply steps_bind. intros regVal2 _.
  cbv zeta. set (tgt := sgn 64 (_ + 4)). set (next := sgn 64 (pc + 8)).
  assert (Hbranch : forall taken : bool, steps_to c (Ok (true, set_pc c (if taken then tgt else next)))).
  { intros taken. apply steps_pc; [done|]. destruct taken; apply Hrange. }
  apply steps_bind. intros op _.
  repeat match goal with
  | |- steps_to _ (if ?b then _ else _) => destruct b
  | |- steps_to _ (Ok (true, set_pc _ (if _ then tgt else next))) => apply Hbranch
  | |- steps_to _ (Ok (_, c)) => by apply steps_same
  | |- steps_to _ (res_bind _ _) => apply steps_bind; intros ? ?
  end.
  - apply steps_pc; [done|]. apply getImm_range in H; [|done].
    pose proof (land_lt_pow2 (Z.shiftl a 2) (Z.shiftl (Z.shiftr pc 28) 28) 34 ltac:(lia)) as Hl.
    rewrite Z.shiftl_mul_pow2 in * by lia. lia.
  - apply steps_pc; [done|]. by eapply getReg_range.
  - match goal with H : getReg _ _ _ _ = Ok _ |- _ => pose proof (getReg_range _ _ _ _ _ Hc H) as Hr end.
    intros b c' [= <- <-]. destruct Hc as [_ Hl Hv Hcap].
    split; [by split; simpl; rewrite ?length_insert|]. split; try done. intros i Hne. simpl.
    by rewrite list_lookup_insert_ne.
Qed.

Lemma be_value_range bs : Forall (fun b => 0 <= b < 256) bs -> 0 <= be_value bs < 256 ^ Z.of_nat (length bs).
Proof.
  induction bs as [|b bs IH] using rev_ind; intros H; [done|]. apply Forall_app in H as [Hbs Hb].
  apply Forall_cons in Hb as [Hb _]. specialize (IH Hbs).
  rewrite be_value_app, length_app, Nat2Z.inj_add, Z.pow_add_r by lia. cbn [length]. change (256 ^ Z.of_nat 1) with 256. lia.
Qed.

(** C21: whatever the handler of the test and the denied instruction do, a
    context the kernel has saved stays one: the signal handler changes the
    program counters only, and they stay in range. *)
Theorem capsighandler_context cap_size SIGPROT m h signo c n c' n' :
  context_wf c -> (forall a, 0 <= read_byte m a < 256) ->
  capsighandler cap_size SIGPROT m h signo c n = Ok (c', n') -> context_wf c' /\ same_registers c c'.
Proof.
  intros Hc Hm. unfold capsighandler. intros H.
  apply res_bind_Ok_inv in H as (ds & _ & H). cbv zeta in H.
  apply res_bind_Ok_inv in H as (? & _ & H). apply res_bind_Ok_inv in H as (r & _ & H).
  apply res_bind_Ok_inv in H as (? & _ & H). apply res_bind_Ok_inv in H as (n1 & _ & H). destruct ds.
  - apply res_bind_Ok_inv in H as (? & _ & H). apply res_bind_Ok_inv in H as ([b c1] & He & H).
    apply res_bind_Ok_inv in H as (? & _ & H). injection H as <- _.
    apply res_bind_Ok_inv in He as (instr & Hf & He).
    assert (Hi : 0 <= instr < 2 ^ 32).
    { apply res_bind_Ok_inv in Hf as (p & _ & Hf). apply res_bind_Ok_inv in Hf as (bs & Hl & Hf). injection Hf as <-.
      unfold load_data in Hl. destruct (access_ok _ _ _ _); [|done]. injection Hl as <-.
      pose proof (be_value_range (read_bytes m (at_off p 0) 4)) as Hbv. rewrite length_read_bytes in Hbv.
      apply Hbv, Forall_forall. intros byte Hx.
      apply list_elem_of_lookup in Hx as [i Hx]. pose proof (lookup_lt_Some _ _ _ Hx) as Hlt.
      rewrite length_read_bytes in Hlt. rewrite lookup_read_bytes in Hx by done. injection Hx as <-. apply Hm. }
    by eapply emulate_steps.
  - injection H as <- _. destruct (steps_pc c true (sgn 64 (mc_pc c + 4)) Hc (sgn_range 64 _ ltac:(lia)) _ _ eq_refl). done.
Qed.

(** *** Examples *)

(** a context at 0x40 of a program at 0x10000, with 7 in register 4 *)
Definition ex_context (pc cause : Z) : context :=
  Context_ pc (<[4%nat := 7]> (replicate 32 0)) cause (replicate 27 null_cap ++ [blk 0x10000 0x1000 0])
    (cheri_fault_length * 256 + 5) true.

Lemma ex_context_ok pc cause : 0 <= pc < 2 ^ 62 -> context_ok (ex_context pc cause).
Proof. intros Hpc. split; [done|done| |done|done]. by repeat (apply Forall_cons; split; [done|]). Qed.

(** [bgtz $4, +3], taken *)
Lemma emulate_branch_correct_witness :
  branch_taken (ex_context 0x40 0) (0x1c800003) = Some true /\
  emulate 32 (ex_context 0x40 0) 0x40 0x1c800003 = Ok (true, set_pc (ex_context 0x40 0) (0x40 + 4 + 4 * 3)).
Proof.
  split; [by vm_compute|]. apply (emulate_branch_correct (ex_context 0x40 0) 0x40 0x1c800003 true);
    [by apply ex_context_ok|lia|lia|by vm_compute|by vm_compute|by vm_compute|by vm_compute].
Defined.

(** [bgez $4, +3], taken, and [j 0x100] *)
Lemma emulate_branch_defects_witness :
  emulate 32 (ex_context 0x40 0) 0x40 0x04810003 = Err EAssert /\
  emulate 32 (ex_context 0x40 0) 0x40 0x08000100 = Err EUndef.
Proof.
  pose proof (ex_context_ok 0x40 0 ltac:(lia)) as Hc.
  pose proof (emulate_branch_defects (ex_context 0x40 0) 0x40 0x04810003 Hc ltac:(lia) ltac:(lia)) as (H1 & _).
  pose proof (emulate_branch_defects (ex_context 0x40 0) 0x40 0x08000100 Hc ltac:(lia) ltac:(lia)) as (_ & H2 & _).
  split; [apply H1; by vm_compute|apply H2; left; by vm_compute].
Defined.

Lemma capsighandler_skips_witness :
  capsighandler 32 34 (Mem ∅ ∅) (fun _ => default_handler) 34 (ex_context 0x40 0) 0 =
  Ok (set_pc (ex_context 0x40 0) 0x44, 1).
Proof.
  rewrite (capsighandler_skips 32 34 (Mem ∅ ∅) (ex_context 0x40 0) 0 default_handler);
    [by vm_compute|simpl; tauto|by apply ex_context_ok|done|right; by vm_compute].
Defined.

Lemma capsighandler_context_witness :
  context_wf (set_pc (ex_context 0x40 0) 0x44) /\ same_registers (ex_context 0x40 0) (set_pc (ex_context 0x40 0) 0x44).
Proof.
  apply (capsighandler_context 32 34 (Mem ∅ ∅) (fun _ => default_handler) 34 _ 0 _ 1).
  - split; [done|done| |done]. by repeat (apply Forall_cons; split; [done|]).
  - done.
  - by vm_compute.
Defined.
