(* ===== verification/TestFramework.v ===== *)
(** * TestFramework: how a test becomes a program.

    [cheri_c_testdecls.h] declares the tests, [cheri_c_test.h] makes a program of
    each, and [test_setup] of [test_runtime.c] installs the signal handler that
    TestRuntime is about.  The system call is a class. *)

From stdpp Require Import strings.
From S2P Require Import Prelude.

(** ** cheri_c_testdecls.h *)

Inductive declaration :=
  | DECLARE_TEST (name desc : string)
  | DECLARE_TEST_FAULT (name desc : string).

Definition testdecls : list declaration := [
  DECLARE_TEST_FAULT "clang_purecap_array" "on-stack array";
  DECLARE_TEST "clang_purecap_atomic" "C11 atomic types";
  DECLARE_TEST_FAULT "clang_purecap_badcall" "calling non-functions";
  DECLARE_TEST "clang_purecap_capcmp" "pointer comparision";
  DECLARE_TEST "clang_purecap_capret" "return addresses are capabilities";
  DECLARE_TEST "clang_purecap_capretaddr" "return address";
  DECLARE_TEST "clang_purecap_funptr" "function pointers";
  DECLARE_TEST "clang_purecap_init" "global pointer initalization";
  DECLARE_TEST_FAULT "clang_purecap_input" "__input qualifier";
  DECLARE_TEST "clang_purecap_intcap" "__intcap_t init, math, comparison";
  DECLARE_TEST "libc_malloc" "malloc";
  DECLARE_TEST "libc_memcpy" "memcpy";
  DECLARE_TEST "libc_memmove" "memmove";
  DECLARE_TEST "clang_purecap_null" "generate NULL pointers";
  DECLARE_TEST_FAULT "clang_purecap_output" "__output qualifier";
  DECLARE_TEST "libc_printf" "printf";
  DECLARE_TEST "libc_qsort" "qsort";
  DECLARE_TEST "libc_setjmp" "setjmp, longjmp";
  DECLARE_TEST "clang_purecap_smallint" "small integer math on pointers";
  DECLARE_TEST "clang_purecap_stack_cap" "os-stack arrays";
  DECLARE_TEST "libc_string" "on stack strings";
  DECLARE_TEST "clang_purecap_int64math" "math on int64_t";
  DECLARE_TEST "clang_purecap_uint64math" "math on uint64_t";
  DECLARE_TEST "clang_purecap_intcapmath" "math on __intcap_t";
  DECLARE_TEST "clang_purecap_uintcapmath" "math on __uintcap_t";
  DECLARE_TEST "clang_purecap_union" "unions with capabilities";
  DECLARE_TEST "clang_purecap_byval_args" "by value function parameters";
  DECLARE_TEST_FAULT "clang_purecap_va_args" "varidac functions";
  DECLARE_TEST "clang_purecap_va_copy" "va_copy copies";
  DECLARE_TEST_FAULT "clang_purecap_va_die" "consume too many varargs";
  DECLARE_TEST_FAULT "clang_purecap_va_list_global" "store a va_list in a global";
  DECLARE_TEST "clang_hybrid_bcopy" "bcopy";
  DECLARE_TEST "clang_hybrid_cast" "capability to array";
  DECLARE_TEST "clang_hybrid_cursor" "capability offset arithmetic";
  DECLARE_TEST_FAULT "clang_hybrid_cursor_trivial" "capability offset faults";
  DECLARE_TEST "clang_hybrid_intcap" "__intcap_t to/from cast and arith";
  DECLARE_TEST "clang_hybrid_load_data" "load data via capability";
  DECLARE_TEST "clang_hybrid_load_double" "load doubles via capability";
  DECLARE_TEST "clang_hybrid_load_float" "load floats via capability";
  DECLARE_TEST "clang_hybrid_memcpy" "memcpy";
  DECLARE_TEST "clang_hybrid_memmove" "memmove";
  DECLARE_TEST "clang_hybrid_opaque" "seal/unseal capability";
  DECLARE_TEST "clang_hybrid_pack" "unaligned store";
  DECLARE_TEST "clang_hybrid_store_data" "store data via capability";
  DECLARE_TEST "clang_hybrid_struct" "capability to static struct";
  DECLARE_TEST "clang_hybrid_sub" "subtract capabilities";
  DECLARE_TEST "clang_hybrid_toy" "summate return"
]%string.

(** ** cheri_c_test.h, without a custom framework

    [#define DECLARE_TEST_FAULT DECLARE_TEST]: each declaration is an array
    [test_NAME_desc] with the characters of the description and a NUL. *)

Definition desc_array (d : declaration) : string * Z :=
  match d with
  | DECLARE_TEST name desc | DECLARE_TEST_FAULT name desc => (name, Z.of_nat (String.length desc) + 1)
  end.

(** the arrays with a given name; a second definition of one is an error *)
Definition desc_arrays (decls : list declaration) (name : string) : list Z :=
  omap (fun d => let '(n, size) := desc_array d in if decide (n = name) then Some size else None) decls.

(** the static assertion of [BEGIN_TEST(name)] *)
Definition begin_test_compiles (decls : list declaration) (name : string) : bool :=
  match desc_arrays decls name with
  | [size] => 0 <? size
  | _ => false
  end.

(** ** test_setup *)

Inductive signal_handler := SIG_DFL | capsighandler.

Record sigaction_t := Sigaction { sa_sigaction : signal_handler; sa_mask : gset Z; sa_flags : Z }.
Definition dispositions := gmap Z sigaction_t.

(** [sigaction(sig, &action, NULL)]: the result and the dispositions of signals *)
Class Sigaction_ok (sigaction : Z -> sigaction_t -> dispositions -> Z * dispositions) : Prop :=
  sigaction_sets sig a d :
    let '(r, d') := sigaction sig a d in d' = if r =? 0 then <[sig := a]> d else d.

Section setup.
(** the numbers of the system's headers *)
Context (SIGPROT SA_SIGINFO : Z).
Context (sigaction : Z -> sigaction_t -> dispositions -> Z * dispositions).

Definition test_setup (d : dispositions) : res dispositions :=
  let action := Sigaction capsighandler ∅ SA_SIGINFO in
  let '(r, d) := sigaction SIGPROT action d in
  if negb (r =? 0) then let* _ := c_assert false in Ok d else Ok d.

(** [int main(void) { test_setup(); body; return 0; }] *)
Definition test_main (body : dispositions -> res unit) (d : dispositions) : res Z :=
  let* d := test_setup d in
  let* _ := body d in
  Ok 0.
End setup.

(** ** What is a program *)

Definition test_names (decls : list declaration) : list string := (fun d => (desc_array d).1) <$> decls.

Lemma desc_arrays_absent decls name : name ∉ test_names decls -> desc_arrays decls name = [].
Proof.
  unfold test_names, desc_arrays. induction decls as [|d decls IH]; [done|].
  cbn [fmap list_fmap omap list_omap]. rewrite not_elem_of_cons. intros [Hne Hnot].
  destruct (desc_array d) as [n size]. cbn [fst] in Hne. rewrite decide_False by congruence. by apply IH.
Qed.

Lemma begin_test_declared decls name : NoDup (test_names decls) ->
  begin_test_compiles decls name = bool_decide (name ∈ test_names decls).
Proof.
  unfold begin_test_compiles, test_names. induction decls as [|d decls IH]; [done|]. intros Hnd.
  cbn [fmap list_fmap] in *. apply NoDup_cons in Hnd as [Hd Hnd]. specialize (IH Hnd).
  unfold desc_arrays. cbn [omap list_omap]. fold (desc_arrays decls name).
  destruct (desc_array d) as [n size] eqn:E. cbn [fst] in *. destruct (decide (n = name)) as [->|Hn].
  - rewrite desc_arrays_absent by exact Hd. rewrite bool_decide_eq_true_2 by left.
    assert (0 < size) by (destruct d; simpl in E; injection E as <- <-; lia). by apply Z.ltb_lt.
  - rewrite IH. apply bool_decide_ext. rewrite elem_of_cons. intuition congruence.
Qed.

(** The declarations name every test once, so that exactly the declared tests
    are programs; [clang_purecap_union_struct] is not one.  A program runs its
    test with [capsighandler] as the handler of SIGPROT, no signal blocked and
    every other signal as it was, or, when the handler cannot be installed,
    fails an assertion before the test starts. *)
Theorem declared_tests_are_programs SIGPROT SA_SIGINFO sigaction `{!Sigaction_ok sigaction} :
  NoDup (test_names testdecls)
  /\ (forall name, begin_test_compiles testdecls name = true <-> name ∈ test_names testdecls)
  /\ begin_test_compiles testdecls "clang_purecap_union_struct" = false
  /\ forall body d, let '(r, d') := sigaction SIGPROT (Sigaction capsighandler ∅ SA_SIGINFO) d in
       test_main SIGPROT SA_SIGINFO sigaction body d
       = (if r =? 0 then let* _ := body (<[SIGPROT := Sigaction capsighandler ∅ SA_SIGINFO]> d) in Ok 0
          else Err EAssert).
Proof.
  assert (Hnd : NoDup (test_names testdecls)) by (refine (bool_decide_unpack _ _); vm_compute; exact I).
  split; [done|]. split; [|split].
  - intros name. rewrite begin_test_declared by done. apply bool_decide_eq_true.
  - rewrite begin_test_declared by done. vm_compute. done.
  - intros body d. unfold test_main, test_setup.
    pose proof (sigaction_sets SIGPROT (Sigaction capsighandler ∅ SA_SIGINFO) d) as Hs.
    destruct (sigaction _ _ d) as [r d']. subst d'. destruct (r =? 0); [|done]. done.
Qed.

Definition sigaction_works (sig : Z) (a : sigaction_t) (d : dispositions) : Z * dispositions := (0, <[sig := a]> d).

#[export] Instance sigaction_works_ok : Sigaction_ok sigaction_works.
Proof. done. Qed.

Lemma declared_tests_are_programs_witness :
  begin_test_compiles testdecls "libc_malloc" = true
  /\ test_main 34 0x40 sigaction_works (fun _ => Ok tt) ∅ = Ok 0.
Proof.
  destruct (declared_tests_are_programs 34 0x40 sigaction_works) as (_ & Hc & _ & Hrun). split.
  - apply Hc. refine (bool_decide_unpack _ _); vm_compute; exact I.
  - exact (Hrun (fun _ => Ok tt) ∅).
Defined.
