(* ===== verification/DmaEngine.v ===== *)
(** * DmaEngine: the interface to the DMA assembler and model.

    [fuzz_dma/] is written against [DMAAsm.h] (the instruction encodings) and
    [DMAModel.h] (the software model of the engine), which are not part of the
    repository.  They are the two classes of this file.  What the encodings
    mean is documented by the decoder of [fuzz_dma/humanise_test.py], which is
    translated here; what an instruction does, by the programs and expected
    results under [tests/dma/]. *)

From S2P Require Import Prelude.

(** ** The decoder of humanise_test.py *)

Inductive dma_op :=
  | SET (reg value : Z)
  | LOOP (reg value : Z)
  | TRANSFER (size : Z)           (* log2 of the bytes moved *)
  | ADD (target value : Z)        (* 0: both, 1: source only, 2: destination only *)
  | SUB (target value : Z)
  | STOP.

#[export] Instance dma_op_eq_dec : EqDecision dma_op.
Proof. solve_decision. Defined.

Definition int_to_macro (instruction : Z) : option dma_op :=
  let opcode := Z.shiftr instruction 28 in
  let reg := Z.land (Z.shiftr instruction 26) 3 in
  let value := Z.land instruction 0x3FFFFFF in
  if opcode =? 0 then Some (SET reg value)
  else if opcode =? 1 then Some (LOOP reg value)
  else if opcode =? 2 then Some (TRANSFER (Z.land (Z.shiftr instruction 25) 7))
  else if opcode =? 4 then Some (ADD reg value)
  else if opcode =? 5 then Some (SUB reg value)
  else if opcode =? 6 then Some STOP
  else None.

(** ** The assembler macros *)

Definition is_reg (r : Z) : Prop := 0 <= r < 4.
Definition is_value (v : Z) : Prop := 0 <= v < 2 ^ 26.
Definition is_target (t : Z) : Prop := 0 <= t < 3.
Definition is_size (ts : Z) : Prop := 0 <= ts < 6.

Class DMAAsm := {
  DMA_OP_SET : Z -> Z -> Z;
  DMA_OP_LOOP : Z -> Z -> Z;
  DMA_OP_TRANSFER : Z -> Z;
  DMA_OP_ADD : Z -> Z -> Z;
  DMA_OP_STOP : Z;
  asm_set r v : is_reg r -> is_value v -> int_to_macro (DMA_OP_SET r v) = Some (SET r v);
  asm_loop r v : is_reg r -> is_value v -> int_to_macro (DMA_OP_LOOP r v) = Some (LOOP r v);
  asm_transfer ts : is_size ts -> int_to_macro (DMA_OP_TRANSFER ts) = Some (TRANSFER ts);
  asm_add t v : is_target t -> is_value v -> int_to_macro (DMA_OP_ADD t v) = Some (ADD t v);
  asm_stop : int_to_macro DMA_OP_STOP = Some STOP;
}.

(** ** The model of the engine *)

Inductive dma_state := DMAM_RUNNING | DMAM_STOPPED.

#[export] Instance dma_state_eq_dec : EqDecision dma_state.
Proof. solve_decision. Defined.

(** [struct dma_thread]: the fields the callers set, and the rest.  The program
    counters are indices into the program. *)
Record dma_thread (rest : Type) := Thread {
  dmat_program_counter : Z;
  dmat_external_program_counter : Z;
  dmat_source : Z;
  dmat_external_source : Z;
  dmat_destination : Z;
  dmat_external_destination : Z;
  dmat_state : dma_state;
  dmat_rest : rest;
}.
Arguments Thread {rest}.
Arguments dmat_program_counter {rest}.
Arguments dmat_external_program_counter {rest}.
Arguments dmat_source {rest}.
Arguments dmat_external_source {rest}.
Arguments dmat_destination {rest}.
Arguments dmat_external_destination {rest}.
Arguments dmat_state {rest}.
Arguments dmat_rest {rest}.

(** the arguments of one call of the transfer callback *)
Record transfer := Transfer { t_source : Z; t_destination : Z; t_size : Z }.

#[export] Instance transfer_eq_dec : EqDecision transfer.
Proof. solve_decision. Defined.

(** The part of a thread that instructions act on. *)
Record view := View { v_pc : Z; v_src : Z; v_dst : Z; v_counter : Z -> Z }.

(** what an instruction does to the view of a running thread, and the transfers
    it requests *)
Definition on_source (tgt : Z) : bool := (tgt =? 0) || (tgt =? 1).
Definition on_dest (tgt : Z) : bool := (tgt =? 0) || (tgt =? 2).

Definition set_counter (f : Z -> Z) (r v : Z) : Z -> Z := fun r' => if r' =? r then v else f r'.

Definition behaves (op : dma_op) (v : view) : view * list transfer * dma_state :=
  let 'View pc s d c := v in
  match op with
  | SET r n => (View (pc + 1) s d (set_counter c r n), [], DMAM_RUNNING)
  | LOOP r off =>
      if 0 <? c r then (View (pc - off) s d (set_counter c r (c r - 1)), [], DMAM_RUNNING)
      else (View (pc + 1) s d c, [], DMAM_RUNNING)
  | TRANSFER ts =>
      (View (pc + 1) (u64 (s + Z.shiftl 1 ts)) (u64 (d + Z.shiftl 1 ts)) c,
       [Transfer s d ts], DMAM_RUNNING)
  | ADD t n =>
      (View (pc + 1) (if on_source t then u64 (s + n) else s)
         (if on_dest t then u64 (d + n) else d) c, [], DMAM_RUNNING)
  | SUB t n =>
      (View (pc + 1) (if on_source t then u64 (s - n) else s)
         (if on_dest t then u64 (d - n) else d) c, [], DMAM_RUNNING)
  | STOP => (v, [], DMAM_STOPPED)
  end.

Class DMAModel := {
  thread_rest : Type;
  loop_counter : thread_rest -> Z -> Z;
  (* one instruction of the program in memory, and the callbacks it makes *)
  dma_execute_instruction : list Z -> dma_thread thread_rest -> dma_thread thread_rest * list transfer;
  dma_step prog t w op :
    dmat_state t = DMAM_RUNNING ->
    prog !! Z.to_nat (dmat_program_counter t) = Some w ->
    int_to_macro w = Some op ->
    let '(t', calls) := dma_execute_instruction prog t in
    let '(v', calls', st') :=
      behaves op (View (dmat_program_counter t) (dmat_source t) (dmat_destination t)
                       (loop_counter (dmat_rest t))) in
    calls = calls' /\ dmat_state t' = st' /\
    (st' = DMAM_RUNNING ->
     dmat_program_counter t' = v_pc v' /\ dmat_source t' = v_src v' /\
     dmat_destination t' = v_dst v' /\ forall r, loop_counter (dmat_rest t') r = v_counter v' r);
}.

(** ** An engine that satisfies the interface *)

(** decoding a word given by its fields *)
Lemma decode_word w opcode r v :
  0 <= opcode < 16 -> 0 <= r < 4 -> 0 <= v < 2 ^ 26 ->
  w = opcode * 2 ^ 28 + r * 2 ^ 26 + v ->
  int_to_macro w =
    if opcode =? 0 then Some (SET r v)
    else if opcode =? 1 then Some (LOOP r v)
    else if opcode =? 2 then Some (TRANSFER ((r * 2 + v / 2 ^ 25) mod 8))
    else if opcode =? 4 then Some (ADD r v)
    else if opcode =? 5 then Some (SUB r v)
    else if opcode =? 6 then Some STOP
    else None.
Proof.
  intros Ho Hr Hv ->. unfold int_to_macro. rewrite !Z.shiftr_div_pow2 by lia.
  change 0x3FFFFFF with (2 ^ 26 - 1). change 3 with (2 ^ 2 - 1). change 7 with (2 ^ 3 - 1).
  rewrite !land_mask by lia.
  replace ((opcode * 2 ^ 28 + r * 2 ^ 26 + v) / 2 ^ 28) with opcode
    by (apply Z.div_unique with (r * 2 ^ 26 + v); lia).
  replace ((opcode * 2 ^ 28 + r * 2 ^ 26 + v) / 2 ^ 26) with (opcode * 4 + r)
    by (apply Z.div_unique with v; lia).
  replace ((opcode * 2 ^ 28 + r * 2 ^ 26 + v) / 2 ^ 25) with (opcode * 8 + r * 2 + v / 2 ^ 25)
    by (rewrite <- Z.div_add_l by lia; f_equal; lia).
  replace ((opcode * 2 ^ 28 + r * 2 ^ 26 + v) mod 2 ^ 26) with v
    by (apply Z.mod_unique with (opcode * 4 + r); lia).
  replace ((opcode * 4 + r) mod 2 ^ 2) with r by (apply Z.mod_unique with opcode; lia).
  replace ((opcode * 8 + r * 2 + v / 2 ^ 25) mod 2 ^ 3) with ((r * 2 + v / 2 ^ 25) mod 8).
  - done.
  - replace (opcode * 8 + r * 2 + v / 2 ^ 25) with (r * 2 + v / 2 ^ 25 + opcode * 8) by lia.
    symmetry. apply (Z_mod_plus_full _ opcode 8).
Qed.

#[export, refine] Instance asm_plain : DMAAsm := {
  DMA_OP_SET r v := r * 2 ^ 26 + v;
  DMA_OP_LOOP r v := 2 ^ 28 + r * 2 ^ 26 + v;
  DMA_OP_TRANSFER ts := 2 * 2 ^ 28 + ts * 2 ^ 25;
  DMA_OP_ADD t v := 4 * 2 ^ 28 + t * 2 ^ 26 + v;
  DMA_OP_STOP := 6 * 2 ^ 28;
}.
Proof.
  - unfold is_reg, is_value. intros. rewrite (decode_word _ 0 r v) by lia. done.
  - unfold is_reg, is_value. intros. rewrite (decode_word _ 1 r v) by lia. done.
  - unfold is_size. intros ts Hts.
    assert (ts = 0 \/ ts = 1 \/ ts = 2 \/ ts = 3 \/ ts = 4 \/ ts = 5) by lia.
    by intuition subst.
  - unfold is_target, is_value. intros. rewrite (decode_word _ 4 t v) by lia. done.
  - done.
Defined.

Definition plain_execute (prog : list Z) (t : dma_thread (Z -> Z)) : dma_thread (Z -> Z) * list transfer :=
  match prog !! Z.to_nat (dmat_program_counter t) ≫= int_to_macro with
  | Some op =>
      let '(v, calls, st) :=
        behaves op (View (dmat_program_counter t) (dmat_source t) (dmat_destination t) (dmat_rest t)) in
      (Thread (v_pc v) (v_pc v) (v_src v) (v_src v) (v_dst v) (v_dst v) st (v_counter v), calls)
  | None => (t, [])
  end.

#[export, refine] Instance model_plain : DMAModel := {
  thread_rest := Z -> Z;
  loop_counter c := c;
  dma_execute_instruction := plain_execute;
}.
Proof.
  intros prog t w op Hrun Hw Hop. unfold plain_execute. rewrite Hw. cbn [mbind option_bind]. rewrite Hop.
  destruct (behaves _ _) as [[v calls] st]. repeat split.
Defined.
