(* ===== verification/DmaGen.v ===== *)
(** * DmaGen: the random DMA program generator.

    [fuzz_dma/dma_test_generation.c]: the pseudo-random numbers, the tree of
    loops, sequences and operations that is grown from them in a queue of open
    nodes.  Nodes live in a heap; an uninitialised field reads as [None] and using its
    value, reading outside an allocation or freeing twice is [EUndef]. *)

From S2P Require Import Prelude DmaEngine.

(** ** Random numbers: the state is [static unsigned long next] *)

Definition RAND_LIMIT := 32767.

Definition myrand (next : Z) : Z * Z :=
  let next := u64 (next * 1103515245 + 12345) in
  (u32 (next / 65536) mod 32768, next).

Definition mysrand (seed : Z) : Z := u32 seed.

(** ** The heap of program nodes *)

Inductive dma_program_node_type := DMAPNT_LOOP | DMAPNT_SEQ | DMAPNT_OP.

Record dma_program_node := Node {
  dmapn_type : option dma_program_node_type;
  dmapn_left_child : option Z;
  dmapn_right_child : option Z;
  dmapn_next_space : option Z;
}.

Record heap := Heap { h_cells : gmap Z dma_program_node; h_brk : Z }.

Definition empty_heap : heap := Heap ∅ 1.

(** [malloc(sizeof(struct dma_program_node))]; addresses are not used twice *)
Definition malloc_node (h : heap) : Z * heap :=
  (h_brk h, Heap (<[h_brk h := Node None None None None]> (h_cells h)) (h_brk h + 1)).

Definition get_node (h : heap) (p : Z) : res dma_program_node := of_opt (h_cells h !! p).

Definition upd_node (h : heap) (p : Z) (f : dma_program_node -> dma_program_node) : res heap :=
  let* n := get_node h p in Ok (Heap (<[p := f n]> (h_cells h)) (h_brk h)).

Definition free_node (h : heap) (p : Z) : res heap :=
  let* _ := get_node h p in Ok (Heap (delete p (h_cells h)) (h_brk h)).

Definition set_type (t : dma_program_node_type) (n : dma_program_node) : dma_program_node :=
  Node (Some t) (dmapn_left_child n) (dmapn_right_child n) (dmapn_next_space n).
Definition set_left (p : Z) (n : dma_program_node) : dma_program_node :=
  Node (dmapn_type n) (Some p) (dmapn_right_child n) (dmapn_next_space n).
Definition set_right (p : Z) (n : dma_program_node) : dma_program_node :=
  Node (dmapn_type n) (dmapn_left_child n) (Some p) (dmapn_next_space n).
Definition set_next_space (p : Z) (n : dma_program_node) : dma_program_node :=
  Node (dmapn_type n) (dmapn_left_child n) (dmapn_right_child n) (Some p).

(** ** [random_dma_program_structure] *)

Definition LENGTH_LIMIT := 12.
Definition SPACE_LIMIT := 10.

(** the locals of the loop; [gs_next_space] is [None] when the pointer copied
    from the last node was never assigned *)
Record gen_state := GenState {
  gs_next : Z;                    (* the random state *)
  gs_heap : heap;
  gs_next_space : option Z;
  gs_last_space : Z;
  gs_spaces : Z;
  gs_program_length : Z;
}.

(** one iteration of the [while] *)
Definition gen_step (st : gen_state) : res gen_state :=
  let '(p, next) := myrand (gs_next st) in
  let space_bias := SPACE_LIMIT - gs_spaces st in
  let length_bias := LENGTH_LIMIT - gs_program_length st in
  let last_space := gs_last_space st in
  let h := gs_heap st in
  let* next_space := of_opt (gs_next_space st) in
  let* (h, last_space, program_length, spaces) :=
    if LENGTH_LIMIT * p >? RAND_LIMIT * length_bias then
      let* h := upd_node h next_space (set_type DMAPNT_OP) in
      Ok (h, last_space, gs_program_length st + 1, gs_spaces st - 1)
    else if LENGTH_LIMIT * SPACE_LIMIT * p >? RAND_LIMIT * length_bias * space_bias then
      let* h := upd_node h next_space (set_type DMAPNT_LOOP) in
      let '(lchild, h) := malloc_node h in
      let* h := upd_node h next_space (set_left lchild) in
      let* h := upd_node h last_space (set_next_space lchild) in
      Ok (h, lchild, gs_program_length st + 2, gs_spaces st)
    else
      let* h := upd_node h next_space (set_type DMAPNT_SEQ) in
      let '(lchild, h) := malloc_node h in
      let '(rchild, h) := malloc_node h in
      let* h := upd_node h next_space (set_left lchild) in
      let* h := upd_node h next_space (set_right rchild) in
      let* h := upd_node h last_space (set_next_space lchild) in
      let* h := upd_node h lchild (set_next_space rchild) in
      Ok (h, rchild, gs_program_length st, gs_spaces st + 1)
  in
  let* n := get_node h next_space in
  Ok (GenState next h (dmapn_next_space n) last_space spaces program_length).

Fixpoint gen_loop (fuel : nat) (st : gen_state) : res gen_state :=
  match fuel with
  | O => Err EFuel
  | S fuel' =>
      if gs_spaces st >? 0 then let* st := gen_step st in gen_loop fuel' st else Ok st
  end.

(** iterations allowed to the loop; [gen_loop_terminates] shows them enough *)
Definition GEN_FUEL : nat := 64.

Definition random_dma_program_structure (seed : Z) (h : heap) : res (Z * gen_state) :=
  let next := mysrand seed in
  let '(root, h) := malloc_node h in
  let* st := gen_loop GEN_FUEL (GenState next h (Some root) root 1 0) in
  Ok (root, st).

(** ** At most two draws in a row are zero *)

(** the random state modulo 2^31, which the draws are made of *)
Definition lcg31 (y : Z) : Z := (y * 1103515245 + 12345) mod 2 ^ 31.

Lemma myrand_31 x : (myrand x).2 mod 2 ^ 31 = lcg31 (x mod 2 ^ 31).
Proof.
  unfold myrand, lcg31, wrap; cbn [snd].
  rewrite Z.mod_mod_divide by (by exists (2 ^ 33)).
  rewrite <- (Zplus_mod_idemp_l (x mod _ * _)), Zmult_mod_idemp_l.
  by rewrite Zplus_mod_idemp_l.
Qed.

Lemma myrand_draw x : (myrand x).1 = (myrand x).2 mod 2 ^ 31 / 65536.
Proof.
  unfold myrand; cbn [fst snd]. set (y := u64 _). unfold wrap.
  rewrite Z.mod_mod_divide by (by exists (2 ^ 17)).
  change 32768 with (2 ^ 15). change 65536 with (2 ^ 16).
  rewrite <- !Z.shiftr_div_pow2, <- !Z.land_ones by lia.
  apply Z.bits_inj'. intros n Hn. rewrite Z.land_spec, !Z.shiftr_spec, Z.land_spec by lia.
  f_equal. rewrite !Z.testbit_ones by lia. lia.
Qed.

Definition two_zero_draws (y : Z) : bool :=
  let f y := Z.land (y * 1103515245 + 12345) 2147483647 in
  let y1 := f y in (y1 <? 65536) && (f y1 <? 65536).

Fixpoint all_from (f : Z -> bool) (n : nat) (y : Z) : bool :=
  match n with
  | O => true
  | S n' => f y && all_from f n' (y + 1)
  end.

Lemma all_from_spec f n y : all_from f n y = true -> forall z, y <= z < y + Z.of_nat n -> f z = true.
Proof.
  revert y; induction n as [|n IH]; intros y Hall z Hz; [lia|].
  simpl in Hall. apply andb_true_iff in Hall as [Hy Hall].
  destruct (decide (z = y)) as [->|]; [done|]. apply (IH (y + 1)); [done|lia].
Qed.

Lemma no_three_zeros_small :
  all_from (fun y => negb (two_zero_draws y)) (Z.to_nat 65536) 0 = true.
Proof. vm_compute. reflexivity. Qed.

Lemma myrand_range x : 0 <= (myrand x).1 < 32768.
Proof. unfold myrand; cbn [fst]. apply Z.mod_pos_bound. lia. Qed.

Lemma no_three_zeros x :
  (myrand x).1 = 0 -> (myrand (myrand x).2).1 = 0 -> (myrand (myrand (myrand x).2).2).1 <> 0.
Proof.
  rewrite !myrand_draw, !(myrand_31 (myrand _).2). set (y := (myrand x).2 mod 2 ^ 31).
  assert (Hy : 0 <= y < 2 ^ 31) by (by apply Z.mod_pos_bound).
  assert (Hl : forall z, 0 <= lcg31 z) by (intros z; by apply Z.mod_pos_bound).
  pose proof (Hl y). pose proof (Hl (lcg31 y)).
  rewrite !Z.div_small_iff by lia. intros H1 H2 H3.
  pose proof (all_from_spec _ _ _ no_three_zeros_small y) as Hall.
  unfold two_zero_draws in Hall. change 2147483647 with (2 ^ 31 - 1) in Hall.
  rewrite !land_mask in Hall by lia. fold (lcg31 y) in Hall. fold (lcg31 (lcg31 y)) in Hall.
  rewrite !(proj2 (Z.ltb_lt _ _)) in Hall by lia.
  discriminate Hall. rewrite Z2Nat.id; lia.
Qed.

(** ** The tree in the heap *)

(** A partly built tree, with the address of every node; a hole is an open
    node, whose type is not decided yet. *)
Inductive shape :=
  | Hole (a : Z)
  | LoopAt (a : Z) (body : shape)
  | SeqAt (a : Z) (l r : shape)
  | OpAt (a : Z).

Definition addr (t : shape) : Z :=
  match t with Hole a | LoopAt a _ | SeqAt a _ _ | OpAt a => a end.

Fixpoint inner (t : shape) : list Z :=
  match t with
  | Hole a => []
  | LoopAt a b => a :: inner b
  | SeqAt a l r => a :: inner l ++ inner r
  | OpAt a => [a]
  end.

Fixpoint holes (t : shape) : list Z :=
  match t with
  | Hole a => [a]
  | LoopAt a b => holes b
  | SeqAt a l r => holes l ++ holes r
  | OpAt a => []
  end.

(** the instructions the decided nodes stand for *)
Fixpoint words (t : shape) : Z :=
  match t with
  | Hole a => 0
  | LoopAt a b => 2 + words b
  | SeqAt a l r => words l + words r
  | OpAt a => 1
  end.

Fixpoint loop_depth (t : shape) : Z :=
  match t with
  | Hole a => 0
  | LoopAt a b => 1 + loop_depth b
  | SeqAt a l r => Z.max (loop_depth l) (loop_depth r)
  | OpAt a => 0
  end.

Fixpoint fill_hole (t : shape) (a : Z) (new : shape) : shape :=
  match t with
  | Hole b => if decide (b = a) then new else t
  | LoopAt b t1 => LoopAt b (fill_hole t1 a new)
  | SeqAt b l r => SeqAt b (fill_hole l a new) (fill_hole r a new)
  | OpAt b => t
  end.

(** the heap holds the decided nodes of [t] *)
Fixpoint rep (h : heap) (t : shape) : Prop :=
  match t with
  | Hole a => True
  | LoopAt a b => (exists n, h_cells h !! a = Some n /\ dmapn_type n = Some DMAPNT_LOOP
                     /\ dmapn_left_child n = Some (addr b)) /\ rep h b
  | SeqAt a l r => (exists n, h_cells h !! a = Some n /\ dmapn_type n = Some DMAPNT_SEQ
                     /\ dmapn_left_child n = Some (addr l) /\ dmapn_right_child n = Some (addr r))
                   /\ rep h l /\ rep h r
  | OpAt a => exists n, h_cells h !! a = Some n /\ dmapn_type n = Some DMAPNT_OP
  end.

Lemma rep_ext h h' t :
  (forall a, a ∈ inner t -> h_cells h' !! a = h_cells h !! a) -> rep h t -> rep h' t.
Proof.
  induction t as [a|a b IH|a l IHl r IHr|a]; simpl; intros Hag; [done|..].
  - intros [(n & Hn & Hx) Hb]. split; [exists n; split; [|done]; rewrite Hag; [done|left]|].
    apply IH; [|done]. intros x Hx'. apply Hag. by right.
  - intros [(n & Hn & Hx) [Hl Hr]]. split; [exists n; split; [|done]; rewrite Hag; [done|left]|].
    split; [apply IHl|apply IHr]; try done; intros x Hx'; apply Hag; right; apply elem_of_app; auto.
  - intros (n & Hn & Hx). exists n. split; [|done]. rewrite Hag; [done|left].
Qed.

Lemma fill_hole_id t a new : a ∉ holes t -> fill_hole t a new = t.
Proof.
  induction t as [b|b t1 IH|b l IHl r IHr|b]; simpl; intros Ha; f_equal; auto.
  - rewrite decide_False; [done|]. set_solver.
  - apply IHl. set_solver.
  - apply IHr. set_solver.
Qed.

Lemma addr_fill_hole t a new : addr new = a -> addr (fill_hole t a new) = addr t.
Proof. intros Hn. destruct t; simpl; try done. case_decide; simpl; congruence. Qed.

Lemma rep_fill_hole h t a new :
  addr new = a -> rep h t -> rep h new -> rep h (fill_hole t a new).
Proof.
  intros Hnew Ht Hr. induction t as [b|b t1 IH|b l IHl r IHr|b]; simpl in *.
  - by case_decide.
  - rewrite addr_fill_hole by done. destruct Ht. auto.
  - rewrite !addr_fill_hole by done. destruct Ht as (? & ? & ?). auto.
  - done.
Qed.

(** What filling one hole does to the addresses and to the size. *)
Lemma fill_hole_lists t a new :
  a ∈ holes t -> NoDup (holes t) ->
  inner (fill_hole t a new) ≡ₚ inner new ++ inner t /\
  a :: holes (fill_hole t a new) ≡ₚ holes new ++ holes t /\
  words (fill_hole t a new) = words new + words t.
Proof.
  induction t as [b|b t1 IH|b l IHl r IHr|b]; simpl; intros Ha Hnd.
  - assert (b = a) as -> by set_solver. rewrite decide_True by done. repeat split; [by rewrite app_nil_r| |lia].
    rewrite (Permutation_app_comm _ [a]). done.
  - destruct (IH Ha Hnd) as (H1 & H2 & H3). repeat split; [|done|lia].
    rewrite H1. by rewrite Permutation_middle.
  - apply NoDup_app in Hnd as (Hl & Hlr & Hr).
    apply elem_of_app in Ha as [Ha|Ha].
    + rewrite (fill_hole_id r) by auto. destruct (IHl Ha Hl) as (H1 & H2 & H3). repeat split; [| |lia].
      * rewrite H1, <- app_assoc. by rewrite Permutation_middle.
      * by rewrite app_comm_cons, H2, app_assoc.
    + rewrite (fill_hole_id l) by (intros ?; by eapply Hlr). destruct (IHr Ha Hr) as (H1 & H2 & H3).
      repeat split; [| |lia].
      * rewrite H1. by rewrite (Permutation_app_swap_app (inner l)), Permutation_middle.
      * rewrite Permutation_middle, H2. by rewrite Permutation_app_swap_app.
  - set_solver.
Qed.

(** ** The queue of open nodes *)

Definition next_of (h : heap) (a : Z) : option Z := h_cells h !! a ≫= dmapn_next_space.

Definition chain (h : heap) (q : list Z) : Prop :=
  forall i x y, q !! i = Some x -> q !! S i = Some y -> next_of h x = Some y.

Lemma chain_snoc h h' q l y :
  chain h q -> NoDup q -> last q = Some l ->
  (forall x, x ∈ q -> x <> l -> next_of h' x = next_of h x) ->
  next_of h' l = Some y -> chain h' (q ++ [y]).
Proof.
  intros Hc Hnd Hl Hsame Hy i x z Hx Hz.
  rewrite last_lookup in Hl.
  destruct (decide (S i < length q)%nat) as [Hi|Hi].
  - rewrite lookup_app_l in Hx, Hz by lia.
    rewrite Hsame; [by eapply Hc|by eapply list_elem_of_lookup_2|].
    intros ->. assert (i = pred (length q)) by (by eapply NoDup_lookup). lia.
  - assert (length (q ++ [y]) = S (length q)) as Hlen by (rewrite length_app; simpl; lia).
    pose proof (lookup_lt_Some _ _ _ Hz). assert (S i = length q) as Hi' by lia.
    rewrite lookup_app_l in Hx by lia. replace (pred (length q)) with i in Hl by lia.
    rewrite lookup_app_r in Hz by lia. rewrite Hi', Nat.sub_diag in Hz. simplify_eq/=. done.
Qed.

Lemma chain_tail h x q : chain h (x :: q) -> chain h q.
Proof. intros Hc i y z Hy Hz. by apply (Hc (S i)). Qed.

Lemma chain_head h x y q : chain h (x :: y :: q) -> next_of h x = Some y.
Proof. intros Hc. by apply (Hc 0%nat). Qed.

Lemma upd_node_alter h p f :
  is_Some (h_cells h !! p) -> upd_node h p f = Ok (Heap (alter f p (h_cells h)) (h_brk h)).
Proof.
  intros [n Hn]. unfold upd_node, get_node. rewrite Hn. simpl.
  do 2 f_equal. apply map_eq. intros x. rewrite lookup_alter, lookup_insert.
  case_decide; [subst; by rewrite Hn|done].
Qed.

(** ** The invariant of the generating loop *)

Section invariant.
Context (h0 : heap) (Hwf0 : forall a, h_brk h0 <= a -> h_cells h0 !! a = None).

Record gen_inv (root : Z) (st : gen_state) (t : shape) (q : list Z) : Prop := {
  gi_root : addr t = root;
  gi_next : match q with [] => True | a :: _ => gs_next_space st = Some a end;
  gi_last : q <> [] -> last q = Some (gs_last_space st);
  gi_spaces : gs_spaces st = Z.of_nat (length q);
  gi_holes : q ≡ₚ holes t;
  gi_nodup : NoDup (inner t ++ q);
  gi_alloc : forall a, h_brk h0 <= a -> is_Some (h_cells (gs_heap st) !! a) <-> a ∈ inner t ++ q;
  gi_above : forall a, a ∈ inner t ++ q -> h_brk h0 <= a < h_brk (gs_heap st);
  gi_frame : forall a, a < h_brk h0 -> h_cells (gs_heap st) !! a = h_cells h0 !! a;
  gi_rep : rep (gs_heap st) t;
  gi_chain : chain (gs_heap st) q;
  gi_length : gs_program_length st = words t;
}.

(** the three outcomes of an iteration, on the draw [p] *)
Inductive choice := Op | Loop | Seq.

Definition choose (p spaces length : Z) : choice :=
  if LENGTH_LIMIT * p >? RAND_LIMIT * (LENGTH_LIMIT - length) then Op
  else if LENGTH_LIMIT * SPACE_LIMIT * p
          >? RAND_LIMIT * (LENGTH_LIMIT - length) * (SPACE_LIMIT - spaces) then Loop
  else Seq.

Definition chosen (c : choice) (spaces length : Z) : Z * Z :=
  match c with
  | Op => (spaces - 1, length + 1)
  | Loop => (spaces, length + 2)
  | Seq => (spaces + 1, length)
  end.

Definition step_choice (st : gen_state) : choice :=
  choose (myrand (gs_next st)).1 (gs_spaces st) (gs_program_length st).

Definition finish (st : gen_state) (a : Z) (h : heap) (last : Z) : gen_state :=
  let '(spaces, length) := chosen (step_choice st) (gs_spaces st) (gs_program_length st) in
  GenState (myrand (gs_next st)).2 h (next_of h a) last spaces length.

(** The heap an iteration leaves. *)
Definition op_heap (h : heap) (a : Z) : heap :=
  Heap (alter (set_type DMAPNT_OP) a (h_cells h)) (h_brk h).
Definition raw : dma_program_node := Node None None None None.
Definition loop_heap (h : heap) (a last : Z) : heap :=
  Heap (alter (set_next_space (h_brk h)) last (alter (set_left (h_brk h)) a
         (<[h_brk h := raw]> (alter (set_type DMAPNT_LOOP) a (h_cells h))))) (h_brk h + 1).
Definition seq_heap (h : heap) (a last : Z) : heap :=
  Heap (alter (set_next_space (h_brk h + 1)) (h_brk h) (alter (set_next_space (h_brk h)) last
         (alter (set_right (h_brk h + 1)) a (alter (set_left (h_brk h)) a
           (<[h_brk h + 1 := raw]> (<[h_brk h := raw]>
             (alter (set_type DMAPNT_SEQ) a (h_cells h)))))))) (h_brk h + 1 + 1).

Ltac allocated :=
  unfold raw in *; cbn [h_cells h_brk];
  repeat (rewrite lookup_alter || rewrite lookup_insert); repeat case_decide;
  rewrite ?fmap_is_Some; first [congruence | by eauto].

Lemma gen_step_eq st a :
  gs_next_space st = Some a -> is_Some (h_cells (gs_heap st) !! a) ->
  is_Some (h_cells (gs_heap st) !! gs_last_space st) ->
  gen_step st = Ok (match step_choice st with
    | Op => finish st a (op_heap (gs_heap st) a) (gs_last_space st)
    | Loop => finish st a (loop_heap (gs_heap st) a (gs_last_space st)) (h_brk (gs_heap st))
    | Seq => finish st a (seq_heap (gs_heap st) a (gs_last_space st)) (h_brk (gs_heap st) + 1)
    end).
Proof.
  intros Hn Ha Hl. unfold gen_step, finish, step_choice, choose.
  destruct (myrand (gs_next st)) as [p nx]. rewrite Hn. cbn [fst snd of_opt res_bind].
  assert (Hget : forall h, is_Some (h_cells h !! a) ->
    get_node h a = Ok (default raw (h_cells h !! a)) /\
    next_of h a = dmapn_next_space (default raw (h_cells h !! a))).
  { intros h [n Hx]. unfold get_node, next_of. by rewrite Hx. }
  destruct (_ >? _).
  - rewrite upd_node_alter by done. cbn [res_bind].
    destruct (Hget (op_heap (gs_heap st) a)) as [Hg Hnx].
    { unfold op_heap; cbn [h_cells h_brk]. by rewrite lookup_alter_eq, fmap_is_Some. }
    unfold op_heap in *. rewrite Hg, Hnx. done.
  - destruct (_ >? _).
    + rewrite upd_node_alter by done. cbn [res_bind malloc_node h_cells h_brk].
      rewrite upd_node_alter by allocated. cbn [res_bind h_cells h_brk].
      rewrite upd_node_alter by allocated. cbn [res_bind h_cells h_brk].
      destruct (Hget (loop_heap (gs_heap st) a (gs_last_space st))) as [Hg Hnx].
      { unfold loop_heap. allocated. }
      unfold loop_heap, raw in *. by rewrite Hg, Hnx.
    + rewrite upd_node_alter by done. cbn [res_bind malloc_node h_cells h_brk].
      rewrite upd_node_alter by allocated. cbn [res_bind h_cells h_brk].
      rewrite upd_node_alter by allocated. cbn [res_bind h_cells h_brk].
      rewrite upd_node_alter by allocated. cbn [res_bind h_cells h_brk].
      rewrite upd_node_alter by allocated. cbn [res_bind h_cells h_brk].
      destruct (Hget (seq_heap (gs_heap st) a (gs_last_space st))) as [Hg Hnx].
      { unfold seq_heap. allocated. }
      unfold seq_heap, raw in *. by rewrite Hg, Hnx.
Qed.

(** *** The heap of an iteration, by address *)

Ltac look := repeat first
  [ rewrite lookup_alter_eq | rewrite lookup_alter_ne by congruence
  | rewrite lookup_insert_eq | rewrite lookup_insert_ne by congruence ].

Lemma lookup_op_heap h a x : x <> a -> h_cells (op_heap h a) !! x = h_cells h !! x.
Proof. intros Hx. unfold op_heap; cbn [h_cells h_brk]. by apply lookup_alter_ne. Qed.

Lemma next_of_op_heap h a x : next_of (op_heap h a) x = next_of h x.
Proof.
  unfold next_of, op_heap; cbn [h_cells h_brk]. rewrite lookup_alter. case_decide; [|done].
  subst. by destruct (h_cells h !! x).
Qed.

Lemma lookup_loop_heap h a l x :
  x <> a -> x <> l -> x <> h_brk h -> h_cells (loop_heap h a l) !! x = h_cells h !! x.
Proof. intros. unfold loop_heap; cbn [h_cells h_brk]. by look. Qed.

Lemma next_of_loop_heap h a l x :
  x <> h_brk h -> next_of (loop_heap h a l) x =
    if decide (x = l) then h_cells h !! x ≫= (fun _ => Some (h_brk h)) else next_of h x.
Proof.
  intros Hx. unfold next_of, loop_heap; cbn [h_cells h_brk].
  destruct (decide (x = a)) as [Ha|Ha], (decide (x = l)) as [Hl|Hl]; rewrite <- ?Ha, <- ?Hl; look;
    by destruct (h_cells h !! x).
Qed.

Lemma lookup_seq_heap h a l x :
  x <> a -> x <> l -> x <> h_brk h -> x <> h_brk h + 1 ->
  h_cells (seq_heap h a l) !! x = h_cells h !! x.
Proof.
  intros. unfold seq_heap; cbn [h_cells h_brk].
  by look.
Qed.

Lemma next_of_seq_heap h a l x :
  x <> h_brk h -> x <> h_brk h + 1 -> next_of (seq_heap h a l) x =
    if decide (x = l) then h_cells h !! x ≫= (fun _ => Some (h_brk h)) else next_of h x.
Proof.
  intros Hx1 Hx2. unfold next_of, seq_heap; cbn [h_cells h_brk].
  destruct (decide (x = a)) as [Ha|Ha], (decide (x = l)) as [Hl|Hl]; rewrite <- ?Ha, <- ?Hl; look;
    by destruct (h_cells h !! x).
Qed.

Lemma rep_loop_heap h a l :
  a < h_brk h -> is_Some (h_cells h !! a) -> rep (loop_heap h a l) (LoopAt a (Hole (h_brk h))).
Proof.
  intros Ha [n Hn]. split; [|done]. unfold loop_heap; cbn [h_cells addr].
  destruct (decide (a = l)) as [<-|Hl]; look;
    rewrite ?lookup_alter_ne, ?lookup_insert_ne by (intros ?; lia || congruence);
    look; rewrite ?lookup_insert_ne by lia; look; rewrite Hn; by eexists.
Qed.

Lemma rep_seq_heap h a l :
  a < h_brk h -> is_Some (h_cells h !! a) ->
  rep (seq_heap h a l) (SeqAt a (Hole (h_brk h)) (Hole (h_brk h + 1))).
Proof.
  intros Ha [n Hn]. split; [|done]. unfold seq_heap; cbn [h_cells addr].
  rewrite lookup_alter_ne by lia.
  destruct (decide (a = l)) as [<-|Hl]; look;
    rewrite ?lookup_insert_ne by lia; look; rewrite Hn; by eexists.
Qed.

(** *** Growing the tree by one node *)

Lemma gen_inv_grow root st st' t a q new news :
  let h := gs_heap st in let h' := gs_heap st' in
  gen_inv root st t (a :: q) ->
  addr new = a -> inner new = [a] -> holes new = news -> NoDup news ->
  (forall x, x ∈ news <-> h_brk h <= x < h_brk h') -> h_brk h <= h_brk h' ->
  (forall x, x <> a -> x <> gs_last_space st -> x < h_brk h \/ h_brk h' <= x ->
     h_cells h' !! x = h_cells h !! x) ->
  is_Some (h_cells h' !! a) -> is_Some (h_cells h' !! gs_last_space st) ->
  (forall x, x ∈ news -> is_Some (h_cells h' !! x)) ->
  rep h' new -> chain h' (a :: q ++ news) ->
  gs_next_space st' = next_of h' a ->
  (q ++ news <> [] -> last (q ++ news) = Some (gs_last_space st')) ->
  gs_spaces st' = gs_spaces st + Z.of_nat (length news) - 1 ->
  gs_program_length st' = gs_program_length st + words new ->
  gen_inv root st' (fill_hole t a new) (q ++ news).
Proof.
  intros h h' [Hroot Hnext Hlast Hsp Hholes Hnd Halloc Habove Hframe Hrep Hchain Hlen]
    Haddr Hinner Hnews Hndn Hin Hbrk Hsame Hsa Hsl Hsn Hrn Hch Hnx Hl Hsp' Hlen'. subst h h'.
  assert (Ha : a ∈ inner t ++ a :: q) by (apply elem_of_app; right; left).
  assert (Hla : gs_last_space st ∈ a :: q) by (by eapply last_Some_elem_of, Hlast).
  assert (Hla' : gs_last_space st ∈ inner t ++ a :: q) by (apply elem_of_app; auto).
  pose proof (Habove _ Ha). pose proof (Habove _ Hla').
  assert (Hnd' := Hnd). apply NoDup_app in Hnd' as (Hndi & Hdisj & Hndq).
  destruct (fill_hole_lists t a new) as (Hi & Hh & Hw).
  { rewrite <- Hholes. left. } { by rewrite <- Hholes. }
  rewrite Hinner in Hi. simpl in Hi. rewrite Hnews, <- Hholes in Hh.
  assert (Hall : inner (fill_hole t a new) ++ q ++ news ≡ₚ (inner t ++ a :: q) ++ news).
  { rewrite Hi. simpl. rewrite <- Permutation_middle. by rewrite !app_assoc. }
  assert (Hmem : forall x, x ∈ inner (fill_hole t a new) ++ q ++ news <->
                           x ∈ inner t ++ a :: q \/ x ∈ news).
  { intros x. rewrite Hall. apply elem_of_app. }
  split.
  - by rewrite addr_fill_hole.
  - destruct (q ++ news) as [|b q'] eqn:Hq; [done|]. rewrite Hnx. by eapply chain_head.
  - done.
  - rewrite Hsp', Hsp, length_app. simpl. lia.
  - apply (Permutation_cons_inv (a := a)). rewrite Hh. by rewrite (Permutation_app_comm news).
  - rewrite Hall. apply NoDup_app. split; [done|]. split; [|done].
    intros x Hx Hx'. apply Hin in Hx'. apply Habove in Hx. lia.
  - intros x Hx. rewrite Hmem.
    destruct (decide (x ∈ news)) as [Hxn|Hxn]; [split; auto|].
    destruct (decide (x = a)) as [->|]; [tauto|].
    destruct (decide (x = gs_last_space st)) as [->|]; [tauto|].
    rewrite Hsame; [rewrite Halloc by done; tauto|done|done|].
    rewrite Hin in Hxn. lia.
  - intros x Hx. apply Hmem in Hx as [Hx%Habove|Hx%Hin]; lia.
  - intros x Hx. rewrite <- Hframe by done. apply Hsame; lia || (intros ->; lia).
  - apply rep_fill_hole; [done| |done]. apply (rep_ext (gs_heap st)); [|done].
    intros x Hx. assert (x ∉ a :: q) by (intros ?; by eapply Hdisj).
    assert (h_brk h0 <= x < h_brk (gs_heap st)) by (apply Habove, elem_of_app; auto).
    apply Hsame; [intros ->|intros ->|lia]; set_solver.
  - by eapply chain_tail.
  - rewrite Hlen', Hlen, Hw. lia.
Qed.

Definition gen_outcome (root : Z) (st st' : gen_state) : Prop :=
  gs_next st' = (myrand (gs_next st)).2
  /\ (gs_spaces st', gs_program_length st')
     = chosen (step_choice st) (gs_spaces st) (gs_program_length st)
  /\ exists t' q', gen_inv root st' t' q'.

Lemma finish_outcome st a h last :
  let st' := finish st a h last in
  gs_next st' = (myrand (gs_next st)).2 /\
  (gs_spaces st', gs_program_length st')
    = chosen (step_choice st) (gs_spaces st) (gs_program_length st) /\
  gs_heap st' = h /\ gs_last_space st' = last /\ gs_next_space st' = next_of h a.
Proof. unfold finish. by destruct (chosen _ _ _). Qed.

Lemma gen_step_op root st t a q :
  gen_inv root st t (a :: q) -> step_choice st = Op ->
  gen_outcome root st (finish st a (op_heap (gs_heap st) a) (gs_last_space st)).
Proof.
  intros HI Hc. pose proof HI as [Hroot Hnext Hlast Hsp Hholes Hnd Halloc Habove Hframe Hrep Hchain Hlen].
  destruct (finish_outcome st a (op_heap (gs_heap st) a) (gs_last_space st)) as (H1 & H2 & H3 & H4 & H5).
  split; [done|]. split; [done|]. rewrite Hc in H2. simpl in H2. injection H2 as Hs' Hl'.
  assert (Ha : is_Some (h_cells (gs_heap st) !! a)).
  { assert (a ∈ inner t ++ a :: q) by (apply elem_of_app; right; left).
    by apply Halloc; [apply Habove|]. }
  exists (fill_hole t a (OpAt a)), (q ++ []).
  assert (Hal : forall x, is_Some (h_cells (gs_heap st) !! x) -> is_Some (h_cells (op_heap (gs_heap st) a) !! x)).
  { intros x Hx. unfold op_heap. cbn [h_cells]. by apply lookup_alter_is_Some. }
  apply (gen_inv_grow root st _ t a q (OpAt a) []); rewrite ?H3, ?H4, ?H5, ?app_nil_r; try done.
  - constructor.
  - unfold op_heap; simpl. intros x. set_solver by lia.
  - intros x Hx _ _. by apply lookup_op_heap.
  - by apply Hal.
  - apply Hal. assert (gs_last_space st ∈ a :: q) by (by eapply last_Some_elem_of, Hlast).
    apply Halloc; [apply Habove|]; apply elem_of_app; auto.
  - set_solver.
  - simpl. unfold op_heap; cbn [h_cells]. rewrite lookup_alter_eq. destruct Ha as [n ->]. by eexists.
  - intros i x y Hx Hy. rewrite next_of_op_heap. by eapply Hchain.
  - intros Hq. destruct q as [|z q']; [done|]. exact (Hlast ltac:(done)).
  - simpl. lia.
Qed.

Lemma gen_inv_members root st t a q :
  gen_inv root st t (a :: q) ->
  is_Some (h_cells (gs_heap st) !! a) /\ is_Some (h_cells (gs_heap st) !! gs_last_space st)
  /\ gs_last_space st ∈ a :: q
  /\ forall x, x ∈ a :: q -> x < h_brk (gs_heap st).
Proof.
  intros [Hroot Hnext Hlast Hsp Hholes Hnd Halloc Habove Hframe Hrep Hchain Hlen].
  assert (Hin : forall x, x ∈ a :: q -> x ∈ inner t ++ a :: q) by (intros; apply elem_of_app; auto).
  assert (gs_last_space st ∈ a :: q) by (by eapply last_Some_elem_of, Hlast).
  repeat split; [..|done|].
  - apply Halloc; [apply Habove|]; apply Hin; left.
  - apply Halloc; [apply Habove|]; auto.
  - intros x Hx. by apply Habove, Hin.
Qed.

Lemma gen_step_loop root st t a q :
  gen_inv root st t (a :: q) -> step_choice st = Loop ->
  gen_outcome root st
    (finish st a (loop_heap (gs_heap st) a (gs_last_space st)) (h_brk (gs_heap st))).
Proof.
  intros HI Hc. destruct (gen_inv_members _ _ _ _ _ HI) as (Ha & Hl & Hlq & Hlt).
  set (h := gs_heap st) in *. set (l := gs_last_space st) in *. set (h' := loop_heap h a l).
  destruct (finish_outcome st a h' (h_brk h)) as (H1 & H2 & H3 & H4 & H5).
  split; [done|]. split; [done|]. rewrite Hc in H2. simpl in H2. injection H2 as Hs' Hl'.
  pose proof (Hlt a ltac:(left)) as Halt. pose proof (Hlt l Hlq) as Hllt.
  exists (fill_hole t a (LoopAt a (Hole (h_brk h)))), (q ++ [h_brk h]).
  apply (gen_inv_grow root st _ t a q (LoopAt a (Hole (h_brk h))) [h_brk h]);
    rewrite ?H3, ?H4, ?H5; try done; fold h l.
  - apply NoDup_singleton.
  - intros x. rewrite list_elem_of_singleton. unfold h', loop_heap; cbn [h_brk]. lia.
  - unfold h', loop_heap; cbn [h_brk]. lia.
  - intros x Hxa Hxl Hx. apply lookup_loop_heap; try done. unfold h', loop_heap in Hx; cbn [h_brk] in Hx. lia.
  - unfold h', loop_heap. allocated.
  - unfold h', loop_heap. allocated.
  - intros x ->%list_elem_of_singleton. unfold h', loop_heap. allocated.
  - by apply rep_loop_heap.
  - apply (chain_snoc h h' (a :: q) l).
    + apply HI.
    + pose proof (gi_nodup _ _ _ _ HI) as Hnd. by apply NoDup_app in Hnd as (_ & _ & ?).
    + by apply (gi_last _ _ _ _ HI).
    + intros x Hx Hxl. unfold h'. rewrite next_of_loop_heap, decide_False; [done..|].
      apply Hlt in Hx. lia.
    + unfold h'. rewrite next_of_loop_heap, decide_True by (done || lia). by destruct Hl as [n ->].
  - intros _. by rewrite last_snoc.
  - simpl. lia.
Qed.

Lemma gen_step_seq root st t a q :
  gen_inv root st t (a :: q) -> step_choice st = Seq ->
  gen_outcome root st
    (finish st a (seq_heap (gs_heap st) a (gs_last_space st)) (h_brk (gs_heap st) + 1)).
Proof.
  intros HI Hc. destruct (gen_inv_members _ _ _ _ _ HI) as (Ha & Hl & Hlq & Hlt).
  set (h := gs_heap st) in *. set (l := gs_last_space st) in *. set (h' := seq_heap h a l).
  destruct (finish_outcome st a h' (h_brk h + 1)) as (H1 & H2 & H3 & H4 & H5).
  split; [done|]. split; [done|]. rewrite Hc in H2. simpl in H2. injection H2 as Hs' Hl'.
  pose proof (Hlt a ltac:(left)) as Halt. pose proof (Hlt l Hlq) as Hllt.
  set (new := SeqAt a (Hole (h_brk h)) (Hole (h_brk h + 1))).
  exists (fill_hole t a new), (q ++ [h_brk h; h_brk h + 1]).
  assert (Hnd : NoDup (a :: q)).
  { pose proof (gi_nodup _ _ _ _ HI) as Hnd. by apply NoDup_app in Hnd as (_ & _ & ?). }
  assert (Hnq : h_brk h ∉ a :: q) by (intros Hx%Hlt; lia).
  apply (gen_inv_grow root st _ t a q new [h_brk h; h_brk h + 1]);
    rewrite ?H3, ?H4, ?H5; try done; fold h l.
  - repeat constructor; set_solver by lia.
  - intros x. rewrite !elem_of_cons, elem_of_nil. unfold h', seq_heap; cbn [h_brk]. lia.
  - unfold h', seq_heap; cbn [h_brk]. lia.
  - intros x Hxa Hxl Hx. unfold h', seq_heap in Hx; cbn [h_brk] in Hx. apply lookup_seq_heap; try done; lia.
  - unfold h', seq_heap. allocated.
  - unfold h', seq_heap. allocated.
  - intros x Hx. rewrite !elem_of_cons, elem_of_nil in Hx.
    destruct Hx as [->|[->|[]]]; unfold h', seq_heap; allocated.
  - by apply rep_seq_heap.
  - replace (a :: q ++ [h_brk h; h_brk h + 1]) with (((a :: q) ++ [h_brk h]) ++ [h_brk h + 1])
      by (by rewrite <- app_assoc).
    apply (chain_snoc h' h' ((a :: q) ++ [h_brk h]) (h_brk h) (h_brk h + 1)).
    + apply (chain_snoc h h' (a :: q) l); try done.
      * apply HI.
      * by apply (gi_last _ _ _ _ HI).
      * intros x Hx Hxl. apply Hlt in Hx. unfold h'.
        rewrite next_of_seq_heap, decide_False by (done || lia). done.
      * unfold h'. rewrite next_of_seq_heap, decide_True by (done || lia). by destruct Hl as [n ->].
    + apply NoDup_app. split; [done|]. split; [|apply NoDup_singleton].
      intros x Hx ->%list_elem_of_singleton. done.
    + by rewrite last_snoc.
    + done.
    + unfold h', next_of, seq_heap; cbn [h_cells]. rewrite lookup_alter_eq.
      rewrite !lookup_alter_ne, lookup_insert_ne, lookup_insert_eq by lia. done.
  - intros _. change (q ++ [h_brk h; h_brk h + 1]) with (q ++ [h_brk h] ++ [h_brk h + 1]).
    by rewrite app_assoc, last_snoc.
  - simpl. lia.
  - simpl. lia.
Qed.

Lemma gen_step_ok root st t a q :
  gen_inv root st t (a :: q) -> exists st', gen_step st = Ok st' /\ gen_outcome root st st'.
Proof.
  intros HI. destruct (gen_inv_members _ _ _ _ _ HI) as (Ha & Hl & _ & _).
  rewrite (gen_step_eq st a) by (done || apply (gi_next _ _ _ _ HI)).
  destruct (step_choice st) eqn:Hc; eexists; (split; [done|]).
  - by eapply gen_step_op.
  - by eapply gen_step_loop.
  - by eapply gen_step_seq.
Qed.

(** *** The loop ends

    While the length is below its limit, sequences stop being chosen once more
    than ten nodes are open.  At the limit only a zero draw opens another node,
    and there are at most two in a row.  Above it every node becomes an
    operation. *)

(** the last [z] draws, which led to the state [x], were zero *)
Definition zeros (z x : Z) : Prop :=
  z = 0 \/ (z = 1 /\ exists w, x = (myrand w).2 /\ (myrand w).1 = 0)
  \/ (z = 2 /\ exists w, x = (myrand (myrand w).2).2 /\ (myrand w).1 = 0
            /\ (myrand (myrand w).2).1 = 0).

Lemma zeros_step z x : zeros z x -> (myrand x).1 = 0 -> z < 2 /\ zeros (z + 1) (myrand x).2.
Proof.
  intros [->|[[-> (w & -> & H1)]|[-> (w & -> & H1 & H2)]]] H.
  - split; [lia|]. right; left. split; [lia|]. by exists x.
  - split; [lia|]. right; right. split; [lia|]. by exists w.
  - by destruct (no_three_zeros w).
Qed.

(** where the loop is, and a bound on the iterations it has left *)
Definition phase (s l x bound : Z) : Prop :=
  (l < 12 /\ s <= 11 /\ bound = 2 * (12 - l) + (11 - s) + 15)
  \/ (l = 12 /\ exists z, zeros z x /\ 0 <= z <= 2 /\ s <= 11 + z /\ bound = s + 4 - 2 * z)
  \/ (13 <= l /\ l + s <= 25 /\ bound = s).

Lemma phase_step s l x b :
  0 < s -> 0 <= l -> phase s l x b ->
  let '(s', l') := chosen (choose (myrand x).1 s l) s l in
  0 <= s' /\ 0 <= l' /\ exists b', phase s' l' (myrand x).2 b' /\ b' < b.
Proof.
  intros Hs Hl Hph. pose proof (myrand_range x) as Hp.
  unfold choose, LENGTH_LIMIT, SPACE_LIMIT, RAND_LIMIT.
  destruct (12 * _ >? _) eqn:E1; [|destruct (12 * 10 * _ >? _) eqn:E2]; cbn [chosen];
    rewrite ?Z.gtb_ltb, ?Z.ltb_lt, ?Z.ltb_ge in *; (split; [lia|split; [lia|]]).
  - destruct Hph as [(H1 & H2 & ->)|[(-> & z & Hz & H2 & H3 & ->)|(H1 & H2 & ->)]].
    + destruct (decide (l = 11)) as [->|].
      * eexists; split; [right; left; split; [done|]; exists 0; repeat split; [by left|lia..] | lia].
      * eexists; split; [left; repeat split; lia | lia].
    + eexists; split; [right; right; repeat split; lia | lia].
    + eexists; split; [right; right; repeat split; lia | lia].
  - destruct Hph as [(H1 & H2 & ->)|[(-> & z & Hz & H2 & H3 & ->)|(H1 & H2 & ->)]].
    + destruct (decide (l = 10)) as [->|].
      * eexists; split; [right; left; split; [done|]; exists 0; repeat split; [by left|lia..] | lia].
      * destruct (decide (l = 11)) as [->|].
        -- eexists; split; [right; right; repeat split; lia | lia].
        -- eexists; split; [left; repeat split; lia | lia].
    + lia.
    + lia.
  - destruct Hph as [(H1 & H2 & ->)|[(-> & z & Hz & H2 & H3 & ->)|(H1 & H2 & ->)]].
    + assert (s <= 10) by nia. eexists; split; [left; repeat split; lia | lia].
    + assert ((myrand x).1 = 0) as H0 by lia.
      destruct (zeros_step z x Hz H0) as [Hz2 Hz'].
      eexists; split; [right; left; split; [done|]; exists (z + 1); repeat split; [done|lia..] | lia].
    + lia.
Qed.

Lemma gen_loop_ok root fuel : forall st t q b,
  gen_inv root st t q -> phase (gs_spaces st) (gs_program_length st) (gs_next st) b ->
  0 <= gs_spaces st -> 0 <= gs_program_length st -> b < Z.of_nat fuel ->
  exists st' t', gen_loop fuel st = Ok st' /\ gen_inv root st' t' [] /\ 0 <= words t' <= 25.
Proof.
  induction fuel as [|fuel IH]; intros st t q b HI Hph Hs Hl Hb; cbn [gen_loop].
  { exfalso. destruct Hph as [(? & ? & ->)|[(? & z & ? & ? & ? & ->)|(? & ? & ->)]]; lia. }
  pose proof (gi_spaces _ _ _ _ HI) as Hsp.
  destruct (_ >? 0) eqn:E; rewrite Z.gtb_ltb, ?Z.ltb_lt, ?Z.ltb_ge in E.
  - destruct q as [|a q]; [simpl in Hsp; lia|].
    destruct (gen_step_ok root st t a q HI) as (st' & -> & Hx & Hsl & t' & q' & HI'). cbn [res_bind].
    pose proof (phase_step _ _ _ _ E Hl Hph) as Hst. unfold step_choice in Hsl. rewrite <- Hsl in Hst.
    destruct Hst as (Hs' & Hl' & b' & Hph' & Hbb). rewrite <- Hx in Hph'.
    eapply IH; try done. lia.
  - destruct q; [|simpl in Hsp; lia]. exists st, t. split; [done|]. split; [done|].
    rewrite <- (gi_length _ _ _ _ HI).
    destruct Hph as [(? & ? & ->)|[(? & z & ? & ? & ? & ->)|(? & ? & ->)]]; lia.
Qed.
End invariant.

(** ** The tree that is generated *)

Definition wf_heap (h : heap) : Prop := forall a, h_brk h <= a -> h_cells h !! a = None.

(** The structure of a seed is a tree of fresh, distinct nodes with no hole. *)
Record grown (h0 : heap) (root : Z) (st : gen_state) (t : shape) : Prop := {
  gr_root : addr t = root;
  gr_closed : holes t = [];
  gr_nodup : NoDup (inner t);
  gr_rep : rep (gs_heap st) t;
  gr_alloc : forall a, h_brk h0 <= a -> is_Some (h_cells (gs_heap st) !! a) <-> a ∈ inner t;
  gr_above : forall a, a ∈ inner t -> h_brk h0 <= a;
  gr_frame : forall a, a < h_brk h0 -> h_cells (gs_heap st) !! a = h_cells h0 !! a;
  gr_brk : h_brk h0 <= h_brk (gs_heap st);
  gr_words : 0 <= words t <= 25;
}.

Lemma structure_grown seed h :
  wf_heap h -> exists root st t, random_dma_program_structure seed h = Ok (root, st) /\ grown h root st t.
Proof.
  intros Hwf. unfold random_dma_program_structure. cbn [malloc_node].
  set (st0 := GenState _ _ _ _ _ _). set (root := h_brk h).
  destruct (gen_loop_ok h Hwf root GEN_FUEL st0 (Hole root) [root] 49) as (st & t & -> & HI & Hw).
  - subst st0 root. split; cbn; try done.
    + apply NoDup_singleton.
    + intros a Ha. rewrite lookup_insert. case_decide; [subst; set_solver|].
      rewrite Hwf by done. split; [by intros []|set_solver].
    + intros a Ha. apply list_elem_of_singleton in Ha as ->. lia.
    + intros a Ha. apply lookup_insert_ne. lia.
  - left. repeat split; cbn; lia.
  - cbn. lia.
  - cbn. lia.
  - unfold GEN_FUEL. lia.
  - cbn [res_bind]. exists root, st, t. split; [done|].
    destruct HI as [Hroot _ _ _ Hholes Hnd Halloc Habove Hframe Hrep _ _].
    apply Permutation_nil_l in Hholes. rewrite app_nil_r in *. split; try done.
    + intros a Ha. by apply Habove.
    + assert (addr t ∈ inner t) as [? ?]%Habove; [|lia].
      destruct t; simpl in *; [done|left|left|left].
Qed.


Lemma words_nonneg t : 0 <= words t.
Proof. induction t; simpl; lia. Qed.

Lemma words_pos t : holes t = [] -> 0 < words t.
Proof.
  induction t as [a|a b IH|a l IHl r IHr|a]; simpl; intros Hc; [done|..|lia].
  - pose proof (words_nonneg b). lia.
  - apply app_nil in Hc as [Hcl Hcr]. specialize (IHl Hcl). specialize (IHr Hcr). lia.
Qed.

(** C13: [random_dma_program_structure] ends for every seed, whatever the heap:
    its loop takes fewer than [GEN_FUEL] iterations, uses no unassigned pointer
    and no field of a node that was not assigned, and leaves a tree of
    fresh, distinct nodes without open ends, of 1 to 25 instructions, and
    every other node as it was.  (The queue of open nodes empties because the
    generator makes at most two zero draws in a row.) *)
Theorem random_structure_total seed h :
  wf_heap h ->
  exists root st t, random_dma_program_structure seed h = Ok (root, st)
    /\ addr t = root /\ holes t = [] /\ NoDup (inner t) /\ rep (gs_heap st) t
    /\ (forall a, a ∈ inner t -> h_cells h !! a = None)
    /\ (forall a, a ∉ inner t -> h_cells (gs_heap st) !! a = h_cells h !! a)
    /\ 1 <= words t <= 25.
Proof.
  intros Hwf. destruct (structure_grown seed h Hwf) as (root & st & t & Hs & Hg).
  exists root, st, t. destruct Hg as [Hroot Hc Hnd Hrep Halloc Habove Hframe Hbrk Hwords].
  pose proof (words_pos t Hc). repeat split; try done; try lia.
  - intros a Ha. by apply Hwf, Habove.
  - intros a Ha. destruct (decide (a < h_brk h)); [by apply Hframe|].
    rewrite (Hwf a) by lia. apply eq_None_not_Some. rewrite Halloc by lia. done.
Qed.

Lemma random_structure_total_witness :
  exists root st t, random_dma_program_structure 37244 empty_heap = Ok (root, st)
    /\ addr t = root /\ holes t = [] /\ NoDup (inner t) /\ rep (gs_heap st) t
    /\ (forall a, a ∈ inner t -> h_cells empty_heap !! a = None)
    /\ (forall a, a ∉ inner t -> h_cells (gs_heap st) !! a = h_cells empty_heap !! a)
    /\ 1 <= words t <= 25.
Proof. apply random_structure_total. intros a Ha. reflexivity. Defined.
