(* ===== verification/DmaProgram.v ===== *)
(** * DmaProgram: the program written from the generated tree.

    The rest of [fuzz_dma/dma_test_generation.c]: the length of the program, the
    recursion that writes it with the draws it makes, the freeing of the tree,
    and [generate_random_dma_program], which puts them together. *)

From S2P Require Import Prelude DmaEngine DmaGen.

(** ** [free_dma_program_structure] and [dma_program_length]

    The recursions follow the pointers; the number of allocated nodes bounds
    their depth. *)

Definition node_fuel (h : heap) : nat := S (size (h_cells h)).

Fixpoint free_structure (fuel : nat) (h : heap) (program : Z) : res heap :=
  match fuel with
  | O => Err EFuel
  | S fuel' =>
      let* n := get_node h program in
      let* t := of_opt (dmapn_type n) in
      match t with
      | DMAPNT_LOOP =>
          let* l := of_opt (dmapn_left_child n) in
          let* h := free_structure fuel' h l in
          free_node h program
      | DMAPNT_SEQ =>
          let* l := of_opt (dmapn_left_child n) in
          let* h := free_structure fuel' h l in
          let* n := get_node h program in
          let* r := of_opt (dmapn_right_child n) in
          let* h := free_structure fuel' h r in
          free_node h program
      | DMAPNT_OP => free_node h program
      end
  end.

Definition free_dma_program_structure (h : heap) (program : Z) : res heap :=
  free_structure (node_fuel h) h program.

Fixpoint program_length (fuel : nat) (h : heap) (program : Z) : res Z :=
  match fuel with
  | O => Err EFuel
  | S fuel' =>
      let* n := get_node h program in
      let* t := of_opt (dmapn_type n) in
      match t with
      | DMAPNT_LOOP =>
          let* l := of_opt (dmapn_left_child n) in
          let* k := program_length fuel' h l in Ok (u32 (2 + k))
      | DMAPNT_SEQ =>
          let* l := of_opt (dmapn_left_child n) in
          let* r := of_opt (dmapn_right_child n) in
          let* k := program_length fuel' h l in
          let* j := program_length fuel' h r in Ok (u32 (k + j))
      | DMAPNT_OP => Ok 1
      end
  end.

Definition dma_program_length (h : heap) (program : Z) : res Z :=
  program_length (node_fuel h) h program.

(** ** [print_dma_structure]: what it prints *)

Fixpoint print_structure (fuel : nat) (h : heap) (structure : Z) : res string :=
  match fuel with
  | O => Err EFuel
  | S fuel' =>
      let* n := get_node h structure in
      let* t := of_opt (dmapn_type n) in
      match t with
      | DMAPNT_LOOP =>
          let* l := of_opt (dmapn_left_child n) in
          let* s := print_structure fuel' h l in Ok ("L(" ++ s ++ ")")%string
      | DMAPNT_SEQ =>
          let* l := of_opt (dmapn_left_child n) in
          let* s1 := print_structure fuel' h l in
          let* r := of_opt (dmapn_right_child n) in
          let* s2 := print_structure fuel' h r in Ok (s1 ++ " " ++ s2)%string
      | DMAPNT_OP => Ok "T"%string
      end
  end.

Definition print_dma_structure (h : heap) (structure : Z) : res string :=
  print_structure (node_fuel h) h structure.

(** ** [write_random_dma_program] *)

Section write.
Context `{DMAAsm}.
(** C leaves open which of the two [myrand()] in the arguments of [DMA_OP_ADD]
    is called first. *)
Context (target_first : bool).

(** the random state, the allocated program, and [*next_pp] as an index *)
Record write_state := WriteState {
  ws_next : Z;
  ws_program : list (option Z);
  ws_index : nat;
}.

(** [**next_pp = w; ++( *next_pp)] *)
Definition put_word (w : Z) (st : write_state) : res write_state :=
  if decide (ws_index st < length (ws_program st))%nat
  then Ok (WriteState (ws_next st) (<[ws_index st := Some w]> (ws_program st)) (S (ws_index st)))
  else Err EUndef.

Definition draw (st : write_state) : Z * write_state :=
  let '(p, next) := myrand (ws_next st) in (p, WriteState next (ws_program st) (ws_index st)).

Fixpoint write_structure (fuel : nat) (h : heap) (structure : Z) (loop_level ts : Z)
    (st : write_state) : res write_state :=
  match fuel with
  | O => Err EFuel
  | S fuel' =>
      let* _ := c_assert (loop_level <=? 4) in
      let* n := get_node h structure in
      let* t := of_opt (dmapn_type n) in
      match t with
      | DMAPNT_LOOP =>
          let '(p, st) := draw st in
          let* st := put_word (DMA_OP_SET loop_level (1 + p mod 5)) st in
          let* body := of_opt (dmapn_left_child n) in
          let* body_length := dma_program_length h body in
          let* st := write_structure fuel' h body (loop_level + 1) ts st in
          put_word (DMA_OP_LOOP loop_level body_length) st
      | DMAPNT_SEQ =>
          let* lchild := of_opt (dmapn_left_child n) in
          let* rchild := of_opt (dmapn_right_child n) in
          let* st := write_structure fuel' h lchild loop_level ts st in
          write_structure fuel' h rchild loop_level ts st
      | DMAPNT_OP =>
          let '(p, st) := draw st in
          if p mod 2 =? 0 then put_word (DMA_OP_TRANSFER ts) st
          else
            let '(p1, st) := draw st in
            let '(p2, st) := draw st in
            let '(target, value) := if target_first then (p1, p2) else (p2, p1) in
            put_word (DMA_OP_ADD (target mod 3) (Z.shiftl 1 ts * (value mod 20))) st
      end
  end.

Definition write_random_dma_program (h : heap) (structure : Z) (loop_level ts : Z)
    (st : write_state) : res write_state :=
  write_structure (node_fuel h) h structure loop_level ts st.

(** ** [generate_random_dma_program]: the program, the heap it leaves, and the
    state of the random numbers, which are not seeded again before the next
    draw *)
Definition generate_program_next (seed : Z) (h : heap) : res (list (option Z) * heap * Z) :=
  let* (structure, gs) := random_dma_program_structure seed h in
  let h := gs_heap gs in
  let* n := dma_program_length h structure in
  let length := u32 (n + 1) in
  let program := replicate (Z.to_nat length) None in
  let '(p, next) := myrand (gs_next gs) in
  let* st := write_random_dma_program h structure 0 (p mod 6) (WriteState next program 0) in
  let* st := put_word DMA_OP_STOP st in
  let* h := free_dma_program_structure h structure in
  Ok (ws_program st, h, ws_next st).

Definition generate_random_dma_program (seed : Z) (h : heap) : res (list (option Z) * heap) :=
  let* (program, h, _) := generate_program_next seed h in Ok (program, h).
End write.

(** ** Length and freeing *)

Fixpoint height (t : shape) : nat :=
  match t with
  | Hole a => 0
  | LoopAt a b => S (height b)
  | SeqAt a l r => S (Nat.max (height l) (height r))
  | OpAt a => 1
  end.

Lemma height_inner t : (height t <= length (inner t))%nat.
Proof. induction t; simpl; rewrite ?length_app; lia. Qed.

Lemma program_length_ok h fuel : forall t,
  rep h t -> holes t = [] -> (height t <= fuel)%nat -> words t < 2 ^ 32 ->
  program_length fuel h (addr t) = Ok (words t).
Proof.
  induction fuel as [|fuel IH]; intros t Hr Hc Hh Hw; [destruct t; simpl in *; lia || done|].
  destruct t as [a|a b|a l r|a]; cbn [program_length addr]; [done|..]; simpl in Hh, Hc, Hw.
  - destruct Hr as [(n & Hn & Ht & Hl) Hb]. unfold get_node. rewrite Hn. cbn [of_opt res_bind].
    rewrite Ht, Hl. cbn [of_opt res_bind]. rewrite IH by (done || lia). cbn [res_bind words].
    pose proof (words_nonneg b). by rewrite wrap_small by lia.
  - destruct Hr as [(n & Hn & Ht & Hl & Hr) [Hrl Hrr]]. apply app_nil in Hc as [Hcl Hcr].
    pose proof (words_nonneg l). pose proof (words_nonneg r).
    unfold get_node. rewrite Hn. cbn [of_opt res_bind].
    rewrite Ht, Hl, Hr. cbn [of_opt res_bind]. rewrite !IH by (done || lia). cbn [res_bind words].
    by rewrite wrap_small by lia.
  - destruct Hr as (n & Hn & Ht). unfold get_node. rewrite Hn. cbn [of_opt res_bind]. by rewrite Ht.
Qed.

(** the text for a tree *)
Fixpoint shape_text (t : shape) : string :=
  match t with
  | Hole a => ""
  | LoopAt a b => "L(" ++ shape_text b ++ ")"
  | SeqAt a l r => shape_text l ++ " " ++ shape_text r
  | OpAt a => "T"
  end.

Lemma print_structure_ok h fuel : forall t,
  rep h t -> holes t = [] -> (height t <= fuel)%nat -> print_structure fuel h (addr t) = Ok (shape_text t).
Proof.
  induction fuel as [|fuel IH]; intros t Hr Hc Hh; [destruct t; simpl in *; lia || done|].
  destruct t as [a|a b|a l r|a]; cbn [print_structure addr]; [done|..]; simpl in Hh, Hc.
  - destruct Hr as [(n & Hn & Ht & Hl) Hb]. unfold get_node. rewrite Hn. cbn [of_opt res_bind].
    rewrite Ht, Hl. cbn [of_opt res_bind]. by rewrite IH by (done || lia).
  - destruct Hr as [(n & Hn & Ht & Hl & Hr) [Hrl Hrr]]. apply app_nil in Hc as [Hcl Hcr].
    unfold get_node. rewrite Hn. cbn [of_opt res_bind]. rewrite Ht, Hl, Hr. cbn [of_opt res_bind].
    rewrite IH by (done || lia). cbn [res_bind]. by rewrite IH by (done || lia).
  - destruct Hr as (n & Hn & Ht). unfold get_node. rewrite Hn. cbn [of_opt res_bind]. by rewrite Ht.
Qed.

Lemma free_structure_ok fuel : forall t h,
  rep h t -> holes t = [] -> NoDup (inner t) -> (height t <= fuel)%nat ->
  exists h', free_structure fuel h (addr t) = Ok h' /\ h_brk h' = h_brk h /\
    forall x, h_cells h' !! x = if decide (x ∈ inner t) then None else h_cells h !! x.
Proof.
  induction fuel as [|fuel IH]; intros t h Hr Hc Hnd Hh; [destruct t; simpl in *; lia || done|].
  destruct t as [a|a b|a l r|a]; cbn [free_structure addr]; [done|..]; simpl in Hh, Hc, Hnd.
  - destruct Hr as [(n & Hn & Ht & Hl) Hb]. apply NoDup_cons in Hnd as [Ha Hnd].
    unfold get_node at 1. rewrite Hn. cbn [of_opt res_bind]. rewrite Ht, Hl. cbn [of_opt res_bind].
    destruct (IH b h) as (h1 & -> & Hb1 & Hx1); [done..|lia|]. cbn [res_bind].
    unfold free_node, get_node. rewrite Hx1, decide_False by done. rewrite Hn. cbn [of_opt res_bind].
    eexists. split; [done|]. split; [done|]. intros x. cbn [h_cells inner].
    rewrite lookup_delete, Hx1. repeat case_decide; set_solver.
  - destruct Hr as [(n & Hn & Ht & Hl & Hr) [Hrl Hrr]]. apply app_nil in Hc as [Hcl Hcr].
    apply NoDup_cons in Hnd as [Ha Hnd]. apply NoDup_app in Hnd as (Hndl & Hdisj & Hndr).
    rewrite elem_of_app in Ha.
    unfold get_node at 1. rewrite Hn. cbn [of_opt res_bind]. rewrite Ht, Hl. cbn [of_opt res_bind].
    destruct (IH l h) as (h1 & -> & Hb1 & Hx1); [done..|lia|]. cbn [res_bind].
    assert (Hn1 : h_cells h1 !! a = Some n) by (rewrite Hx1, decide_False by tauto; done).
    unfold get_node at 1. rewrite Hn1. cbn [of_opt res_bind]. rewrite Hr. cbn [of_opt res_bind].
    destruct (IH r h1) as (h2 & -> & Hb2 & Hx2); [|done..|lia|].
    { apply (rep_ext h); [|done]. intros x Hx. rewrite Hx1, decide_False; [done|].
      intros ?. by eapply Hdisj. }
    cbn [res_bind]. unfold free_node, get_node. rewrite Hx2, decide_False, Hn1 by tauto. cbn [of_opt res_bind].
    eexists. split; [done|]. split; [cbn; congruence|]. intros x. cbn [h_cells inner].
    rewrite lookup_delete, Hx2, Hx1. repeat case_decide; set_solver.
  - destruct Hr as (n & Hn & Ht). unfold get_node. rewrite Hn. cbn [of_opt res_bind]. rewrite Ht.
    cbn [of_opt res_bind]. unfold free_node, get_node. rewrite Hn. cbn [of_opt res_bind].
    eexists. split; [done|]. split; [done|]. intros x. cbn [h_cells inner].
    rewrite lookup_delete. repeat case_decide; set_solver.
Qed.

(** ** What is written *)

(** A program with its random choices made. *)
Inductive prog :=
  | PLoop (n : Z) (body : prog)          (* the body runs [n + 1] times *)
  | PSeq (l r : prog)
  | PTransfer (ts : Z)
  | PAdd (target value : Z).

Fixpoint prog_length (p : prog) : Z :=
  match p with
  | PLoop n b => 2 + prog_length b
  | PSeq l r => prog_length l + prog_length r
  | _ => 1
  end.

Fixpoint nesting (p : prog) : Z :=
  match p with
  | PLoop n b => 1 + nesting b
  | PSeq l r => Z.max (nesting l) (nesting r)
  | _ => 0
  end.

(** the code of a program whose loops use the counters from [level] on *)
Fixpoint code `{DMAAsm} (level : Z) (p : prog) : list Z :=
  match p with
  | PLoop n b => [DMA_OP_SET level n] ++ code (level + 1) b ++ [DMA_OP_LOOP level (prog_length b)]
  | PSeq l r => code level l ++ code level r
  | PTransfer ts => [DMA_OP_TRANSFER ts]
  | PAdd t v => [DMA_OP_ADD t v]
  end.

(** the choices for a tree, drawn in the order in which it is written *)
Fixpoint resolve (target_first : bool) (ts : Z) (t : shape) (x : Z) : prog * Z :=
  match t with
  | LoopAt a b =>
      let '(p, x) := myrand x in
      let '(body, x) := resolve target_first ts b x in (PLoop (1 + p mod 5) body, x)
  | SeqAt a l r =>
      let '(pl, x) := resolve target_first ts l x in
      let '(pr, x) := resolve target_first ts r x in (PSeq pl pr, x)
  | _ =>
      let '(p, x) := myrand x in
      if p mod 2 =? 0 then (PTransfer ts, x)
      else
        let '(p1, x) := myrand x in
        let '(p2, x) := myrand x in
        let '(target, value) := if target_first then (p1, p2) else (p2, p1) in
        (PAdd (target mod 3) (Z.shiftl 1 ts * (value mod 20)), x)
  end.

Lemma resolve_length tf ts t : forall x, holes t = [] ->
  prog_length (resolve tf ts t x).1 = words t.
Proof.
  induction t as [a|a b IH|a l IHl r IHr|a]; intros x Hc; simpl in Hc; [done|..]; cbn [resolve].
  - destruct (myrand x) as [p x1]. specialize (IH x1 Hc).
    destruct (resolve tf ts b x1). simpl in *. lia.
  - apply app_nil in Hc as [Hcl Hcr]. specialize (IHl x Hcl). destruct (resolve tf ts l x) as [pl x1].
    specialize (IHr x1 Hcr). destruct (resolve tf ts r x1). simpl in *. lia.
  - destruct (myrand x) as [p x1]. destruct (_ =? 0); [done|].
    destruct (myrand x1) as [p1 x2], (myrand x2) as [p2 x3]. by destruct tf.
Qed.

Lemma resolve_nesting tf ts t : forall x, holes t = [] ->
  nesting (resolve tf ts t x).1 = loop_depth t.
Proof.
  induction t as [a|a b IH|a l IHl r IHr|a]; intros x Hc; simpl in Hc; [done|..]; cbn [resolve].
  - destruct (myrand x) as [p x1]. specialize (IH x1 Hc).
    destruct (resolve tf ts b x1). simpl in *. lia.
  - apply app_nil in Hc as [Hcl Hcr]. specialize (IHl x Hcl). destruct (resolve tf ts l x) as [pl x1].
    specialize (IHr x1 Hcr). destruct (resolve tf ts r x1). simpl in *. lia.
  - destruct (myrand x) as [p x1]. destruct (_ =? 0); [done|].
    destruct (myrand x1) as [p1 x2], (myrand x2) as [p2 x3]. by destruct tf.
Qed.

Section writing.
Context `{DMAAsm} (tf : bool).

Lemma length_code level p : Z.of_nat (length (code level p)) = prog_length p.
Proof.
  revert level; induction p as [n b IH|l IHl r IHr|ts|t v]; intros level; simpl; [|..|done|done].
  - rewrite length_app. simpl. specialize (IH (level + 1)). lia.
  - rewrite length_app. specialize (IHl level). specialize (IHr level). lia.
Qed.

Definition put_words (ws : list Z) (x : Z) (st : write_state) : write_state :=
  WriteState x (list_inserts (ws_index st) (Some <$> ws) (ws_program st)) (ws_index st + length ws).

Lemma put_word_ok w st :
  (ws_index st < length (ws_program st))%nat -> put_word w st = Ok (put_words [w] (ws_next st) st).
Proof. intros Hi. unfold put_word. rewrite decide_True by done. unfold put_words. simpl. by rewrite Nat.add_1_r. Qed.

Lemma put_words_app ws1 ws2 x1 x2 st :
  put_words ws2 x2 (put_words ws1 x1 st) = put_words (ws1 ++ ws2) x2 st.
Proof.
  unfold put_words; cbn [ws_index ws_program]. rewrite length_app, fmap_app. f_equal; [|lia].
  by rewrite list_inserts_app_l, length_fmap, Nat.add_comm.
Qed.

Lemma put_words_length ws x st : length (ws_program (put_words ws x st)) = length (ws_program st).
Proof. apply length_inserts. Qed.

Lemma loop_depth_nonneg t : 0 <= loop_depth t.
Proof. induction t; simpl; lia. Qed.

(** Writing a tree: its code, when no loop is nested deeper than the four
    counters allow, and a failed assertion otherwise. *)
Lemma write_structure_ok h ts fuel : forall t level st,
  rep h t -> holes t = [] -> (height t <= fuel)%nat ->
  (length (inner t) <= size (h_cells h))%nat -> words t < 2 ^ 32 ->
  Z.of_nat (ws_index st) + words t <= Z.of_nat (length (ws_program st)) ->
  write_structure tf fuel h (addr t) level ts st =
    if level + loop_depth t <=? 4
    then let '(p, x) := resolve tf ts t (ws_next st) in Ok (put_words (code level p) x st)
    else Err EAssert.
Proof.
  induction fuel as [|fuel IH]; intros t level st Hr Hc Hh Hi Hw Hroom;
    [destruct t; simpl in *; lia || done|].
  pose proof (loop_depth_nonneg t) as Hd.
  cbn [write_structure]. destruct (level <=? 4) eqn:Hlev; cbn [c_assert res_bind];
    rewrite ?Z.leb_le, ?Z.leb_gt in Hlev.
  2: { by rewrite (proj2 (Z.leb_gt _ _)) by lia. }
  destruct t as [a|a b|a l r|a]; cbn [addr]; [done|..]; simpl in Hh, Hc, Hw, Hi, Hroom.
  - destruct Hr as [(n & Hn & Ht & Hl) Hb]. unfold get_node. rewrite Hn. cbn [of_opt res_bind].
    rewrite Ht, Hl. cbn [of_opt res_bind]. unfold draw. cbn [resolve loop_depth].
    destruct (myrand (ws_next st)) as [p x] eqn:Hx.
    pose proof (words_nonneg b). pose proof (height_inner b).
    rewrite put_word_ok by (cbn; lia). cbn [res_bind ws_next ws_program ws_index].
    unfold dma_program_length. rewrite program_length_ok; [|done|done|unfold node_fuel; lia|lia]. cbn [res_bind].
    rewrite IH; [|done|done|lia|lia|lia|].
    2: { rewrite put_words_length. cbn. lia. }
    replace (level + 1 + loop_depth b) with (level + (1 + loop_depth b)) by lia.
    cbn [put_words ws_next ws_program ws_index].
    destruct (_ <=? 4); [|done].
    pose proof (resolve_length tf ts b x Hc) as Hlen.
    destruct (resolve tf ts b x) as [pb x2]. cbn [fst] in Hlen. cbn [res_bind].
    rewrite put_word_ok.
    2: { rewrite put_words_length. cbn [put_words ws_index ws_program]. rewrite length_inserts.
         pose proof (length_code (level + 1) pb). simpl. lia. }
    cbn [put_words ws_next]. rewrite <- Hlen. 
    rewrite (put_words_app [_] _ x). rewrite put_words_app. done.
  - destruct Hr as [(n & Hn & Ht & Hl & Hr) [Hrl Hrr]]. apply app_nil in Hc as [Hcl Hcr].
    rewrite length_app in Hi. pose proof (words_nonneg l). pose proof (words_nonneg r).
    unfold get_node. rewrite Hn. cbn [of_opt res_bind].
    rewrite Ht, Hl, Hr. cbn [of_opt res_bind loop_depth resolve].
    rewrite IH by (done || lia).
    pose proof (resolve_length tf ts l (ws_next st) Hcl) as Hlen.
    destruct (level + loop_depth l <=? 4) eqn:El; rewrite ?Z.leb_le, ?Z.leb_gt in El.
    2: { by rewrite (proj2 (Z.leb_gt _ _)) by lia. }
    destruct (resolve tf ts l (ws_next st)) as [pl x1]. cbn [fst] in Hlen. cbn [res_bind].
    rewrite IH; [|done|done|lia|lia|lia|].
    2: { rewrite put_words_length. cbn [put_words ws_index]. pose proof (length_code level pl). lia. }
    destruct (level + loop_depth r <=? 4) eqn:Er; rewrite ?Z.leb_le, ?Z.leb_gt in Er.
    2: { by rewrite (proj2 (Z.leb_gt _ _)) by lia. }
    rewrite (proj2 (Z.leb_le _ _)) by lia. cbn [put_words ws_next].
    destruct (resolve tf ts r x1) as [pr x2]. by rewrite put_words_app.
  - destruct Hr as (n & Hn & Ht). unfold get_node. rewrite Hn. cbn [of_opt res_bind].
    rewrite Ht. cbn [of_opt res_bind loop_depth resolve]. rewrite Z.add_0_r, (proj2 (Z.leb_le _ _)) by done.
    unfold draw. destruct (myrand (ws_next st)) as [p x].
    destruct (_ =? 0); [by rewrite put_word_ok by (cbn; lia)|].
    cbn [ws_next ws_program ws_index]. destruct (myrand x) as [p1 x1].
    cbn [ws_next ws_program ws_index]. destruct (myrand x1) as [p2 x2].
    by destruct tf; rewrite put_word_ok by (cbn; lia).
Qed.
End writing.

(** ** The whole generator *)

(** the nesting of the tree of a seed, its program, and the random state *)
Definition seed_program `{DMAAsm} (tf : bool) (t : shape) (x : Z) : prog :=
  let '(p, x) := myrand x in (resolve tf (p mod 6) t x).1.
Definition seed_next (tf : bool) (t : shape) (x : Z) : Z :=
  let '(p, x) := myrand x in (resolve tf (p mod 6) t x).2.

Lemma size_nodup {A} (m : gmap Z A) (l : list Z) :
  NoDup l -> (forall a, a ∈ l -> is_Some (m !! a)) -> (length l <= size m)%nat.
Proof.
  intros Hnd Hl. rewrite <- (size_list_to_set (C := gset Z)) by done.
  rewrite <- (size_dom (D := gset Z)). apply subseteq_size.
  intros a Ha%elem_of_list_to_set. by apply elem_of_dom, Hl.
Qed.

(** What [generate_random_dma_program] returns, given the tree of the seed. *)
(** every node is allocated, so the fuel of the recursions over the tree is enough *)
Lemma grown_nodes h root st t : grown h root st t -> (length (inner t) <= size (h_cells (gs_heap st)))%nat.
Proof. intros [_ _ Hnd _ Halloc Habove _ _ _]. apply size_nodup; [done|]. intros a Ha. apply Halloc; auto. Qed.

Lemma generate_next_ok `{DMAAsm} tf seed h :
  wf_heap h ->
  exists root st t, random_dma_program_structure seed h = Ok (root, st) /\ grown h root st t /\
    0 < words t <= 25 /\
    generate_program_next tf seed h =
      if loop_depth t <=? 4
      then Ok (Some <$> code 0 (seed_program tf t (gs_next st)) ++ [DMA_OP_STOP],
               Heap (h_cells h) (h_brk (gs_heap st)), seed_next tf t (gs_next st))
      else Err EAssert.
Proof.
  intros Hwf. destruct (structure_grown seed h Hwf) as (root & st & t & Hs & Hg).
  exists root, st, t. split; [done|]. split; [done|]. pose proof (grown_nodes _ _ _ _ Hg) as Hsize.
  pose proof (height_inner t) as Hh. destruct Hg as [Hroot Hc Hnd Hrep Halloc Habove Hframe Hbrk Hwords]. subst root.
  pose proof (words_pos t Hc) as Hpos. split; [lia|].
  unfold generate_program_next. rewrite Hs. cbn [res_bind].
  unfold dma_program_length. rewrite program_length_ok by (done || unfold node_fuel; lia). cbn [res_bind].
  rewrite wrap_small by lia. unfold seed_program, seed_next.
  destruct (myrand (gs_next st)) as [p x].
  unfold write_random_dma_program.
  rewrite write_structure_ok by (done || unfold node_fuel; simpl; rewrite ?length_replicate; lia).
  rewrite Z.add_0_l. destruct (loop_depth t <=? 4); [|done]. cbn [ws_next].
  pose proof (resolve_length tf (p mod 6) t x Hc) as Hlen.
  destruct (resolve tf (p mod 6) t x) as [q x']. cbn [fst] in *. cbn [res_bind].
  pose proof (length_code 0 q) as Hlc.
  rewrite put_word_ok.
  2: { rewrite put_words_length. cbn. rewrite length_replicate. lia. }
  rewrite put_words_app. cbn [res_bind].
  unfold free_dma_program_structure.
  destruct (free_structure_ok (node_fuel (gs_heap st)) t (gs_heap st)) as (h' & -> & Hb & Hx);
    [done..|unfold node_fuel; lia|]. cbn [res_bind put_words ws_program ws_index ws_next].
  do 3 f_equal.
  - rewrite <- (app_nil_r (replicate _ _)), list_inserts_0_r, app_nil_r; [done|].
    rewrite length_fmap, length_app, length_replicate. simpl. lia.
  - destruct h' as [cells brk]. simpl in *. f_equal; [|done].
    apply map_eq. intros a. rewrite Hx. case_decide as Ha.
    + symmetry. apply Hwf. by apply Habove.
    + destruct (decide (a < h_brk h)); [by apply Hframe|]. rewrite (Hwf a) by lia.
      apply eq_None_not_Some. rewrite Halloc by lia. done.
Qed.

Lemma generate_ok `{DMAAsm} tf seed h :
  wf_heap h ->
  exists root st t, random_dma_program_structure seed h = Ok (root, st) /\ grown h root st t /\
    0 < words t <= 25 /\
    generate_random_dma_program tf seed h =
      if loop_depth t <=? 4
      then Ok (Some <$> code 0 (seed_program tf t (gs_next st)) ++ [DMA_OP_STOP],
               Heap (h_cells h) (h_brk (gs_heap st)))
      else Err EAssert.
Proof.
  intros Hwf. destruct (generate_next_ok tf seed h Hwf) as (root & st & t & Hs & Hg & Hw & Hgen).
  exists root, st, t. unfold generate_random_dma_program. rewrite Hgen. by destruct (_ <=? _).
Qed.

(** C11: [generate_random_dma_program] for every seed and either order of the
    two draws of an addition.  If no loop of the seed's tree is nested deeper
    than the four counters, it returns a program of at most 26 words, every
    one of which is assigned: the code of the tree with its random choices,
    and a stop instruction; no write leaves the allocation, and all nodes are
    freed exactly once, so that the heap is as it was.  If the nesting is
    deeper, the assertion on the loop level fails.  Printing the structure
    prints the text of its tree. *)
Theorem generate_random_dma_program_correct `{DMAAsm} tf seed h :
  wf_heap h ->
  exists root st t, random_dma_program_structure seed h = Ok (root, st)
    /\ addr t = root /\ holes t = [] /\ rep (gs_heap st) t
    /\ print_dma_structure (gs_heap st) root = Ok (shape_text t)
    /\ (loop_depth t <= 4 -> exists program h',
          generate_random_dma_program tf seed h = Ok (Some <$> program, h')
          /\ h_cells h' = h_cells h /\ (length program <= 26)%nat
          /\ program = code 0 (seed_program tf t (gs_next st)) ++ [DMA_OP_STOP])
    /\ (4 < loop_depth t -> generate_random_dma_program tf seed h = Err EAssert).
Proof.
  intros Hwf. destruct (generate_ok tf seed h Hwf) as (root & st & t & Hs & Hg & Hw & Hgen).
  exists root, st, t. pose proof (grown_nodes _ _ _ _ Hg) as Hsize.
  pose proof (height_inner t) as Hh. destruct Hg as [Hroot Hc Hnd Hrep _ _ _ _ _].
  split; [done|]. split; [done|]. split; [done|]. split; [done|]. split.
  { rewrite <- Hroot. apply print_structure_ok; [done|done|unfold node_fuel; lia]. }
  split; intros Hd; rewrite Hgen.
  - rewrite (proj2 (Z.leb_le _ _)) by done. eexists _, _. split; [done|]. split; [done|]. split; [|done].
    rewrite length_app. simpl. unfold seed_program. destruct (myrand (gs_next st)) as [p x].
    pose proof (length_code 0 (resolve tf (p mod 6) t x).1). rewrite resolve_length in * by done. lia.
  - by rewrite (proj2 (Z.leb_gt _ _)) by done.
Qed.

Lemma generate_random_dma_program_correct_witness :
  exists root st t, random_dma_program_structure 3 empty_heap = Ok (root, st)
    /\ addr t = root /\ holes t = [] /\ rep (gs_heap st) t
    /\ print_dma_structure (gs_heap st) root = Ok (shape_text t)
    /\ (loop_depth t <= 4 -> exists program h',
          generate_random_dma_program true 3 empty_heap = Ok (Some <$> program, h')
          /\ h_cells h' = h_cells empty_heap /\ (length program <= 26)%nat
          /\ program = code 0 (seed_program true t (gs_next st)) ++ [DMA_OP_STOP])
    /\ (4 < loop_depth t -> generate_random_dma_program true 3 empty_heap = Err EAssert).
Proof. apply (generate_random_dma_program_correct true 3). intros a Ha. reflexivity. Defined.

(** The nesting is not limited by the generator, although the engine has
    four loop counters: for seed 4501 the assertion fails, with every
    assembler and in either order of evaluation. *)
Theorem seed_4501_asserts `{DMAAsm} tf :
  generate_random_dma_program tf 4501 empty_heap = Err EAssert.
Proof. destruct tf; vm_compute; reflexivity. Qed.
