(* ===== verification/DmaTransfers.v ===== *)
(** * DmaTransfers: the transfers a program makes.

    [list_transfers] of [fuzz_dma/dma_test_generation.c] runs a program on the
    model of the engine and links up a record of every transfer.  Its result is
    related to a direct reading of the program's loops and additions. *)

From S2P Require Import Prelude DmaEngine DmaGen DmaProgram.

(** ** The heap of transfer records *)

Definition NULL := 0.

Record transfer_record := TRecord {
  tr_source : option Z;
  tr_destination : option Z;
  tr_size : option Z;
  tr_next : option Z;
}.

Record theap := THeap { th_cells : gmap Z transfer_record; th_brk : Z }.

Definition empty_theap : theap := THeap ∅ 1.

Definition malloc_record (h : theap) : Z * theap :=
  (th_brk h, THeap (<[th_brk h := TRecord None None None None]> (th_cells h)) (th_brk h + 1)).

Definition get_record (h : theap) (p : Z) : res transfer_record := of_opt (th_cells h !! p).

Definition upd_record (h : theap) (p : Z) (f : transfer_record -> transfer_record) : res theap :=
  let* r := get_record h p in Ok (THeap (<[p := f r]> (th_cells h)) (th_brk h)).

Definition free_record (h : theap) (p : Z) : res theap :=
  let* _ := get_record h p in Ok (THeap (delete p (th_cells h)) (th_brk h)).

Definition set_tr_next (p : Z) (r : transfer_record) : transfer_record :=
  TRecord (tr_source r) (tr_destination r) (tr_size r) (Some p).

(** the callback: [context] is the record to append to *)
Definition record_transfer (context : Z) (t : transfer) (h : theap) : res theap :=
  let '(p, h) := malloc_record h in
  let* h := upd_record h context (set_tr_next p) in
  upd_record h p (fun _ =>
    TRecord (Some (t_source t)) (Some (t_destination t)) (Some (t_size t)) (Some NULL)).

Fixpoint record_transfers (context : Z) (ts : list transfer) (h : theap) : res theap :=
  match ts with
  | [] => Ok h
  | t :: ts' => let* h := record_transfer context t h in record_transfers context ts' h
  end.

Section list_transfers.
Context `{DMAModel}.

(** the loop of [list_transfers]; [program] is what the engine reads *)
Fixpoint run_program (fuel : nat) (program : list Z) (thread : dma_thread thread_rest)
    (tail : Z) (h : theap) : res theap :=
  match fuel with
  | O => Err EFuel
  | S fuel' =>
      if decide (dmat_state thread = DMAM_STOPPED) then Ok h
      else
        let '(thread, calls) := dma_execute_instruction program thread in
        let* h := record_transfers tail calls h in
        let* r := get_record h tail in
        let* next := of_opt (tr_next r) in
        run_program fuel' program thread (if next =? NULL then tail else next) h
  end.

(** [rest0] is what the fields of [thread] that are not assigned hold *)
Definition list_transfers (fuel : nat) (program : list Z) (rest0 : thread_rest) (h : theap)
    : res (Z * theap) :=
  let '(false_head, h) := malloc_record h in
  let* h := upd_record h false_head (set_tr_next NULL) in
  let thread := Thread 0 0 0 0 0 0 DMAM_RUNNING rest0 in
  let* h := run_program fuel program thread false_head h in
  let* r := get_record h false_head in
  let* true_head := of_opt (tr_next r) in
  let* h := free_record h false_head in
  Ok (true_head, h).
End list_transfers.

Fixpoint free_transfer_list (fuel : nat) (current : Z) (h : theap) : res theap :=
  match fuel with
  | O => Err EFuel
  | S fuel' =>
      if current =? NULL then Ok h
      else
        let* r := get_record h current in
        let* next := of_opt (tr_next r) in
        let* h := free_record h current in
        free_transfer_list fuel' next h
  end.

(** ** The transfers of a program, read directly *)

(** source address, destination address and the transfers made, in order *)
Definition trace := (Z * Z * list transfer)%type.

Definition then_run (f : Z -> Z -> trace) (a : trace) : trace :=
  let '(s, d, l) := a in
  let '(s', d', l') := f s d in (s', d', l ++ l').

Fixpoint run_n (n : nat) (f : Z -> Z -> trace) (s d : Z) : trace :=
  match n with
  | O => (s, d, [])
  | S n' => let '(s', d', l) := f s d in then_run (fun _ _ => run_n n' f s' d') (s', d', l)
  end.

Fixpoint denote (p : prog) (s d : Z) : trace :=
  match p with
  | PLoop n b => run_n (S (Z.to_nat n)) (denote b) s d
  | PSeq l r => then_run (denote r) (denote l s d)
  | PTransfer ts => (u64 (s + Z.shiftl 1 ts), u64 (d + Z.shiftl 1 ts), [Transfer s d ts])
  | PAdd t v =>
      (if on_source t then u64 (s + v) else s, if on_dest t then u64 (d + v) else d, [])
  end.

(** the arguments of every instruction fit their fields *)
Fixpoint valid (level : Z) (p : prog) : Prop :=
  match p with
  | PLoop n b => is_reg level /\ is_value n /\ is_value (prog_length b) /\ valid (level + 1) b
  | PSeq l r => valid level l /\ valid level r
  | PTransfer ts => is_size ts
  | PAdd t v => is_target t /\ is_value v
  end.

(** ** Running code on the engine *)

Section machine.
Context `{DMAAsm} `{DMAModel}.

(** [n] instructions executed from a running thread, and their transfers *)
Inductive nsteps (program : list Z) : nat -> dma_thread thread_rest -> list transfer ->
    dma_thread thread_rest -> Prop :=
  | nsteps_O t : nsteps program 0 t [] t
  | nsteps_S n t t1 t2 calls l :
      dmat_state t = DMAM_RUNNING -> dma_execute_instruction program t = (t1, calls) ->
      (length calls <= 1)%nat ->
      nsteps program n t1 l t2 -> nsteps program (S n) t (calls ++ l) t2.

Lemma nsteps_app program n m t1 t2 t3 l1 l2 :
  nsteps program n t1 l1 t2 -> nsteps program m t2 l2 t3 -> nsteps program (n + m) t1 (l1 ++ l2) t3.
Proof.
  induction 1 as [|n t t1 t2 calls l Hr He Hc Hs IH]; [done|]. intros H2.
  rewrite <- app_assoc. simpl. eapply nsteps_S; eauto.
Qed.

(** a running thread at an instruction, with its addresses *)
Record at_view (t : dma_thread thread_rest) (pc : nat) (s d : Z) : Prop := {
  av_run : dmat_state t = DMAM_RUNNING;
  av_pc : dmat_program_counter t = Z.of_nat pc;
  av_src : dmat_source t = s;
  av_dst : dmat_destination t = d;
}.

Definition counter (t : dma_thread thread_rest) : Z -> Z := loop_counter (dmat_rest t).

(** one instruction that leaves the thread running *)
Lemma one_step program t pc s d w op v calls :
  at_view t pc s d -> program !! pc = Some w -> int_to_macro w = Some op ->
  behaves op (View (Z.of_nat pc) s d (counter t)) = (v, calls, DMAM_RUNNING) ->
  exists t', nsteps program 1 t calls t' /\ dmat_state t' = DMAM_RUNNING
    /\ dmat_program_counter t' = v_pc v /\ dmat_source t' = v_src v
    /\ dmat_destination t' = v_dst v /\ forall r, counter t' r = v_counter v r.
Proof.
  intros [Hr Hpc Hs Hd] Hw Hop Hb.
  pose proof (dma_step program t w op Hr) as Hstep. rewrite Hpc, Nat2Z.id in Hstep.
  specialize (Hstep Hw Hop). rewrite Hs, Hd in Hstep. unfold counter in Hb. rewrite Hb in Hstep.
  destruct (dma_execute_instruction program t) as [t' calls'] eqn:He.
  destruct Hstep as (-> & Hst & Hv). destruct (Hv eq_refl) as (H1 & H2 & H3 & H4).
  exists t'. split; [|auto]. rewrite <- (app_nil_r calls).
  eapply nsteps_S; [done|done| |constructor].
  clear -Hb. destruct op; simpl in Hb; try case_match; simplify_eq; simpl; lia.
Qed.

(** Code placed at [pc] in the program. *)
Definition placed_at (program : list Z) (pc : nat) (ws : list Z) : Prop :=
  forall i w, ws !! i = Some w -> program !! (pc + i)%nat = Some w.

Lemma placed_app program pc ws1 ws2 :
  placed_at program pc (ws1 ++ ws2) ->
  placed_at program pc ws1 /\ placed_at program (pc + length ws1) ws2.
Proof.
  intros Hp. split; intros i w Hw.
  - apply Hp. by apply lookup_app_l_Some.
  - rewrite <- Nat.add_assoc. apply Hp. rewrite lookup_app_r by lia.
    by replace (length ws1 + i - length ws1)%nat with i by lia.
Qed.

Lemma placed_head program pc w ws : placed_at program pc (w :: ws) -> program !! pc = Some w.
Proof. intros Hp. rewrite <- (Nat.add_0_r pc). by apply Hp. Qed.

(** Code runs: from its first instruction to the one after its last, making the
    transfers it denotes, and without touching the counters of outer loops. *)
Definition runs (program : list Z) (pc len : nat) (level : Z) (f : Z -> Z -> trace) : Prop :=
  forall t s d, at_view t pc s d ->
    let '(s', d', l) := f s d in
    exists n t', nsteps program n t l t' /\ at_view t' (pc + len) s' d'
      /\ forall r, r < level -> counter t' r = counter t r.

(** the body and the jump, with [k] iterations left on the counter *)
Lemma runs_loop program pc len level f k :
  is_reg level -> is_value (Z.of_nat len) ->
  runs program pc len (level + 1) f ->
  program !! (pc + len)%nat = Some (DMA_OP_LOOP level (Z.of_nat len)) ->
  forall t s d, at_view t pc s d -> counter t level = Z.of_nat k ->
    let '(s', d', l) := run_n (S k) f s d in
    exists n t', nsteps program n t l t' /\ at_view t' (pc + len + 1) s' d'
      /\ forall r, r < level -> counter t' r = counter t r.
Proof.
  intros Hreg Hval Hbody Hjump. induction k as [|k IH]; intros t s d Ht Hk;
    pose proof (Hbody t s d Ht) as Hb; cbn [run_n];
    destruct (f s d) as [[s1 d1] l1] eqn:Hf; destruct Hb as (n1 & t1 & Hs1 & Ht1 & Hc1).
  - cbn [then_run]. rewrite app_nil_r.
    destruct (one_step program t1 _ _ _ _ _ (View (Z.of_nat (pc + len) + 1) s1 d1 (counter t1)) []
      Ht1 Hjump (asm_loop _ _ Hreg Hval)) as (t2 & Hs2 & Hr2 & Hpc2 & Hsrc2 & Hdst2 & Hc2).
    { simpl. rewrite Hc1, Hk by lia. done. }
    simpl in *. exists (n1 + 1)%nat, t2. split; [rewrite <- (app_nil_r l1); by eapply nsteps_app|].
    split; [split; try done; lia|]. intros r Hr. rewrite Hc2. apply Hc1. lia.
  - destruct (one_step program t1 _ _ _ _ _
      (View (Z.of_nat pc) s1 d1 (set_counter (counter t1) level (Z.of_nat k))) []
      Ht1 Hjump (asm_loop _ _ Hreg Hval)) as (t2 & Hs2 & Hr2 & Hpc2 & Hsrc2 & Hdst2 & Hc2).
    { cbn [behaves]. rewrite Hc1, Hk by lia. rewrite (proj2 (Z.ltb_lt _ _)) by lia.
      do 3 f_equal; [lia|]. f_equal; lia. }
    simpl in Hpc2, Hsrc2, Hdst2, Hc2.
    assert (Hk2 : counter t2 level = Z.of_nat k).
    { rewrite Hc2. unfold set_counter. by rewrite Z.eqb_refl. }
    specialize (IH t2 s1 d1). 
    assert (at_view t2 pc s1 d1) as Ht2 by (split; done || lia). specialize (IH Ht2 Hk2).
    change (match f s1 d1 with (s', d', l) => then_run (fun _ _ => run_n k f s' d') (s', d', l) end)
      with (run_n (S k) f s1 d1).
    cbn [then_run]. destruct (run_n (S k) f s1 d1) as [[s2 d2] l2].
    destruct IH as (n3 & t3 & Hs3 & Ht3 & Hc3).
    exists (n1 + (1 + n3))%nat, t3. split.
    + eapply nsteps_app; [done|]. change l2 with ([] ++ l2). by eapply nsteps_app.
    + split; [done|]. intros r Hr. rewrite Hc3, Hc2 by done. unfold set_counter.
      rewrite (proj2 (Z.eqb_neq _ _)) by lia. apply Hc1. lia.
Qed.

Lemma code_runs program p : forall level pc,
  valid level p -> placed_at program pc (code level p) ->
  runs program pc (length (code level p)) level (denote p).
Proof.
  induction p as [n b IH|l IHl r IHr|ts|tg v]; intros level pc Hv Hp t s d Ht.
  - destruct Hv as (Hreg & Hn & Hlen & Hvb). cbn [code] in *.
    apply (placed_app program pc [_]) in Hp as [Hset Hp].
    apply placed_app in Hp as [Hbody Hjump]. apply placed_head in Hset, Hjump.
    destruct (one_step program t pc s d _ _ (View (Z.of_nat pc + 1) s d (set_counter (counter t) level n)) []
      Ht Hset (asm_set _ _ Hreg Hn) eq_refl) as (t1 & Hs1 & Hr1 & Hpc1 & Hsrc1 & Hdst1 & Hc1).
    simpl in Hpc1, Hsrc1, Hdst1, Hc1.
    pose proof (length_code (level + 1) b) as Hlc. rewrite <- Hlc in Hlen, Hjump.
    pose proof (runs_loop program (pc + 1) _ level (denote b) (Z.to_nat n) Hreg Hlen
      (IH _ _ Hvb Hbody) Hjump t1 s d) as Hloop.
    assert (Ht1 : at_view t1 (pc + 1) s d) by (split; done || lia).
    specialize (Hloop Ht1). cbn [denote]. destruct (run_n _ _ _ _) as [[s' d'] l].
    destruct Hloop as (m & t2 & Hs2 & Ht2 & Hc2).
    { rewrite Hc1. unfold set_counter. rewrite Z.eqb_refl. unfold is_value in Hn. lia. }
    exists (1 + m)%nat, t2. split; [|split].
    + change l with ([] ++ l). by eapply nsteps_app.
    + rewrite !length_app. simpl. destruct Ht2 as [? Hpc2 ? ?]. split; try done. rewrite Hpc2. lia.
    + intros r Hr. rewrite Hc2, Hc1 by done. unfold set_counter. by rewrite (proj2 (Z.eqb_neq _ _)) by lia.
  - destruct Hv as [Hvl Hvr]. cbn [code] in *. apply placed_app in Hp as [Hpl Hpr].
    specialize (IHl level pc Hvl Hpl t s d Ht). cbn [denote].
    destruct (denote l s d) as [[s1 d1] l1]. destruct IHl as (n1 & t1 & Hs1 & Ht1 & Hc1).
    specialize (IHr level _ Hvr Hpr t1 s1 d1 Ht1). cbn [then_run].
    destruct (denote r s1 d1) as [[s2 d2] l2]. destruct IHr as (n2 & t2 & Hs2 & Ht2 & Hc2).
    exists (n1 + n2)%nat, t2. split; [by eapply nsteps_app|]. split.
    + rewrite length_app, Nat.add_assoc. done.
    + intros r' Hr'. by rewrite Hc2, Hc1.
  - cbn [code] in *. apply placed_head in Hp.
    destruct (one_step program t pc s d _ _ _ _ Ht Hp (asm_transfer _ Hv) eq_refl)
      as (t1 & Hs1 & Hr1 & Hpc1 & Hsrc1 & Hdst1 & Hc1).
    simpl in Hpc1, Hsrc1, Hdst1, Hc1. exists 1%nat, t1.
    split; [done|]. split; [split; try done; simpl; lia|]. intros r _. apply Hc1.
  - destruct Hv as [Htg Hval]. cbn [code] in *. apply placed_head in Hp.
    destruct (one_step program t pc s d _ _ _ _ Ht Hp (asm_add _ _ Htg Hval) eq_refl)
      as (t1 & Hs1 & Hr1 & Hpc1 & Hsrc1 & Hdst1 & Hc1).
    simpl in Hpc1, Hsrc1, Hdst1, Hc1. exists 1%nat, t1.
    split; [done|]. split; [split; try done; simpl; lia|]. intros r _. apply Hc1.
Qed.

(** ** The list that is built *)

(** [ps] are the records after the one at [p], with the transfers they hold *)
Fixpoint links (h : theap) (p : Z) (ps : list Z) (ts : list transfer) : Prop :=
  match ps, ts with
  | [], [] => exists r, th_cells h !! p = Some r /\ tr_next r = Some NULL
  | q :: ps', t :: ts' =>
      (exists r, th_cells h !! p = Some r /\ tr_next r = Some q)
      /\ (exists r, th_cells h !! q = Some r /\ tr_source r = Some (t_source t)
           /\ tr_destination r = Some (t_destination t) /\ tr_size r = Some (t_size t))
      /\ links h q ps' ts'
  | _, _ => False
  end.

(** the list in the heap, its head at the false head, and nothing else changed *)
Record listed (h0 h : theap) (head : Z) (ps : list Z) (ts : list transfer) : Prop := {
  li_links : links h head ps ts;
  li_nodup : NoDup (head :: ps);
  li_alloc : forall a, th_brk h0 <= a -> is_Some (th_cells h !! a) <-> a ∈ head :: ps;
  li_above : forall a, a ∈ head :: ps -> th_brk h0 <= a < th_brk h;
  li_frame : forall a, a < th_brk h0 -> th_cells h !! a = th_cells h0 !! a;
}.

Lemma links_ext h h' ps : forall p ts,
  (forall a, a ∈ p :: ps -> th_cells h' !! a = th_cells h !! a) ->
  links h p ps ts -> links h' p ps ts.
Proof.
  induction ps as [|q ps IH]; intros p [|t ts]; simpl; intros Hsame; try done.
  - intros (r & Hr & Hn). exists r. rewrite Hsame by left. done.
  - intros ((r & Hr & Hn) & (r' & Hr' & Ht) & Hl). repeat split.
    + exists r. rewrite Hsame by left. done.
    + exists r'. rewrite Hsame by (right; left). done.
    + apply IH; [|done]. intros a Ha. apply Hsame. by right.
Qed.

(** appending a record *)
Lemma links_snoc h h' q t ps : forall p ts tail,
  NoDup (p :: ps) -> links h p ps ts -> tail = List.last ps p ->
  (forall a, a ∈ p :: ps -> a <> tail -> th_cells h' !! a = th_cells h !! a) ->
  th_cells h' !! tail = set_tr_next q <$> th_cells h !! tail ->
  th_cells h' !! q = Some (TRecord (Some (t_source t)) (Some (t_destination t)) (Some (t_size t)) (Some NULL)) ->
  links h' p (ps ++ [q]) (ts ++ [t]).
Proof.
  induction ps as [|p1 ps IH]; intros p [|t1 ts] tail Hnd Hl Htl Hsame Htail Hq; simpl in Hl; try done.
  - destruct Hl as (r & Hr & Hn). simpl in *. subst tail. rewrite Hr in Htail.
    split; [by exists (set_tr_next q r)|]. split; [by eexists|by eexists].
  - destruct Hl as ((r & Hr & Hn) & (r1 & Hr1 & Ht1) & Hl).
    apply NoDup_cons in Hnd as [Hp Hnd].
    rewrite last_def_cons in Htl.
    assert (Hin : tail ∈ p1 :: ps) by (rewrite Htl; apply last_def_elem).
    assert (Hne : p <> tail) by (intros ->; done).
    cbn [app links]. split; [|split].
    + exists r. rewrite Hsame; [done|left|done].
    + destruct (decide (p1 = tail)) as [<-|Hp1].
      * exists (set_tr_next q r1). rewrite Htail, Hr1. done.
      * exists r1. rewrite Hsame; [done|right; left|done].
    + apply (IH _ _ tail); try done. intros a Ha. apply Hsame. by right.
Qed.

Lemma links_last h ps : forall p ts, links h p ps ts ->
  exists r, th_cells h !! List.last ps p = Some r /\ tr_next r = Some NULL.
Proof.
  induction ps as [|q ps IH]; intros p [|t ts] Hl; simpl in Hl; try done.
  rewrite last_def_cons. eapply IH. apply Hl.
Qed.

Lemma record_transfer_ok h0 h head ps ts t :
  listed h0 h head ps ts ->
  exists h', record_transfer (List.last ps head) t h = Ok h'
    /\ listed h0 h' head (ps ++ [th_brk h]) (ts ++ [t])
    /\ (exists r, th_cells h' !! List.last ps head = Some r /\ tr_next r = Some (th_brk h)).
Proof.
  intros [Hl Hnd Halloc Habove Hframe].
  set (tail := List.last ps head). set (q := th_brk h).
  assert (Hin : tail ∈ head :: ps) by apply last_def_elem.
  pose proof (Habove _ Hin) as Htail.
  assert (Hq : q ∉ head :: ps) by (intros Hx%Habove; lia).
  destruct (links_last _ _ _ _ Hl) as (r & Hr & Hn). fold tail in Hr.
  unfold record_transfer. cbn [malloc_record]. fold q.
  unfold upd_record, get_record. cbn [th_cells th_brk].
  rewrite lookup_insert_ne, Hr by lia. cbn [of_opt res_bind th_cells th_brk].
  rewrite lookup_insert_ne, lookup_insert_eq by lia. cbn [of_opt res_bind].
  eexists. split; [done|]. split; [split|]; cbn [th_cells th_brk].
  - apply (links_snoc h _ q t ps head ts tail); try done; cbn [th_cells].
    + intros a Ha Hne. assert (a <> q) by (intros ->; done). by rewrite !lookup_insert_ne by done.
    + rewrite lookup_insert_ne, lookup_insert_eq by lia. by rewrite Hr.
    + apply lookup_insert_eq.
  - rewrite app_comm_cons. apply NoDup_app. split; [done|]. split; [|apply NoDup_singleton].
    intros x Hx ->%list_elem_of_singleton. done.
  - intros a Ha. rewrite app_comm_cons, elem_of_app, list_elem_of_singleton, <- Halloc by done.
    rewrite lookup_insert. case_decide; [split; auto|].
    rewrite lookup_insert. case_decide as Ht.
    + subst a. split; [left; by exists r|intros _; by eexists].
    + rewrite lookup_insert_ne by done. split; [auto|]. intros [?|?]; [done|congruence].
  - intros a. rewrite app_comm_cons, elem_of_app, list_elem_of_singleton. intros [Ha%Habove| ->]; lia.
  - intros a Ha. rewrite !lookup_insert_ne by lia. by apply Hframe.
  - exists (set_tr_next q r). rewrite lookup_insert_ne, lookup_insert_eq by lia. done.
Qed.

(** the loop, over the steps of the engine *)
Lemma run_program_steps h0 program n t l t' : nsteps program n t l t' ->
  0 < th_brk h0 ->
  forall head ps ts h, listed h0 h head ps ts ->
  exists ps' h', listed h0 h' head ps' (ts ++ l) /\
    forall fuel, run_program (n + fuel) program t (List.last ps head) h
               = run_program fuel program t' (List.last ps' head) h'.
Proof.
  intros Hsteps Hbrk. induction Hsteps as [t|n t t1 t2 calls l Hr He Hc Hs IH]; intros head ps ts h Hl.
  - exists ps, h. rewrite app_nil_r. auto.
  - destruct calls as [|c [|? ?]]; [| |simpl in Hc; lia].
    + destruct (IH head ps ts h Hl) as (ps' & h' & Hl' & Hrun). exists ps', h'. split; [done|].
      intros fuel. cbn [Nat.add run_program]. rewrite decide_False by congruence. rewrite He.
      cbn [record_transfers res_bind]. destruct (links_last _ _ _ _ (li_links _ _ _ _ _ Hl)) as (r & Hr' & Hn).
      unfold get_record. rewrite Hr'. cbn [of_opt res_bind]. rewrite Hn. cbn [of_opt res_bind]. apply Hrun.
    + destruct (record_transfer_ok h0 h head ps ts c Hl) as (h1 & Hrec & Hl1 & r & Hr1 & Hn).
      destruct (IH head _ _ h1 Hl1) as (ps' & h' & Hl' & Hrun). exists ps', h'.
      rewrite <- app_assoc in Hl'. split; [done|].
      intros fuel. cbn [Nat.add run_program]. rewrite decide_False by congruence. rewrite He.
      cbn [record_transfers]. rewrite Hrec. cbn [res_bind].
      unfold get_record. rewrite Hr1. cbn [of_opt res_bind]. rewrite Hn. cbn [of_opt res_bind].
      assert (th_brk h0 <= th_brk h).
      { pose proof (li_above _ _ _ _ _ Hl head ltac:(left)). lia. }
      rewrite (proj2 (Z.eqb_neq _ _)) by (unfold NULL; lia).
      rewrite <- Hrun. by rewrite List.last_last.
Qed.

(** ** The list that is returned *)

(** a null-terminated list of records *)
Fixpoint record_list (h : theap) (p : Z) (ps : list Z) (ts : list transfer) : Prop :=
  match ps, ts with
  | [], [] => p = NULL
  | q :: ps', t :: ts' =>
      p = q /\ p <> NULL /\ exists r next, th_cells h !! p = Some r
        /\ tr_source r = Some (t_source t) /\ tr_destination r = Some (t_destination t)
        /\ tr_size r = Some (t_size t) /\ tr_next r = Some next /\ record_list h next ps' ts'
  | _, _ => False
  end.

Lemma record_list_of_links h p ps : forall ts r,
  (forall a, a ∈ ps -> a <> NULL) -> links h p ps ts -> th_cells h !! p = Some r ->
  exists next, tr_next r = Some next /\ record_list h next ps ts.
Proof.
  revert p; induction ps as [|q ps IH]; intros p [|t ts] r Hnz Hl Hr; simpl in Hl; try done.
  - destruct Hl as (r' & Hr' & Hn). simplify_eq. by exists NULL.
  - destruct Hl as ((r' & Hr' & Hn) & (rq & Hq & Ht) & Hl). simplify_eq.
    exists q. split; [done|]. split; [done|]. split; [apply Hnz; left|].
    destruct (IH q ts rq) as (next & Hnext & Hrec); [|done..|].
    + intros a Ha. apply Hnz. by right.
    + exists rq, next. destruct Ht as (? & ? & ?). auto 10.
Qed.

Lemma record_list_ext h h' ps : forall p ts,
  (forall a, a ∈ ps -> th_cells h' !! a = th_cells h !! a) -> record_list h p ps ts -> record_list h' p ps ts.
Proof.
  induction ps as [|q ps IH]; intros p [|t ts] Hsame; simpl; try done.
  intros (-> & Hnz & r & next & Hr & H1 & H2 & H3 & H4 & Hl).
  split; [done|]. split; [done|]. exists r, next. rewrite Hsame by left. repeat split; try done.
  apply IH; [|done]. intros a Ha. apply Hsame. by right.
Qed.

Definition wf_theap (h : theap) : Prop :=
  0 < th_brk h /\ forall a, th_brk h <= a -> th_cells h !! a = None.

(** what [list_transfers] leaves: a list of exactly [ts], and nothing else new *)
Record new_list (h0 h : theap) (head : Z) (ps : list Z) (ts : list transfer) : Prop := {
  nl_list : record_list h head ps ts;
  nl_nodup : NoDup ps;
  nl_alloc : forall a, th_brk h0 <= a -> is_Some (th_cells h !! a) <-> a ∈ ps;
  nl_above : forall a, a ∈ ps -> th_brk h0 <= a < th_brk h;
  nl_brk : th_brk h0 <= th_brk h;
  nl_frame : forall a, a < th_brk h0 -> th_cells h !! a = th_cells h0 !! a;
}.

Lemma listed_start h :
  wf_theap h ->
  listed h (THeap (<[th_brk h := TRecord None None None (Some NULL)]> (th_cells h)) (th_brk h + 1))
    (th_brk h) [] [].
Proof.
  intros [Hpos Hwf]. split; cbn [th_cells th_brk].
  - eexists. split; [apply lookup_insert_eq|done].
  - apply NoDup_singleton.
  - intros a Ha. rewrite list_elem_of_singleton, lookup_insert. case_decide; [subst; split; eauto|].
    rewrite Hwf by done. split; [by intros []|by intros ->].
  - intros a ->%list_elem_of_singleton. lia.
  - intros a Ha. apply lookup_insert_ne. lia.
Qed.

Lemma list_transfers_ok p rest0 h :
  wf_theap h -> valid 0 p ->
  exists n head h' ps,
    (forall fuel, (n <= fuel)%nat ->
       list_transfers fuel (code 0 p ++ [DMA_OP_STOP]) rest0 h = Ok (head, h'))
    /\ new_list h h' head ps (denote p 0 0).2.
Proof.
  intros Hwf Hv. set (program := code 0 p ++ [DMA_OP_STOP]).
  assert (Hcode : placed_at program 0 (code 0 p)).
  { intros i w Hw. simpl. by apply lookup_app_l_Some. }
  set (t0 := Thread 0 0 0 0 0 0 DMAM_RUNNING rest0).
  pose proof (code_runs program p 0 0 Hv Hcode t0 0 0) as Hruns.
  destruct (denote p 0 0) as [[s d] l].
  destruct Hruns as (n & t & Hsteps & Ht & _); [done|].
  destruct (run_program_steps h program n t0 l t Hsteps (proj1 Hwf) (th_brk h) [] []
    _ (listed_start h Hwf)) as (ps & h1 & Hl & Hrun).
  simpl in Hl. destruct Hl as [Hl Hnd Halloc Habove Hframe]. destruct Hwf as [Hpos Hwf].
  apply NoDup_cons in Hnd as [Hhead Hnd].
  assert (Hstop : forall fuel, run_program (S (S fuel)) program t (List.last ps (th_brk h)) h1 = Ok h1).
  { intros fuel. cbn [run_program]. destruct Ht as [Hr Hpc Hs Hd].
    rewrite decide_False by congruence.
    pose proof (dma_step program t DMA_OP_STOP STOP Hr) as Hstep.
    rewrite Hpc, Nat2Z.id in Hstep. specialize (Hstep ltac:(apply list_lookup_middle; lia) asm_stop).
    destruct (dma_execute_instruction program t) as [t' calls]. cbn [behaves] in Hstep.
    destruct Hstep as (-> & Hst & _). cbn [record_transfers res_bind].
    destruct (links_last _ _ _ _ Hl) as (r & Hr' & Hn). unfold get_record. rewrite Hr'.
    cbn [of_opt res_bind]. rewrite Hn. cbn [of_opt res_bind]. by rewrite decide_True. }
  assert (Hh : exists r, th_cells h1 !! th_brk h = Some r) by (apply Halloc; [lia|left]).
  destruct Hh as (r & Hr).
  assert (Hnz : forall a, a ∈ ps -> a <> NULL).
  { intros a Ha. pose proof (Habove a ltac:(by right)). unfold NULL. lia. }
  destruct (record_list_of_links h1 (th_brk h) ps l r Hnz Hl Hr) as (head & Hn & Hrec).
  exists (n + 2)%nat, head, (THeap (delete (th_brk h) (th_cells h1)) (th_brk h1)), ps. split.
  - intros fuel Hf. unfold list_transfers. cbn [malloc_record].
    unfold upd_record, get_record at 1. cbn [th_cells th_brk]. rewrite lookup_insert_eq.
    cbn [of_opt res_bind set_tr_next tr_source tr_destination tr_size]. rewrite insert_insert_eq.
    replace fuel with (n + S (S (fuel - n - 2)))%nat by lia. cbn [List.last] in Hrun.
    fold t0. rewrite Hrun, Hstop. cbn [res_bind]. unfold get_record. rewrite Hr. cbn [of_opt res_bind].
    rewrite Hn. cbn [of_opt res_bind]. unfold free_record, get_record. rewrite Hr. done.
  - split; cbn [th_cells].
    + apply (record_list_ext h1); [|done]. intros a Ha. cbn [th_cells]. apply lookup_delete_ne.
      by intros <-.
    + done.
    + intros a Ha. rewrite lookup_delete. case_decide as Hd.
      * subst. split; [by intros []|done].
      * rewrite Halloc by done. rewrite elem_of_cons. split; [|auto]. intros [?|?]; [congruence|done].
    + intros a Ha. by apply Habove; right.
    + cbn [th_brk]. pose proof (Habove (th_brk h) ltac:(left)). lia.
    + intros a Ha. rewrite lookup_delete_ne by lia. by apply Hframe.
Qed.

Lemma new_list_wf h0 h head ps ts : wf_theap h0 -> new_list h0 h head ps ts -> wf_theap h.
Proof.
  intros [Hpos Hwf] [_ _ Halloc Habove Hbrk _]. split; [lia|]. intros a Ha.
  apply eq_None_not_Some. rewrite Halloc by lia. intros Hin%Habove. lia.
Qed.

Lemma free_list_ok ps : forall h p ts fuel,
  NoDup ps -> record_list h p ps ts -> (length ps < fuel)%nat ->
  exists h', free_transfer_list fuel p h = Ok h' /\ th_brk h' = th_brk h /\
    forall a, th_cells h' !! a = if decide (a ∈ ps) then None else th_cells h !! a.
Proof.
  induction ps as [|q ps IH]; intros h p [|t ts] [|fuel] Hnd Hl Hf; simpl in Hl, Hf; try done; try lia.
  - subst p. cbn [free_transfer_list]. rewrite Z.eqb_refl. exists h. split; [done|]. split; [done|].
    intros a. by rewrite decide_False by (by intros ?%elem_of_nil).
  - destruct Hl as (-> & Hnz & r & next & Hr & _ & _ & _ & Hn & Hl).
    apply NoDup_cons in Hnd as [Hq Hnd]. cbn [free_transfer_list].
    rewrite (proj2 (Z.eqb_neq _ _)) by done. unfold free_record, get_record.
    rewrite Hr. cbn [of_opt res_bind]. rewrite Hn. cbn [of_opt res_bind].
    destruct (IH (THeap (delete q (th_cells h)) (th_brk h)) next ts fuel) as (h' & -> & Hb & Hx);
      [done| |lia|].
    + apply (record_list_ext h); [|done]. intros a Ha. cbn [th_cells]. apply lookup_delete_ne.
      by intros <-.
    + exists h'. split; [done|]. split; [done|]. intros a. rewrite Hx. cbn [th_cells].
      rewrite lookup_delete. repeat case_decide; set_solver.
Qed.
End machine.

(** ** Generated programs *)

Lemma shiftl_pow ts : 0 <= ts -> Z.shiftl 1 ts = 2 ^ ts.
Proof. intros H. by rewrite Z.shiftl_mul_pow2, Z.mul_1_l. Qed.

Lemma size_bytes ts : is_size ts -> 1 <= Z.shiftl 1 ts <= 32.
Proof.
  intros [H1 H2]. rewrite shiftl_pow by lia.
  pose proof (Z.pow_le_mono_r 2 0 ts). pose proof (Z.pow_le_mono_r 2 ts 5). lia.
Qed.

Lemma resolve_valid tf ts t : forall level x,
  is_size ts -> holes t = [] -> 0 <= level -> level + loop_depth t <= 4 -> words t < 2 ^ 26 ->
  valid level (resolve tf ts t x).1.
Proof.
  intros level x Hts. revert level x.
  induction t as [a|a b IH|a l IHl r IHr|a]; intros level x Hc Hlev Hd Hw; simpl in Hc; [done|..];
    simpl in Hd, Hw; cbn [resolve].
  - pose proof (loop_depth_nonneg b). destruct (myrand x) as [p x1].
    pose proof (resolve_length tf ts b x1 Hc) as Hlen. pose proof (words_nonneg b).
    specialize (IH (level + 1) x1 Hc). destruct (resolve tf ts b x1) as [pb x2]. cbn [fst] in *.
    cbn [valid]. unfold is_reg, is_value. pose proof (Z.mod_pos_bound p 5 ltac:(lia)).
    repeat split; try lia. apply IH; lia.
  - apply app_nil in Hc as [Hcl Hcr]. pose proof (words_nonneg l). pose proof (words_nonneg r).
    specialize (IHl level x Hcl). destruct (resolve tf ts l x) as [pl x1].
    specialize (IHr level x1 Hcr). destruct (resolve tf ts r x1) as [pr x2].
    cbn [fst valid] in *. split; [apply IHl|apply IHr]; lia.
  - destruct (myrand x) as [p x1]. destruct (_ =? 0); [done|].
    destruct (myrand x1) as [p1 x2], (myrand x2) as [p2 x3].
    assert (Hadd : forall v u, is_target (v mod 3) /\ is_value (Z.shiftl 1 ts * (u mod 20))).
    { intros v u. pose proof (size_bytes ts Hts). pose proof (Z.mod_pos_bound v 3 ltac:(lia)).
      pose proof (Z.mod_pos_bound u 20 ltac:(lia)). unfold is_target, is_value. split; [lia|nia]. }
    destruct tf; apply Hadd.
Qed.

Lemma draw_size p : is_size (p mod 6).
Proof. unfold is_size. apply Z.mod_pos_bound. lia. Qed.

Lemma seed_program_valid `{DMAAsm} tf t x :
  holes t = [] -> loop_depth t <= 4 -> words t <= 25 -> valid 0 (seed_program tf t x).
Proof.
  intros Hc Hd Hw. unfold seed_program. destruct (myrand x) as [p x1].
  apply resolve_valid; try lia; [apply draw_size|done].
Qed.

(** C12: [list_transfers] on the code of any program whose arguments fit: with
    enough fuel it returns, whatever the thread's unassigned fields hold; the
    list in memory is the transfers the program denotes, in order and with
    their addresses; the false head is freed and nothing else is changed; and
    [free_transfer_list] then gives back exactly the list. *)
Theorem list_transfers_correct `{DMAAsm} `{DMAModel} p rest0 h :
  wf_theap h -> valid 0 p ->
  exists n head h' ps,
    (forall fuel, (n <= fuel)%nat ->
       list_transfers fuel (code 0 p ++ [DMA_OP_STOP]) rest0 h = Ok (head, h'))
    /\ record_list h' head ps (denote p 0 0).2
    /\ (forall a, a ∉ ps -> th_cells h' !! a = th_cells h !! a)
    /\ exists h'', free_transfer_list (S (length ps)) head h' = Ok h'' /\ th_cells h'' = th_cells h.
Proof.
  intros Hwf Hv. destruct (list_transfers_ok p rest0 h Hwf Hv) as (n & head & h' & ps & Hrun & Hnew).
  exists n, head, h', ps. destruct Hnew as [Hl Hnd Halloc Habove Hbrk Hframe]. destruct Hwf as [_ Hwf].
  assert (Hsame : forall a, a ∉ ps -> th_cells h' !! a = th_cells h !! a).
  { intros a Ha. destruct (decide (a < th_brk h)); [by apply Hframe|].
    rewrite (Hwf a) by lia. apply eq_None_not_Some. rewrite Halloc by lia. done. }
  repeat split; try done.
  destruct (free_list_ok ps h' head _ (S (length ps)) Hnd Hl) as (h'' & Hf & _ & Hx); [lia|].
  exists h''. split; [done|]. apply map_eq. intros a. rewrite Hx. case_decide as Ha; [|by apply Hsame].
  symmetry. by apply Hwf, Habove.
Qed.

Lemma list_transfers_correct_witness :
  let p := PLoop 3 (PSeq (PTransfer 2) (PAdd 1 4)) in
  exists n head h' ps,
    (forall fuel, (n <= fuel)%nat ->
       list_transfers fuel (code 0 p ++ [DMA_OP_STOP]) ((fun _ => 7) : @thread_rest model_plain) empty_theap = Ok (head, h'))
    /\ record_list h' head ps [Transfer 0 0 2; Transfer 8 4 2; Transfer 16 8 2; Transfer 24 12 2]
    /\ (forall a, a ∉ ps -> th_cells h' !! a = th_cells empty_theap !! a)
    /\ exists h'', free_transfer_list (S (length ps)) head h' = Ok h''
                   /\ th_cells h'' = th_cells empty_theap.
Proof.
  apply (list_transfers_correct (PLoop 3 (PSeq (PTransfer 2) (PAdd 1 4))) ((fun _ => 7) : @thread_rest model_plain) empty_theap).
  - split; reflexivity.
  - repeat split; discriminate.
Defined.
