(* ===== verification/DmaTest.v ===== *)
(** * DmaTest: the tests that are generated for the DMA engine.

    [print_test_information] of [fuzz_dma/generate_dma_test.c] prints a program,
    assignments that number the bytes its transfers read, and assertions that
    the bytes they write carry the same numbers; [test_template.c] runs the
    program between the two.  The output is a list of the pieces printed, and
    the theorem is that an engine that makes the transfers of the model passes
    every test. *)

From S2P Require Import Prelude DmaEngine DmaGen DmaProgram DmaTransfers.

(** ** What is printed: one constructor per format string *)

Inductive item :=
  | Word (w : Z)                    (* "0x%08x" *)
  | Comma                           (* ", " *)
  | Dollar                          (* "$" *)
  | SetSource (offset value : Z)    (* "source[%lld] = %d;" *)
  | SourceSize (n : Z)              (* "$%lld$" *)
  | AssertOne                       (* "assert(1" *)
  | CheckDest (offset value : Z)    (* " && dest[%lld] == %d" *)
  | DestSize (n : Z).               (* ");$%lld" *)

#[export] Instance item_eq_dec : EqDecision item.
Proof. solve_decision. Defined.

Section print.
Context `{DMAAsm} `{DMAModel}.

(** the loop over the program, which ends at the first stop instruction *)
Fixpoint print_program (fuel : nat) (program : list (option Z)) (i : nat) : res (list item) :=
  match fuel with
  | O => Err EFuel
  | S fuel' =>
      let* w := of_opt (mjoin (program !! i)) in
      if w =? DMA_OP_STOP then Ok [Word w]
      else
        let* rest := print_program fuel' program (S i) in
        Ok (Word w :: Comma :: rest)
  end.

(** [for (int i = 0; i < (1 << size); ++i)]: a piece per byte, numbered by
    [access_number], a [uint8_t] *)
Fixpoint print_bytes {I} (mk : Z -> Z -> I) (n : nat) (base i access_number : Z) : list I * Z :=
  match n with
  | O => ([], access_number)
  | S n' =>
      let '(rest, a) := print_bytes mk n' base (i + 1) (u8 (access_number + 1)) in
      (mk (base + i) access_number :: rest, a)
  end.

(** one of the two loops over the list of transfers *)
Fixpoint print_transfers (mk : Z -> Z -> item) (last : Z -> item)
    (field : transfer_record -> option Z) (fuel : nat) (h : theap) (current access_number : Z)
    : res (list item) :=
  match fuel with
  | O => Err EFuel
  | S fuel' =>
      if current =? NULL then Ok []
      else
        let* r := get_record h current in
        let* base := of_opt (field r) in
        let* size := of_opt (tr_size r) in
        let* next := of_opt (tr_next r) in
        let bytes := Z.shiftl 1 size in
        let '(items, access_number) := print_bytes mk (Z.to_nat bytes) base 0 access_number in
        let items := items ++ (if next =? NULL then [last (base + bytes)] else []) in
        let* rest := print_transfers mk last field fuel' h next access_number in
        Ok (items ++ rest)
  end.

(** [fuel] bounds the three loops and the run of the program *)
Definition print_test_information (target_first : bool) (fuel : nat) (rest0 : thread_rest) (seed : Z)
    : res (list item) :=
  let* (program, _) := generate_random_dma_program target_first seed empty_heap in
  let* words := print_program fuel program 0 in
  let* code := of_opt (mapM id program) in
  let* (transfer_list, h) := list_transfers fuel code rest0 empty_theap in
  let* sources := print_transfers SetSource SourceSize tr_source fuel h transfer_list 0 in
  let* checks := print_transfers CheckDest DestSize tr_destination fuel h transfer_list 0 in
  Ok (words ++ [Dollar] ++ sources ++ [AssertOne] ++ checks).
End print.

(** ** Running a generated test *)

Definition sources_of (items : list item) : list (Z * Z) :=
  omap (fun it => match it with SetSource o v => Some (o, v) | _ => None end) items.
Definition checks_of (items : list item) : list (Z * Z) :=
  omap (fun it => match it with CheckDest o v => Some (o, v) | _ => None end) items.

Definition upd (m : Z -> Z) (p : Z * Z) : Z -> Z := fun a => if decide (a = p.1) then p.2 else m a.

(** the bytes a list of transfers moves, destination and source, in order *)
Definition transfer_bytes (t : transfer) : list Z := seqZ 0 (Z.shiftl 1 (t_size t)).
Definition moves (ts : list transfer) : list (Z * Z) :=
  ts ≫= fun t => (fun i => (t_destination t + i, t_source t + i)) <$> transfer_bytes t.

Definition dma_copy (ts : list transfer) (src dst : Z -> Z) : Z -> Z :=
  foldl (fun m p => upd m (p.1, src p.2)) dst (moves ts).

(** set the source bytes, let the engine move bytes, check the destination *)
Definition test_passes (items : list item) (ts : list transfer) (src dst : Z -> Z) : bool :=
  let src := foldl upd src (sources_of items) in
  let dst := dma_copy ts src dst in
  forallb (fun p => dst p.1 =? p.2) (checks_of items).

(** ** Transfers never go back

    How far a program can advance its addresses, and ranges that only grow. *)

Fixpoint advance (p : prog) : Z :=
  match p with
  | PLoop n b => (n + 1) * advance b
  | PSeq l r => advance l + advance r
  | PTransfer ts => Z.shiftl 1 ts
  | PAdd t v => v
  end.

Fixpoint increasing (sel : transfer -> Z) (lo hi : Z) (ts : list transfer) : Prop :=
  match ts with
  | [] => lo <= hi
  | t :: ts' => lo <= sel t /\ is_size (t_size t) /\ increasing sel (sel t + Z.shiftl 1 (t_size t)) hi ts'
  end.

Lemma increasing_app sel l1 l2 : forall a b c,
  increasing sel a b l1 -> increasing sel b c l2 -> increasing sel a c (l1 ++ l2).
Proof.
  induction l1 as [|t l1 IH]; intros a b c; simpl.
  - intros Hab H2. destruct l2 as [|t l2]; simpl in *; [lia|].
    destruct H2 as (H2 & H3). split; [lia|done].
  - intros (H1 & H2 & H3) H4. eauto.
Qed.

Lemma increasing_le sel ts : forall lo hi, increasing sel lo hi ts -> lo <= hi.
Proof.
  induction ts as [|t ts IH]; intros lo hi; simpl; [done|].
  intros (H1 & H2 & H3%IH). pose proof (size_bytes _ H2). lia.
Qed.

(** a run that stays in the address space *)
Definition grows (f : Z -> Z -> trace) (adv : Z) : Prop :=
  forall s d, 0 <= s -> 0 <= d -> s + adv < 2 ^ 64 -> d + adv < 2 ^ 64 ->
    let '(s', d', l) := f s d in
    s <= s' <= s + adv /\ d <= d' <= d + adv
    /\ increasing t_source s s' l /\ increasing t_destination d d' l.

Lemma grows_run_n f adv n : 0 <= adv -> grows f adv -> grows (run_n n f) (Z.of_nat n * adv).
Proof.
  intros Hadv Hf. induction n as [|n IH]; intros s d Hs Hd Hsb Hdb; cbn [run_n].
  - simpl. lia.
  - specialize (Hf s d Hs Hd). destruct (f s d) as [[s1 d1] l1].
    destruct Hf as (H1 & H2 & H3 & H4); [lia|lia|]. cbn [then_run].
    specialize (IH s1 d1). destruct (run_n n f s1 d1) as [[s2 d2] l2].
    destruct IH as (G1 & G2 & G3 & G4); [lia..|].
    repeat split; try lia; by eapply increasing_app.
Qed.

Lemma advance_nonneg p level : valid level p -> 0 <= advance p.
Proof.
  revert level; induction p as [n b IH|l IHl r IHr|ts|t v]; intros level; simpl.
  - intros (_ & [Hn _] & _ & Hb). specialize (IH _ Hb). nia.
  - intros [Hl Hr]. specialize (IHl _ Hl). specialize (IHr _ Hr). lia.
  - intros Hts. pose proof (size_bytes ts Hts). lia.
  - intros [_ [Hv _]]. done.
Qed.

Lemma denote_grows p : forall level, valid level p -> grows (denote p) (advance p).
Proof.
  induction p as [n b IH|l IHl r IHr|ts|t v]; intros level Hv.
  - destruct Hv as (Hreg & [Hn _] & Hlen & Hb). cbn [denote advance].
    replace ((n + 1) * advance b) with (Z.of_nat (S (Z.to_nat n)) * advance b) by (f_equal; lia).
    apply grows_run_n; [by eapply advance_nonneg|by eapply IH].
  - destruct Hv as [Hl Hr]. pose proof (advance_nonneg _ _ Hl). pose proof (advance_nonneg _ _ Hr).
    intros s d Hs Hd Hsb Hdb. cbn [denote advance] in *.
    specialize (IHl _ Hl s d Hs Hd). destruct (denote l s d) as [[s1 d1] l1].
    destruct IHl as (H1 & H2 & H3 & H4); [lia..|]. cbn [then_run].
    specialize (IHr _ Hr s1 d1). destruct (denote r s1 d1) as [[s2 d2] l2].
    destruct IHr as (G1 & G2 & G3 & G4); [lia..|].
    repeat split; try lia; by eapply increasing_app.
  - intros s d Hs Hd Hsb Hdb. cbn [denote advance valid] in *. pose proof (size_bytes ts Hv).
    rewrite !wrap_small by lia. simpl. repeat split; try lia; apply Hv.
  - intros s d Hs Hd Hsb Hdb. cbn [denote advance valid] in *. destruct Hv as [Ht [Hv _]].
    rewrite !wrap_small by lia. simpl.
    destruct (on_source t), (on_dest t); lia.
Qed.

(** ** The bytes of a growing list of transfers are distinct *)

Definition offsets (sel : transfer -> Z) (ts : list transfer) : list Z :=
  ts ≫= fun t => (fun i => sel t + i) <$> transfer_bytes t.

Lemma offsets_spec sel ts : forall lo hi,
  increasing sel lo hi ts -> NoDup (offsets sel ts) /\ forall a, a ∈ offsets sel ts -> lo <= a < hi.
Proof.
  induction ts as [|t ts IH]; intros lo hi; cbn [increasing offsets mbind list_bind].
  - intros _. split; [constructor|]. by intros a ?%elem_of_nil.
  - intros (Hlo & Hts & Hinc). pose proof (increasing_le _ _ _ _ Hinc).
    apply IH in Hinc as [Hnd Hin]. pose proof (size_bytes _ Hts).
    fold (offsets sel ts) in *. unfold transfer_bytes. split.
    + apply NoDup_app. split; [|split; [|done]].
      * apply NoDup_fmap_2; [|apply NoDup_seqZ]. intros x z. lia.
      * intros a (i & -> & Hi%elem_of_seqZ)%list_elem_of_fmap Ha%Hin. lia.
    + intros a [(i & -> & Hi%elem_of_seqZ)%list_elem_of_fmap|Ha%Hin]%elem_of_app; lia.
Qed.

(** ** Assignments and checks, numbered *)

Fixpoint byte_pairs (n : nat) (base i a : Z) : list (Z * Z) :=
  match n with
  | O => []
  | S n' => (base + i, a) :: byte_pairs n' base (i + 1) (u8 (a + 1))
  end.

Fixpoint pairs (sel : transfer -> Z) (ts : list transfer) (a : Z) : list (Z * Z) :=
  match ts with
  | [] => []
  | t :: ts' =>
      let n := Z.to_nat (Z.shiftl 1 (t_size t)) in
      byte_pairs n (sel t) 0 a ++ pairs sel ts' (u8 (a + Z.of_nat n))
  end.

(** the numbers: a counter of eight bits *)
Fixpoint numbers (n : nat) (a : Z) : list Z :=
  match n with
  | O => []
  | S n' => a :: numbers n' (u8 (a + 1))
  end.

Lemma u8_add_1 a k : u8 (u8 (a + 1) + k) = u8 (a + (1 + k)).
Proof. rewrite wrap_add_l. f_equal. lia. Qed.

Lemma numbers_app n m : forall a, 0 <= a < 256 ->
  numbers (n + m) a = numbers n a ++ numbers m (u8 (a + Z.of_nat n)).
Proof.
  induction n as [|n IH]; intros a Ha; simpl.
  - by rewrite Z.add_0_r, wrap_small.
  - f_equal. rewrite IH by (by apply wrap_range). rewrite u8_add_1. do 2 f_equal. f_equal. lia.
Qed.

Lemma byte_pairs_numbers n : forall base i a,
  (byte_pairs n base i a).*1 = (fun j => base + j) <$> seqZ i (Z.of_nat n)
  /\ (byte_pairs n base i a).*2 = numbers n a.
Proof.
  induction n as [|n IH]; intros base i a; [done|].
  destruct (IH base (i + 1) (u8 (a + 1))) as [H1 H2]. cbn [byte_pairs numbers fmap list_fmap fst snd].
  split; [|by f_equal].
  rewrite seqZ_cons by lia. cbn [fmap list_fmap]. f_equal.
  rewrite Nat2Z.inj_succ, Z.pred_succ. replace (Z.succ i) with (i + 1) by lia. done.
Qed.

Lemma pairs_numbers sel ts : forall a, 0 <= a < 256 -> Forall (fun t => is_size (t_size t)) ts ->
  (pairs sel ts a).*1 = offsets sel ts /\ (pairs sel ts a).*2 = numbers (length (offsets sel ts)) a.
Proof.
  induction ts as [|t ts IH]; intros a Ha Hts; [done|].
  apply Forall_cons in Hts as [Ht Hts]. pose proof (size_bytes _ Ht).
  cbn [pairs offsets mbind list_bind]. fold (offsets sel ts). rewrite !fmap_app.
  set (n := Z.to_nat (Z.shiftl 1 (t_size t))).
  destruct (byte_pairs_numbers n (sel t) 0 a) as [-> ->].
  destruct (IH (u8 (a + Z.of_nat n))) as [-> ->]; [by apply wrap_range|done|].
  unfold transfer_bytes. replace (Z.shiftl 1 (t_size t)) with (Z.of_nat n) by (subst n; lia).
  split; [done|]. rewrite length_app, length_fmap, length_seqZ, Nat2Z.id. by rewrite numbers_app.
Qed.

Lemma print_bytes_pairs {I} (mk : Z -> Z -> I) n : forall base i a, 0 <= a < 256 ->
  print_bytes mk n base i a
  = ((fun p => mk p.1 p.2) <$> byte_pairs n base i a, u8 (a + Z.of_nat n)).
Proof.
  induction n as [|n IH]; intros base i a Ha; cbn [print_bytes byte_pairs].
  - by rewrite Z.add_0_r, wrap_small.
  - rewrite IH by (by apply wrap_range). cbn [fmap list_fmap fst snd]. f_equal.
    rewrite u8_add_1. f_equal. lia.
Qed.

(** Printing a list of records prints its numbered bytes and, if it is not
    empty, the size. *)
Lemma print_transfers_ok mk last field sel (proj other : list item -> list (Z * Z)) h ps :
  (forall l1 l2, proj (l1 ++ l2) = proj l1 ++ proj l2) ->
  (forall l : list (Z * Z), proj ((fun p => mk p.1 p.2) <$> l) = l) ->
  (forall z, proj [last z] = []) ->
  (forall l1 l2, other (l1 ++ l2) = other l1 ++ other l2) ->
  (forall l : list (Z * Z), other ((fun p => mk p.1 p.2) <$> l) = []) ->
  (forall z, other [last z] = []) ->
  (forall r t, tr_source r = Some (t_source t) -> tr_destination r = Some (t_destination t) ->
     field r = Some (sel t)) ->
  forall p ts a, 0 <= a < 256 -> record_list h p ps ts ->
  exists items, proj items = pairs sel ts a /\ other items = [] /\
    forall fuel, (length ps < fuel)%nat -> print_transfers mk last field fuel h p a = Ok items.
Proof.
  intros Happ Hmk Hlast Happ' Hmk' Hlast' Hfield.
  assert (Hnil : proj [] = []) by apply (Hmk []).
  assert (Hnil' : other [] = []) by apply (Hmk' []).
  induction ps as [|q ps IH]; intros p [|t ts] a Ha Hl; simpl in Hl; try done.
  - subst p. exists []. split; [done|]. split; [done|]. intros [|fuel] Hf; [lia|].
    cbn [print_transfers]. by rewrite Z.eqb_refl.
  - destruct Hl as (-> & Hnz & r & next & Hr & Hs & Hd & Hz & Hn & Hl).
    destruct (IH next ts (u8 (a + Z.of_nat (Z.to_nat (Z.shiftl 1 (t_size t)))))) as (items & Hp & Ho & Hrun);
      [by apply wrap_range|done|].
    eexists. split; [|split].
    3: { intros [|fuel] Hf; [lia|]. cbn [print_transfers]. rewrite (proj2 (Z.eqb_neq _ _)) by done.
         unfold get_record. rewrite Hr. cbn [of_opt res_bind].
         rewrite (Hfield r t), Hz, Hn by done. cbn [of_opt res_bind].
         rewrite print_bytes_pairs by done. rewrite Hrun by (simpl in Hf; lia). done. }
    + cbn [pairs]. rewrite !Happ, Hmk, Hp.
      destruct (next =? NULL); rewrite ?Hlast, ?Hnil; by rewrite app_nil_r.
    + rewrite !Happ', Hmk', Ho. destruct (next =? NULL); by rewrite ?Hlast', ?Hnil'.
Qed.

(** ** Memory after distinct assignments *)

Lemma foldl_upd_out (l : list (Z * Z)) : forall m x, x ∉ l.*1 -> foldl upd m l x = m x.
Proof.
  induction l as [|[k v] l IH]; intros m x Hx; [done|]. cbn [foldl fmap list_fmap fst] in *.
  rewrite IH by set_solver. unfold upd; simpl. rewrite decide_False; [done|set_solver].
Qed.

Lemma foldl_upd_in (l : list (Z * Z)) : forall m k v,
  NoDup l.*1 -> (k, v) ∈ l -> foldl upd m l k = v.
Proof.
  induction l as [|[k' v'] l IH]; intros m k v Hnd Hin; [by apply elem_of_nil in Hin|].
  cbn [foldl fmap list_fmap fst] in *. apply NoDup_cons in Hnd as [Hk Hnd].
  apply elem_of_cons in Hin as [[= -> ->]|Hin].
  - rewrite foldl_upd_out by done. unfold upd; simpl. by rewrite decide_True.
  - by apply IH.
Qed.

Lemma moves_offsets ts :
  (moves ts).*1 = offsets t_destination ts /\ (moves ts).*2 = offsets t_source ts.
Proof.
  induction ts as [|t ts [IH1 IH2]]; [done|].
  cbn [moves offsets mbind list_bind]. fold (moves ts) (offsets t_destination ts) (offsets t_source ts).
  rewrite !fmap_app, IH1, IH2, <- !list_fmap_compose. done.
Qed.

(** A checked byte is one that a move writes, and it is checked for the number
    that was given to the byte the move reads. *)
Lemma checked_moves ts o v :
  Forall (fun t => is_size (t_size t)) ts ->
  (o, v) ∈ pairs t_destination ts 0 ->
  exists os, (o, os) ∈ moves ts /\ (os, v) ∈ pairs t_source ts 0.
Proof.
  intros Hts Hin.
  destruct (pairs_numbers t_source ts 0 ltac:(lia) Hts) as [Hs1 Hs2].
  destruct (pairs_numbers t_destination ts 0 ltac:(lia) Hts) as [Hd1 Hd2].
  destruct (moves_offsets ts) as [Hm1 Hm2].
  assert (Hlen : length (offsets t_destination ts) = length (offsets t_source ts)).
  { rewrite <- Hm1, <- Hm2. by rewrite !length_fmap. }
  apply list_elem_of_lookup in Hin as [k Hk].
  assert (Ho : offsets t_destination ts !! k = Some o) by (by rewrite <- Hd1, list_lookup_fmap, Hk).
  assert (Hv : numbers (length (offsets t_destination ts)) 0 !! k = Some v)
    by (by rewrite <- Hd2, list_lookup_fmap, Hk).
  destruct (moves ts !! k) as [[o' os]|] eqn:Hmk.
  2: { rewrite <- Hm1, list_lookup_fmap, Hmk in Ho. done. }
  assert (o' = o) as -> by (rewrite <- Hm1, list_lookup_fmap, Hmk in Ho; by injection Ho).
  assert (Hos : offsets t_source ts !! k = Some os) by (by rewrite <- Hm2, list_lookup_fmap, Hmk).
  exists os. split; [by eapply list_elem_of_lookup_2|]. apply list_elem_of_lookup. exists k.
  rewrite <- Hs1, list_lookup_fmap in Hos. rewrite Hlen, <- Hs2, list_lookup_fmap in Hv.
  destruct (pairs t_source ts 0 !! k) as [[? ?]|]; simplify_eq/=; done.
Qed.

(** Numbering the bytes read and checking the bytes written agree, when no byte
    is read twice and none is written twice. *)
Lemma test_passes_ok items ts src dst :
  sources_of items = pairs t_source ts 0 -> checks_of items = pairs t_destination ts 0 ->
  Forall (fun t => is_size (t_size t)) ts ->
  NoDup (offsets t_source ts) -> NoDup (offsets t_destination ts) ->
  test_passes items ts src dst = true.
Proof.
  intros Hsrc Hchk Hts Hns Hnd. unfold test_passes, dma_copy. rewrite Hsrc, Hchk.
  set (src' := foldl upd src _).
  apply forallb_forall. intros [o v] Hin%list_elem_of_In. apply Z.eqb_eq. simpl.
  destruct (checked_moves ts o v Hts Hin) as (os & Hmv & Hsk).
  assert (Hval : src' os = v).
  { apply foldl_upd_in; [|done]. by rewrite (proj1 (pairs_numbers t_source ts 0 ltac:(lia) Hts)). }
  rewrite <- Hval.
  replace (foldl (fun m p => upd m (p.1, src' p.2)) dst (moves ts))
    with (foldl upd dst ((fun p => (p.1, src' p.2)) <$> moves ts)) by (by rewrite foldl_fmap).
  apply foldl_upd_in.
  - rewrite <- list_fmap_compose. change (NoDup (moves ts).*1). by rewrite (proj1 (moves_offsets ts)).
  - apply list_elem_of_fmap. by exists (o, os).
Qed.

(** ** Offsets stay small *)

Lemma advance_bound tf ts t : forall x,
  is_size ts -> holes t = [] ->
  0 <= advance (resolve tf ts t x).1 <= 608 * 6 ^ loop_depth t * words t.
Proof.
  intros x Hts. revert x.
  assert (H32 : 1 <= Z.shiftl 1 ts <= 32) by (by apply size_bytes).
  assert (Hpow : forall t', 1 <= 6 ^ loop_depth t').
  { intros t'. pose proof (loop_depth_nonneg t'). pose proof (Z.pow_pos_nonneg 6 (loop_depth t')). lia. }
  induction t as [a|a b IH|a l IHl r IHr|a]; intros x Hc; simpl in Hc; [done|..]; cbn [resolve].
  - destruct (myrand x) as [p x1]. specialize (IH x1 Hc).
    destruct (resolve tf ts b x1) as [pb x2]. cbn [fst advance loop_depth words] in *.
    pose proof (loop_depth_nonneg b). rewrite Z.pow_add_r by lia. change (6 ^ 1) with 6.
    pose proof (Z.mod_pos_bound p 5 ltac:(lia)). pose proof (words_nonneg b).
    pose proof (Hpow b). nia.
  - apply app_nil in Hc as [Hcl Hcr]. specialize (IHl x Hcl). destruct (resolve tf ts l x) as [pl x1].
    specialize (IHr x1 Hcr). destruct (resolve tf ts r x1) as [pr x2].
    cbn [fst advance loop_depth words] in *.
    pose proof (words_nonneg l). pose proof (words_nonneg r).
    assert (6 ^ loop_depth l <= 6 ^ Z.max (loop_depth l) (loop_depth r)) by (apply Z.pow_le_mono_r; lia).
    assert (6 ^ loop_depth r <= 6 ^ Z.max (loop_depth l) (loop_depth r)) by (apply Z.pow_le_mono_r; lia).
    nia.
  - cbn [loop_depth words]. change (6 ^ 0) with 1. destruct (myrand x) as [p x1].
    destruct (_ =? 0); [cbn [fst advance]; lia|].
    destruct (myrand x1) as [p1 x2], (myrand x2) as [p2 x3].
    assert (Hm : forall z, 0 <= Z.shiftl 1 ts * (z mod 20) <= 608).
    { intros z. pose proof (Z.mod_pos_bound z 20 ltac:(lia)). nia. }
    destruct tf; cbn [fst advance]; pose proof (Hm p1); pose proof (Hm p2); lia.
Qed.

(** ** The program that is printed *)

Section printing.
Context `{DMAAsm} `{DMAModel}.

Lemma code_not_stop p : forall level, valid level p -> Forall (fun w => w <> DMA_OP_STOP) (code level p).
Proof.
  assert (Hne : forall w op, int_to_macro w = Some op -> op <> STOP -> w <> DMA_OP_STOP).
  { intros w op Hw Hop ->. rewrite asm_stop in Hw. congruence. }
  induction p as [n b IH|l IHl r IHr|ts|t v]; intros level Hv; cbn [code].
  - destruct Hv as (Hreg & Hn & Hlen & Hb). constructor; [by eapply Hne; [by apply asm_set|]|].
    apply Forall_app. split; [by apply IH|]. constructor; [|done]. by eapply Hne; [by apply asm_loop|].
  - destruct Hv as [Hl Hr]. apply Forall_app. auto.
  - constructor; [|done]. by eapply Hne; [by apply asm_transfer|].
  - destruct Hv as [Ht Hv]. constructor; [|done]. by eapply Hne; [by apply asm_add|].
Qed.

Lemma print_program_ok ws : forall pre,
  Forall (fun w => w <> DMA_OP_STOP) ws ->
  exists items, sources_of items = [] /\ checks_of items = [] /\
    forall fuel, (length ws < fuel)%nat ->
      print_program fuel (Some <$> pre ++ ws ++ [DMA_OP_STOP]) (length pre) = Ok items.
Proof.
  induction ws as [|w ws IH]; intros pre Hws.
  - exists [Word DMA_OP_STOP]. split; [done|]. split; [done|]. intros [|fuel] Hf; [lia|].
    cbn [print_program]. rewrite list_lookup_fmap. cbn [app]. rewrite list_lookup_middle by done.
    cbn [fmap option_fmap option_map mjoin option_join of_opt res_bind]. by rewrite Z.eqb_refl.
  - apply Forall_cons in Hws as [Hw Hws].
    destruct (IH (pre ++ [w]) Hws) as (items & Hs & Hc & Hrun).
    exists (Word w :: Comma :: items). split; [done|]. split; [done|]. intros [|fuel] Hf; [lia|].
    cbn [print_program]. rewrite list_lookup_fmap. cbn [app]. rewrite list_lookup_middle by done.
    cbn [fmap option_fmap option_map mjoin option_join of_opt res_bind].
    rewrite (proj2 (Z.eqb_neq _ _)) by done.
    specialize (Hrun fuel ltac:(simpl in Hf; lia)).
    rewrite <- app_assoc, length_app, Nat.add_1_r in Hrun. simpl in Hrun. cbn [app].
    by rewrite Hrun.
Qed.

Lemma sources_of_map (l : list (Z * Z)) : sources_of ((fun p => SetSource p.1 p.2) <$> l) = l.
Proof. unfold sources_of. induction l as [|[] l IHl]; [done|]. cbn. by f_equal. Qed.

Lemma checks_of_map (l : list (Z * Z)) : checks_of ((fun p => CheckDest p.1 p.2) <$> l) = l.
Proof. unfold checks_of. induction l as [|[] l IHl]; [done|]. cbn. by f_equal. Qed.

Lemma sources_of_checks (l : list (Z * Z)) : sources_of ((fun p => CheckDest p.1 p.2) <$> l) = [].
Proof. by induction l as [|[] l IHl]. Qed.

Lemma checks_of_sources (l : list (Z * Z)) : checks_of ((fun p => SetSource p.1 p.2) <$> l) = [].
Proof. by induction l as [|[] l IHl]. Qed.

Lemma mapM_id_Some {A} (l : list A) : mapM id (Some <$> l) = Some l.
Proof. induction l as [|x l IH]; [done|]. cbn. by rewrite IH. Qed.

Lemma increasing_sizes sel ts : forall lo hi,
  increasing sel lo hi ts -> Forall (fun t => is_size (t_size t)) ts.
Proof.
  induction ts as [|t ts IH]; intros lo hi; simpl; [done|]. intros (_ & Ht & Hl). constructor; eauto.
Qed.

(** Printing and then running the test of a program, once its transfers grow. *)
Lemma print_test_ok tf seed program h' p rest0 :
  generate_random_dma_program tf seed empty_heap = Ok (Some <$> program, h') ->
  program = code 0 p ++ [DMA_OP_STOP] -> valid 0 p -> advance p < 2 ^ 64 ->
  exists fuel0 items,
    (forall fuel, (fuel0 <= fuel)%nat -> print_test_information tf fuel rest0 seed = Ok items)
    /\ forall src dst, test_passes items (denote p 0 0).2 src dst = true.
Proof.
  intros Hgen -> Hv Hadv.
  assert (Hwft : wf_theap empty_theap) by (by split).
  destruct (list_transfers_ok p rest0 empty_theap Hwft Hv) as (n & head & h1 & ps & Hrun & Hnew).
  pose proof (denote_grows p 0 Hv 0 0 ltac:(lia) ltac:(lia) ltac:(lia) ltac:(lia)) as Hgrow.
  destruct (denote p 0 0) as [[s d] ts]. destruct Hgrow as (_ & _ & Hsrc & Hdst). cbn [snd] in *.
  destruct Hnew as [Hl Hnd _ _ _ _].
  pose proof (code_not_stop p 0 Hv) as Hns.
  destruct (print_program_ok (code 0 p) [] Hns) as (w & Hws & Hwc & Hpw).
  destruct (print_transfers_ok SetSource SourceSize tr_source t_source sources_of checks_of h1 ps)
    with (p := head) (ts := ts) (a := 0) as (i1 & Hiss & Hisc & His);
    [apply omap_app|apply sources_of_map|done|apply omap_app|apply checks_of_sources|done|done|lia|done|].
  destruct (print_transfers_ok CheckDest DestSize tr_destination t_destination checks_of sources_of h1 ps)
    with (p := head) (ts := ts) (a := 0) as (i2 & Hicc & Hics & Hic);
    [apply omap_app|apply checks_of_map|done|apply omap_app|apply sources_of_checks|done|done|lia|done|].
  exists (n + length (code 0 p) + length ps + 1)%nat, (w ++ [Dollar] ++ i1 ++ [AssertOne] ++ i2). split.
  - intros fuel Hf. unfold print_test_information. rewrite Hgen. cbn [res_bind].
    cbn [app length] in Hpw. rewrite Hpw by lia. cbn [res_bind].
    rewrite mapM_id_Some. cbn [of_opt res_bind]. rewrite Hrun by lia. cbn [res_bind].
    rewrite His, Hic by lia. done.
  - intros src dst. apply test_passes_ok.
    + unfold sources_of in *. rewrite !omap_app, Hws, Hiss, Hics. cbn. by rewrite app_nil_r.
    + unfold checks_of in *. rewrite !omap_app, Hwc, Hisc, Hicc. done.
    + by eapply increasing_sizes.
    + by eapply offsets_spec.
    + by eapply offsets_spec.
Qed.
End printing.

(** ** Generated tests *)

(** [ts] are the transfers an engine makes on [program], from the addresses [s]
    and [d] and a thread whose unassigned fields hold [rest], up to its stop
    instruction. *)
Definition engine_run_from `{DMAAsm} `{DMAModel} (program : list Z) (s d : Z) (rest : thread_rest)
    (ts : list transfer) : Prop :=
  exists n t, nsteps program n (Thread 0 0 s s d d DMAM_RUNNING rest) ts t
    /\ dmat_state t = DMAM_RUNNING
    /\ program !! Z.to_nat (dmat_program_counter t) = Some DMA_OP_STOP.

Definition engine_run `{DMAAsm} `{DMAModel} (program : list Z) (rest : thread_rest) (ts : list transfer) : Prop :=
  engine_run_from program 0 0 rest ts.

Lemma engine_runs_code `{DMAAsm} `{DMAModel} p s d rest :
  valid 0 p -> engine_run_from (code 0 p ++ [DMA_OP_STOP]) s d rest (denote p s d).2.
Proof.
  intros Hv. set (program := code 0 p ++ [DMA_OP_STOP]).
  assert (Hcode : placed_at program 0 (code 0 p)).
  { intros i w Hw. simpl. by apply lookup_app_l_Some. }
  pose proof (code_runs program p 0 0 Hv Hcode (Thread 0 0 s s d d DMAM_RUNNING rest) s d) as Hruns.
  destruct (denote p s d) as [[s' d'] l]. destruct Hruns as (n & t & Hs & [Hr Hpc _ _] & _); [done|].
  exists n, t. split; [done|]. split; [done|]. rewrite Hpc, Nat2Z.id. by apply list_lookup_middle.
Qed.

(** C3: every test that is generated is one a correct engine passes.  For each
    seed whose program is generated, the printing ends (with fuel enough), and
    for every engine and memory, setting the source bytes as printed, making
    the transfers of the program and evaluating the printed assertions
    succeeds, the wrap-around of the eight-bit counter included.  No transfer
    reads or overwrites a byte another one has read or written. *)
Theorem generated_test_passes `{DMAAsm} `{DMAModel} tf rest0 seed program h' :
  generate_random_dma_program tf seed empty_heap = Ok (program, h') ->
  exists words ts fuel0 items,
    program = Some <$> words
    /\ (forall rest, engine_run words rest ts)
    /\ NoDup (offsets t_source ts) /\ NoDup (offsets t_destination ts)
    /\ (forall fuel, (fuel0 <= fuel)%nat -> print_test_information tf fuel rest0 seed = Ok items)
    /\ forall src dst, test_passes items ts src dst = true.
Proof.
  intros Hgen. destruct (generate_ok tf seed empty_heap) as (root & st & t & _ & Hg & Hw & Hgen').
  { intros a _. apply lookup_empty. }
  rewrite Hgen in Hgen'. destruct (loop_depth t <=? 4) eqn:Hd; [|done]. apply Z.leb_le in Hd.
  injection Hgen' as -> Hh. pose proof (gr_closed _ _ _ _ Hg) as Hc.
  set (p := seed_program tf t (gs_next st)) in *.
  assert (Hv : valid 0 p) by (apply seed_program_valid; [done|done|lia]).
  assert (Hadv : advance p < 2 ^ 64).
  { subst p. unfold seed_program. destruct (myrand (gs_next st)) as [q x].
    pose proof (advance_bound tf (q mod 6) t x (draw_size q) Hc).
    pose proof (Z.pow_le_mono_r 6 (loop_depth t) 4). nia. }
  destruct (print_test_ok tf seed _ h' p rest0 Hgen eq_refl Hv Hadv) as (fuel0 & items & Hprint & Hpass).
  pose proof (denote_grows p 0 Hv 0 0 ltac:(lia) ltac:(lia) ltac:(lia) ltac:(lia)) as Hgrow.
  exists (code 0 p ++ [DMA_OP_STOP]), (denote p 0 0).2, fuel0, items.
  split; [done|]. split; [intros rest; by apply engine_runs_code|].
  destruct (denote p 0 0) as [[s d] ts]. destruct Hgrow as (_ & _ & Hsrc & Hdst). cbn [snd] in *.
  split; [by eapply offsets_spec|]. split; [by eapply offsets_spec|]. done.
Qed.

Lemma generated_test_passes_witness : exists words ts fuel0 items,
  (exists h', generate_random_dma_program true 3 empty_heap = Ok (Some <$> words, h'))
  /\ (forall fuel, (fuel0 <= fuel)%nat -> print_test_information true fuel ((fun _ => 9) : @thread_rest model_plain) 3 = Ok items)
  /\ forall src dst, test_passes items ts src dst = true.
Proof.
  destruct (generate_random_dma_program true 3 empty_heap) as [[program h']|e] eqn:Hgen.
  - destruct (generated_test_passes true ((fun _ => 9) : @thread_rest model_plain) 3 program h' Hgen)
      as (words & ts & fuel0 & items & -> & _ & _ & _ & Hprint & Hpass).
    exists words, ts, fuel0, items. split; [by exists h'|]. split; [exact Hprint|exact Hpass].
  - exfalso. revert Hgen. vm_compute. discriminate.
Defined.
