(* ===== verification/DmaMulti.v ===== *)
(** * DmaMulti: the tests with several threads, in physical memory.

    [fuzz_dma/generate_multithread_dma_test.cpp], with what its two variants
    share and [print_test_information], the variant for physical addresses.
    A test is a program for every thread, with a range of memory that it reads
    and one that it writes.  The theorem is that the ranges of all threads are
    disjoint, so that the test passes however the threads are interleaved. *)

From S2P Require Import Prelude DmaEngine DmaGen DmaProgram DmaTransfers DmaTest.

(** ** What is printed: one constructor per format string *)

Inductive titem :=
  | DefineDma                       (* "#define DMA_ADDR DMA_VIRT$" *)
  | ProgramStart                    (* "(dma_instruction[]){" *)
  | ProgramWord (w : Z)             (* "0x%08x" *)
  | Separator                       (* ", " *)
  | ProgramEnd                      (* "}" *)
  | NextField                       (* "$" *)
  | TlbMapping (v p0 p1 : Z)        (* "add_tlb_mapping(0x%llx, 0x%llx, 0x%llx);" *)
  | SetByte (address value : Z)     (* "*((volatile uint8_t * )0x%llx) = %d;" *)
  | AssertStart                     (* "$assert(1 " *)
  | CheckByte (address value : Z)   (* "&& *((volatile uint8_t * )0x%llx) == %d " *)
  | AssertEnd                       (* ");$" *)
  | Pointer (address : Z).          (* "(uint8_t * )0x%llx" *)

#[export] Instance titem_eq_dec : EqDecision titem.
Proof. solve_decision. Defined.

Definition DRAM_START : Z := 0x9000000010000000.

(** [1 << width] is an [int]; its complement is converted to 64 bits *)
Definition next_aligned (address width : Z) : Z :=
  let size_in_bytes := Z.shiftl 1 width in
  let mask := u64 (Z.lnot (Z.shiftl 1 width - 1)) in
  Z.land (u64 (u64 (address + size_in_bytes) - 1)) mask.

Section generator.
Context `{DMAAsm} `{DMAModel}.
(** the order of the two draws of an addition, what the unassigned fields of
    the [thread] of the i-th call of [list_transfers] hold, and the fuel of every
    loop over a program or a list *)
Context (target_first : bool) (rest0 : Z -> thread_rest) (fuel : nat).

(** [n] iterations from [i]; the counter is an [int], compared as unsigned *)
Fixpoint generate_programs (n : nat) (i next : Z) (h : heap)
    : res (list (list (option Z)) * heap * Z) :=
  match n with
  | O => Ok ([], h, next)
  | S n' =>
      let '(seed, next) := myrand next in
      let* (program, h, next) := generate_program_next target_first seed h in
      let* i := int_incr i in
      let* (programs, h, next) := generate_programs n' i next h in
      Ok (program :: programs, h, next)
  end.

Fixpoint generate_transfer_lists (i : Z) (programs : list (list (option Z))) (h : theap)
    : res (list Z * theap) :=
  match programs with
  | [] => Ok ([], h)
  | program :: programs' =>
      let* code := of_opt (mapM id program) in
      let* (transfer_list, h) := list_transfers fuel code (rest0 i) h in
      let* i := int_incr i in
      let* (transfer_lists, h) := generate_transfer_lists i programs' h in
      Ok (transfer_list :: transfer_lists, h)
  end.

(** the inner loop of [print_programs] *)
Fixpoint print_words (fuel : nat) (program : list (option Z)) (j : nat) : res (list titem) :=
  match fuel with
  | O => Err EFuel
  | S fuel' =>
      let* w := of_opt (mjoin (program !! j)) in
      if w =? DMA_OP_STOP then Ok [ProgramWord w]
      else
        let* rest := print_words fuel' program (S j) in
        Ok (ProgramWord w :: Separator :: rest)
  end.

Fixpoint print_programs (program_count i : Z) (programs : list (list (option Z))) : res (list titem) :=
  match programs with
  | [] => Ok []
  | program :: programs' =>
      let* words := print_words fuel program 0 in
      let* rest := print_programs program_count (i + 1) programs' in
      Ok ([ProgramStart] ++ words ++ [ProgramEnd]
          ++ (if i <? u32 (program_count - 1) then [Separator] else []) ++ rest)
  end.

(** an element that was not assigned is [None] *)
Fixpoint print_pointer_array (size i : Z) (array : list (option Z)) : res (list titem) :=
  match array with
  | [] => Ok []
  | a :: array' =>
      let* address := of_opt a in
      let* rest := print_pointer_array size (i + 1) array' in
      Ok (Pointer address :: (if i <? u32 (size - 1) then [Separator] else []) ++ rest)
  end.

(** the loop over the bytes of a transfer, with [dram_position] and [access_number] *)
Fixpoint put_bytes (mk : Z -> Z -> titem) (n : nat) (dram_position access_number : Z)
    : list titem * Z * Z :=
  match n with
  | O => ([], dram_position, access_number)
  | S n' =>
      let '(rest, d, a) := put_bytes mk n' (u64 (dram_position + 1)) (u8 (access_number + 1)) in
      (mk dram_position access_number :: rest, d, a)
  end.

(** [FOR_EACH(current, transfer_lists[i])]; [addr] is [source_addrs[i]] or [dest_addrs[i]] *)
Fixpoint print_records (mk : Z -> Z -> titem) (field : transfer_record -> option Z) (fuel : nat)
    (h : theap) (addr : option Z) (current dram_position access_number : Z)
    : res (list titem * Z * Z) :=
  match fuel with
  | O => Err EFuel
  | S fuel' =>
      if current =? NULL then Ok ([], dram_position, access_number)
      else
        let* r := get_record h current in
        let* size := of_opt (tr_size r) in
        let transfer_size := Z.shiftl 1 size in
        let* base := of_opt addr in
        let* offset := of_opt (field r) in
        let dram_position := u64 (base + offset) in
        let '(items, d, a) := put_bytes mk (Z.to_nat transfer_size) dram_position access_number in
        let* next := of_opt (tr_next r) in
        let* (rest, d, a) := print_records mk field fuel' h addr next d a in
        Ok (items ++ rest, d, a)
  end.

(** one of the two loops over the threads: the text, the addresses chosen for
    the threads that make a transfer, and [dram_position] *)
Fixpoint print_threads (mk : Z -> Z -> titem) (field : transfer_record -> option Z) (h : theap)
    (transfer_lists : list Z) (dram_position access_number : Z)
    : res (list titem * list (option Z) * Z) :=
  match transfer_lists with
  | [] => Ok ([], [], dram_position)
  | current :: transfer_lists' =>
      let* (addr, d) :=
        if current =? NULL then Ok (None, dram_position)
        else
          let* r := get_record h current in
          let* size := of_opt (tr_size r) in
          let d := next_aligned dram_position size in Ok (Some d, d) in
      let* (items, d, a) := print_records mk field fuel h addr current d access_number in
      let* (rest, addrs, d) := print_threads mk field h transfer_lists' d a in
      Ok (items ++ rest, addr :: addrs, d)
  end.

(** what is allocated with [new[]] and what with [malloc], and given back *)
Inductive allocated_by := by_malloc | by_new_array.
Inductive given_back_by := by_free | by_delete | by_delete_array.

Definition give_back (a : allocated_by) (d : given_back_by) : res unit :=
  match a, d with
  | by_malloc, by_free | by_new_array, by_delete_array => Ok tt
  | _, _ => Err EUndef
  end.

(** the loop of [Free resources]; the programs are blocks of [malloc] *)
Fixpoint free_lists (how : given_back_by) (transfer_lists : list Z) (h : theap) : res theap :=
  match transfer_lists with
  | [] => Ok h
  | current :: transfer_lists' =>
      let* _ := give_back by_malloc how in
      let* h := free_transfer_list fuel current h in
      free_lists how transfer_lists' h
  end.

(** the arrays of the threads, all allocated with [new[]] *)
Fixpoint give_back_arrays (how : given_back_by) (n : nat) : res unit :=
  match n with
  | O => Ok tt
  | S n' => let* _ := give_back by_new_array how in give_back_arrays how n'
  end.

(** what is printed, and what freeing the resources gives *)
Definition print_test_information (thread_count seed : Z) (h : heap) (th : theap)
    : res (list titem * res theap) :=
  let next := mysrand seed in
  let* (programs, h, next) := generate_programs (Z.to_nat thread_count) 0 next h in
  let* (transfer_lists, th) := generate_transfer_lists 0 programs th in
  let* words := print_programs thread_count 0 programs in
  let dram_position := DRAM_START in
  let* (sources, source_addrs, dram_position) :=
    print_threads SetByte tr_source th transfer_lists dram_position 0 in
  let* (checks, dest_addrs, dram_position) :=
    print_threads CheckByte tr_destination th transfer_lists dram_position 0 in
  let* source_pointers := print_pointer_array thread_count 0 source_addrs in
  let* dest_pointers := print_pointer_array thread_count 0 dest_addrs in
  Ok ([DefineDma] ++ words ++ [NextField] ++ sources ++ [AssertStart] ++ checks ++ [AssertEnd]
      ++ source_pointers ++ [NextField] ++ dest_pointers,
      let* th := free_lists by_free transfer_lists th in
      let* _ := give_back_arrays by_free 4 in
      Ok th).
End generator.

(** ** Running a test *)

Definition set_bytes (items : list titem) : list (Z * Z) :=
  omap (fun it => match it with SetByte a v => Some (a, v) | _ => None end) items.
Definition check_bytes (items : list titem) : list (Z * Z) :=
  omap (fun it => match it with CheckByte a v => Some (a, v) | _ => None end) items.
Definition pointers (items : list titem) : list Z :=
  omap (fun it => match it with Pointer a => Some a | _ => None end) items.

Definition mappings_of (items : list titem) : list (Z * Z * Z) :=
  omap (fun it => match it with TlbMapping v p0 p1 => Some (v, p0, p1) | _ => None end) items.

(** The sequences that merge the sequences of several threads. *)
Inductive interleaving {A} : list (list A) -> list A -> Prop :=
  | interleaving_nil ls : Forall (fun l => l = []) ls -> interleaving ls []
  | interleaving_cons ls i x l r :
      ls !! i = Some (x :: l) -> interleaving (<[i := l]> ls) r -> interleaving ls (x :: r).

(** bytes moved, one after the other, in one memory *)
Definition copy_bytes (r : list (Z * Z)) (m : Z -> Z) : Z -> Z :=
  foldl (fun m p => upd m (p.1, m p.2)) m r.

(** the assignments, the moves in the order in which they happen, the assertion *)
Definition multi_test_passes (items : list titem) (r : list (Z * Z)) (m : Z -> Z) : bool :=
  let m := copy_bytes r (foldl upd m (set_bytes items)) in
  forallb (fun p => m p.1 =? p.2) (check_bytes items).

(** ** Interleavings and copies *)

Lemma concat_insert {A} (ls : list (list A)) i x l :
  ls !! i = Some (x :: l) -> concat ls ≡ₚ x :: concat (<[i := l]> ls).
Proof.
  revert i; induction ls as [|l' ls IH]; intros [|i] Hi; simpl in *; [done|done| |].
  - by injection Hi as ->.
  - rewrite (IH i Hi). by rewrite Permutation_middle.
Qed.

Lemma interleaving_perm {A} (ls : list (list A)) r : interleaving ls r -> r ≡ₚ concat ls.
Proof.
  induction 1 as [ls Hls|ls i x l r Hi _ IH].
  - induction Hls as [|l ls -> _ IH]; [done|]. by rewrite <- IH.
  - rewrite IH. symmetry. by apply concat_insert.
Qed.

(** When nothing that is read is written, every byte written holds what the byte
    it was read from held at the start, in whatever order. *)
Lemma copy_bytes_ok r : forall m,
  NoDup r.*1 -> (forall a b, a ∈ r.*1 -> b ∈ r.*2 -> a <> b) ->
  (forall o s, (o, s) ∈ r -> copy_bytes r m o = m s)
  /\ forall a, a ∉ r.*1 -> copy_bytes r m a = m a.
Proof.
  unfold copy_bytes. induction r as [|[d s] r IH]; intros m Hnd Hdis; [by split; [intros ? ? ?%elem_of_nil|]|].
  cbn [foldl fmap list_fmap fst snd] in *. apply NoDup_cons in Hnd as [Hd Hnd].
  destruct (IH (upd m (d, m s)) Hnd) as [IH1 IH2].
  { intros a b Ha Hb. apply Hdis; by right. }
  assert (Hs : forall b, b ∈ s :: r.*2 -> upd m (d, m s) b = m b).
  { intros b Hb. unfold upd; simpl. rewrite decide_False; [done|]. intros ->.
    apply (Hdis d d); [left|done|done]. }
  split.
  - intros o s' [[= -> ->]|Hin]%elem_of_cons.
    + rewrite IH2 by done. unfold upd; simpl. by rewrite decide_True.
    + rewrite (IH1 o s' Hin). apply Hs. right. apply list_elem_of_fmap. by exists (o, s').
  - intros a Ha. rewrite not_elem_of_cons in Ha. destruct Ha as [Hne Ha]. rewrite IH2 by done.
    unfold upd; simpl. by rewrite decide_False.
Qed.

(** ** Transfers at an address *)

Definition shift (sb db : Z) (t : transfer) : transfer :=
  Transfer (sb + t_source t) (db + t_destination t) (t_size t).

Lemma run_n_shift f adv n sb db : 0 <= adv -> 0 <= sb -> 0 <= db -> grows f adv ->
  (forall s d, 0 <= s -> 0 <= d -> sb + s + adv < 2 ^ 64 -> db + d + adv < 2 ^ 64 ->
     f (sb + s) (db + d) = let '(s', d', l) := f s d in (sb + s', db + d', shift sb db <$> l)) ->
  forall s d, 0 <= s -> 0 <= d -> sb + s + Z.of_nat n * adv < 2 ^ 64 -> db + d + Z.of_nat n * adv < 2 ^ 64 ->
    run_n n f (sb + s) (db + d)
    = let '(s', d', l) := run_n n f s d in (sb + s', db + d', shift sb db <$> l).
Proof.
  intros Hadv Hsb Hdb Hg Hf. induction n as [|n IH]; intros s d Hs Hd Hbs Hbd; cbn [run_n]; [done|].
  rewrite Hf by lia. specialize (Hg s d Hs Hd). destruct (f s d) as [[s1 d1] l1].
  destruct Hg as (Hg1 & Hg2 & _); [lia..|]. cbn [then_run]. rewrite IH by lia.
  destruct (run_n n f s1 d1) as [[s2 d2] l2]. by rewrite fmap_app.
Qed.

(** A program makes the same transfers from any address. *)
Lemma denote_shift p sb db : 0 <= sb -> 0 <= db -> forall level, valid level p ->
  forall s d, 0 <= s -> 0 <= d -> sb + s + advance p < 2 ^ 64 -> db + d + advance p < 2 ^ 64 ->
    denote p (sb + s) (db + d)
    = let '(s', d', l) := denote p s d in (sb + s', db + d', shift sb db <$> l).
Proof.
  intros Hsb Hdb.
  induction p as [n b IH|l IHl r IHr|ts|t v]; intros level Hv s d Hs Hd Hbs Hbd.
  - destruct Hv as (_ & [Hn _] & _ & Hb). cbn [denote advance] in *.
    pose proof (advance_nonneg _ _ Hb).
    apply (run_n_shift _ (advance b)); try done.
    + by eapply denote_grows.
    + intros s' d' ? ? ? ?. by apply (IH _ Hb).
    + by replace (Z.of_nat (S (Z.to_nat n))) with (n + 1) by lia.
    + by replace (Z.of_nat (S (Z.to_nat n))) with (n + 1) by lia.
  - destruct Hv as [Hl Hr]. pose proof (advance_nonneg _ _ Hl). pose proof (advance_nonneg _ _ Hr).
    cbn [denote advance] in *. rewrite (IHl _ Hl) by lia.
    pose proof (denote_grows l _ Hl s d) as Hg. destruct (denote l s d) as [[s1 d1] l1].
    destruct Hg as (Hg1 & Hg2 & _); [lia..|]. cbn [then_run]. rewrite (IHr _ Hr) by lia.
    destruct (denote r s1 d1) as [[s2 d2] l2]. by rewrite fmap_app.
  - cbn [denote advance] in *. pose proof (size_bytes ts Hv). rewrite !wrap_small by lia.
    cbn. by rewrite !Z.add_assoc.
  - cbn [denote advance] in *. destruct Hv as [_ [Hv _]]. rewrite !wrap_small by lia.
    cbn. destruct (on_source t), (on_dest t); by rewrite ?Z.add_assoc.
Qed.

(** every transfer of the program has one size, and additions are multiples of it *)
Fixpoint sized (ts : Z) (p : prog) : Prop :=
  match p with
  | PLoop n b => sized ts b
  | PSeq l r => sized ts l /\ sized ts r
  | PTransfer ts' => ts' = ts
  | PAdd t v => (2 ^ ts | v)
  end.

Definition aligned (ts : Z) (a : trace) : Prop :=
  let '(s, d, l) := a in
  (2 ^ ts | s) /\ (2 ^ ts | d)
  /\ Forall (fun t => t_size t = ts /\ (2 ^ ts | t_source t) /\ (2 ^ ts | t_destination t)) l.

Lemma divide_u64 ts a b : is_size ts -> (2 ^ ts | a) -> (2 ^ ts | b) -> (2 ^ ts | u64 (a + b)).
Proof.
  intros [H0 H6] Ha Hb. unfold wrap. rewrite Z.mod_eq by done.
  apply Z.divide_sub_r; [by apply Z.divide_add_r|]. apply Z.divide_mul_l.
  exists (2 ^ (64 - ts)). rewrite <- Z.pow_add_r by lia. f_equal. lia.
Qed.

Lemma aligned_run_n ts f n : (forall s d, (2 ^ ts | s) -> (2 ^ ts | d) -> aligned ts (f s d)) ->
  forall s d, (2 ^ ts | s) -> (2 ^ ts | d) -> aligned ts (run_n n f s d).
Proof.
  intros Hf. induction n as [|n IH]; intros s d Hs Hd; cbn [run_n]; [by split_and!|].
  specialize (Hf s d Hs Hd). destruct (f s d) as [[s1 d1] l1]. destruct Hf as (H1 & H2 & H3).
  cbn [then_run]. specialize (IH s1 d1 H1 H2). destruct (run_n n f s1 d1) as [[s2 d2] l2].
  destruct IH as (? & ? & ?). split_and!; try done. by apply Forall_app.
Qed.

Lemma denote_aligned ts p : is_size ts -> sized ts p ->
  forall s d, (2 ^ ts | s) -> (2 ^ ts | d) -> aligned ts (denote p s d).
Proof.
  intros Hts. induction p as [n b IH|l IHl r IHr|ts'|t v]; intros Hp s d Hs Hd; cbn [denote sized] in *.
  - apply aligned_run_n; auto.
  - destruct Hp as [Hl Hr]. specialize (IHl Hl s d Hs Hd). destruct (denote l s d) as [[s1 d1] l1].
    destruct IHl as (H1 & H2 & H3). cbn [then_run]. specialize (IHr Hr s1 d1 H1 H2).
    destruct (denote r s1 d1) as [[s2 d2] l2]. destruct IHr as (? & ? & ?).
    split_and!; try done. by apply Forall_app.
  - subst ts'. assert (Hd' : (2 ^ ts | Z.shiftl 1 ts)) by (rewrite shiftl_pow by apply Hts; done).
    split_and!; [by apply divide_u64..|]. by repeat constructor.
  - split_and!; [..|done]; case_match; try done; by apply divide_u64.
Qed.

Lemma resolve_sized tf ts t : 0 <= ts -> forall x, holes t = [] -> sized ts (resolve tf ts t x).1.
Proof.
  intros Hts. induction t as [a|a b IH|a l IHl r IHr|a]; intros x Hc; simpl in Hc; [done|..]; cbn [resolve].
  - destruct (myrand x) as [p x1]. specialize (IH x1 Hc). by destruct (resolve tf ts b x1).
  - apply app_nil in Hc as [Hcl Hcr]. specialize (IHl x Hcl). destruct (resolve tf ts l x) as [pl x1].
    specialize (IHr x1 Hcr). by destruct (resolve tf ts r x1).
  - destruct (myrand x) as [p x1]. destruct (_ =? 0); [done|].
    destruct (myrand x1) as [p1 x2], (myrand x2) as [p2 x3].
    assert (Hm : forall z, (2 ^ ts | Z.shiftl 1 ts * z)) by (intros; rewrite shiftl_pow by done; by apply Z.divide_mul_l).
    destruct tf; apply Hm.
Qed.

(** ** The numbered bytes of several lists of transfers *)

(** the bytes moved, as [access_number] counts them *)
Fixpoint total (ts : list transfer) : Z :=
  match ts with
  | [] => 0
  | t :: ts' => Z.of_nat (Z.to_nat (Z.shiftl 1 (t_size t))) + total ts'
  end.

(** lists of transfers, each with the address its offsets are from *)
Fixpoint pairs_at (sel : transfer -> Z) (bts : list (Z * list transfer)) (a : Z) : list (Z * Z) :=
  match bts with
  | [] => []
  | (b, ts) :: bts' =>
      pairs (fun t => b + sel t) ts a ++ pairs_at sel bts' (u8 (a + total ts))
  end.

Fixpoint increasing_at (sel : transfer -> Z) (lo hi : Z) (bts : list (Z * list transfer)) : Prop :=
  match bts with
  | [] => lo <= hi
  | (b, ts) :: bts' =>
      exists mid, increasing (fun t => b + sel t) lo mid ts /\ increasing_at sel mid hi bts'
  end.

Lemma pairs_app sel l1 l2 : forall a, 0 <= a < 256 ->
  pairs sel (l1 ++ l2) a = pairs sel l1 a ++ pairs sel l2 (u8 (a + total l1)).
Proof.
  induction l1 as [|t l1 IH]; intros a Ha; cbn [app pairs total].
  - by rewrite Z.add_0_r, wrap_small.
  - rewrite IH by (by apply wrap_range). rewrite <- app_assoc, wrap_add_l. do 3 f_equal. f_equal. lia.
Qed.

Lemma pairs_fmap sel sel' f ts : (forall t, sel (f t) = sel' t) -> (forall t, t_size (f t) = t_size t) ->
  forall a, pairs sel (f <$> ts) a = pairs sel' ts a.
Proof.
  intros Hs Hz. induction ts as [|t ts IH]; intros a; [done|]. cbn [fmap list_fmap pairs].
  by rewrite Hs, Hz, IH.
Qed.

Lemma increasing_fmap sel sel' f ts : (forall t, sel (f t) = sel' t) -> (forall t, t_size (f t) = t_size t) ->
  forall lo hi, increasing sel lo hi (f <$> ts) <-> increasing sel' lo hi ts.
Proof.
  intros Hs Hz. induction ts as [|t ts IH]; intros lo hi; [done|]. cbn [fmap list_fmap increasing].
  by rewrite Hs, Hz, IH.
Qed.

Lemma increasing_add sel b ts : forall lo hi,
  increasing sel lo hi ts -> increasing (fun t => b + sel t) (b + lo) (b + hi) ts.
Proof.
  induction ts as [|t ts IH]; intros lo hi; cbn [increasing]; [lia|]. intros (H1 & H2 & H3%IH).
  split; [lia|]. split; [done|]. by rewrite Z.add_assoc in H3.
Qed.

Lemma total_fmap f ts : (forall t, t_size (f t) = t_size t) -> total (f <$> ts) = total ts.
Proof. intros Hz. induction ts as [|t ts IH]; [done|]. cbn [fmap list_fmap total]. by rewrite Hz, IH. Qed.

(** the transfers of the threads at their addresses *)
Definition at_addresses (addrs : list (Z * Z)) (tss : list (list transfer)) : list (list transfer) :=
  zip_with (fun p ts => shift p.1 p.2 <$> ts) addrs tss.

Lemma pairs_at_concat (first : bool) tss : forall sbs dbs a,
  length sbs = length tss -> length dbs = length tss -> 0 <= a < 256 ->
  pairs_at (if first then t_source else t_destination) (zip (if first then sbs else dbs) tss) a
  = pairs (if first then t_source else t_destination) (concat (at_addresses (zip sbs dbs) tss)) a.
Proof.
  induction tss as [|ts tss IH]; intros [|sb sbs] [|db dbs] a Hs Hd Ha; try done; [by destruct first|].
  simpl in Hs, Hd. specialize (IH sbs dbs (u8 (a + total ts))).
  cbn [at_addresses zip zip_with concat]. fold (at_addresses (zip sbs dbs) tss).
  rewrite pairs_app, total_fmap by done. cbn [fst snd].
  rewrite <- IH by (lia || by apply wrap_range).
  destruct first; cbn [zip zip_with pairs_at]; (f_equal; symmetry; by apply pairs_fmap).
Qed.

Lemma increasing_at_concat (first : bool) tss : forall sbs dbs lo hi,
  length sbs = length tss -> length dbs = length tss ->
  increasing_at (if first then t_source else t_destination) lo hi (zip (if first then sbs else dbs) tss) ->
  increasing (if first then t_source else t_destination) lo hi (concat (at_addresses (zip sbs dbs) tss)).
Proof.
  induction tss as [|ts tss IH]; intros [|sb sbs] [|db dbs] lo hi Hs Hd; try done; [by destruct first|].
  simpl in Hs, Hd. specialize (IH sbs dbs).
  cbn [at_addresses zip zip_with concat]. fold (at_addresses (zip sbs dbs) tss).
  intros Hinc. assert (exists mid,
    increasing (fun t => (if first then sb else db) + (if first then t_source else t_destination) t) lo mid ts
    /\ increasing_at (if first then t_source else t_destination) mid hi (zip (if first then sbs else dbs) tss))
    as (mid & H1 & H2) by (destruct first; exact Hinc).
  apply (increasing_app _ _ _ lo mid hi); [|by apply IH; [lia..|]].
  eapply increasing_fmap; [..|exact H1]; [|done]. by destruct first.
Qed.

(** ** Aligned addresses *)

Lemma next_aligned_spec a w : is_size w -> 0 <= a -> a + 2 ^ w <= 2 ^ 64 ->
  a <= next_aligned a w < a + 2 ^ w /\ (2 ^ w | next_aligned a w).
Proof.
  intros [H0 H6] Ha Hb. unfold next_aligned. rewrite !shiftl_pow by done.
  pose proof (Z.pow_pos_nonneg 2 w ltac:(lia) H0) as Hp.
  assert (Hmask : u64 (Z.lnot (2 ^ w - 1)) = Z.shiftl (Z.ones (64 - w)) w).
  { unfold wrap, Z.lnot. rewrite Z.shiftl_mul_pow2, Z.ones_equiv by lia.
    symmetry. apply Z.mod_unique with (-1); [|].
    - left. pose proof (Z.pow_pos_nonneg 2 (64 - w)). split; [nia|].
      assert (2 ^ (64 - w) * 2 ^ w = 2 ^ 64) by (rewrite <- Z.pow_add_r by lia; f_equal; lia). nia.
    - assert (2 ^ (64 - w) * 2 ^ w = 2 ^ 64) by (rewrite <- Z.pow_add_r by lia; f_equal; lia). nia. }
  assert (Hx : u64 (u64 (a + 2 ^ w) - 1) = a + 2 ^ w - 1).
  { rewrite wrap_sub_l. apply wrap_small. lia. }
  rewrite Hmask, Hx. set (x := a + 2 ^ w - 1).
  assert (Hl : Z.land x (Z.shiftl (Z.ones (64 - w)) w) = x / 2 ^ w * 2 ^ w).
  { assert (Hhi : 0 <= x / 2 ^ w < 2 ^ (64 - w)).
    { split; [apply Z.div_pos; lia|]. apply Z.div_lt_upper_bound; [lia|].
      rewrite <- Z.pow_add_r by lia. replace (w + (64 - w)) with 64 by lia. lia. }
    transitivity (Z.shiftl (Z.land (Z.shiftr x w) (Z.ones (64 - w))) w).
    - apply Z.bits_inj'. intros n Hn. rewrite Z.land_spec, !Z.shiftl_spec, Z.land_spec by done.
      destruct (decide (n < w)).
      + rewrite !(Z.testbit_neg_r _ (n - w)) by lia. by rewrite andb_false_r.
      + rewrite Z.shiftr_spec by lia. do 2 f_equal. lia.
    - rewrite Z.land_ones, Z.shiftr_div_pow2, Z.shiftl_mul_pow2, Z.mod_small by lia. done. }
  rewrite Hl. split; [|apply Z.divide_factor_r].
  pose proof (Z.div_mod x (2 ^ w) ltac:(lia)). pose proof (Z.mod_pos_bound x (2 ^ w) Hp). lia.
Qed.

(** ** What is printed *)

Lemma set_bytes_app l1 l2 : set_bytes (l1 ++ l2) = set_bytes l1 ++ set_bytes l2.
Proof. apply omap_app. Qed.
Lemma check_bytes_app l1 l2 : check_bytes (l1 ++ l2) = check_bytes l1 ++ check_bytes l2.
Proof. apply omap_app. Qed.
Lemma pointers_app l1 l2 : pointers (l1 ++ l2) = pointers l1 ++ pointers l2.
Proof. apply omap_app. Qed.
Lemma mappings_app l1 l2 : mappings_of (l1 ++ l2) = mappings_of l1 ++ mappings_of l2.
Proof. apply omap_app. Qed.

(** text without assignments, checks, pointers and mappings *)
Record plain (items : list titem) : Prop := {
  pl_set : set_bytes items = [];
  pl_check : check_bytes items = [];
  pl_pointers : pointers items = [];
  pl_mappings : mappings_of items = [];
}.

Lemma plain_app l1 l2 : plain l1 -> plain l2 -> plain (l1 ++ l2).
Proof.
  intros [H1 H2 H3 H4] [G1 G2 G3 G4].
  split; rewrite ?set_bytes_app, ?check_bytes_app, ?pointers_app, ?mappings_app, ?H1, ?H2, ?H3, ?H4; done.
Qed.

Lemma plain_separator (b : bool) : plain (if b then [Separator] else []).
Proof. by destruct b. Qed.

#[local] Hint Resolve plain_app plain_separator : core.

(** How one kind of piece, for the bytes read or for the bytes written, is
    printed and found again. *)
Record byte_piece (mk : Z -> Z -> titem) (proj other : list titem -> list (Z * Z)) : Prop := {
  bp_app l1 l2 : proj (l1 ++ l2) = proj l1 ++ proj l2;
  bp_mk (l : list (Z * Z)) : proj ((fun p => mk p.1 p.2) <$> l) = l;
  bp_other_app l1 l2 : other (l1 ++ l2) = other l1 ++ other l2;
  bp_other (l : list (Z * Z)) : other ((fun p => mk p.1 p.2) <$> l) = [];
  bp_pointers_mk (l : list (Z * Z)) : pointers ((fun p => mk p.1 p.2) <$> l) = [];
  bp_mappings_mk (l : list (Z * Z)) : mappings_of ((fun p => mk p.1 p.2) <$> l) = [];
}.

Lemma set_byte_piece : byte_piece SetByte set_bytes check_bytes.
Proof.
  split; [apply omap_app| |apply omap_app|..]; intros l; induction l as [|[] l IH]; try done.
  cbn. f_equal. apply IH.
Qed.

Lemma check_byte_piece : byte_piece CheckByte check_bytes set_bytes.
Proof.
  split; [apply omap_app| |apply omap_app|..]; intros l; induction l as [|[] l IH]; try done.
  cbn. f_equal. apply IH.
Qed.

Lemma byte_pairs_base n : forall base i a, byte_pairs n base i a = byte_pairs n (base + i) 0 a.
Proof.
  enough (H : forall base i k a, byte_pairs n base (i + k) a = byte_pairs n (base + i) k a).
  { intros base i a. by rewrite <- (Z.add_0_r i), H, Z.add_0_r. }
  induction n as [|n IH]; intros base i k a; cbn [byte_pairs]; [done|].
  by rewrite <- Z.add_assoc, IH, Z.add_assoc.
Qed.

Lemma put_bytes_ok mk n : forall d a, 0 <= a < 256 -> 0 <= d -> d + Z.of_nat n < 2 ^ 64 ->
  put_bytes mk n d a
  = ((fun p => mk p.1 p.2) <$> byte_pairs n d 0 a, d + Z.of_nat n, u8 (a + Z.of_nat n)).
Proof.
  induction n as [|n IH]; intros d a Ha Hd Hb; cbn [put_bytes byte_pairs].
  - by rewrite !Z.add_0_r, wrap_small.
  - rewrite (wrap_small 64) by lia. rewrite IH by (lia || by apply wrap_range).
    rewrite (byte_pairs_base n d (0 + 1)), Z.add_0_r. cbn [fmap list_fmap fst snd].
    f_equal; [f_equal; lia|]. rewrite u8_add_1. f_equal. lia.
Qed.

Section records.
Context (mk : Z -> Z -> titem) (field : transfer_record -> option Z) (sel : transfer -> Z).
Context (proj other : list titem -> list (Z * Z)) (Hpiece : byte_piece mk proj other).
Context (Hfield : forall r t, tr_source r = Some (t_source t) -> tr_destination r = Some (t_destination t) ->
  field r = Some (sel t)).

Lemma proj_nil : proj [] = [].
Proof. exact (bp_mk _ _ _ Hpiece []). Qed.
Lemma other_nil : other [] = [].
Proof. exact (bp_other _ _ _ Hpiece []). Qed.

(** the bytes of one thread, and where they end *)
Lemma print_records_ok h base ps : forall p ts d hi a,
  0 <= a < 256 -> 0 <= d -> hi < 2 ^ 64 -> record_list h p ps ts ->
  increasing (fun t => base + sel t) d hi ts ->
  exists items d',
    (forall fuel, (length ps < fuel)%nat ->
       print_records mk field fuel h (Some base) p d a = Ok (items, d', u8 (a + total ts)))
    /\ proj items = pairs (fun t => base + sel t) ts a /\ other items = [] /\ pointers items = []
    /\ increasing (fun t => base + sel t) d d' ts /\ d' <= hi.
Proof.
  induction ps as [|q ps IH]; intros p [|t ts] d hi a Ha Hd Hhi Hl Hinc; simpl in Hl; try done.
  - subst p. exists [], d. rewrite proj_nil, other_nil. split_and!; try done; [|simpl; lia].
    intros [|fuel] Hf; [lia|]. cbn [print_records total]. by rewrite Z.eqb_refl, Z.add_0_r, wrap_small.
  - destruct Hl as (-> & Hnz & r & next & Hr & Hs & Hdd & Hz & Hn & Hl).
    cbn [increasing] in Hinc. destruct Hinc as (H1 & H2 & H3).
    pose proof (increasing_le _ _ _ _ H3). pose proof (size_bytes _ H2).
    set (n := Z.to_nat (Z.shiftl 1 (t_size t))).
    assert (Hn' : Z.of_nat n = Z.shiftl 1 (t_size t)) by lia.
    destruct (IH next ts (base + sel t + Z.of_nat n) hi (u8 (a + Z.of_nat n)))
      as (items & d' & Hrun & Hp & Ho & Hptr & Hi & Hle);
      [by apply wrap_range|lia|done|done|by rewrite Hn'|].
    eexists _, d'. split; [|split; [|split; [|split; [|split]]]].
    + intros [|fuel] Hf; [lia|]. cbn [print_records]. rewrite (proj2 (Z.eqb_neq _ _)) by done.
      unfold get_record. rewrite Hr. cbn [of_opt res_bind]. rewrite Hz, (Hfield r t), Hn by done.
      cbn [of_opt res_bind]. fold n. rewrite wrap_small by lia. rewrite put_bytes_ok by lia.
      rewrite Hrun by (simpl in Hf; lia). cbn [res_bind total]. fold n.
      by rewrite wrap_add_l, Z.add_assoc.
    + cbn [pairs]. by rewrite (bp_app _ _ _ Hpiece), (bp_mk _ _ _ Hpiece), Hp.
    + by rewrite (bp_other_app _ _ _ Hpiece), (bp_other _ _ _ Hpiece), Ho.
    + by rewrite pointers_app, (bp_pointers_mk _ _ _ Hpiece), Hptr.
    + cbn [increasing]. rewrite <- Hn'. done.
    + done.
Qed.

(** how far the transfers of one thread reach, and their alignment *)
Definition SPAN : Z := 2 ^ 25.

Record laid_out (ts : list transfer) : Prop := {
  lo_source : increasing t_source 0 SPAN ts;
  lo_destination : increasing t_destination 0 SPAN ts;
  lo_aligned : exists sz, is_size sz /\
    Forall (fun t => t_size t = sz /\ (2 ^ sz | t_source t) /\ (2 ^ sz | t_destination t)) ts;
}.

Definition listed_at (h : theap) (p : Z) (ts : list transfer) : Prop :=
  exists ps, record_list h p ps ts.

(** a thread that makes no transfer gets no address *)
Definition address_of (b : Z) (ts : list transfer) : option Z :=
  match ts with [] => None | _ => Some b end.

Definition aligned_at (b : Z) (ts : list transfer) : Prop := Forall (fun t => (2 ^ t_size t | b)) ts.

Lemma size_pow sz : is_size sz -> 1 <= 2 ^ sz <= 32.
Proof. intros H. pose proof (size_bytes sz H). by rewrite shiftl_pow in * by apply H. Qed.

Lemma first_size (Hsel : sel = t_source \/ sel = t_destination) h p ts : listed_at h p ts -> laid_out ts ->
  (ts = [] /\ p = NULL) \/
  (ts <> [] /\ p <> NULL /\ exists r sz, th_cells h !! p = Some r /\ tr_size r = Some sz
     /\ is_size sz /\ Forall (fun t => t_size t = sz) ts
     /\ increasing sel 0 SPAN ts).
Proof.
  intros [ps Hl] [Hs Hd (sz & Hsz & Hal)]. destruct ts as [|t ts].
  - left. by destruct ps.
  - right. destruct ps as [|q ps]; [done|]. destruct Hl as (_ & Hnz & r & next & Hr & _ & _ & Hz & _).
    split; [done|]. split; [done|]. exists r, sz.
    apply Forall_cons in Hal as Hal'. destruct Hal' as [(Hz' & _) _]. rewrite Hz' in Hz.
    split_and!; try done; [|by destruct Hsel as [->| ->]].
    eapply Forall_impl; [exact Hal|]. by intros ? (? & _).
Qed.

Lemma print_threads_ok (Hsel : sel = t_source \/ sel = t_destination) h tss : forall heads d a,
  0 <= a < 256 -> 0 <= d -> d + Z.of_nat (length tss) * 2 ^ 26 < 2 ^ 64 ->
  Forall2 (listed_at h) heads tss -> Forall laid_out tss ->
  exists items bases d',
    (exists fuel0, forall fuel, (fuel0 <= fuel)%nat ->
       print_threads fuel mk field h heads d a = Ok (items, zip_with address_of bases tss, d'))
    /\ proj items = pairs_at sel (zip bases tss) a /\ other items = [] /\ pointers items = []
    /\ increasing_at sel d d' (zip bases tss)
    /\ d <= d' <= d + Z.of_nat (length tss) * 2 ^ 26
    /\ Forall2 aligned_at bases tss /\ Forall (fun b => d <= b <= d') bases.
Proof.
  induction tss as [|ts tss IH]; intros heads d a Ha Hd Hb Hl Hok.
  - apply Forall2_nil_inv_r in Hl as ->. exists [], [], d.
    rewrite proj_nil, other_nil. split_and!; try done; try (simpl; lia).
    by exists 0%nat.
  - apply Forall2_cons_inv_r in Hl as (p & heads' & Hp & Hl & ->). apply Forall_cons in Hok as [Hts Hok].
    rewrite length_cons, Nat2Z.inj_succ in Hb.
    destruct (first_size Hsel h p ts Hp Hts) as [[-> ->]|(Hne & Hnz & r & sz & Hr & Hz & Hsz & Hall & Hinc)].
    + destruct (IH heads' d a) as (items & bases & d' & [fuel0 Hrun] & Hpr & Ho & Hptr & Hi & Hle & Hal & Hbs);
        [done|done|lia|done|done|].
      exists items, (d :: bases), d'. split_and!; try done; try (rewrite ?length_cons; lia).
      * exists (S fuel0). intros fuel Hf. cbn [print_threads zip_with address_of].
        rewrite Z.eqb_refl. cbn [res_bind]. destruct fuel as [|fuel]; [lia|]. cbn [print_records].
        rewrite Z.eqb_refl. cbn [res_bind]. rewrite Hrun by lia. done.
      * cbn [zip zip_with pairs_at pairs total app]. by rewrite Z.add_0_r, wrap_small.
      * exists d. split; [simpl; lia|done].
      * constructor; [constructor|done].
      * constructor; [lia|done].
    + pose proof (size_pow sz Hsz) as Hsp. destruct Hp as [ps Hp].
      destruct (next_aligned_spec d sz Hsz Hd) as [Hn1 Hn2]; [lia|].
      set (b := next_aligned d sz) in *.
      destruct (print_records_ok h b ps p ts b (b + SPAN) a) as (items1 & d1 & Hrun1 & Hp1 & Ho1 & Hptr1 & Hi1 & Hle1);
        [done|lia|unfold SPAN; lia|done|..].
      { pose proof (increasing_add sel b ts 0 SPAN Hinc) as Hx. by rewrite Z.add_0_r in Hx. }
      pose proof (increasing_le _ _ _ _ Hi1). unfold SPAN in Hle1.
      destruct (IH heads' d1 (u8 (a + total ts)))
        as (items & bases & d' & [fuel0 Hrun] & Hpr & Ho & Hptr & Hi & Hle & Hal & Hbs);
        [by apply wrap_range|lia|lia|done|done|].
      exists (items1 ++ items), (b :: bases), d'. split_and!; try (rewrite ?length_cons; lia).
      * exists (Nat.max fuel0 (S (length ps))). intros fuel Hf. cbn [print_threads zip_with].
        rewrite (proj2 (Z.eqb_neq _ _)) by done. unfold get_record. rewrite Hr. cbn [of_opt res_bind].
        rewrite Hz. cbn [of_opt res_bind]. fold b. rewrite Hrun1 by lia. cbn [res_bind].
        rewrite Hrun by lia. by destruct ts.
      * cbn [zip zip_with pairs_at]. by rewrite (bp_app _ _ _ Hpiece), Hp1, Hpr.
      * by rewrite (bp_other_app _ _ _ Hpiece), Ho1, Ho.
      * by rewrite pointers_app, Hptr1, Hptr.
      * exists d1. split; [|done]. destruct ts as [|t ts]; [done|]. destruct Hi1 as (? & ? & ?).
        split; [lia|done].
      * constructor; [|done]. eapply Forall_impl; [exact Hall|]. by intros t ->.
      * constructor; [lia|]. eapply Forall_impl; [exact Hbs|]. simpl. lia.
Qed.
End records.

(** ** The programs and their transfers *)

Section whole.
Context `{DMAAsm} `{DMAModel}.

(** what every generated program satisfies *)
Record well_sized (p : prog) : Prop := {
  ws_valid : valid 0 p;
  ws_advance : advance p <= SPAN;
  ws_sized : exists sz, is_size sz /\ sized sz p;
}.

Definition transfers_of (p : prog) : list transfer := (denote p 0 0).2.
Definition words_of (p : prog) : list Z := code 0 p ++ [DMA_OP_STOP].

Lemma seed_program_well_sized tf t x :
  holes t = [] -> loop_depth t <= 4 -> words t <= 25 -> well_sized (seed_program tf t x).
Proof.
  intros Hc Hd Hw. split; [by apply seed_program_valid|..]; unfold seed_program; destruct (myrand x) as [q y];
    pose proof (draw_size q) as Hq.
  - pose proof (advance_bound tf (q mod 6) t y Hq Hc). pose proof (words_nonneg t).
    pose proof (Z.pow_le_mono_r 6 (loop_depth t) 4). unfold SPAN. nia.
  - exists (q mod 6). split; [done|]. apply resolve_sized; [apply Hq|done].
Qed.

Lemma well_sized_laid_out p : well_sized p -> laid_out (transfers_of p).
Proof.
  intros [Hv Ha (sz & Hsz & Hp)]. unfold transfers_of.
  pose proof (denote_grows p 0 Hv 0 0) as Hg. pose proof (advance_nonneg _ _ Hv) as Hadv.
  pose proof (denote_aligned sz p Hsz Hp 0 0 (Z.divide_0_r _) (Z.divide_0_r _)) as Hal.
  unfold SPAN in *. destruct (denote p 0 0) as [[s d] l]. destruct Hal as (_ & _ & Hal).
  destruct Hg as (H1 & H2 & H3 & H4); [lia..|]. cbn [snd].
  assert (Hw : forall sel e, increasing sel 0 e l -> e <= SPAN -> increasing sel 0 SPAN l).
  { intros sel e He Hle. rewrite <- (app_nil_r l). eapply increasing_app; [exact He|done]. }
  unfold SPAN in Hw. split; [eapply Hw; [done|lia]..|]. by exists sz.
Qed.

Lemma programs_laid_out ps : Forall well_sized ps -> Forall laid_out (transfers_of <$> ps).
Proof. intros Hps. apply Forall_fmap. eapply Forall_impl; [exact Hps|]. intros p. apply well_sized_laid_out. Qed.

Lemma generate_programs_ok tf n : forall i next h, wf_heap h -> 0 <= i -> i + Z.of_nat n < 2 ^ 31 ->
  (exists ps h' next', generate_programs tf n i next h = Ok ((fun p => Some <$> words_of p) <$> ps, h', next')
     /\ length ps = n /\ Forall well_sized ps /\ wf_heap h' /\ h_cells h' = h_cells h)
  \/ generate_programs tf n i next h = Err EAssert.
Proof.
  induction n as [|n IH]; intros i next h Hwf Hi Hn; cbn [generate_programs].
  - left. by exists [], h, next.
  - destruct (myrand next) as [seed next1].
    destruct (generate_next_ok tf seed h Hwf) as (root & st & t & _ & Hg & Hw & ->).
    destruct (loop_depth t <=? 4) eqn:Hd; [|by right]. apply Z.leb_le in Hd. cbn [res_bind].
    unfold int_incr. rewrite (proj2 (Z.eqb_neq _ _)) by lia. cbn [res_bind].
    destruct (IH (i + 1) (seed_next tf t (gs_next st)) (Heap (h_cells h) (h_brk (gs_heap st))))
      as [(ps & h' & next' & -> & Hlen & Hps & Hwf' & Hcells)| ->]; [|lia|lia|..|by right].
    + intros a Ha. apply Hwf. pose proof (gr_brk _ _ _ _ Hg). cbn [h_brk] in Ha. lia.
    + left. exists (seed_program tf t (gs_next st) :: ps), h', next'. cbn [res_bind].
      split; [done|]. split; [by rewrite length_cons, Hlen|]. split; [|done]. constructor; [|done].
      apply seed_program_well_sized; [apply Hg|done|lia].
Qed.

Lemma generate_transfer_lists_ok rest0 ps : forall i h,
  wf_theap h -> Forall well_sized ps -> 0 <= i -> i + Z.of_nat (length ps) < 2 ^ 31 ->
  exists fuel0 heads h',
    (forall fuel, (fuel0 <= fuel)%nat ->
       generate_transfer_lists rest0 fuel i ((fun p => Some <$> words_of p) <$> ps) h = Ok (heads, h'))
    /\ Forall2 (listed_at h') heads (transfers_of <$> ps)
    /\ wf_theap h' /\ th_brk h <= th_brk h'
    /\ (forall a, a < th_brk h -> th_cells h' !! a = th_cells h !! a).
Proof.
  induction ps as [|p ps IH]; intros i h Hwf Hps Hi Hn.
  - exists 0%nat, [], h. by split_and!.
  - apply Forall_cons in Hps as [Hp Hps]. rewrite length_cons in Hn.
    destruct (list_transfers_ok p (rest0 i) h Hwf (ws_valid _ Hp)) as (n & head & h1 & qs & Hrun & Hnew).
    pose proof (new_list_wf _ _ _ _ _ Hwf Hnew) as Hwf1.
    destruct (IH (i + 1) h1 Hwf1 Hps) as (fuel0 & heads & h' & Hrun' & Hl & Hwf' & Hb & Hfr); [lia|lia|].
    destruct Hnew as [Hlist _ _ Habove Hbrk Hframe].
    exists (Nat.max n fuel0), (head :: heads), h'. split_and!; try done; [..|lia|].
    + intros fuel Hf. cbn [fmap list_fmap generate_transfer_lists].
      rewrite mapM_id_Some. cbn [of_opt res_bind]. unfold words_of at 1. rewrite Hrun by lia. cbn [res_bind].
      unfold int_incr. rewrite (proj2 (Z.eqb_neq _ _)) by lia. cbn [res_bind]. by rewrite Hrun' by lia.
    + constructor; [|done]. exists qs. apply (record_list_ext h1); [|done].
      intros a Ha. apply Hfr. by apply Habove.
    + intros a Ha. rewrite Hfr by lia. by apply Hframe.
Qed.

Lemma print_words_ok ws : forall pre,
  Forall (fun w => w <> DMA_OP_STOP) ws ->
  exists items, plain items /\ forall fuel, (length ws < fuel)%nat ->
      print_words fuel (Some <$> pre ++ ws ++ [DMA_OP_STOP]) (length pre) = Ok items.
Proof.
  induction ws as [|w ws IH]; intros pre Hws.
  - exists [ProgramWord DMA_OP_STOP]. split; [done|]. intros [|fuel] Hf; [lia|].
    cbn [print_words]. rewrite list_lookup_fmap. cbn [app]. rewrite list_lookup_middle by done.
    cbn [fmap option_fmap option_map mjoin option_join of_opt res_bind]. by rewrite Z.eqb_refl.
  - apply Forall_cons in Hws as [Hw Hws].
    destruct (IH (pre ++ [w]) Hws) as (items & Hp & Hrun).
    exists ([ProgramWord w; Separator] ++ items). split; [by apply plain_app|]. intros [|fuel] Hf; [lia|].
    cbn [print_words]. rewrite list_lookup_fmap. cbn [app]. rewrite list_lookup_middle by done.
    cbn [fmap option_fmap option_map mjoin option_join of_opt res_bind].
    rewrite (proj2 (Z.eqb_neq _ _)) by done.
    specialize (Hrun fuel ltac:(simpl in Hf; lia)).
    rewrite <- app_assoc, length_app, Nat.add_1_r in Hrun. simpl in Hrun. by rewrite Hrun.
Qed.

Lemma print_programs_ok count ps : Forall well_sized ps -> forall i,
  exists fuel0 items, plain items /\ forall fuel, (fuel0 <= fuel)%nat ->
    print_programs fuel count i ((fun p => Some <$> words_of p) <$> ps) = Ok items.
Proof.
  induction 1 as [|p ps Hp _ IH]; intros i; [by exists 0%nat, []|].
  destruct (IH (i + 1)) as (fuel0 & items & Hpl & Hrun).
  destruct (print_words_ok (code 0 p) [] (code_not_stop p 0 (ws_valid _ Hp))) as (w & Hw & Hwr).
  exists (Nat.max fuel0 (S (length (code 0 p)))).
  exists ([ProgramStart] ++ w ++ [ProgramEnd] ++ (if i <? u32 (count - 1) then [Separator] else []) ++ items).
  split; [auto 10 using Build_plain|].
  intros fuel Hf. cbn [fmap list_fmap print_programs]. unfold words_of at 1.
  cbn [app length] in Hwr. rewrite Hwr by lia. cbn [res_bind]. rewrite Hrun by lia. done.
Qed.

(** The array of pointers is printed when every thread has one; otherwise an
    element without a value is read. *)
Lemma print_pointer_array_ok size bases : forall i tss, length bases = length tss ->
  (Forall (fun ts => ts <> []) tss /\ exists items,
     print_pointer_array size i (zip_with address_of bases tss) = Ok items
     /\ set_bytes items = [] /\ check_bytes items = [] /\ pointers items = bases)
  \/ (Exists (fun ts => ts = []) tss
      /\ print_pointer_array size i (zip_with address_of bases tss) = Err EUndef).
Proof.
  induction bases as [|b bases IH]; intros i [|ts tss] Hl; try done.
  - left. split; [constructor|]. by exists [].
  - simpl in Hl. cbn [zip_with print_pointer_array]. destruct ts as [|t ts].
    { right. split; [by left|done]. }
    destruct (IH (i + 1) tss ltac:(lia)) as [(Hall & items & Hrun & Hs & Hc & Hp)|[Hex Hrun]];
      cbn [address_of of_opt res_bind]; rewrite Hrun.
    + left. split; [by constructor|]. cbn [res_bind]. eexists. split; [done|].
      change (Pointer b :: ?l) with ([Pointer b] ++ l).
      rewrite !set_bytes_app, !check_bytes_app, !pointers_app, Hs, Hc, Hp.
      by destruct (i <? _).
    + right. split; [by right|done].
Qed.
End whole.

(** ** The test passes in every order *)

Lemma moves_concat tss : moves (concat tss) = concat (moves <$> tss).
Proof.
  induction tss as [|ts tss IH]; [done|]. cbn [concat fmap list_fmap]. rewrite <- IH.
  unfold moves. apply bind_app.
Qed.

(** no byte is read twice, written twice, or both *)
Definition disjoint_bytes (ts : list transfer) : Prop :=
  NoDup (offsets t_source ts ++ offsets t_destination ts).

Lemma interleaved_test_passes items tss r m :
  set_bytes items = pairs t_source (concat tss) 0 ->
  check_bytes items = pairs t_destination (concat tss) 0 ->
  Forall (fun t => is_size (t_size t)) (concat tss) -> disjoint_bytes (concat tss) ->
  interleaving (moves <$> tss) r ->
  multi_test_passes items r m = true.
Proof.
  intros Hset Hchk Hsz Hdis Hr%interleaving_perm. rewrite <- moves_concat in Hr.
  set (T := concat tss) in *. apply NoDup_app in Hdis as (Hns & Hdis & Hnd).
  destruct (moves_offsets T) as [Hm1 Hm2].
  assert (H1 : r.*1 ≡ₚ offsets t_destination T) by (by rewrite Hr, <- Hm1).
  assert (H2 : r.*2 ≡ₚ offsets t_source T) by (by rewrite Hr, <- Hm2).
  unfold multi_test_passes. rewrite Hset, Hchk. set (m' := foldl upd m _).
  destruct (copy_bytes_ok r m') as [Hcopy _].
  { by rewrite H1. }
  { intros a b. rewrite H1, H2. intros Ha Hb ->. by eapply Hdis. }
  apply forallb_forall. intros [o v] Hin%list_elem_of_In. apply Z.eqb_eq. simpl.
  destruct (checked_moves T o v Hsz Hin) as (os & Hmv & Hsk).
  rewrite (Hcopy o os) by (by rewrite Hr). apply foldl_upd_in; [|done].
  by rewrite (proj1 (pairs_numbers t_source T 0 ltac:(lia) Hsz)).
Qed.

Lemma disjoint_bytes_ok lo mid hi ts :
  increasing t_source lo mid ts -> increasing t_destination mid hi ts -> disjoint_bytes ts.
Proof.
  intros Hs Hd. destruct (offsets_spec _ _ _ _ Hs) as [Hns Hbs]. destruct (offsets_spec _ _ _ _ Hd) as [Hnd Hbd].
  apply NoDup_app. split; [done|]. split; [|done]. intros a Ha%Hbs Hb%Hbd. lia.
Qed.

(** ** More fuel changes no result *)

Section fuel.
Context `{DMAAsm} `{DMAModel}.

Lemma run_program_mono program fuel : forall fuel' thread tail h, (fuel <= fuel')%nat ->
  res_le eq (run_program fuel program thread tail h) (run_program fuel' program thread tail h).
Proof.
  induction fuel as [|fuel IH]; intros [|fuel'] thread tail h Hf; cbn [run_program]; [done|done|lia|].
  pose proof (fun thread tail h => IH fuel' thread tail h ltac:(lia)). more_fuel.
Qed.
#[local] Hint Resolve run_program_mono : fuel.

Lemma list_transfers_mono program fuel fuel' rest0 h : (fuel <= fuel')%nat ->
  res_le eq (list_transfers fuel program rest0 h) (list_transfers fuel' program rest0 h).
Proof. intros Hf. unfold list_transfers. more_fuel. Qed.
#[local] Hint Resolve list_transfers_mono : fuel.

Lemma generate_transfer_lists_mono rest0 fuel fuel' programs : (fuel <= fuel')%nat -> forall i h,
  res_le eq (generate_transfer_lists rest0 fuel i programs h) (generate_transfer_lists rest0 fuel' i programs h).
Proof. intros Hf. induction programs as [|program programs IH]; intros i h; cbn [generate_transfer_lists]; more_fuel. Qed.

Lemma print_words_mono fuel program : forall fuel' j, (fuel <= fuel')%nat ->
  res_le eq (print_words fuel program j) (print_words fuel' program j).
Proof.
  induction fuel as [|fuel IH]; intros [|fuel'] j Hf; cbn [print_words]; [done|done|lia|].
  pose proof (fun j => IH fuel' j ltac:(lia)). more_fuel.
Qed.
#[local] Hint Resolve print_words_mono : fuel.

Lemma print_programs_mono fuel fuel' count programs : (fuel <= fuel')%nat -> forall i,
  res_le eq (print_programs fuel count i programs) (print_programs fuel' count i programs).
Proof. intros Hf. induction programs as [|program programs IH]; intros i; cbn [print_programs]; more_fuel. Qed.
#[local] Hint Resolve generate_transfer_lists_mono print_programs_mono : fuel.

Lemma print_records_mono mk field h fuel : forall fuel' addr current d a, (fuel <= fuel')%nat ->
  res_le eq (print_records mk field fuel h addr current d a) (print_records mk field fuel' h addr current d a).
Proof.
  induction fuel as [|fuel IH]; intros [|fuel'] addr current d a Hf; cbn [print_records]; [done|done|lia|].
  pose proof (fun addr current d a => IH fuel' addr current d a ltac:(lia)). more_fuel.
Qed.
#[local] Hint Resolve print_records_mono : fuel.

Lemma print_threads_mono mk field h fuel fuel' lists : (fuel <= fuel')%nat -> forall d a,
  res_le eq (print_threads fuel mk field h lists d a) (print_threads fuel' mk field h lists d a).
Proof. intros Hf. induction lists as [|l lists IH]; intros d a; cbn [print_threads]; more_fuel. Qed.
#[local] Hint Resolve print_threads_mono : fuel.

Lemma print_multithread_mono tf rest0 fuel fuel' thread_count seed h th : (fuel <= fuel')%nat ->
  res_le (fun x y => x.1 = y.1) (print_test_information tf rest0 fuel thread_count seed h th)
    (print_test_information tf rest0 fuel' thread_count seed h th).
Proof. intros Hf. unfold print_test_information. more_fuel. Qed.
End fuel.
#[export] Hint Resolve generate_transfer_lists_mono print_programs_mono : fuel.

(** the text of a test that is printed *)
Definition text_of {A} (printed : res (list titem * A)) : list titem :=
  match printed with
  | Ok (items, _) => items
  | Err _ => []
  end.

(** the text that is printed with enough fuel is that of any fuel with which
    something is printed *)
Lemma text_of_enough {A} (print : nat -> res (list titem * A)) fuel0 fuel items :
  (forall fuel fuel', (fuel <= fuel')%nat -> res_le (fun x y => x.1 = y.1) (print fuel) (print fuel')) ->
  (forall fuel, (fuel0 <= fuel)%nat -> exists freed, print fuel = Ok (items, freed)) ->
  text_of (print fuel) <> [] -> items = text_of (print fuel).
Proof.
  intros Hmono Hrun Hne. destruct (print fuel) as [[items' freed]|e] eqn:Hp; [|done].
  destruct (Hmono fuel (fuel0 + fuel)%nat ltac:(lia) _ Hp) as (x & Hx & Heq).
  destruct (Hrun (fuel0 + fuel)%nat ltac:(lia)) as [freed' Hr]. rewrite Hr in Hx. by injection Hx as <-.
Qed.

(** ** The tests for physical memory *)

Lemma zip_aligned sbs dbs tss : Forall laid_out tss ->
  Forall2 aligned_at sbs tss -> Forall2 aligned_at dbs tss ->
  Forall (fun t => (2 ^ t_size t | t_source t) /\ (2 ^ t_size t | t_destination t))
    (concat (at_addresses (zip sbs dbs) tss)).
Proof.
  intros Hok Hs. revert dbs. induction Hs as [|sb ts sbs tss Hb Hs IH]; intros dbs Hd.
  - by apply Forall2_nil_inv_r in Hd as ->.
  - apply Forall2_cons_inv_r in Hd as (db & dbs' & Hdb & Hd & ->). apply Forall_cons in Hok as [Hts Hok].
    cbn [zip zip_with at_addresses concat]. apply Forall_app. split; [|by apply IH].
    destruct Hts as [_ _ (sz & _ & Hal)]. apply Forall_fmap. apply Forall_forall. intros t Ht.
    unfold aligned_at in *. rewrite Forall_forall in Hal, Hb, Hdb.
    destruct (Hal t Ht) as (Hz & H1 & H2). specialize (Hb t Ht). specialize (Hdb t Ht). cbn in *.
    rewrite Hz in *. split; by apply Z.divide_add_r.
Qed.

Lemma listed_null h lists tss : Forall2 (listed_at h) lists tss ->
  NULL ∈ lists <-> Exists (fun ts => ts = []) tss.
Proof.
  induction 1 as [|p ts lists tss [ps Hp] _ IH].
  - rewrite Exists_nil. split; [by intros ?%elem_of_nil|done].
  - rewrite elem_of_cons, Exists_cons, IH. f_equiv.
    destruct ps as [|q ps], ts as [|t ts]; simpl in Hp; try done. destruct Hp as (-> & Hnz & _).
    split; [by intros <-|done].
Qed.

Lemma arrays_not_freed n (r : res theap) :
  forall x, (let* th := r in let* _ := give_back_arrays by_free (S n) in Ok th) <> Ok x.
Proof. by destruct r. Qed.

(** the text, when its parts are printed *)
Lemma print_multithread_text `{DMAAsm} `{DMAModel} tf rest0 fuel thread_count seed h th programs h' next
    lists th' words i1 s1 d1 i2 s2 d2 :
  generate_programs tf (Z.to_nat thread_count) 0 (mysrand seed) h = Ok (programs, h', next) ->
  generate_transfer_lists rest0 fuel 0 programs th = Ok (lists, th') ->
  print_programs fuel thread_count 0 programs = Ok words ->
  print_threads fuel SetByte tr_source th' lists DRAM_START 0 = Ok (i1, s1, d1) ->
  print_threads fuel CheckByte tr_destination th' lists d1 0 = Ok (i2, s2, d2) ->
  print_test_information tf rest0 fuel thread_count seed h th =
    let* sp := print_pointer_array thread_count 0 s1 in
    let* dp := print_pointer_array thread_count 0 s2 in
    Ok ([DefineDma] ++ words ++ [NextField] ++ i1 ++ [AssertStart] ++ i2 ++ [AssertEnd] ++ sp ++ [NextField] ++ dp,
        let* th := free_lists fuel by_free lists th' in
        let* _ := give_back_arrays by_free 4 in Ok th).
Proof.
  intros Hgen Hgl Hw H1 H2. unfold print_test_information. rewrite Hgen. cbn [res_bind].
  rewrite Hgl. cbn [res_bind]. rewrite Hw. cbn [res_bind]. rewrite H1. cbn [res_bind]. by rewrite H2.
Qed.

(** the whole text, from what the parts print *)
Lemma print_multithread_ok `{DMAAsm} `{DMAModel} tf rest0 thread_count seed h h' th ps next :
  wf_theap th -> 0 <= thread_count < 2 ^ 31 -> Forall well_sized ps ->
  length ps = Z.to_nat thread_count ->
  generate_programs tf (Z.to_nat thread_count) 0 (mysrand seed) h
    = Ok ((fun p => Some <$> words_of p) <$> ps, h', next) ->
  let tss := transfers_of <$> ps in
  exists lists th' fuel0,
    (forall fuel, (fuel0 <= fuel)%nat ->
       generate_transfer_lists rest0 fuel 0 ((fun p => Some <$> words_of p) <$> ps) th = Ok (lists, th'))
    /\ Forall2 (listed_at th') lists tss
    /\ ((Exists (fun ts => ts = []) tss /\ forall fuel, (fuel0 <= fuel)%nat ->
           print_test_information tf rest0 fuel thread_count seed h th = Err EUndef)
        \/ (Forall (fun ts => ts <> []) tss /\ exists items sbs dbs mid hi,
           (forall fuel, (fuel0 <= fuel)%nat -> exists freed,
              print_test_information tf rest0 fuel thread_count seed h th = Ok (items, freed)
              /\ forall x, freed <> Ok x)
           /\ length sbs = length tss /\ length dbs = length tss /\ pointers items = sbs ++ dbs
           /\ Forall2 aligned_at sbs tss /\ Forall2 aligned_at dbs tss
           /\ Forall (fun b => 0 <= b < 2 ^ 64 - SPAN) (sbs ++ dbs)
           /\ set_bytes items = pairs t_source (concat (at_addresses (zip sbs dbs) tss)) 0
           /\ check_bytes items = pairs t_destination (concat (at_addresses (zip sbs dbs) tss)) 0
           /\ increasing t_source DRAM_START mid (concat (at_addresses (zip sbs dbs) tss))
           /\ increasing t_destination mid hi (concat (at_addresses (zip sbs dbs) tss)))).
Proof.
  intros Hwt Hcount Hps Hlen Hgen tss.
  destruct (generate_transfer_lists_ok rest0 ps 0 th Hwt Hps) as (f1 & lists & th' & Hgl & Hlists & _); [lia|lia|].
  pose proof (programs_laid_out ps Hps : Forall laid_out tss) as Hlo.
  destruct (print_programs_ok thread_count ps Hps 0) as (f2 & words & Hplain & Hw).
  assert (Hlt : Z.of_nat (length tss) < 2 ^ 31) by (subst tss; rewrite length_fmap; lia).
  destruct (print_threads_ok SetByte tr_source t_source _ _ set_byte_piece) with (h := th') (tss := tss)
    (heads := lists) (d := DRAM_START) (a := 0)
    as (i1 & sbs & d1 & [f3 Hi1] & Hset & Hchk1 & Hp1 & Hinc1 & Hd1 & Hal1 & Hb1);
    [done|by left|lia|unfold DRAM_START; lia..|done|done|].
  destruct (print_threads_ok CheckByte tr_destination t_destination _ _ check_byte_piece) with (h := th')
    (tss := tss) (heads := lists) (d := d1) (a := 0)
    as (i2 & dbs & d2 & [f4 Hi2] & Hchk & Hset2 & Hp2 & Hinc2 & Hd2 & Hal2 & Hb2);
    [done|by right|lia|unfold DRAM_START in *; lia..|done|done|].
  pose proof (Forall2_length _ _ _ Hal1) as Hls. pose proof (Forall2_length _ _ _ Hal2) as Hld.
  exists lists, th', (Nat.max (Nat.max f1 f2) (Nat.max f3 f4)).
  split; [intros; apply Hgl; lia|]. split; [done|].
  pose proof (fun fuel (Hf : (Nat.max (Nat.max f1 f2) (Nat.max f3 f4) <= fuel)%nat) => print_multithread_text tf rest0 fuel thread_count seed h th _ _ _ _ _ _ _ _ _ _ _ _
    Hgen (Hgl fuel ltac:(lia)) (Hw fuel ltac:(lia)) (Hi1 fuel ltac:(lia)) (Hi2 fuel ltac:(lia)))
    as Hrun.
  destruct (print_pointer_array_ok thread_count sbs 0 tss Hls)
    as [(Hall & sp & Hsp & Hs3 & Hc3 & Hp3)|[Hex Hsp]].
  2: { left. split; [done|]. intros fuel Hf. by rewrite Hrun, Hsp by done. }
  destruct (print_pointer_array_ok thread_count dbs 0 tss Hld)
    as [(_ & dp & Hdp & Hs4 & Hc4 & Hp4)|[Hex Hdp]].
  2: { left. split; [done|]. intros fuel Hf. by rewrite Hrun, Hsp, Hdp by done. }
  right. split; [done|]. eexists _, sbs, dbs, d1, d2. split_and!; try done.
  - intros fuel Hf. eexists. split; [rewrite Hrun, Hsp, Hdp by done; reflexivity|].
    apply arrays_not_freed.
  - rewrite !pointers_app, (pl_pointers _ Hplain), Hp1, Hp2, Hp3, Hp4. done.
  - unfold DRAM_START, SPAN in *. apply Forall_app. split;
      [eapply Forall_impl; [exact Hb1|]|eapply Forall_impl; [exact Hb2|]]; simpl; lia.
  - rewrite !set_bytes_app, (pl_set _ Hplain), Hset, Hset2, Hs3, Hs4. cbn. rewrite app_nil_r.
    by apply (pairs_at_concat true).
  - rewrite !check_bytes_app, (pl_check _ Hplain), Hchk, Hchk1, Hc3, Hc4. cbn. rewrite app_nil_r.
    by apply (pairs_at_concat false).
  - by apply (increasing_at_concat true).
  - by apply (increasing_at_concat false).
Qed.

(** the engine, started at the addresses of a thread *)
Lemma engine_runs_at `{DMAAsm} `{DMAModel} p sb db rest : well_sized p ->
  0 <= sb < 2 ^ 64 - SPAN -> 0 <= db < 2 ^ 64 - SPAN ->
  engine_run_from (words_of p) sb db rest (shift sb db <$> transfers_of p).
Proof.
  intros [Hv Ha _] Hs Hd. pose proof (engine_runs_code p sb db rest Hv) as Hrun.
  pose proof (denote_shift p sb db ltac:(lia) ltac:(lia) 0 Hv 0 0) as Hsh.
  rewrite !Z.add_0_r in Hsh. rewrite Hsh in Hrun by lia. unfold transfers_of.
  by destruct (denote p 0 0) as [[s' d'] l].
Qed.

Lemma lookup_at_addresses sbs dbs tss i sb db ts :
  sbs !! i = Some sb -> dbs !! i = Some db -> tss !! i = Some ts ->
  at_addresses (zip sbs dbs) tss !! i = Some (shift sb db <$> ts).
Proof.
  intros Hs Hd Ht. unfold at_addresses. rewrite lookup_zip_with, lookup_zip_with, Hs, Hd. cbn. by rewrite Ht.
Qed.

(** the engine, started on the words of each thread at its addresses, makes the
    transfers listed for the thread *)
Definition threads_make `{DMAAsm} `{DMAModel} (words : list (list Z)) (sbs dbs : list Z)
    (moved : list (list transfer)) : Prop :=
  length moved = length words
  /\ forall i w, words !! i = Some w -> exists sb db ts,
    sbs !! i = Some sb /\ dbs !! i = Some db /\ moved !! i = Some ts
    /\ forall rest, engine_run_from w sb db rest ts.

Definition aligned_transfers (ts : list transfer) : Prop :=
  Forall (fun t => (2 ^ t_size t | t_source t) /\ (2 ^ t_size t | t_destination t)) ts.

Lemma threads_make_ok `{DMAAsm} `{DMAModel} ps sbs dbs :
  Forall well_sized ps -> length sbs = length ps -> length dbs = length ps ->
  Forall (fun b => 0 <= b < 2 ^ 64 - SPAN) (sbs ++ dbs) ->
  threads_make (words_of <$> ps) sbs dbs (at_addresses (zip sbs dbs) (transfers_of <$> ps)).
Proof.
  intros Hps Hs Hd [Hsb Hdb]%Forall_app. split.
  { unfold at_addresses. rewrite length_zip_with, length_zip_with, !length_fmap. lia. }
  intros i w (p & -> & Hp)%list_lookup_fmap_Some.
  pose proof (lookup_lt_Some _ _ _ Hp) as Hi.
  destruct (lookup_lt_is_Some_2 sbs i ltac:(lia)) as [sb Hsi].
  destruct (lookup_lt_is_Some_2 dbs i ltac:(lia)) as [db Hdi].
  exists sb, db, (shift sb db <$> transfers_of p). split_and!; try done.
  - apply lookup_at_addresses; [done..|]. apply list_lookup_fmap_Some. by exists p.
  - rewrite Forall_lookup in Hps. rewrite Forall_lookup in Hsb. rewrite Forall_lookup in Hdb. intros rest. apply engine_runs_at; eauto.
Qed.

(** a test is printed, unless an address was never assigned *)
Lemma multithread_cases `{DMAAsm} `{DMAModel} tf rest0 thread_count seed h th fuel1 programs h' next lists th' :
  wf_heap h -> wf_theap th -> 0 <= thread_count < 2 ^ 31 ->
  generate_programs tf (Z.to_nat thread_count) 0 (mysrand seed) h = Ok (programs, h', next) ->
  generate_transfer_lists rest0 fuel1 0 programs th = Ok (lists, th') ->
  exists fuel0,
    (NULL ∈ lists /\ forall fuel, (fuel0 <= fuel)%nat ->
       print_test_information tf rest0 fuel thread_count seed h th = Err EUndef)
    \/ ((NULL ∉ lists) /\ exists (words : list (list Z)) items sbs dbs (moved : list (list transfer)),
          programs = (fun w : list Z => Some <$> w) <$> words
          /\ Z.of_nat (length words) = thread_count
          /\ (forall fuel, (fuel0 <= fuel)%nat -> exists freed,
                print_test_information tf rest0 fuel thread_count seed h th = Ok (items, freed)
                /\ forall x, freed <> Ok x)
          /\ length sbs = length words /\ length dbs = length words /\ pointers items = sbs ++ dbs
          /\ threads_make words sbs dbs moved
          /\ aligned_transfers (concat moved) /\ disjoint_bytes (concat moved)
          /\ forall r m, interleaving (moves <$> moved) r -> multi_test_passes items r m = true).
Proof.
  intros Hwf Hwt Hcount Hgen Hlist.
  destruct (generate_programs_ok tf (Z.to_nat thread_count) 0 (mysrand seed) h Hwf)
    as [(ps & h1 & next' & Hok & Hlen & Hps & _)|Herr]; [lia|lia| |congruence].
  rewrite Hok in Hgen. injection Hgen as <- <- <-.
  destruct (print_multithread_ok tf rest0 thread_count seed h h1 th ps next' Hwt Hcount Hps Hlen Hok)
    as (lists' & th1 & fuel0 & Hgl & Hl & Hcases).
  pose proof (res_le_eq _ _ _ (generate_transfer_lists_mono _ _ _ _ (Nat.le_max_r fuel0 fuel1) _ _) Hlist) as Hsame.
  rewrite Hgl in Hsame by lia. injection Hsame as -> ->. exists fuel0. pose proof (listed_null _ _ _ Hl) as Hnull.
  destruct Hcases as [[Hex Herr]|(Hne & items & sbs & dbs & mid & hi & Hrun & Hls & Hld & Hp & Ha1 & Ha2 & Hb & Hset & Hchk & Hi1 & Hi2)].
  { left. by rewrite Hnull. }
  right. split.
  { rewrite Hnull. intros Hex%Exists_exists. destruct Hex as (ts & Hin & ->). rewrite Forall_forall in Hne. by destruct (Hne _ Hin). }
  exists (words_of <$> ps), items, sbs, dbs, (at_addresses (zip sbs dbs) (transfers_of <$> ps)).
  rewrite length_fmap in Hls, Hld. split_and!; rewrite ?length_fmap; try done.
  - by rewrite <- list_fmap_compose.
  - lia.
  - by apply threads_make_ok.
  - apply zip_aligned; [|done..]. by apply programs_laid_out.
  - by eapply disjoint_bytes_ok.
  - intros r m Hr. eapply interleaved_test_passes; try done; [by eapply increasing_sizes|by eapply disjoint_bytes_ok].
Qed.

(** C4: the tests for several threads in physical memory, for every seed and
    number of threads for which the programs are generated and their transfers
    listed.  If every program makes a transfer, the text is printed and gives
    every thread a source and a destination; the engine, started there, makes
    transfers aligned to their size; no byte is read twice, written twice, or
    both; and the printed test passes from every memory and with every
    interleaving of the bytes the threads move.  If some program makes no
    transfer (its list is null), its elements of the two arrays are printed
    although they were never assigned.  Giving back the arrays is undefined in
    any case: they come from [new[]] and go to [free]. *)
Theorem multithread_test_passes `{DMAAsm} `{DMAModel} tf rest0 thread_count seed h th fuel1 programs h' next lists th' :
  wf_heap h -> wf_theap th -> 0 <= thread_count < 2 ^ 31 ->
  generate_programs tf (Z.to_nat thread_count) 0 (mysrand seed) h = Ok (programs, h', next) ->
  generate_transfer_lists rest0 fuel1 0 programs th = Ok (lists, th') ->
  exists fuel0,
    (NULL ∈ lists -> forall fuel, (fuel0 <= fuel)%nat ->
       print_test_information tf rest0 fuel thread_count seed h th = Err EUndef)
    /\ (NULL ∉ lists -> exists (words : list (list Z)) items sbs dbs (moved : list (list transfer)),
          programs = (fun w : list Z => Some <$> w) <$> words
          /\ (forall fuel, (fuel0 <= fuel)%nat -> exists freed,
                print_test_information tf rest0 fuel thread_count seed h th = Ok (items, freed)
                /\ forall x, freed <> Ok x)
          /\ pointers items = sbs ++ dbs
          /\ threads_make words sbs dbs moved
          /\ aligned_transfers (concat moved) /\ disjoint_bytes (concat moved)
          /\ forall r m, interleaving (moves <$> moved) r -> multi_test_passes items r m = true).
Proof.
  intros Hwf Hwt Hcount Hgen Hlist.
  destruct (multithread_cases tf rest0 thread_count seed h th fuel1 _ _ _ _ _ Hwf Hwt Hcount Hgen Hlist)
    as (fuel0 & [[Hin Herr]|(Hnot & words & items & sbs & dbs & moved & Hw & _ & Hrun & _ & _ & Hp & Hmake & Hrest)]).
  - exists fuel0. split; [done|]. by intros Hnot.
  - exists fuel0. split; [by intros Hin|]. intros _. by exists words, items, sbs, dbs, moved.
Qed.

Definition ex_rest (i : Z) : @thread_rest model_plain := fun _ => i.
Definition ex_programs (seed : Z) : list (list (option Z)) * heap * Z :=
  match generate_programs true 2 0 (mysrand seed) empty_heap with
  | Ok x => x
  | Err _ => ([], empty_heap, 0)
  end.
Definition ex_lists (seed : Z) : list Z * theap :=
  match generate_transfer_lists ex_rest 200 0 (ex_programs seed).1.1 empty_theap with
  | Ok x => x
  | Err _ => ([], empty_theap)
  end.

Definition ex_text : list titem :=
  text_of (print_test_information true ex_rest 200 2 4 empty_heap empty_theap).

Lemma ex_text_enough fuel0 items :
  (forall fuel, (fuel0 <= fuel)%nat -> exists freed,
     print_test_information true ex_rest fuel 2 4 empty_heap empty_theap = Ok (items, freed)) -> items = ex_text.
Proof.
  intros Hrun. eapply (text_of_enough (fun fuel => print_test_information true ex_rest fuel 2 4 empty_heap empty_theap));
    [|exact Hrun|by vm_compute].
  intros fuel fuel'. apply print_multithread_mono.
Qed.

Lemma multithread_test_passes_witness :
  (exists sbs dbs (moved : list (list transfer)),
     pointers ex_text = sbs ++ dbs /\ length (check_bytes ex_text) = 256%nat /\ disjoint_bytes (concat moved)
     /\ forall r m, interleaving (moves <$> moved) r -> multi_test_passes ex_text r m = true)
  /\ (exists fuel0, forall fuel, (fuel0 <= fuel)%nat ->
       print_test_information true ex_rest fuel 2 6 empty_heap empty_theap = Err EUndef).
Proof.
  assert (Hwf : wf_heap empty_heap) by (intros a Ha; reflexivity).
  assert (Hwt : wf_theap empty_theap) by (split; reflexivity).
  split.
  - destruct (@multithread_test_passes asm_plain model_plain true ex_rest 2 4 empty_heap empty_theap 200 (ex_programs 4).1.1
      (ex_programs 4).1.2 (ex_programs 4).2 (ex_lists 4).1 (ex_lists 4).2
      Hwf Hwt ltac:(lia) ltac:(vm_compute; reflexivity) ltac:(vm_compute; reflexivity)) as (fuel0 & _ & Hpass).
    destruct Hpass as (words & items & sbs & dbs & moved & Hw & Hrun & Hp & _ & _ & Hdis & Hpass).
    { vm_compute (ex_lists 4).1. set_solver by lia. }
    assert (items = ex_text) as ->.
    { apply (ex_text_enough fuel0). intros fuel Hf. destruct (Hrun fuel Hf) as (freed & Hr & _). by exists freed. }
    exists sbs, dbs, moved. split; [exact Hp|split; [by vm_compute|split; [exact Hdis|exact Hpass]]].
  - destruct (@multithread_test_passes asm_plain model_plain true ex_rest 2 6 empty_heap empty_theap 200 (ex_programs 6).1.1
      (ex_programs 6).1.2 (ex_programs 6).2 (ex_lists 6).1 (ex_lists 6).2
      Hwf Hwt ltac:(lia) ltac:(vm_compute; reflexivity) ltac:(vm_compute; reflexivity)) as (fuel0 & Hund & _).
    exists fuel0. apply Hund. vm_compute (ex_lists 6).1. left.
Defined.
