(* ===== verification/DmaThreads.v ===== *)
(** * DmaThreads: the thread-switching test of the DMA engine.

    [fuzz_dma/multithread_test_template.c] starts one DMA thread per program
    and switches between the threads at random until each has been found ready,
    keeping the ones still active at the front of an array.  The engine is
    reached through [DMAControl.h], which is not part of the repository: it is
    the class [DMAControl].  [mips_tlb.h], which the virtualised variant of the
    test maps its pages with, is at the end. *)

From S2P Require Import Prelude.
From stdpp Require Import sets relations.
#[local] Open Scope Z_scope.

(** ** The interface to the engine *)

(** Operations on the memory-mapped engine, which runs by itself between them. *)
Class DMAControl := {
  device : Type;
  dma_set_pc : Z -> Z -> Z -> device -> device;                (* base, thread, program *)
  dma_set_source_address : Z -> Z -> Z -> device -> device;
  dma_set_dest_address : Z -> Z -> Z -> device -> device;
  dma_start_transfer : Z -> Z -> device -> device;
  dma_switch_to : Z -> Z -> Z -> device -> device;             (* base, thread count, thread *)
  dma_thread_ready : Z -> Z -> device -> bool * device;
  DEBUG_NOP : device -> device;
}.

(** What the test relies on to end: threads only ever get nearer to their end,
    and the one last switched to moves, or is done, by the time it is asked. *)
Class DMAProgress `{DMAControl} := {
  work : device -> Z -> nat;
  current : device -> Z;
  switch_work a n t d u : (work (dma_switch_to a n t d) u <= work d u)%nat;
  switch_current a n t d : current (dma_switch_to a n t d) = t;
  nop_work d u : (work (DEBUG_NOP d) u <= work d u)%nat;
  nop_current d : current (DEBUG_NOP d) = current d;
  ready_work a t d u : (work (dma_thread_ready a t d).2 u <= work d u)%nat;
  ready_progress a t d : current d = t ->
    (dma_thread_ready a t d).1 = true \/ (work (dma_thread_ready a t d).2 t < work d t)%nat;
}.

(** ** Arrays: an index out of bounds is undefined *)

Definition arr_get {A} (l : list A) (i : Z) : res A :=
  if i <? 0 then Err EUndef else of_opt (l !! Z.to_nat i).

Definition arr_set {A} (l : list A) (i : Z) (x : A) : res (list A) :=
  if (i <? 0) || (Z.of_nat (length l) <=? i) then Err EUndef else Ok (<[Z.to_nat i := x]> l).

Lemma arr_get_Ok {A} (l : list A) i x : 0 <= i -> l !! Z.to_nat i = Some x -> arr_get l i = Ok x.
Proof. intros Hi Hx. unfold arr_get. rewrite (proj2 (Z.ltb_ge _ _)) by lia. by rewrite Hx. Qed.

Lemma arr_get_inv {A} (l : list A) i x : arr_get l i = Ok x -> 0 <= i /\ l !! Z.to_nat i = Some x.
Proof.
  unfold arr_get. destruct (Z.ltb_spec i 0); [done|]. by destruct (l !! _); intros [= ->].
Qed.

Lemma arr_set_Ok {A} (l : list A) i x : 0 <= i < Z.of_nat (length l) -> arr_set l i x = Ok (<[Z.to_nat i := x]> l).
Proof.
  intros Hi. unfold arr_set. by rewrite (proj2 (Z.ltb_ge _ _)), (proj2 (Z.leb_gt _ _)) by lia.
Qed.

(** ** The random numbers *)

Definition myrand (next : Z) : Z * Z :=
  let next := u64 (next * 1103515245 + 12345) in (u32 (next / 65536) mod 32768, next).

Lemma thread_rand_range next : 0 <= (myrand next).1 < 32768.
Proof. by apply Z.mod_pos_bound. Qed.

(** ** The test *)

Definition DMA_THREAD_COUNT := 4.

Section test.
Context `{DMAControl}.

(** the substitutions of the template *)
Context (DMA_ADDR THREAD_COUNT seed : Z).
Context (source_addrs dest_addrs dma_program : list Z).
Context (set_sources : device -> device) (asserts : device -> bool).

Record state := State {
  dev : device;
  next : Z;
  active_threads : list Z;
  active_thread_count : Z;
  thread_index : list Z;
  thread : list Z;
}.

Definition set_dev (d : device) (s : state) : state :=
  State d (next s) (active_threads s) (active_thread_count s) (thread_index s) (thread s).

(** the body of the first loop of [test] *)
Definition setup_thread (i : Z) (s : state) : res state :=
  let* pc := arr_get dma_program i in
  let* src := arr_get source_addrs i in
  let* dst := arr_get dest_addrs i in
  let d := dma_set_pc DMA_ADDR i pc (dev s) in
  let d := dma_set_source_address DMA_ADDR i src d in
  let d := dma_set_dest_address DMA_ADDR i dst d in
  let* a := arr_set (active_threads s) i i in
  Ok (State d (next s) a (active_thread_count s) (thread_index s) (thread s)).

(** choosing a thread to switch to *)
Definition choose_thread (i : Z) (s : state) : res state :=
  if active_thread_count s =? 0 then Err EDivZero
  else
    let '(r, nxt) := myrand (next s) in
    let index := Z.rem r (active_thread_count s) in
    let* t := arr_get (active_threads s) index in
    let* ti := arr_set (thread_index s) i index in
    let* th := arr_set (thread s) i t in
    Ok (State (dev s) nxt (active_threads s) (active_thread_count s) ti th).

Definition choose_threads (s : state) : res state := for_up 0 3 choose_thread s.

Definition start_thread (i : Z) (s : state) : res state :=
  Ok (set_dev (dma_start_transfer DMA_ADDR i (dev s)) s).

(** three switches, then a wait of random length *)
Definition wait_period (d : device) : device := Nat.iter 4 DEBUG_NOP d.

Definition switch_and_wait (s : state) : res state :=
  let* t0 := arr_get (thread s) 0 in
  let* t1 := arr_get (thread s) 1 in
  let* t2 := arr_get (thread s) 2 in
  let d := dma_switch_to DMA_ADDR DMA_THREAD_COUNT t0 (dev s) in
  let d := dma_switch_to DMA_ADDR DMA_THREAD_COUNT t1 d in
  let d := dma_switch_to DMA_ADDR DMA_THREAD_COUNT t2 d in
  let '(r, nxt) := myrand (next s) in
  let d := Nat.iter (Z.to_nat (Z.rem r 20)) wait_period d in
  Ok (State d nxt (active_threads s) (active_thread_count s) (thread_index s) (thread s)).

(** a thread found ready is overwritten by the last active one *)
Definition retire (s : state) : res state :=
  let* t2 := arr_get (thread s) 2 in
  let '(ready, d) := dma_thread_ready DMA_ADDR t2 (dev s) in
  if ready then
    let* last := arr_get (active_threads s) (active_thread_count s - 1) in
    let* i2 := arr_get (thread_index s) 2 in
    let* a := arr_set (active_threads s) i2 last in
    Ok (State d (next s) a (active_thread_count s - 1) (thread_index s) (thread s))
  else Ok (set_dev d s).

(** the body of the [while] loop *)
Definition pass (s : state) : res state :=
  let* s := switch_and_wait s in
  let* s := retire s in
  choose_threads s.

Fixpoint passes (fuel : nat) (s : state) : res state :=
  match fuel with
  | O => Err EFuel
  | S n => if active_thread_count s =? 0 then Ok s else let* s := pass s in passes n s
  end.

(** what comes before the [while] loop; the arguments are what the stack and
    the engine hold at the start *)
Definition prepare (d : device) (active0 index0 thread0 : list Z) : res state :=
  let s := State (set_sources d) seed active0 THREAD_COUNT index0 thread0 in
  let* s := for_up 0 THREAD_COUNT setup_thread s in
  let* s := choose_threads s in
  for_up 0 THREAD_COUNT start_thread s.

Definition test (fuel : nat) (d : device) (active0 index0 thread0 : list Z) : res Z :=
  let* s := prepare d active0 index0 thread0 in
  let* s := passes fuel s in
  let* _ := c_assert (asserts (dev s)) in
  Ok 0.

(** ** The loop as a step relation *)

Inductive switches : state -> state -> Prop :=
  | switches_pass s s' : active_thread_count s <> 0 -> pass s = Ok s' -> switches s s'.

(** the threads that are still active *)
Definition active (s : state) : list Z := take (Z.to_nat (active_thread_count s)) (active_threads s).

(** the pass from [s] finds thread [t] ready *)
Definition retires (s : state) (t : Z) : Prop :=
  exists s1 d, switch_and_wait s = Ok s1 /\ thread s1 !! 2%nat = Some t /\
    dma_thread_ready DMA_ADDR t (dev s1) = (true, d).

(** the pass from [s], where [t] is the only active thread: [t] is found ready and
    is removed, and choosing the next threads among none divides by zero *)
Record last_pass (s : state) (t : Z) : Prop := {
  lp_active : active s = [t];
  lp_divides : exists s1 d s2, switch_and_wait s = Ok s1 /\ thread s1 !! 2%nat = Some t
    /\ dma_thread_ready DMA_ADDR t (dev s1) = (true, d)
    /\ retire s1 = Ok s2 /\ active s2 = [] /\ active_thread_count s2 = 0
    /\ choose_threads s2 = Err EDivZero;
}.

Record well_formed (s : state) : Prop := {
  wf_count : 0 < active_thread_count s <= THREAD_COUNT;
  wf_length : Z.of_nat (length (active_threads s)) = THREAD_COUNT;
  wf_nodup : NoDup (active s);
  wf_range : forall t, t ∈ active s -> 0 <= t < THREAD_COUNT;
  wf_index : length (thread_index s) = 3%nat;
  wf_thread : length (thread s) = 3%nat;
}.

(** entry [i] of [thread] is the active thread that [thread_index] says *)
Definition chosen (s : state) (i : nat) : Prop := exists x : nat,
  thread_index s !! i = Some (Z.of_nat x) /\ (x < length (active s))%nat /\ active s !! x = thread s !! i.

Definition inv (s : state) : Prop := well_formed s /\ forall i : nat, (i < 3)%nat -> chosen s i.

(** *** Choosing *)

Lemma length_active s : well_formed s -> length (active s) = Z.to_nat (active_thread_count s).
Proof. intros [Hc Hl _ _ _ _]. unfold active. rewrite length_take. lia. Qed.

Lemma choose_thread_ok s i : well_formed s -> 0 <= i < 3 ->
  exists s', choose_thread i s = Ok s' /\ well_formed s' /\ chosen s' (Z.to_nat i) /\
    dev s' = dev s /\ active s' = active s /\ active_thread_count s' = active_thread_count s /\
    (forall j : nat, j <> Z.to_nat i -> chosen s j -> chosen s' j).
Proof.
  intros Hwf Hi. pose proof (length_active s Hwf) as Ha. destruct Hwf as [Hc Hl Hnd Hr Hti Hth].
  unfold choose_thread. rewrite (proj2 (Z.eqb_neq _ _)) by lia.
  pose proof (thread_rand_range (next s)) as Hrand. destruct (myrand (next s)) as [r nxt]; simpl in Hrand.
  pose proof (Z.rem_bound_pos r (active_thread_count s) ltac:(lia) ltac:(lia)) as Hx.
  set (x := Z.rem r (active_thread_count s)) in *. clearbody x. cbv zeta.
  destruct (lookup_lt_is_Some_2 (active s) (Z.to_nat x)) as [t Ht]; [lia|].
  assert (Ht' : active_threads s !! Z.to_nat x = Some t).
  { rewrite <- Ht. unfold active. by rewrite lookup_take_lt by lia. }
  rewrite (arr_get_Ok _ _ t) by (done || lia). cbn [res_bind].
  rewrite !arr_set_Ok by lia. cbn [res_bind]. eexists; split; [done|].
  split; [by split; simpl; rewrite ?length_insert|]. split.
  { exists (Z.to_nat x). unfold active in *; simpl. rewrite !list_lookup_insert_eq by lia.
    rewrite Z2Nat.id by lia. repeat split; [lia|done]. }
  do 3 (split; [done|]). intros j Hj (y & Hy & Hlt & Hey). exists y.
  unfold active in *; simpl. by rewrite !list_lookup_insert_ne by done.
Qed.

Lemma choose_threads_ok s : well_formed s ->
  exists s', choose_threads s = Ok s' /\ inv s' /\ dev s' = dev s /\ active s' = active s /\
    active_thread_count s' = active_thread_count s.
Proof.
  intros Hwf. unfold choose_threads.
  destruct (for_up_inv (fun i s' => well_formed s' /\ dev s' = dev s /\ active s' = active s /\
      active_thread_count s' = active_thread_count s /\ forall j : nat, Z.of_nat j < i -> chosen s' j)
    0 3 choose_thread s) as (s' & Hrun & Hw & Hd & Ha & Hc & Hch).
  - lia.
  - repeat (split; [done|]). lia.
  - intros i s1 Hi (Hw & Hd & Ha & Hc & Hch).
    destruct (choose_thread_ok s1 i Hw Hi) as (s2 & -> & Hw2 & Hnew & Hd2 & Ha2 & Hc2 & Hold).
    exists s2. rewrite Hd2, Ha2, Hc2. repeat (split; [done|]). intros j Hj.
    destruct (decide (j = Z.to_nat i)) as [->|Hne]; [done|]. apply Hold, Hch; [done|lia].
  - exists s'. repeat (split; [done|]). split; [|done]. split; [done|]. intros i Hi. apply Hch. lia.
Qed.

(** *** One pass *)

Lemma switch_and_wait_ok s : inv s -> exists s1 t, switch_and_wait s = Ok s1 /\ inv s1 /\
  active s1 = active s /\ active_threads s1 = active_threads s /\
  active_thread_count s1 = active_thread_count s /\ thread s1 = thread s /\ thread_index s1 = thread_index s /\
  thread s !! 2%nat = Some t /\ t ∈ active s /\
  exists d (n : nat), dev s1 = Nat.iter n wait_period (dma_switch_to DMA_ADDR DMA_THREAD_COUNT t d) /\
    exists t0 t1, d = dma_switch_to DMA_ADDR DMA_THREAD_COUNT t1 (dma_switch_to DMA_ADDR DMA_THREAD_COUNT t0 (dev s)).
Proof.
  intros [Hwf Hch]. unfold switch_and_wait.
  destruct (lookup_lt_is_Some_2 (thread s) 0) as [t0 H0]; [rewrite (wf_thread _ Hwf); lia|].
  destruct (lookup_lt_is_Some_2 (thread s) 1) as [t1 H1]; [rewrite (wf_thread _ Hwf); lia|].
  destruct (lookup_lt_is_Some_2 (thread s) 2) as [t2 H2]; [rewrite (wf_thread _ Hwf); lia|].
  rewrite (arr_get_Ok _ 0 t0), (arr_get_Ok _ 1 t1), (arr_get_Ok _ 2 t2) by done. cbn [res_bind].
  destruct (myrand (next s)) as [r nxt]. eexists _, t2. split; [done|].
  split; [split; [by destruct Hwf; split|exact Hch]|].
  do 6 (split; [done|]). split.
  - destruct (Hch 2%nat) as (x & _ & _ & Hx); [lia|]. apply list_elem_of_lookup. exists x. by rewrite Hx.
  - eexists _, _. split; [done|]. by eexists _, _.
Qed.

Lemma take_insert_last {A} (l : list A) (n i : nat) x y :
  (S n <= length l)%nat -> (i < S n)%nat -> l !! i = Some x -> l !! n = Some y ->
  take (S n) l ≡ₚ x :: take n (<[i := y]> l).
Proof.
  intros Hl Hi Hx Hy. destruct (decide (i = n)) as [->|Hne].
  - rewrite take_insert_ge by lia. rewrite (take_S_r _ _ _ Hx), Permutation_app_comm. done.
  - rewrite take_insert_lt by lia. rewrite (take_S_r _ _ _ Hy).
    rewrite (insert_take_drop (take n l) i y) by (rewrite length_take; lia).
    assert (Hx' : take n l !! i = Some x) by (rewrite lookup_take_lt by lia; done).
    rewrite <- (take_drop_middle _ _ _ Hx') at 1. solve_Permutation.
Qed.

(** a thread found ready leaves the active ones, and no other does *)
Lemma retire_ok s : inv s -> exists t b d s', thread s !! 2%nat = Some t /\
  dma_thread_ready DMA_ADDR t (dev s) = (b, d) /\ retire s = Ok s' /\ dev s' = d /\
  if b then active s ≡ₚ t :: active s' /\ active_thread_count s' = active_thread_count s - 1 /\
            (1 < active_thread_count s -> well_formed s')
  else inv s' /\ active s' = active s /\ active_thread_count s' = active_thread_count s.
Proof.
  intros [Hwf Hch]. pose proof (length_active s Hwf) as Ha. pose proof Hwf as [Hc Hl Hnd Hr Hti Hth].
  destruct (Hch 2%nat) as (x & Hx & Hlt & Hxt); [lia|].
  destruct (lookup_lt_is_Some_2 (thread s) 2) as [t Ht]; [lia|]. rewrite Ht in Hxt.
  unfold retire. rewrite (arr_get_Ok _ 2 t) by done. cbn [res_bind].
  destruct (dma_thread_ready DMA_ADDR t (dev s)) as [b d] eqn:Hready.
  destruct b; cycle 1.
  { exists t, false, d, (set_dev d s). do 4 (split; [done|]). split; [|done].
    split; [by split|exact Hch]. }
  destruct (lookup_lt_is_Some_2 (active_threads s) (Z.to_nat (active_thread_count s - 1))) as [last Hlast]; [lia|].
  rewrite (arr_get_Ok _ _ last) by (done || lia). cbn [res_bind].
  rewrite (arr_get_Ok _ 2 (Z.of_nat x)) by done. cbn [res_bind].
  rewrite arr_set_Ok by lia. cbn [res_bind]. rewrite Nat2Z.id.
  exists t, true, d. eexists. split; [done|]. split; [done|]. split; [done|]. split; [done|].
  assert (Hperm : active s ≡ₚ t :: take (Z.to_nat (active_thread_count s - 1)) (<[x := last]> (active_threads s))).
  { unfold active. replace (Z.to_nat (active_thread_count s)) with (S (Z.to_nat (active_thread_count s - 1))) by lia.
    apply take_insert_last; [lia|lia| |done].
    rewrite <- Hxt. unfold active. by rewrite lookup_take_lt by lia. }
  split; [exact Hperm|]. split; [done|]. intros H1.
  split; unfold active; cbn [active_threads active_thread_count thread_index thread]; rewrite ?length_insert; try done.
  - lia.
  - rewrite Hperm in Hnd. by apply NoDup_cons_1_2 in Hnd.
  - intros u Hu. apply Hr. rewrite Hperm. by right.
Qed.

Lemma choose_threads_none s : active_thread_count s = 0 -> choose_threads s = Err EDivZero.
Proof.
  intros H0. change (choose_threads s) with (let* s' := choose_thread 0 s in for_loop 2 1 choose_thread s').
  unfold choose_thread at 1. by rewrite H0.
Qed.

(** a pass, by whether it finds the last of the three threads ready *)
Lemma pass_cases s : inv s -> exists s1 t b d, switch_and_wait s = Ok s1 /\
  thread s1 !! 2%nat = Some t /\ t ∈ active s /\ dma_thread_ready DMA_ADDR t (dev s1) = (b, d) /\
  if b then last_pass s t \/
            (exists s', pass s = Ok s' /\ inv s' /\ active s ≡ₚ t :: active s' /\ dev s' = d)
  else exists s', pass s = Ok s' /\ inv s' /\ active s' = active s /\ dev s' = d.
Proof.
  intros Hinv.
  destruct (switch_and_wait_ok s Hinv) as (s1 & t & Hsw & Hinv1 & Ha & _ & Hc & Hth & _ & Ht & Hel & _).
  destruct (retire_ok s1 Hinv1) as (t' & b & d & s2 & Ht' & Hready & Hret & Hd & Hb).
  rewrite Hth in Ht'. assert (t' = t) as -> by congruence.
  exists s1, t, b, d. rewrite Hth. do 4 (split; [done|]). unfold pass. rewrite Hsw. cbn [res_bind].
  rewrite Hret. cbn [res_bind]. rewrite Ha in Hb. destruct b.
  - destruct Hb as (Hp & Hc2 & Hwf2). destruct Hinv as [Hwf _]. pose proof (wf_count _ Hwf).
    destruct (decide (active_thread_count s = 1)) as [H1|H1].
    + left. assert (Hnil : active s2 = []) by (unfold active; rewrite Hc2, Hc, H1; done).
      assert (Hc0 : active_thread_count s2 = 0) by lia.
      split; [apply Permutation_length_1_inv; by rewrite Hp, Hnil|].
      exists s1, d, s2. rewrite Hth. by rewrite choose_threads_none.
    + right. destruct (choose_threads_ok s2) as (s3 & Hs3 & Hi3 & Hd3 & Ha3 & _); [apply Hwf2; lia|].
      exists s3. rewrite Hs3, Hd3, Ha3. done.
  - destruct Hb as (Hi2 & Ha2 & Hc2).
    destruct (choose_threads_ok s2) as (s3 & Hs3 & Hi3 & Hd3 & Ha3 & _); [apply Hi2|].
    exists s3. rewrite Hs3, Hd3, Ha3. done.
Qed.

Lemma last_pass_error s t : last_pass s t -> pass s = Err EDivZero.
Proof. intros [_ (s1 & d & s2 & Hs1 & _ & _ & Hs2 & _ & _ & Hc)]. unfold pass. by rewrite Hs1; cbn [res_bind]; rewrite Hs2. Qed.

(** what one step of the relation does *)
Lemma switches_cases s s' : inv s -> switches s s' -> inv s' /\
  (active s' = active s \/ exists t, retires s t /\ active s ≡ₚ t :: active s').
Proof.
  intros Hinv Hsw. destruct Hsw as [s s' _ Hp]. destruct (pass_cases s Hinv) as (s1 & t & b & d & Hs1 & Ht & _ & Hr & Hb).
  destruct b.
  - destruct Hb as [Hb%last_pass_error|(s2 & Hb & Hi & Hperm & _)]; [congruence|].
    assert (s2 = s') as -> by congruence. split; [done|]. right. exists t. split; [by exists s1, d|done].
  - destruct Hb as (s2 & Hb & Hi & Ha & _). assert (s2 = s') as -> by congruence. auto.
Qed.

Lemma reachable_inv s0 s : inv s0 -> rtc switches s0 s -> inv s /\
  forall t, t ∈ active s0 -> t ∈ active s \/
    exists s1, rtc switches s0 s1 /\ rtc switches s1 s /\ retires s1 t.
Proof.
  intros H0. revert s. apply rtc_ind_r; [split; auto|]. intros s s1 Hrs Hs [Hi IH].
  destruct (switches_cases s s1 Hi Hs) as [Hi1 Hcase]. split; [done|]. intros t Ht.
  destruct (IH t Ht) as [Hin|(s2 & H2 & H3 & Hr)]; [|right; exists s2; split_and!; [done|by eapply rtc_r|done]]. destruct Hcase as [->|(u & Hu & Hp)]; [by left|].
  rewrite Hp in Hin. apply elem_of_cons in Hin as [->|Hin]; [|by left]. right. exists s. split_and!; [done|by apply rtc_once|done].
Qed.

(** *** Before the loop *)

(** the arrays of the template and of the stack are as long as they are declared *)
Record arrays (active0 index0 thread0 : list Z) : Prop := {
  len_count : 0 < THREAD_COUNT;
  len_program : Z.of_nat (length dma_program) = THREAD_COUNT;
  len_source : Z.of_nat (length source_addrs) = THREAD_COUNT;
  len_dest : Z.of_nat (length dest_addrs) = THREAD_COUNT;
  len_active : Z.of_nat (length active0) = THREAD_COUNT;
  len_index : length index0 = 3%nat;
  len_thread : length thread0 = 3%nat;
}.

Lemma arr_get_total (l : list Z) i : 0 <= i < Z.of_nat (length l) -> exists x, arr_get l i = Ok x.
Proof.
  intros Hi. destruct (lookup_lt_is_Some_2 l (Z.to_nat i)) as [x Hx]; [lia|].
  exists x. apply arr_get_Ok; [lia|done].
Qed.

Lemma prepare_ok d active0 index0 thread0 : arrays active0 index0 thread0 ->
  exists s0, prepare d active0 index0 thread0 = Ok s0 /\ inv s0 /\
    forall t, 0 <= t < THREAD_COUNT -> t ∈ active s0.
Proof.
  intros [HN Hp Hsrc Hdst Ha Hti Hth]. unfold prepare.
  set (s := State _ _ _ _ _ _).
  destruct (for_up_inv (fun i s' => active_thread_count s' = THREAD_COUNT /\
      length (active_threads s') = Z.to_nat THREAD_COUNT /\
      length (thread_index s') = 3%nat /\ length (thread s') = 3%nat /\
      forall j : nat, Z.of_nat j < i -> active_threads s' !! j = Some (Z.of_nat j))
    0 THREAD_COUNT setup_thread s) as (s1 & -> & Hc1 & Hl1 & Hti1 & Hth1 & Hact).
  - lia.
  - repeat split; simpl; try done; lia.
  - intros i s1 Hi (Hc & Hl & Hti1 & Hth1 & Hact). unfold setup_thread.
    destruct (arr_get_total dma_program i) as [pc ->]; [lia|].
    destruct (arr_get_total source_addrs i) as [src ->]; [lia|].
    destruct (arr_get_total dest_addrs i) as [dst ->]; [lia|]. cbn [res_bind].
    rewrite arr_set_Ok by lia. cbn [res_bind]. eexists; split; [done|].
    cbn [active_threads active_thread_count thread_index thread]. rewrite length_insert.
    do 4 (split; [done|]). intros j Hj. destruct (decide (j = Z.to_nat i)) as [->|Hne].
    + rewrite list_lookup_insert_eq by lia. f_equal. lia.
    + rewrite list_lookup_insert_ne by done. apply Hact. lia.
  - cbn [res_bind].
    assert (Hs1 : active s1 = seqZ 0 THREAD_COUNT).
    { unfold active. rewrite Hc1, take_ge by lia. apply list_eq_same_length with (n := Z.to_nat THREAD_COUNT).
      - by rewrite length_seqZ.
      - done.
      - intros j x y Hj. rewrite Hact by lia. rewrite lookup_seqZ_lt by lia. intros [= <-] [= <-]. lia. }
    destruct (choose_threads_ok s1) as (s2 & -> & Hi2 & _ & Ha2 & _).
    { split; rewrite ?Hs1; try lia.
      - apply NoDup_seqZ.
      - intros t. rewrite elem_of_seqZ. lia. }
    cbn [res_bind].
    destruct (for_up_inv (fun _ s' => inv s' /\ active s' = active s2) 0 THREAD_COUNT start_thread s2)
      as (s3 & -> & Hi3 & Ha3); [lia|done| |].
    + intros i s3 _ [[[] Hch] Ha3]. eexists; split; [done|]. split; [split; [by split|exact Hch]|exact Ha3].
    + exists s3. split; [done|]. split; [done|]. intros t Ht. rewrite Ha3, Ha2, Hs1, elem_of_seqZ. lia.
Qed.

(** C9: every pass of the loop keeps the first [active_thread_count] entries of
    [active_threads] distinct threads of the test and the three threads to
    switch to among them, and a thread leaves them only when a pass finds it
    ready. *)
Theorem threads_invariant d active0 index0 thread0 :
  arrays active0 index0 thread0 ->
  exists s0, prepare d active0 index0 thread0 = Ok s0 /\
    forall s, rtc switches s0 s -> inv s /\
      forall t, 0 <= t < THREAD_COUNT -> t ∈ active s \/
        exists s1, rtc switches s0 s1 /\ rtc switches s1 s /\ retires s1 t.
Proof.
  intros Harr. destruct (prepare_ok d _ _ _ Harr) as (s0 & Hs0 & Hi0 & Hall).
  exists s0. split; [done|]. intros s Hs. destruct (reachable_inv s0 s Hi0 Hs) as [Hi Ht]. eauto.
Qed.

(** *** The loop on an engine that makes progress *)

Context `{!DMAProgress}.

Definition remaining (s : state) : nat := sum_list_with (fun t => S (work (dev s) t)) (active s).

Lemma wait_work n d : current (Nat.iter n wait_period d) = current d /\
  forall u, (work (Nat.iter n wait_period d) u <= work d u)%nat.
Proof.
  induction n as [|n [IHc IHw]]; [done|]. simpl. split.
  - unfold wait_period at 1. simpl. by rewrite !nop_current.
  - intros u. unfold wait_period at 1. simpl. etrans; [|apply IHw].
    do 3 (etrans; [apply nop_work|]). apply nop_work.
Qed.

Lemma sum_list_with_le (f g : Z -> nat) l :
  (forall x, (f x <= g x)%nat) -> (sum_list_with f l <= sum_list_with g l)%nat.
Proof. intros Hle. induction l as [|x l IH]; [done|]. simpl. specialize (Hle x). lia. Qed.

Lemma sum_list_with_lt (f g : Z -> nat) l x :
  (forall x, (f x <= g x)%nat) -> x ∈ l -> (f x < g x)%nat -> (sum_list_with f l < sum_list_with g l)%nat.
Proof.
  intros Hle Hx Hlt. induction l as [|y l IH]; [by apply elem_of_nil in Hx|].
  apply elem_of_cons in Hx as [<-|Hx]; simpl.
  - pose proof (sum_list_with_le f g l Hle). lia.
  - specialize (Hle y). specialize (IH Hx). lia.
Qed.

Lemma pass_progress s : inv s ->
  (exists t, retires s t /\ last_pass s t) \/
  (exists s', switches s s' /\ inv s' /\ (remaining s' < remaining s)%nat /\
    forall t, t ∈ active s -> t ∈ active s' \/ retires s t).
Proof.
  intros Hinv. pose proof (pass_cases s Hinv) as (s1 & t & b & d & Hsw & Ht & Hel & Hr & Hb).
  assert (Hret : b = true -> retires s t) by (intros ->; by exists s1, d).
  assert (Hcnt : active_thread_count s <> 0) by (destruct Hinv as [[? _ _ _ _ _] _]; lia).
  destruct (switch_and_wait_ok s Hinv) as (s1' & t' & Hsw' & _ & _ & _ & _ & Hth & _ & Ht' & _ & d0 & n & Hd1 & t0 & t1 & Hd0).
  assert (s1' = s1) as -> by congruence. rewrite Hth in Ht. assert (t' = t) as -> by congruence.
  destruct (wait_work n (dma_switch_to DMA_ADDR DMA_THREAD_COUNT t d0)) as [Hcur Hw1].
  rewrite <- Hd1 in Hcur, Hw1. rewrite switch_current in Hcur.
  pose proof (ready_progress DMA_ADDR t (dev s1) Hcur) as Hprog.
  pose proof (ready_work DMA_ADDR t (dev s1)) as Hw2. rewrite Hr in Hprog, Hw2; simpl in Hprog, Hw2.
  assert (Hw : forall u, (work (dev s1) u <= work (dev s) u)%nat).
  { intros u. etrans; [apply Hw1|]. rewrite Hd0. do 2 (etrans; [apply switch_work|]). apply switch_work. }
  destruct b.
  - destruct Hb as [Hl|(s' & Hp & Hi & Hperm & Hd)]; [left; eauto|]. right. exists s'.
    do 2 (split; [done|]). split.
    + unfold remaining. rewrite Hperm, Hd. simpl.
      enough (sum_list_with (fun u => S (work d u)) (active s') <= sum_list_with (fun u => S (work (dev s) u)) (active s'))%nat by lia.
      apply sum_list_with_le. intros u. specialize (Hw u); specialize (Hw2 u). lia.
    + intros u Hu. rewrite Hperm in Hu. apply elem_of_cons in Hu as [->|Hu]; auto.
  - destruct Hb as (s' & Hp & Hi & Ha & Hd). right. exists s'. destruct Hprog as [|Hprog]; [done|].
    do 2 (split; [done|]). split; [|intros u Hu; left; by rewrite Ha].
    unfold remaining. rewrite Ha, Hd. apply sum_list_with_lt with t; [|done|].
    + intros u. specialize (Hw u); specialize (Hw2 u). lia.
    + specialize (Hw t). lia.
Qed.

Lemma eventually_retires s t : inv s -> t ∈ active s -> exists s', rtc switches s s' /\ retires s' t.
Proof.
  remember (remaining s) as n eqn:Hn. revert s Hn.
  induction (lt_wf n) as [n _ IH]. intros s -> Hi Ht.
  destruct (pass_progress s Hi) as [(u & Hu & [Ha _])|(s' & Hs & Hi' & Hlt & Hact)].
  - rewrite Ha in Ht. apply list_elem_of_singleton in Ht as ->. by exists s.
  - destruct (Hact t Ht) as [Ht'|Hret]; [|by exists s].
    destruct (IH _ Hlt s' eq_refl Hi' Ht') as (s2 & Hrtc & H2). exists s2. split; [|done].
    by apply rtc_l with s'.
Qed.

(** the loop gets to its last pass, and no further *)
Lemma passes_divide s : inv s -> exists s' t, rtc switches s s' /\ last_pass s' t /\
  forall fuel, (remaining s < fuel)%nat -> passes fuel s = Err EDivZero.
Proof.
  remember (remaining s) as n eqn:Hn. revert s Hn. induction (lt_wf n) as [n _ IH]. intros s -> Hi.
  assert (Hc : active_thread_count s <> 0) by (destruct Hi as [[? _ _ _ _ _] _]; lia).
  assert (Hpass : forall fuel, passes (S fuel) s = let* s := pass s in passes fuel s).
  { intros fuel. cbn [passes]. by rewrite (proj2 (Z.eqb_neq _ _)). }
  destruct (pass_progress s Hi) as [(t & _ & Hl)|(s' & Hs & Hi' & Hlt & _)].
  - exists s, t. split; [done|]. split; [done|]. intros [|fuel] Hf; [lia|].
    by rewrite Hpass, (last_pass_error s t Hl).
  - destruct (IH _ Hlt s' eq_refl Hi') as (s2 & t & Hrtc & Hl & Hrun). exists s2, t.
    split; [by apply rtc_l with s'|]. split; [done|]. intros [|fuel] Hf; [lia|].
    rewrite Hpass. destruct Hs as [s s' _ Hp]. rewrite Hp. cbn [res_bind]. apply Hrun. lia.
Qed.

(** C10: on an engine whose threads make progress while they are switched to,
    every thread of the test is found ready by some pass of the loop. *)
Theorem threads_all_retire d active0 index0 thread0 :
  arrays active0 index0 thread0 ->
  exists s0, prepare d active0 index0 thread0 = Ok s0 /\
    forall t, 0 <= t < THREAD_COUNT -> exists s, rtc switches s0 s /\ retires s t.
Proof.
  intros Harr. destruct (prepare_ok d _ _ _ Harr) as (s0 & Hs0 & Hi0 & Hall).
  exists s0. split; [done|]. intros t Ht. by apply eventually_retires; [|apply Hall].
Qed.

(** C22: the loop of the test always ends in the same way: in a state [s] that it
    reaches, one thread is left and every other has been found ready by an
    earlier pass; the pass from [s] switches, finds the last thread ready and
    removes it without an access out of bounds, and then chooses the next threads
    with [% active_thread_count], which is zero.  The test never leaves its
    loop, and no assertion on what was copied is evaluated. *)
Theorem threads_divide_by_zero d active0 index0 thread0 :
  arrays active0 index0 thread0 ->
  exists s0 s t, prepare d active0 index0 thread0 = Ok s0 /\ rtc switches s0 s /\ last_pass s t /\
    (forall u, 0 <= u < THREAD_COUNT -> u <> t -> exists s1, rtc switches s0 s1 /\ rtc switches s1 s /\ retires s1 u) /\
    exists fuel0, forall fuel, (fuel0 <= fuel)%nat -> test fuel d active0 index0 thread0 = Err EDivZero.
Proof.
  intros Harr. destruct (prepare_ok d _ _ _ Harr) as (s0 & Hs0 & Hi0 & Hall).
  destruct (passes_divide s0 Hi0) as (s & t & Hrtc & Hl & Hrun).
  exists s0, s, t. split; [done|]. split; [done|]. split; [done|]. split.
  - intros u Hu Hne. destruct (reachable_inv s0 s Hi0 Hrtc) as [_ Hret].
    destruct (Hret u (Hall u Hu)) as [Hin|]; [|done]. rewrite (lp_active _ _ Hl) in Hin.
    by apply list_elem_of_singleton in Hin.
  - exists (S (remaining s0)). intros fuel Hf. unfold test. rewrite Hs0. cbn [res_bind].
    rewrite Hrun; [done|lia].
Qed.

End test.

(** ** An engine that runs the thread it is switched to

    Each thread has a number of instructions left; asking about a thread takes
    the time of one instruction of the current one. *)

Record counting := Counting { left_of : list nat; running : Z }.

Definition left_in (d : counting) (t : Z) : nat := nth (Z.to_nat t) (left_of d) 0%nat.

Definition run_one (d : counting) : counting :=
  Counting (alter Nat.pred (Z.to_nat (running d)) (left_of d)) (running d).

#[local] Instance counting_control : DMAControl := {
  device := counting;
  dma_set_pc _ _ _ d := d;
  dma_set_source_address _ _ _ d := d;
  dma_set_dest_address _ _ _ d := d;
  dma_start_transfer _ _ d := d;
  dma_switch_to _ _ t d := Counting (left_of d) t;
  dma_thread_ready _ t d := ((left_in d t =? 0)%nat, run_one d);
  DEBUG_NOP d := d;
}.

Lemma left_in_run_one d u : left_in (run_one d) u =
  if decide (Z.to_nat u = Z.to_nat (running d)) then Nat.pred (left_in d u) else left_in d u.
Proof.
  unfold left_in, run_one. cbn [left_of]. rewrite !nth_lookup. case_decide as Hu.
  - rewrite Hu, list_lookup_alter_eq. by destruct (left_of d !! _).
  - by rewrite list_lookup_alter_ne by done.
Qed.

#[local, refine] Instance counting_progress : DMAProgress := {
  work := left_in;
  current := running;
}.
Proof.
  - done.
  - done.
  - done.
  - done.
  - intros a t d u. simpl. rewrite left_in_run_one. case_decide; lia.
  - intros a t d <-. simpl. rewrite left_in_run_one, decide_True by done.
    destruct (Nat.eqb_spec (left_in d (running d)) 0); [by left|right; lia].
Defined.

#[local] Abbreviation ex_prepare :=
  (prepare 0 3 1 [10; 20; 30] [40; 50; 60] [70; 80; 90] id (Counting [2%nat; 0%nat; 5%nat] 0)
     [7; 7; 7] [8; 8; 8] [9; 9; 9]).
#[local] Abbreviation ex_test fuel :=
  (test 0 3 1 [10; 20; 30] [40; 50; 60] [70; 80; 90] id (fun _ => true) fuel
     (Counting [2%nat; 0%nat; 5%nat] 0) [7; 7; 7] [8; 8; 8] [9; 9; 9]).
#[local] Abbreviation ex_arrays :=
  (arrays 3 [10; 20; 30] [40; 50; 60] [70; 80; 90] [7; 7; 7] [8; 8; 8] [9; 9; 9]).

Lemma arrays_example : ex_arrays.
Proof. by split. Qed.

Lemma threads_invariant_witness : ex_arrays /\ exists s0, ex_prepare = Ok s0 /\
  forall s, rtc (switches 0) s0 s -> inv 3 s /\
    forall t, 0 <= t < 3 -> t ∈ active s \/
      exists s1, rtc (switches 0) s0 s1 /\ rtc (switches 0) s1 s /\ retires 0 s1 t.
Proof. split; [apply arrays_example|apply threads_invariant, arrays_example]. Defined.

Lemma threads_all_retire_witness : ex_arrays /\ exists s0, ex_prepare = Ok s0 /\
  forall t, 0 <= t < 3 -> exists s, rtc (switches 0) s0 s /\ retires 0 s t.
Proof. split; [apply arrays_example|exact (threads_all_retire _ _ _ _ _ _ _ _ _ _ _ arrays_example)]. Defined.

Lemma threads_divide_by_zero_witness : ex_arrays /\
  (exists s0 s t, ex_prepare = Ok s0 /\ rtc (switches 0) s0 s /\ last_pass 0 s t /\
     (forall u, 0 <= u < 3 -> u <> t -> exists s1, rtc (switches 0) s0 s1 /\ rtc (switches 0) s1 s /\ retires 0 s1 u) /\
     exists fuel0, forall fuel, (fuel0 <= fuel)%nat -> ex_test fuel = Err EDivZero) /\
  ex_test 40 = Err EDivZero.
Proof.
  split; [apply arrays_example|]. split; [exact (threads_divide_by_zero _ _ _ _ _ _ _ _ _ _ _ _ arrays_example)|by vm_compute].
Defined.

(** ** Mapping pages for the virtualised tests: mips_tlb.h *)

(** the CP0 registers the function writes, and the TLB; [tlbwr] writes the entry
    that [Random] selects *)
Record tlb_entry := Entry { PageMask : Z; EntryLo0 : Z; EntryLo1 : Z; EntryHi : Z }.
Record cp0 := Cp0 { cp0_regs : tlb_entry; Random : Z; tlb : gmap Z tlb_entry }.

Definition tlbwr (c : cp0) : cp0 := Cp0 (cp0_regs c) (Random c) (<[Random c := cp0_regs c]> (tlb c)).

Definition add_tlb_mapping (virtual_pn physical_pn_0 physical_pn_1 : Z) (c : cp0) : cp0 :=
  let page_mask := 0 in
  let entry_hi := u64 (Z.shiftl virtual_pn 12) in
  let entry_lo0 := Z.lor (u64 (Z.shiftl physical_pn_0 6)) 7 in
  let entry_lo1 := Z.lor (u64 (Z.shiftl physical_pn_1 6)) 7 in
  tlbwr (Cp0 (Entry page_mask entry_lo0 entry_lo1 entry_hi) (Random c) (tlb c)).

(** How the processor reads an entry for 4 KiB pages: bits 13 and up of the
    address select it, bit 12 selects the half; a half has the frame number in
    bits 6 and up over cache attribute, dirty, valid and global bits. *)
Definition translate (e : tlb_entry) (va : Z) : option Z :=
  if (PageMask e =? 0) && (EntryHi e / 2 ^ 13 =? va / 2 ^ 13) then
    let lo := if Z.testbit va 12 then EntryLo1 e else EntryLo0 e in
    if Z.testbit lo 1 then Some (lo / 2 ^ 6 * 2 ^ 12 + va mod 2 ^ 12) else None
  else None.

(** stores need the dirty bit, and the global bit of both halves makes the
    address space identifier irrelevant *)
Definition writable (e : tlb_entry) (va : Z) : bool :=
  Z.testbit (if Z.testbit va 12 then EntryLo1 e else EntryLo0 e) 2.
Definition is_global (e : tlb_entry) : bool := Z.testbit (EntryLo0 e) 0 && Z.testbit (EntryLo1 e) 0.

Lemma entry_lo_bits pn : 0 <= pn < 2 ^ 58 ->
  let lo := Z.lor (u64 (Z.shiftl pn 6)) 7 in
  lo / 2 ^ 6 = pn /\ Z.testbit lo 0 = true /\ Z.testbit lo 1 = true /\ Z.testbit lo 2 = true.
Proof.
  intros Hpn lo. subst lo. rewrite wrap_small by (rewrite Z.shiftl_mul_pow2; lia).
  split; [|by rewrite !Z.lor_spec, !orb_true_r].
  rewrite <- Z.shiftr_div_pow2, Z.shiftr_lor, Z.shiftr_shiftl_l by lia.
  by rewrite Z.shiftl_0_r, Z.lor_0_r.
Qed.

(** C39: after [add_tlb_mapping] of an even page, the two pages from it are
    writable in every address space and map byte by byte to the two frames;
    the other entries of the TLB are unchanged. *)
Theorem add_tlb_mapping_translates vpn p0 p1 c :
  vpn mod 2 = 0 -> 0 <= vpn < 2 ^ 52 -> 0 <= p0 < 2 ^ 52 -> 0 <= p1 < 2 ^ 52 ->
  let c' := add_tlb_mapping vpn p0 p1 c in
  (exists e, tlb c' !! Random c = Some e /\ is_global e = true /\
    forall off, 0 <= off < 2 ^ 12 ->
      translate e (vpn * 2 ^ 12 + off) = Some (p0 * 2 ^ 12 + off) /\
      translate e ((vpn + 1) * 2 ^ 12 + off) = Some (p1 * 2 ^ 12 + off) /\
      writable e (vpn * 2 ^ 12 + off) = true /\ writable e ((vpn + 1) * 2 ^ 12 + off) = true) /\
  forall r, r <> Random c -> tlb c' !! r = tlb c !! r.
Proof.
  intros Hev Hv H0 H1 c'. split.
  2: { intros r Hr. simpl. by rewrite lookup_insert_ne. }
  eexists; split; [apply lookup_insert_eq|].
  destruct (entry_lo_bits p0) as (Hd0 & Ha0 & Hb0 & Hc0); [lia|].
  destruct (entry_lo_bits p1) as (Hd1 & Ha1 & Hb1 & Hc1); [lia|].
  unfold is_global; cbn [cp0_regs EntryLo0 EntryLo1]. rewrite Ha0, Ha1. split; [done|].
  intros off Hoff. unfold translate, writable; cbn [cp0_regs PageMask EntryHi EntryLo0 EntryLo1].
  rewrite (wrap_small 64 (Z.shiftl vpn 12)), Z.shiftl_mul_pow2 by (rewrite ?Z.shiftl_mul_pow2; lia).
  assert (Hbit : forall n, Z.testbit (n * 2 ^ 12 + off) 12 = (n mod 2 =? 1)).
  { intros n. rewrite Z.testbit_eqb by lia. f_equal. f_equal.
    symmetry. by apply Z.div_unique with off; [lia|ring]. }
  assert (Hodd : (vpn + 1) mod 2 = 1) by mlia. rewrite !Hbit, Hev, Hodd.
  change (0 =? 1) with false. change (1 =? 1) with true. cbv zeta iota.
  rewrite Hb0, Hb1, Hd0, Hd1, Hc0, Hc1.
  replace ((vpn * 2 ^ 12 + off) / 2 ^ 13) with (vpn / 2) by mlia.
  replace (((vpn + 1) * 2 ^ 12 + off) / 2 ^ 13) with (vpn / 2) by mlia.
  replace (vpn * 2 ^ 12 / 2 ^ 13) with (vpn / 2) by mlia.
  rewrite !Z.eqb_refl. cbn [andb].
  replace ((vpn * 2 ^ 12 + off) mod 2 ^ 12) with off by mlia.
  by replace (((vpn + 1) * 2 ^ 12 + off) mod 2 ^ 12) with off by mlia.
Qed.

Lemma add_tlb_mapping_translates_witness :
  let c' := add_tlb_mapping 0x2468 0x10002 0x10003 (Cp0 (Entry 0 0 0 0) 5 ∅) in
  (exists e, tlb c' !! 5 = Some e /\ is_global e = true /\
    forall off, 0 <= off < 2 ^ 12 ->
      translate e (0x2468 * 2 ^ 12 + off) = Some (0x10002 * 2 ^ 12 + off) /\
      translate e (0x2469 * 2 ^ 12 + off) = Some (0x10003 * 2 ^ 12 + off) /\
      writable e (0x2468 * 2 ^ 12 + off) = true /\ writable e (0x2469 * 2 ^ 12 + off) = true) /\
  forall r, r <> 5 -> tlb c' !! r = (∅ : gmap Z tlb_entry) !! r.
Proof. apply (add_tlb_mapping_translates 0x2468 0x10002 0x10003 (Cp0 (Entry 0 0 0 0) 5 ∅)); done || lia. Defined.
