(* ===== verification/DmaVirt.v ===== *)
(** * DmaVirt: the tests with several threads, in virtual memory.

    [print_virtualised_test_information] of
    [fuzz_dma/generate_multithread_dma_test.cpp]: random pages for every thread,
    the calls of [add_tlb_mapping] that map them, and the test through
    physical addresses.  The random numbers of the C++ library are a class. *)

From S2P Require Import Prelude DmaEngine DmaGen DmaProgram DmaTransfers DmaTest DmaMulti DmaThreads.

(** ** [std::default_random_engine] and [std::uniform_int_distribution] *)

Class RandomEngine := {
  engine_state : Type;
  seed_engine : Z -> engine_state;
  (* a draw from the distribution on [lo, hi] *)
  uniform : Z -> Z -> engine_state -> Z * engine_state;
  uniform_range lo hi e : lo <= hi -> lo <= (uniform lo hi e).1 <= hi;
  (* every value has a positive probability: draws do not stay in a set that
     leaves one out *)
  uniform_leaves lo hi e (used : list Z) v : lo <= v <= hi -> v ∉ used ->
    exists n, (uniform lo hi (Nat.iter n (fun e => (uniform lo hi e).2) e)).1 ∉ used;
}.

Definition MIN_PHYS_PAGE := 0x08000.
Definition MAX_PHYS_PAGE := 0x1FFFF.
Definition VIRT_PAGE_COUNT := 0x1FFFFFFFFFFFF.

Definition phys_pn_to_addr (phys_pn : Z) : Z := u64 (0x9000000000000000 + u64 (Z.shiftl phys_pn 12)).
Definition virt_pn_to_addr (virt_pn : Z) : Z := u64 (Z.shiftl virt_pn 12).

Fixpoint in_vector (to_test : Z) (vector : list Z) : bool :=
  match vector with
  | [] => false
  | v :: vector' => if v =? to_test then true else in_vector to_test vector'
  end.

(** [while (current->next != NULL) current = current->next] *)
Fixpoint last_record (fuel : nat) (h : theap) (current : Z) : res Z :=
  match fuel with
  | O => Err EFuel
  | S fuel' =>
      let* r := get_record h current in
      let* next := of_opt (tr_next r) in
      if next =? NULL then Ok current else last_record fuel' h next
  end.

(** the memory usage of a program *)
Definition usage (fuel : nat) (h : theap) (transfer_list : Z) : res Z :=
  if transfer_list =? NULL then Ok 0
  else
    let* current := last_record fuel h transfer_list in
    let* r := get_record h current in
    let* source := of_opt (tr_source r) in
    let* destination := of_opt (tr_destination r) in
    let* size := of_opt (tr_size r) in
    let usage_bytes := if source >? destination then source else destination in
    let usage_bytes := u64 (usage_bytes + Z.shiftl 1 size) in
    Ok (usage_bytes / 0x2000).

Section generator.
Context `{DMAAsm} `{DMAModel} `{RandomEngine}.
Context (target_first : bool) (rest0 : Z -> thread_rest) (fuel : nat).

(** the [do] loops; the virtual pages are asserted to be in range *)
Fixpoint draw_page (fuel : nat) (virtual : bool) (used : list Z) (e : engine_state)
    : res (Z * engine_state) :=
  match fuel with
  | O => Err EFuel
  | S fuel' =>
      let '(next_addr, e) :=
        if virtual then uniform 0 VIRT_PAGE_COUNT e else uniform MIN_PHYS_PAGE MAX_PHYS_PAGE e in
      let* _ := c_assert (if virtual then next_addr <=? VIRT_PAGE_COUNT else true) in
      if in_vector next_addr used then draw_page fuel' virtual used e else Ok (next_addr, e)
  end.

(** the pages that are pushed *)
Definition pages_from (next_addr usage_pages : Z) : list Z :=
  (fun j => u64 (next_addr + j)) <$> seqZ 0 (usage_pages + 1).

Definition take_pages (virtual : bool) (usage_pages : Z) (used : list Z) (e : engine_state)
    : res (Z * list Z * engine_state) :=
  let* (next_addr, e) := draw_page fuel virtual used e in
  Ok (next_addr, used ++ pages_from next_addr usage_pages, e).

(** the pages of one thread: source and destination, physical and virtual *)
Record thread_pages := Pages {
  source_phys_pn : Z;
  dest_phys_pn : Z;
  source_virt_pn : Z;
  dest_virt_pn : Z;
}.

Fixpoint allocate_pages (h : theap) (transfer_lists : list Z)
    (used_phys_pns used_virt_pns : list Z) (e : engine_state)
    : res (list thread_pages * list Z * list Z) :=
  match transfer_lists with
  | [] => Ok ([], used_phys_pns, used_virt_pns)
  | current :: transfer_lists' =>
      let* usage_pages := usage fuel h current in
      let* (sp, used_phys_pns, e) := take_pages false usage_pages used_phys_pns e in
      let* (dp, used_phys_pns, e) := take_pages false usage_pages used_phys_pns e in
      let* (sv, used_virt_pns, e) := take_pages true usage_pages used_virt_pns e in
      let* (dv, used_virt_pns, e) := take_pages true usage_pages used_virt_pns e in
      let* (rest, used_phys_pns, used_virt_pns) :=
        allocate_pages h transfer_lists' used_phys_pns used_virt_pns e in
      Ok (Pages sp dp sv dv :: rest, used_phys_pns, used_virt_pns)
  end.

(** the mappings, element by element of the two vectors *)
Fixpoint print_mappings (used_phys_pns used_virt_pns : list Z) : res (list titem) :=
  match used_phys_pns, used_virt_pns with
  | [], _ => Ok []
  | p :: ps, v :: vs =>
      let* rest := print_mappings ps vs in
      Ok (TlbMapping (u64 (2 * v)) (u64 (2 * p)) (u64 (u64 (2 * p) + 1)) :: rest)
  | _ :: _, [] => Err EUndef
  end.

Fixpoint print_virt_records (mk : Z -> Z -> titem) (field : transfer_record -> option Z) (fuel : nat)
    (h : theap) (thread_addr current access_number : Z) : res (list titem * Z) :=
  match fuel with
  | O => Err EFuel
  | S fuel' =>
      if current =? NULL then Ok ([], access_number)
      else
        let* r := get_record h current in
        let* size := of_opt (tr_size r) in
        let transfer_size := Z.shiftl 1 size in
        let* offset := of_opt (field r) in
        let transfer_addr := u64 (thread_addr + offset) in
        let '(items, a) :=
          print_bytes (fun x v => mk (u64 x) v) (Z.to_nat transfer_size) transfer_addr 0 access_number in
        let* next := of_opt (tr_next r) in
        let* (rest, a) := print_virt_records mk field fuel' h thread_addr next a in
        Ok (items ++ rest, a)
  end.

(** [phys_pns] are the 8 KiB pages of the threads *)
Fixpoint print_virt_threads (mk : Z -> Z -> titem) (field : transfer_record -> option Z) (h : theap)
    (phys_pns transfer_lists : list Z) (access_number : Z) : res (list titem) :=
  match phys_pns, transfer_lists with
  | pn :: pns, current :: lists =>
      let thread_addr := phys_pn_to_addr (u64 (2 * pn)) in
      let* (items, a) := print_virt_records mk field fuel h thread_addr current access_number in
      let* rest := print_virt_threads mk field h pns lists a in
      Ok (items ++ rest)
  | _, _ => Ok []
  end.

(** what is printed, and what freeing the resources gives *)
Definition print_virtualised_test_information (thread_count seed : Z) (h : heap) (th : theap)
    : res (list titem * res theap) :=
  let next := mysrand seed in
  let* (programs, h, next) := generate_programs target_first (Z.to_nat thread_count) 0 next h in
  let* (transfer_lists, th) := generate_transfer_lists rest0 fuel 0 programs th in
  let* words := print_programs fuel thread_count 0 programs in
  let random_engine := seed_engine (u32 seed) in
  let* (pages, used_phys_pns, used_virt_pns) := allocate_pages th transfer_lists [] [] random_engine in
  let* mappings := print_mappings used_phys_pns used_virt_pns in
  let* sources := print_virt_threads SetByte tr_source th (source_phys_pn <$> pages) transfer_lists 0 in
  let* checks := print_virt_threads CheckByte tr_destination th (dest_phys_pn <$> pages) transfer_lists 0 in
  let virt_addrs pns := (fun pn => Some (virt_pn_to_addr (u64 (2 * pn)))) <$> pns in
  let* source_pointers := print_pointer_array thread_count 0 (virt_addrs (source_virt_pn <$> pages)) in
  let* dest_pointers := print_pointer_array thread_count 0 (virt_addrs (dest_virt_pn <$> pages)) in
  Ok ([DefineDma] ++ words ++ [NextField] ++ mappings ++ sources ++ [AssertStart] ++ checks ++ [AssertEnd]
      ++ source_pointers ++ [NextField] ++ dest_pointers,
      let* th := free_lists fuel by_delete transfer_lists th in
      let* _ := give_back_arrays by_delete 8 in
      Ok th).
End generator.

(** ** Running a test through the TLB *)

(** the calls that are printed ([mappings_of]), in order; [randoms] are the values of the Random
    register when they run *)
Fixpoint add_mappings (mappings : list (Z * Z * Z)) (randoms : list Z) (c : cp0) : cp0 :=
  match mappings, randoms with
  | (v, p0, p1) :: ms, r :: rs =>
      add_mappings ms rs (add_tlb_mapping v p0 p1 (Cp0 (cp0_regs c) r (tlb c)))
  | _, _ => c
  end.

(** the processor reaches the physical address [pa] through the window from
    0x9000000000000000; the engine's addresses go through the TLB *)
Definition reaches (c : cp0) (va window : Z) : Prop :=
  exists r e pa, tlb c !! r = Some e /\ translate e va = Some pa /\ writable e va = true
    /\ window = 0x9000000000000000 + pa.

Definition reaches_move (c : cp0) (virt phys : Z * Z) : Prop :=
  reaches c virt.1 phys.1 /\ reaches c virt.2 phys.2.

(** ** Pages are found *)

Lemma in_vector_spec x l : in_vector x l = bool_decide (x ∈ l).
Proof.
  induction l as [|v l IH]; [done|]. cbn [in_vector]. rewrite IH.
  destruct (v =? x) eqn:E; rewrite ?Z.eqb_eq, ?Z.eqb_neq in E.
  - symmetry. apply bool_decide_eq_true_2. subst. left.
  - apply bool_decide_ext. rewrite elem_of_cons. intuition congruence.
Qed.

(** among one more values than are used there is one that is not *)
Lemma unused_value lo used : exists v, lo <= v <= lo + Z.of_nat (length used) /\ v ∉ used.
Proof.
  destruct (decide (Forall (fun v => v ∈ used) (seqZ lo (Z.of_nat (length used) + 1)))) as [Hall|Hn].
  - exfalso. rewrite Forall_forall in Hall.
    pose proof (submseteq_length _ _ (NoDup_submseteq _ used (NoDup_seqZ lo _) Hall)) as Hlen.
    rewrite length_seqZ in Hlen. lia.
  - apply not_Forall_Exists in Hn; [|intros x; apply _].
    apply Exists_exists in Hn as (v & Hv%elem_of_seqZ & Hnot). exists v. split; [lia|done].
Qed.

Section pages.
Context `{RandomEngine}.

Definition first_page (virtual : bool) : Z := if virtual then 0 else MIN_PHYS_PAGE.
Definition last_page (virtual : bool) : Z := if virtual then VIRT_PAGE_COUNT else MAX_PHYS_PAGE.

Lemma draw_page_eq fuel virtual used e :
  draw_page (S fuel) virtual used e =
    let '(a, e') := uniform (first_page virtual) (last_page virtual) e in
    if in_vector a used then draw_page fuel virtual used e' else Ok (a, e').
Proof.
  cbn [draw_page]. destruct virtual; cbn [first_page last_page].
  - pose proof (uniform_range 0 VIRT_PAGE_COUNT e ltac:(done)) as Hr.
    destruct (uniform 0 VIRT_PAGE_COUNT e) as [a e']. cbn [fst] in Hr.
    by rewrite (proj2 (Z.leb_le _ _)) by lia.
  - by destruct (uniform MIN_PHYS_PAGE MAX_PHYS_PAGE e).
Qed.

(** The loops end, with a page that is not used. *)
Lemma draw_page_ok virtual used e : Z.of_nat (length used) < 0x18000 ->
  exists fuel0 a e', (forall fuel, (fuel0 <= fuel)%nat -> draw_page fuel virtual used e = Ok (a, e'))
    /\ (a ∉ used) /\ first_page virtual <= a <= last_page virtual.
Proof.
  intros Hused. destruct (unused_value (first_page virtual) used) as (v & Hv & Hnot).
  assert (Hl : first_page virtual + 0x17FFF <= last_page virtual) by (destruct virtual; done).
  destruct (uniform_leaves (first_page virtual) (last_page virtual) e used v) as [n Hn]; [lia|done|].
  revert e Hn; induction n as [|n IH]; intros e Hn.
  - pose proof (uniform_range (first_page virtual) (last_page virtual) e ltac:(lia)) as Hr.
    simpl in Hn. destruct (uniform _ _ e) as [a e'] eqn:Hu. cbn [fst] in *.
    exists 1%nat, a, e'. split; [|done]. intros [|fuel] Hf; [lia|].
    by rewrite draw_page_eq, Hu, in_vector_spec, bool_decide_eq_false_2.
  - pose proof (uniform_range (first_page virtual) (last_page virtual) e ltac:(lia)) as Hr.
    destruct (uniform (first_page virtual) (last_page virtual) e) as [a e'] eqn:Hu.
    destruct (decide (a ∈ used)) as [Hin|Hout].
    + destruct (IH e') as (fuel0 & a' & e'' & Hrun & Ha').
      { rewrite Nat.iter_succ_r in Hn. by rewrite Hu in Hn. }
      exists (S fuel0), a', e''. split; [|done]. intros [|fuel] Hf; [lia|].
      rewrite draw_page_eq, Hu, in_vector_spec, bool_decide_eq_true_2 by done. apply Hrun. lia.
    + exists 1%nat, a, e'. split; [|done]. intros [|fuel] Hf; [lia|].
      by rewrite draw_page_eq, Hu, in_vector_spec, bool_decide_eq_false_2.
Qed.

Lemma pages_from_small a u : 0 <= a < 2 ^ 50 -> 0 <= u < 2 ^ 13 -> pages_from a u = seqZ a (u + 1).
Proof.
  intros Ha Hu. unfold pages_from.
  transitivity (Z.add a <$> seqZ 0 (u + 1)); [|by rewrite fmap_add_seqZ, Z.add_0_r].
  apply list_fmap_ext. intros i x Hx%list_elem_of_lookup_2%elem_of_seqZ. by apply wrap_small; lia.
Qed.

Lemma take_pages_ok virtual u used e : 0 <= u < 2 ^ 13 -> Z.of_nat (length used) < 0x18000 ->
  exists fuel0 a e',
    (forall fuel, (fuel0 <= fuel)%nat ->
       take_pages fuel virtual u used e = Ok (a, used ++ seqZ a (u + 1), e'))
    /\ (a ∉ used) /\ first_page virtual <= a <= last_page virtual.
Proof.
  intros Hu Hused. destruct (draw_page_ok virtual used e Hused) as (fuel0 & a & e' & Hrun & Ha & Hr).
  exists fuel0, a, e'. split; [|done]. intros fuel Hf. unfold take_pages. rewrite Hrun by done.
  cbn [res_bind]. rewrite pages_from_small; [done| |done].
  destruct virtual; cbn in Hr; unfold MAX_PHYS_PAGE, VIRT_PAGE_COUNT, MIN_PHYS_PAGE in Hr; lia.
Qed.
End pages.

(** ** The memory a thread uses *)

(** the pages of 8 KiB after the first one *)
Definition more_pages (ts : list transfer) : Z :=
  match last ts with
  | None => 0
  | Some t => (Z.max (t_source t) (t_destination t) + Z.shiftl 1 (t_size t)) / 0x2000
  end.

Lemma last_record_ok h ps : forall p ts t, record_list h p ps ts -> last ts = Some t ->
  exists q r, (forall fuel, (length ps <= fuel)%nat -> last_record fuel h p = Ok q)
    /\ th_cells h !! q = Some r /\ tr_source r = Some (t_source t)
    /\ tr_destination r = Some (t_destination t) /\ tr_size r = Some (t_size t).
Proof.
  induction ps as [|q ps IH]; intros p [|t0 ts] t Hl Ht; simpl in Hl; try done.
  destruct Hl as (-> & Hnz & r & next & Hr & Hs & Hd & Hz & Hn & Hl).
  destruct ts as [|t1 ts].
  - injection Ht as <-. destruct ps; [|done]. simpl in Hl. subst next. exists q, r. split; [|done].
    intros [|fuel] Hf; [simpl in Hf; lia|]. cbn [last_record]. unfold get_record. rewrite Hr. cbn [of_opt res_bind].
    rewrite Hn. cbn [of_opt res_bind]. by rewrite Z.eqb_refl.
  - destruct (IH next (t1 :: ts) t Hl Ht) as (q' & r' & Hrun & Hq).
    exists q', r'. split; [|done]. intros [|fuel] Hf; [simpl in Hf; lia|]. cbn [last_record].
    unfold get_record. rewrite Hr. cbn [of_opt res_bind]. rewrite Hn. cbn [of_opt res_bind].
    assert (next <> NULL) by (destruct ps; simpl in Hl; tauto).
    rewrite (proj2 (Z.eqb_neq _ _)) by done. apply Hrun. simpl in Hf. lia.
Qed.

Lemma increasing_last sel ts : forall lo hi t, increasing sel lo hi ts -> last ts = Some t ->
  is_size (t_size t) /\ lo <= sel t /\ sel t + Z.shiftl 1 (t_size t) <= hi
  /\ increasing sel lo (sel t + Z.shiftl 1 (t_size t)) ts.
Proof.
  induction ts as [|t0 ts IH]; intros lo hi t Hinc Ht; [done|]. destruct Hinc as (H1 & H2 & H3).
  pose proof (size_bytes _ H2). destruct ts as [|t1 ts].
  - injection Ht as <-. simpl in *. split_and!; try done; lia.
  - destruct (IH _ _ t H3 Ht) as (? & ? & ? & ?). split_and!; try done; lia.
Qed.

Lemma increasing_mono sel lo hi hi' ts : increasing sel lo hi ts -> hi <= hi' -> increasing sel lo hi' ts.
Proof. intros Hi Hle. rewrite <- (app_nil_r ts). eapply increasing_app; [exact Hi|done]. Qed.

(** the usage that is computed covers the offsets of both sides *)
Lemma more_pages_ok ts : laid_out ts ->
  0 <= more_pages ts < 2 ^ 13 - 1
  /\ increasing t_source 0 ((more_pages ts + 1) * 0x2000) ts
  /\ increasing t_destination 0 ((more_pages ts + 1) * 0x2000) ts.
Proof.
  intros [Hs Hd _]. unfold more_pages. destruct (last ts) as [t|] eqn:Ht.
  2: { apply last_None in Ht as ->. cbn. lia. }
  destruct (increasing_last _ _ _ _ _ Hs Ht) as (Hz & Hs1 & Hs2 & Hs3).
  destruct (increasing_last _ _ _ _ _ Hd Ht) as (_ & Hd1 & Hd2 & Hd3).
  pose proof (size_bytes _ Hz). unfold SPAN in *.
  split; [mlia|]. split; (eapply increasing_mono; [eassumption|]); mlia.
Qed.

Lemma usage_ok h p ts : listed_at h p ts -> laid_out ts ->
  exists fuel0, forall fuel, (fuel0 <= fuel)%nat -> usage fuel h p = Ok (more_pages ts).
Proof.
  intros [ps Hl] [Hs Hd _]. unfold more_pages. destruct (last ts) as [t|] eqn:Ht.
  - destruct (last_record_ok h ps p ts t Hl Ht) as (q & r & Hrun & Hq & H1 & H2 & H3).
    destruct (increasing_last _ _ _ _ _ Hs Ht) as (Hz & Hs1 & Hs2 & _).
    destruct (increasing_last _ _ _ _ _ Hd Ht) as (_ & Hd1 & Hd2 & _). pose proof (size_bytes _ Hz).
    exists (length ps). intros fuel Hf. unfold usage.
    assert (p <> NULL) by (destruct ts; [done|]; destruct ps; simpl in Hl; tauto).
    rewrite (proj2 (Z.eqb_neq _ _)) by done. rewrite Hrun by done. cbn [res_bind].
    unfold get_record. rewrite Hq. cbn [of_opt res_bind]. rewrite H1, H2, H3. cbn [of_opt res_bind].
    unfold SPAN in *. rewrite Z.gtb_ltb. destruct (Z.ltb_spec (t_destination t) (t_source t));
      rewrite wrap_small by lia; do 2 f_equal; lia.
  - apply last_None in Ht as ->. destruct ps; [|done]. simpl in Hl. subst p. by exists 0%nat.
Qed.

(** ** The pages of all threads *)

(** the pages pushed for a thread, first those it reads *)
Definition ranges (a b : thread_pages -> Z) (pages : list thread_pages) (tss : list (list transfer)) : list Z :=
  concat (zip_with (fun pg ts => seqZ (a pg) (more_pages ts + 1) ++ seqZ (b pg) (more_pages ts + 1)) pages tss).

Definition phys_pages := ranges source_phys_pn dest_phys_pn.
Definition virt_pages := ranges source_virt_pn dest_virt_pn.

Record in_range (pg : thread_pages) : Prop := {
  ir_sp : MIN_PHYS_PAGE <= source_phys_pn pg <= MAX_PHYS_PAGE;
  ir_dp : MIN_PHYS_PAGE <= dest_phys_pn pg <= MAX_PHYS_PAGE;
  ir_sv : 0 <= source_virt_pn pg <= VIRT_PAGE_COUNT;
  ir_dv : 0 <= dest_virt_pn pg <= VIRT_PAGE_COUNT;
}.

(** what is known of a list of pages when each thread has one page *)
Lemma nodup_one_page (used : list Z) a b :
  NoDup used -> a ∉ used -> b ∉ used ++ [a] -> NoDup (used ++ [a] ++ [b]).
Proof.
  intros Hnd Ha Hb. rewrite app_assoc. apply NoDup_app. split; [apply NoDup_app; split; [done|]|].
  - split; [|apply NoDup_singleton]. by intros x Hx ->%list_elem_of_singleton.
  - split; [|apply NoDup_singleton]. by intros x Hx ->%list_elem_of_singleton.
Qed.

Lemma allocate_pages_ok `{RandomEngine} h tss : forall lists up uv e,
  Forall2 (listed_at h) lists tss -> Forall laid_out tss ->
  Z.of_nat (length up) + 2 ^ 14 * Z.of_nat (length tss) <= 0x18000 ->
  Z.of_nat (length uv) + 2 ^ 14 * Z.of_nat (length tss) <= 0x18000 ->
  exists pages fuel0, (forall fuel, (fuel0 <= fuel)%nat ->
      allocate_pages fuel h lists up uv e = Ok (pages, up ++ phys_pages pages tss, uv ++ virt_pages pages tss))
    /\ length pages = length tss /\ Forall in_range pages
    /\ (Forall (fun ts => more_pages ts = 0) tss ->
        (NoDup up -> NoDup (up ++ phys_pages pages tss)) /\ (NoDup uv -> NoDup (uv ++ virt_pages pages tss))).
Proof.
  induction tss as [|ts tss IH]; intros lists up uv e Hl Hok Hup Huv.
  - apply Forall2_nil_inv_r in Hl as ->. exists [], 0%nat.
    unfold phys_pages, virt_pages. simpl. rewrite !app_nil_r. by split_and!.
  - apply Forall2_cons_inv_r in Hl as (p & lists' & Hp & Hl & ->). apply Forall_cons in Hok as [Hts Hok].
    rewrite length_cons, Nat2Z.inj_succ in Hup, Huv.
    destruct (usage_ok h p ts Hp Hts) as [f0 Hu]. destruct (more_pages_ok ts Hts) as (Hm & _).
    set (u := more_pages ts) in *.
    destruct (take_pages_ok false u up e) as (f1 & sp & e1 & H1 & Hsp & Hr1); [lia|lia|].
    destruct (take_pages_ok false u (up ++ seqZ sp (u + 1)) e1) as (f2 & dp & e2 & H2 & Hdp & Hr2);
      [lia|rewrite length_app, length_seqZ; lia|].
    destruct (take_pages_ok true u uv e2) as (f3 & sv & e3 & H3 & Hsv & Hr3); [lia|lia|].
    destruct (take_pages_ok true u (uv ++ seqZ sv (u + 1)) e3) as (f4 & dv & e4 & H4 & Hdv & Hr4);
      [lia|rewrite length_app, length_seqZ; lia|].
    destruct (IH lists' ((up ++ seqZ sp (u + 1)) ++ seqZ dp (u + 1)) ((uv ++ seqZ sv (u + 1)) ++ seqZ dv (u + 1)) e4)
      as (pages & f5 & Hrun & Hlen & Hin & Hnd); [done|done|rewrite !length_app, !length_seqZ; lia..|].
    exists (Pages sp dp sv dv :: pages), (f0 + f1 + f2 + f3 + f4 + f5)%nat. split_and!.
    + intros fuel Hf. cbn [allocate_pages]. rewrite Hu by lia. cbn [res_bind]. rewrite H1 by lia. cbn [res_bind].
      rewrite H2 by lia. cbn [res_bind]. rewrite H3 by lia. cbn [res_bind]. rewrite H4 by lia. cbn [res_bind].
      rewrite Hrun by lia. cbn [res_bind].
      unfold phys_pages, virt_pages, ranges. cbn [zip_with concat source_phys_pn dest_phys_pn source_virt_pn dest_virt_pn].
      fold u. by rewrite <- !app_assoc.
    + by rewrite !length_cons, Hlen.
    + by constructor.
    + intros [Hz Hall]%Forall_cons. fold u in Hz. destruct (Hnd Hall) as [Hn1 Hn2].
      rewrite Hz in *. change (seqZ ?a (0 + 1)) with [Z.of_nat 0 + a] in *.
      unfold phys_pages, virt_pages, ranges in *.
      cbn [zip_with concat source_phys_pn dest_phys_pn source_virt_pn dest_virt_pn]. fold u. rewrite Hz.
      change (seqZ ?a (0 + 1)) with [Z.of_nat 0 + a] in *.
      rewrite <- !app_assoc in Hn1, Hn2. rewrite <- !app_assoc.
      split; intros Hnd'; [apply Hn1|apply Hn2]; by apply nodup_one_page.
Qed.

(** ** The mappings *)

(** the entry that maps the page [v] of 8 KiB to the page [p] *)
Definition page_entry (v p : Z) : tlb_entry :=
  Entry 0 (Z.lor (u64 (Z.shiftl (2 * p) 6)) 7) (Z.lor (u64 (Z.shiftl (2 * p + 1) 6)) 7)
    (u64 (Z.shiftl (2 * v) 12)).

Lemma translate_page v p va : 0 <= v < 2 ^ 50 -> 0 <= p < 2 ^ 50 ->
  translate (page_entry v p) va
    = (if va / 0x2000 =? v then Some (p * 0x2000 + va mod 0x2000) else None)
  /\ writable (page_entry v p) va = true.
Proof.
  intros Hv Hp. unfold translate, writable, page_entry; cbn [PageMask EntryHi EntryLo0 EntryLo1].
  destruct (entry_lo_bits (2 * p)) as (Hd0 & _ & Hb0 & Hc0); [lia|].
  destruct (entry_lo_bits (2 * p + 1)) as (Hd1 & _ & Hb1 & Hc1); [lia|].
  rewrite (wrap_small 64 (Z.shiftl (2 * v) 12)), Z.shiftl_mul_pow2 by (rewrite ?Z.shiftl_mul_pow2; lia).
  rewrite Z.eqb_refl. cbn [andb]. replace (2 * v * 2 ^ 12 / 2 ^ 13) with v by mlia.
  change (2 ^ 13) with 0x2000. rewrite (Z.eqb_sym v). split; [|by destruct (Z.testbit va 12)].
  destruct (_ =? v); [|done]. rewrite (Z.testbit_eqb va 12) by lia.
  destruct (va / 2 ^ 12 mod 2 =? 1) eqn:E; rewrite ?Z.eqb_eq, ?Z.eqb_neq in E.
  - rewrite Hb1, Hd1. f_equal. mlia.
  - rewrite Hb0, Hd0. f_equal. mlia.
Qed.

Definition page_mapping (vp : Z * Z) : Z * Z * Z := (2 * vp.1, 2 * vp.2, 2 * vp.2 + 1).

Definition small_page (x : Z) : Prop := 0 <= x < 2 ^ 50.

Lemma print_mappings_ok ps : forall vs, length ps = length vs -> Forall small_page ps -> Forall small_page vs ->
  exists items, print_mappings ps vs = Ok items
    /\ set_bytes items = [] /\ check_bytes items = [] /\ pointers items = []
    /\ mappings_of items = page_mapping <$> zip vs ps.
Proof.
  induction ps as [|p ps IH]; intros [|v vs] Hlen Hp Hv; try done.
  - by exists [].
  - apply Forall_cons in Hp as [Hp Hps]. apply Forall_cons in Hv as [Hv Hvs]. unfold small_page in *.
    destruct (IH vs ltac:(simpl in Hlen; lia) Hps Hvs) as (items & Hrun & H1 & H2 & H3 & Hm).
    cbn [print_mappings]. rewrite Hrun. cbn [res_bind]. eexists. split; [done|].
    rewrite !(wrap_small 64) by (rewrite ?(wrap_small 64) by lia; lia). split_and!; [exact H1|exact H2|exact H3|].
    cbn [zip zip_with fmap list_fmap]. fold (zip vs ps). rewrite <- Hm. done.
Qed.

(** After the calls, the TLB holds an entry for every mapping. *)
Lemma add_mappings_ok vps : forall randoms c,
  NoDup randoms -> length randoms = length vps ->
  (forall k vp r, vps !! k = Some vp -> randoms !! k = Some r ->
     tlb (add_mappings (page_mapping <$> vps) randoms c) !! r = Some (page_entry vp.1 vp.2))
  /\ (forall r, r ∉ randoms -> tlb (add_mappings (page_mapping <$> vps) randoms c) !! r = tlb c !! r).
Proof.
  induction vps as [|[v p] vps IH]; intros [|r0 randoms] c Hnd Hlen; try done.
  apply NoDup_cons in Hnd as [Hr0 Hnd]. cbn [fmap list_fmap page_mapping add_mappings fst snd].
  set (c1 := add_tlb_mapping _ _ _ _).
  destruct (IH randoms c1 Hnd) as [IH1 IH2]; [simpl in Hlen; lia|].
  assert (H1 : forall r, tlb c1 !! r = if decide (r = r0) then Some (page_entry v p) else tlb c !! r).
  { intros r. subst c1. unfold add_tlb_mapping, tlbwr; cbn [tlb Random cp0_regs].
    rewrite lookup_insert. repeat case_decide; subst; done. }
  split.
  - intros [|k] vp r Hvp Hr; [|by apply (IH1 k)]. simpl in Hvp, Hr. simplify_eq.
    rewrite IH2, H1 by done. by rewrite decide_True.
  - intros r Hr. rewrite not_elem_of_cons in Hr. destruct Hr as [Hne Hr].
    rewrite IH2, H1 by done. by rewrite decide_False.
Qed.

(** What an engine reaches through a TLB filled by the calls. *)
Definition filled_tlb (mappings : list (Z * Z * Z)) (randoms : list Z) : cp0 :=
  add_mappings mappings randoms (Cp0 (Entry 0 0 0 0) 0 ∅).

Lemma reaches_iff vps randoms va w :
  NoDup randoms -> length randoms = length vps ->
  Forall small_page vps.*1 -> Forall small_page vps.*2 ->
  reaches (filled_tlb (page_mapping <$> vps) randoms) va w
  <-> exists p, (va / 0x2000, p) ∈ vps /\ w = 0x9000000000000000 + (p * 0x2000 + va mod 0x2000).
Proof.
  intros Hnd Hlen Hv Hp. unfold filled_tlb.
  destruct (add_mappings_ok vps randoms (Cp0 (Entry 0 0 0 0) 0 ∅) Hnd Hlen) as [H1 H2].
  set (c := add_mappings _ _ _) in *.
  assert (Htr : forall v p, (v, p) ∈ vps -> translate (page_entry v p) va
    = (if va / 0x2000 =? v then Some (p * 0x2000 + va mod 0x2000) else None) /\ writable (page_entry v p) va = true).
  { intros v p Hin. apply translate_page.
    - rewrite Forall_forall in Hv. apply Hv. apply list_elem_of_fmap. by exists (v, p).
    - rewrite Forall_forall in Hp. apply Hp. apply list_elem_of_fmap. by exists (v, p). }
  split.
  - intros (r & e & pa & He & Htra & _ & ->). destruct (decide (r ∈ randoms)) as [Hin|Hout].
    + apply list_elem_of_lookup in Hin as [k Hk].
      destruct (lookup_lt_is_Some_2 vps k) as [[v p] Hvp]; [rewrite <- Hlen; by eapply lookup_lt_Some|].
      rewrite (H1 k (v, p) r Hvp Hk) in He. injection He as <-. cbn [fst snd] in *.
      apply list_elem_of_lookup_2 in Hvp as Hin. rewrite (proj1 (Htr v p Hin)) in Htra.
      destruct (_ =? v) eqn:E; [|done]. apply Z.eqb_eq in E. simplify_eq. by exists p.
    + rewrite H2 in He by done. cbn in He. by rewrite lookup_empty in He.
  - intros (p & Hin & ->). apply list_elem_of_lookup in Hin as Hk. destruct Hk as [k Hk].
    destruct (lookup_lt_is_Some_2 randoms k) as [r Hr]; [rewrite Hlen; by eapply lookup_lt_Some|].
    destruct (Htr _ _ Hin) as [Ht Hw]. rewrite Z.eqb_refl in Ht.
    exists r, (page_entry (va / 0x2000) p), (p * 0x2000 + va mod 0x2000). split_and!; try done.
    apply (H1 k _ r Hk Hr).
Qed.

(** ** From virtual to physical moves *)

Lemma interleaving_related {A B} (R : A -> B -> Prop) ls r :
  interleaving ls r -> forall ls' r',
  (forall x y y', R x y -> R x y' -> y = y') ->
  Forall2 (Forall2 R) ls ls' -> Forall2 R r r' -> interleaving ls' r'.
Proof.
  induction 1 as [ls Hls|ls i x l r Hi Hint IH]; intros ls' r' Hfun Hlss Hr.
  - apply Forall2_nil_inv_l in Hr as ->. constructor. revert Hls.
    induction Hlss as [|l l' ls ls' Hl _ IH]; intros Hls; constructor; apply Forall_cons in Hls as [-> Hls].
    + by apply Forall2_nil_inv_l in Hl.
    + by apply IH.
  - apply Forall2_cons_inv_l in Hr as (y & r1 & Hxy & Hr & ->).
    destruct (Forall2_lookup_l _ _ _ _ _ Hlss Hi) as (l' & Hi' & Hl).
    apply Forall2_cons_inv_l in Hl as (y' & l1 & Hxy' & Hl & ->).
    assert (y' = y) as -> by (by eapply Hfun).
    apply (interleaving_cons _ i y l1); [done|]. apply IH; [done| |done]. by apply Forall2_insert.
Qed.

Lemma zip_functional {A B} (l1 : list A) (l2 : list B) v p p' :
  NoDup l1 -> (v, p) ∈ zip l1 l2 -> (v, p') ∈ zip l1 l2 -> p = p'.
Proof.
  intros Hnd [i Hi]%list_elem_of_lookup [j Hj]%list_elem_of_lookup.
  apply lookup_zip_Some in Hi as [Hi1 Hi2]. apply lookup_zip_Some in Hj as [Hj1 Hj2].
  assert (i = j) as -> by (by eapply NoDup_lookup). by simplify_eq.
Qed.

(** corresponding pages of corresponding ranges are zipped *)
Lemma zip_seqZ v p n j : 0 <= j < n -> (v + j, p + j) ∈ zip (seqZ v n) (seqZ p n).
Proof.
  intros Hj. apply list_elem_of_lookup. exists (Z.to_nat j). apply lookup_zip_Some.
  split; apply lookup_seqZ; lia.
Qed.

Lemma zip_ranges pages tss : length pages = length tss ->
  forall i pg ts, pages !! i = Some pg -> tss !! i = Some ts -> 0 <= more_pages ts ->
  forall j, 0 <= j <= more_pages ts ->
    (source_virt_pn pg + j, source_phys_pn pg + j) ∈ zip (virt_pages pages tss) (phys_pages pages tss)
    /\ (dest_virt_pn pg + j, dest_phys_pn pg + j) ∈ zip (virt_pages pages tss) (phys_pages pages tss).
Proof.
  revert tss; induction pages as [|pg0 pages IH]; intros [|ts0 tss] Hlen i pg ts Hi Ht Hm j Hj; try done.
  unfold virt_pages, phys_pages, ranges. cbn [zip_with concat].
  rewrite !zip_with_app by (rewrite ?length_app, ?length_seqZ; done).
  rewrite !elem_of_app. destruct i as [|i]; simpl in Hi, Ht.
  - simplify_eq. split; left; [left|right]; apply zip_seqZ; lia.
  - destruct (IH tss ltac:(simpl in Hlen; lia) i pg ts Hi Ht Hm j Hj). by split; right.
Qed.

Definition window (p : Z) : Z := 0x9000000000000000 + p * 0x2000.

(** ** The bytes of different pages are different *)

Definition page_of (a : Z) : Z := (a - 0x9000000000000000) / 0x2000.

Lemma offsets_shift_source sb db ts : offsets t_source (shift sb db <$> ts) = Z.add sb <$> offsets t_source ts.
Proof.
  induction ts as [|t ts IH]; [done|]. cbn [fmap list_fmap offsets mbind list_bind].
  fold (offsets t_source (shift sb db <$> ts)) (offsets t_source ts). rewrite IH, fmap_app. f_equal.
  rewrite <- list_fmap_compose. apply list_fmap_ext. intros k x _. cbn. lia.
Qed.

Lemma offsets_shift_destination sb db ts :
  offsets t_destination (shift sb db <$> ts) = Z.add db <$> offsets t_destination ts.
Proof.
  induction ts as [|t ts IH]; [done|]. cbn [fmap list_fmap offsets mbind list_bind].
  fold (offsets t_destination (shift sb db <$> ts)) (offsets t_destination ts). rewrite IH, fmap_app. f_equal.
  rewrite <- list_fmap_compose. apply list_fmap_ext. intros k x _. cbn. lia.
Qed.

Lemma offsets_app sel l1 l2 : offsets sel (l1 ++ l2) = offsets sel l1 ++ offsets sel l2.
Proof. apply bind_app. Qed.

(** one side of one thread *)
Lemma window_offsets sel ts p : laid_out ts ->
  increasing sel 0 ((more_pages ts + 1) * 0x2000) ts ->
  NoDup (Z.add (window p) <$> offsets sel ts)
  /\ forall a, a ∈ Z.add (window p) <$> offsets sel ts -> page_of a ∈ seqZ p (more_pages ts + 1).
Proof.
  intros Hlo [Hnd Hb]%offsets_spec. split.
  - apply NoDup_fmap_2; [|done]. intros x y. lia.
  - intros a (x & -> & Hx%Hb)%list_elem_of_fmap. apply elem_of_seqZ. unfold page_of, window. mlia.
Qed.

Definition windows (pages : list thread_pages) : list (Z * Z) :=
  (fun pg => (window (source_phys_pn pg), window (dest_phys_pn pg))) <$> pages.

Lemma windows_disjoint pages : forall tss, Forall laid_out tss -> length pages = length tss ->
  NoDup (phys_pages pages tss) ->
  disjoint_bytes (concat (at_addresses (windows pages) tss))
  /\ forall a, a ∈ offsets t_source (concat (at_addresses (windows pages) tss))
                  ++ offsets t_destination (concat (at_addresses (windows pages) tss)) ->
       page_of a ∈ phys_pages pages tss.
Proof.
  induction pages as [|pg pages IH]; intros [|ts tss] Hok Hlen Hnd; try done.
  { split; [constructor|by intros a ?%elem_of_nil]. }
  apply Forall_cons in Hok as [Hts Hok]. destruct (more_pages_ok ts Hts) as (_ & Hs & Hd).
  unfold phys_pages, ranges in Hnd. cbn [zip_with concat] in Hnd.
  apply NoDup_app in Hnd as (Hnd1 & Hdis & Hnd2). apply NoDup_app in Hnd1 as (_ & Hdis1 & _).
  destruct (IH tss Hok ltac:(simpl in Hlen; lia) Hnd2) as [IH1 IH2].
  destruct (window_offsets _ ts (source_phys_pn pg) Hts Hs) as [Hs1 Hs2].
  destruct (window_offsets _ ts (dest_phys_pn pg) Hts Hd) as [Hd1 Hd2].
  unfold disjoint_bytes. cbn [windows fmap list_fmap at_addresses zip_with concat fst snd].
  fold (windows pages) (at_addresses (windows pages) tss).
  rewrite !offsets_app, offsets_shift_source, offsets_shift_destination.
  set (s1 := Z.add _ <$> offsets t_source ts) in *. set (d1 := Z.add _ <$> offsets t_destination ts) in *.
  set (s2 := offsets t_source _) in *. set (d2 := offsets t_destination _) in *.
  assert (Hperm : (s1 ++ s2) ++ d1 ++ d2 ≡ₚ (s1 ++ d1) ++ s2 ++ d2).
  { rewrite <- !app_assoc. apply Permutation_app_head. rewrite !app_assoc.
    apply Permutation_app_tail. apply Permutation_app_comm. }
  assert (Hpages : forall a, a ∈ s1 ++ d1 ->
    page_of a ∈ seqZ (source_phys_pn pg) (more_pages ts + 1) ++ seqZ (dest_phys_pn pg) (more_pages ts + 1)).
  { intros a [Ha%Hs2|Ha%Hd2]%elem_of_app; apply elem_of_app; auto. }
  split.
  - rewrite Hperm. apply NoDup_app. split; [|split].
    + apply NoDup_app. split; [done|]. split; [|done]. intros a Ha%Hs2 Hb%Hd2. by eapply Hdis1.
    + intros a Ha%Hpages Hb%IH2. by eapply Hdis.
    + exact IH1.
  - intros a. rewrite Hperm. unfold phys_pages, ranges. cbn [zip_with concat]. intros [Ha|Ha]%elem_of_app.
    + apply elem_of_app. left. by apply Hpages.
    + apply elem_of_app. right. by apply IH2.
Qed.

(** ** Every move of a thread is mapped *)

Lemma moves_shift sb db ts : moves (shift sb db <$> ts) = (fun m => (db + m.1, sb + m.2)) <$> moves ts.
Proof.
  induction ts as [|t ts IH]; [done|]. cbn [fmap list_fmap moves mbind list_bind].
  fold (moves (shift sb db <$> ts)) (moves ts). rewrite IH, fmap_app. f_equal.
  rewrite <- list_fmap_compose. apply list_fmap_ext. intros k x _. cbn. f_equal; lia.
Qed.

Lemma elem_of_ranges a b pages : forall tss x, length pages = length tss ->
  x ∈ ranges a b pages tss -> exists pg ts j, pg ∈ pages /\ ts ∈ tss /\ 0 <= j <= more_pages ts
    /\ (x = a pg + j \/ x = b pg + j).
Proof.
  induction pages as [|pg pages IH]; intros [|ts tss] x Hlen; try done; [by intros ?%elem_of_nil|].
  unfold ranges. cbn [zip_with concat]. rewrite !elem_of_app, !elem_of_seqZ. intros [Hx|Hx].
  - destruct Hx; [exists pg, ts, (x - a pg)|exists pg, ts, (x - b pg)]; split_and!; try lia; left.
  - destruct (IH tss x ltac:(simpl in Hlen; lia) Hx) as (pg' & ts' & j & Hp & Ht & Hj & Hxj).
    exists pg', ts', j. split_and!; try (by right); lia || done.
Qed.

Lemma length_ranges a b a' b' pages : forall tss,
  length (ranges a b pages tss) = length (ranges a' b' pages tss).
Proof.
  induction pages as [|pg pages IH]; intros [|ts tss]; try done. unfold ranges in *. cbn [zip_with concat].
  rewrite !length_app, !length_seqZ. f_equal. apply IH.
Qed.

Section mapped.
Context (pages : list thread_pages) (tss : list (list transfer)).
Context (Hok : Forall laid_out tss) (Hlen : length pages = length tss) (Hin : Forall in_range pages).

Lemma pages_small : Forall small_page (virt_pages pages tss) /\ Forall small_page (phys_pages pages tss).
Proof.
  split; apply Forall_forall; intros x (pg & ts & j & Hpg & Hts & Hj & Hx)%elem_of_ranges; try done;
    rewrite Forall_forall in Hin; rewrite Forall_forall in Hok;
    destruct (Hin pg Hpg) as [H1 H2 H3 H4]; destruct (more_pages_ok ts (Hok ts Hts)) as (H5 & _);
    unfold small_page, MIN_PHYS_PAGE, MAX_PHYS_PAGE, VIRT_PAGE_COUNT in *; lia.
Qed.

Context (randoms : list Z) (Hrand : NoDup randoms).

Local Abbreviation vps := (zip (virt_pages pages tss) (phys_pages pages tss)).
Context (Hlenr : length randoms = length vps).

Local Abbreviation tlb_state := (filled_tlb (page_mapping <$> vps) randoms).

Lemma reached va w :
  reaches tlb_state va w <-> exists p, (va / 0x2000, p) ∈ vps /\ w = 0x9000000000000000 + (p * 0x2000 + va mod 0x2000).
Proof.
  assert (length (virt_pages pages tss) = length (phys_pages pages tss)) by apply length_ranges.
  destruct pages_small as [Hsv Hsp]. apply reaches_iff; [done|done|..].
  - rewrite fst_zip by lia. done.
  - rewrite snd_zip by lia. done.
Qed.

Lemma reaches_move_functional : NoDup (virt_pages pages tss) ->
  forall m m1 m2, reaches_move tlb_state m m1 -> reaches_move tlb_state m m2 -> m1 = m2.
Proof.
  intros Hnd m [d1 s1] [d2 s2] [H1 H2] [H3 H4]. cbn [fst snd] in *.
  rewrite reached in H1. rewrite reached in H2. rewrite reached in H3. rewrite reached in H4.
  destruct H1 as (p1 & Hp1 & ->), H2 as (p2 & Hp2 & ->), H3 as (p3 & Hp3 & ->), H4 as (p4 & Hp4 & ->).
  by rewrite (zip_functional _ _ _ _ _ Hnd Hp1 Hp3), (zip_functional _ _ _ _ _ Hnd Hp2 Hp4).
Qed.

Definition virt_addrs : list (Z * Z) :=
  (fun pg => (source_virt_pn pg * 0x2000, dest_virt_pn pg * 0x2000)) <$> pages.

Lemma moves_reached : Forall2 (Forall2 (reaches_move tlb_state))
  (moves <$> at_addresses virt_addrs tss) (moves <$> at_addresses (windows pages) tss).
Proof.
  apply Forall2_fmap_2, Forall2_lookup. intros i. unfold at_addresses, virt_addrs, windows.
  rewrite !lookup_zip_with, !list_lookup_fmap.
  destruct (pages !! i) as [pg|] eqn:Hpg; cbn [fmap option_fmap option_map mbind option_bind]; [|constructor].
  destruct (tss !! i) as [ts|] eqn:Hts; cbn [fmap option_fmap option_map mbind option_bind]; [|constructor].
  constructor. cbn [fst snd]. rewrite !moves_shift. apply Forall2_fmap_2, Forall_Forall2_diag, Forall_forall.
  assert (Hlo : laid_out ts) by (rewrite Forall_lookup in Hok; eauto).
  destruct (more_pages_ok ts Hlo) as (Hm & Hs & Hd). destruct (moves_offsets ts) as [Hm1 Hm2].
  pose proof (zip_ranges pages tss Hlen i pg ts Hpg Hts ltac:(lia)) as Hz.
  assert (Hbyte : forall v p o, 0 <= o < (more_pages ts + 1) * 0x2000 ->
    (forall j, 0 <= j <= more_pages ts -> (v + j, p + j) ∈ vps) ->
    reaches tlb_state (v * 0x2000 + o) (window p + o)).
  { intros v p o Ho Hj. apply reached. exists (p + o / 0x2000).
    replace ((v * 0x2000 + o) / 0x2000) with (v + o / 0x2000) by mlia.
    split; [apply Hj; mlia|]. unfold window. mlia. }
  intros [d s] Hmv. split; cbn [fst snd]; apply Hbyte; try (intros j Hj; by apply Hz).
  - apply (offsets_spec _ _ _ _ Hd). rewrite <- Hm1. apply list_elem_of_fmap. by exists (d, s).
  - apply (offsets_spec _ _ _ _ Hs). rewrite <- Hm2. apply list_elem_of_fmap. by exists (d, s).
Qed.
End mapped.

(** ** The text *)

Section records.
Context (mk : Z -> Z -> titem) (field : transfer_record -> option Z) (sel : transfer -> Z).
Context (proj other : list titem -> list (Z * Z)) (Hpiece : byte_piece mk proj other).
Context (Hfield : forall r t, tr_source r = Some (t_source t) -> tr_destination r = Some (t_destination t) ->
  field r = Some (sel t)).

Lemma byte_pairs_small n b a : 0 <= b -> b + Z.of_nat n < 2 ^ 64 ->
  (fun p => mk (u64 p.1) p.2) <$> byte_pairs n b 0 a = (fun p => mk p.1 p.2) <$> byte_pairs n b 0 a.
Proof.
  intros Hb Hn. apply list_fmap_ext. intros k [x v] Hx. cbn. f_equal. apply wrap_small.
  destruct (byte_pairs_numbers n b 0 a) as [Hp _].
  assert (Hin : x ∈ (byte_pairs n b 0 a).*1) by (apply list_elem_of_fmap; exists (x, v); split; [done|by eapply list_elem_of_lookup_2]).
  rewrite Hp in Hin. apply list_elem_of_fmap in Hin as (j & -> & Hj%elem_of_seqZ). lia.
Qed.

Lemma print_virt_records_ok h base ps : forall p ts lo hi a,
  0 <= a < 256 -> 0 <= base -> 0 <= lo -> base + hi < 2 ^ 64 -> record_list h p ps ts -> increasing sel lo hi ts ->
  exists items,
    (forall fuel, (length ps < fuel)%nat ->
       print_virt_records mk field fuel h base p a = Ok (items, u8 (a + total ts)))
    /\ proj items = pairs (fun t => base + sel t) ts a /\ other items = [] /\ pointers items = []
    /\ mappings_of items = [].
Proof.
  induction ps as [|q ps IH]; intros p [|t ts] lo hi a Ha Hb Hlo Hhi Hl Hinc; simpl in Hl; try done.
  - subst p. exists []. rewrite (proj_nil _ _ _ Hpiece), (other_nil _ _ _ Hpiece). split_and!; try done.
    intros [|fuel] Hf; [lia|]. cbn [print_virt_records total]. by rewrite Z.eqb_refl, Z.add_0_r, wrap_small.
  - destruct Hl as (-> & Hnz & r & next & Hr & Hs & Hdd & Hz & Hn & Hl).
    cbn [increasing] in Hinc. destruct Hinc as (H1 & H2 & H3).
    pose proof (increasing_le _ _ _ _ H3). pose proof (size_bytes _ H2).
    set (n := Z.to_nat (Z.shiftl 1 (t_size t))).
    assert (Hn' : Z.of_nat n = Z.shiftl 1 (t_size t)) by lia.
    destruct (IH next ts (sel t + Z.of_nat n) hi (u8 (a + Z.of_nat n)))
      as (items & Hrun & Hp & Ho & Hptr & Hmap); [by apply wrap_range|done|lia|done|done|by rewrite Hn'|].
    eexists. split; [|split; [|split; [|split]]].
    + intros [|fuel] Hf; [lia|]. cbn [print_virt_records]. rewrite (proj2 (Z.eqb_neq _ _)) by done.
      unfold get_record. rewrite Hr. cbn [of_opt res_bind]. rewrite Hz, (Hfield r t), Hn by done.
      cbn [of_opt res_bind]. fold n. rewrite wrap_small by lia. rewrite print_bytes_pairs by done.
      rewrite byte_pairs_small by lia.
      rewrite Hrun by (simpl in Hf; lia). cbn [res_bind total]. fold n.
      by rewrite wrap_add_l, Z.add_assoc.
    + cbn [pairs]. by rewrite (bp_app _ _ _ Hpiece), (bp_mk _ _ _ Hpiece), Hp.
    + by rewrite (bp_other_app _ _ _ Hpiece), (bp_other _ _ _ Hpiece), Ho.
    + by rewrite pointers_app, (bp_pointers_mk _ _ _ Hpiece), Hptr.
    + by rewrite mappings_app, (bp_mappings_mk _ _ _ Hpiece), Hmap.
Qed.

Lemma phys_address pn : MIN_PHYS_PAGE <= pn <= MAX_PHYS_PAGE -> phys_pn_to_addr (u64 (2 * pn)) = window pn.
Proof.
  unfold MIN_PHYS_PAGE, MAX_PHYS_PAGE, phys_pn_to_addr, window. intros H.
  rewrite (wrap_small 64 (2 * pn)), Z.shiftl_mul_pow2 by lia. rewrite !wrap_small by (rewrite ?wrap_small; lia). lia.
Qed.

Lemma print_virt_threads_ok (Hsel : sel = t_source \/ sel = t_destination) h tss : forall lists pns a,
  0 <= a < 256 -> Forall2 (listed_at h) lists tss -> Forall laid_out tss -> length pns = length tss ->
  Forall (fun pn => MIN_PHYS_PAGE <= pn <= MAX_PHYS_PAGE) pns ->
  exists items,
    (exists fuel0, forall fuel, (fuel0 <= fuel)%nat ->
       print_virt_threads fuel mk field h pns lists a = Ok items)
    /\ proj items = pairs_at sel (zip (window <$> pns) tss) a /\ other items = [] /\ pointers items = []
    /\ mappings_of items = [].
Proof.
  induction tss as [|ts tss IH]; intros lists [|pn pns] a Ha Hl Hok Hlen Hpn; try done.
  - apply Forall2_nil_inv_r in Hl as ->. exists [].
    rewrite (proj_nil _ _ _ Hpiece), (other_nil _ _ _ Hpiece). split_and!; try done. by exists 0%nat.
  - apply Forall2_cons_inv_r in Hl as (p & lists' & [ps Hp] & Hl & ->).
    apply Forall_cons in Hok as [Hts Hok]. apply Forall_cons in Hpn as [Hpn Hpns].
    assert (Hinc : increasing sel 0 SPAN ts) by (destruct Hts; by destruct Hsel as [->| ->]).
    destruct (print_virt_records_ok h (window pn) ps p ts 0 SPAN a) as (i1 & Hr1 & Hp1 & Ho1 & Hq1 & Hm1);
      [done|unfold window, MIN_PHYS_PAGE in *; lia|lia|unfold window, SPAN, MAX_PHYS_PAGE in *; lia|done|done|].
    destruct (IH lists' pns (u8 (a + total ts))) as (i2 & [f2 Hr2] & Hp2 & Ho2 & Hq2 & Hm2);
      [by apply wrap_range|done|done|simpl in Hlen; lia|done|].
    exists (i1 ++ i2). split_and!.
    + exists (Nat.max f2 (S (length ps))). intros fuel Hf. cbn [print_virt_threads].
      rewrite phys_address by done. rewrite Hr1 by lia. cbn [res_bind]. by rewrite Hr2 by lia.
    + cbn [fmap list_fmap zip zip_with pairs_at]. by rewrite (bp_app _ _ _ Hpiece), Hp1, Hp2.
    + by rewrite (bp_other_app _ _ _ Hpiece), Ho1, Ho2.
    + by rewrite pointers_app, Hq1, Hq2.
    + by rewrite mappings_app, Hm1, Hm2.
Qed.
End records.

Lemma print_pointers_ok size l : forall i, exists items,
  print_pointer_array size i (Some <$> l) = Ok items
  /\ set_bytes items = [] /\ check_bytes items = [] /\ pointers items = l /\ mappings_of items = [].
Proof.
  induction l as [|b l IH]; intros i; [by exists []|].
  destruct (IH (i + 1)) as (items & Hrun & H1 & H2 & H3 & H4).
  cbn [fmap list_fmap print_pointer_array of_opt res_bind]. rewrite Hrun. cbn [res_bind].
  eexists. split; [done|]. change (Pointer b :: ?l) with ([Pointer b] ++ l).
  rewrite !set_bytes_app, !check_bytes_app, !pointers_app, !mappings_app, H1, H2, H3, H4. by destruct (i <? _).
Qed.

Lemma virt_address pn : 0 <= pn <= VIRT_PAGE_COUNT -> virt_pn_to_addr (u64 (2 * pn)) = pn * 0x2000.
Proof.
  unfold VIRT_PAGE_COUNT, virt_pn_to_addr. intros H.
  rewrite (wrap_small 64 (2 * pn)), Z.shiftl_mul_pow2 by lia. rewrite wrap_small by lia. lia.
Qed.

Lemma zip_fmap_both {A B C} (f : A -> B) (g : A -> C) l : zip (f <$> l) (g <$> l) = (fun x => (f x, g x)) <$> l.
Proof. induction l as [|x l IH]; [done|]. cbn. by f_equal. Qed.

(** the two arrays of addresses *)
Lemma print_virt_addrs_ok thread_count i (sel : thread_pages -> Z) pages :
  Forall (fun pg => 0 <= sel pg <= VIRT_PAGE_COUNT) pages -> exists items,
    print_pointer_array thread_count i ((fun pn => Some (virt_pn_to_addr (u64 (2 * pn)))) <$> (sel <$> pages)) = Ok items
    /\ set_bytes items = [] /\ check_bytes items = []
    /\ pointers items = (fun pg => sel pg * 0x2000) <$> pages /\ mappings_of items = [].
Proof.
  intros Hsel. destruct (print_pointers_ok thread_count ((fun pg => sel pg * 0x2000) <$> pages) i) as (items & Hr & Hi).
  exists items. split; [|exact Hi]. rewrite <- Hr. f_equal. rewrite <- !list_fmap_compose.
  apply list_fmap_ext. intros k pg Hk. cbn. f_equal. apply virt_address. rewrite Forall_lookup in Hsel. by eapply Hsel.
Qed.

(** the numbering of the bytes of all threads, by the pages of the threads *)
Lemma pairs_windows (first : bool) (pages : list thread_pages) tss : length pages = length tss ->
  pairs_at (if first then t_source else t_destination)
    (zip (window <$> ((if first then source_phys_pn else dest_phys_pn) <$> pages)) tss) 0
  = pairs (if first then t_source else t_destination) (concat (at_addresses (windows pages) tss)) 0.
Proof.
  intros Hlen. replace (windows pages)
    with (zip (window <$> (source_phys_pn <$> pages)) (window <$> (dest_phys_pn <$> pages)))
    by (unfold windows; by rewrite <- !list_fmap_compose, zip_fmap_both).
  rewrite <- (pairs_at_concat first) by (rewrite ?length_fmap; done || lia). by destruct first.
Qed.

(** the whole text, from what the parts print *)
Lemma print_virtualised_ok `{DMAAsm} `{DMAModel} `{RandomEngine} tf rest0 thread_count seed h h' th ps next :
  wf_theap th -> 0 <= thread_count <= 6 -> Forall well_sized ps ->
  length ps = Z.to_nat thread_count ->
  generate_programs tf (Z.to_nat thread_count) 0 (mysrand seed) h
    = Ok ((fun p => Some <$> words_of p) <$> ps, h', next) ->
  let tss := transfers_of <$> ps in
  exists fuel0 items pages,
    (forall fuel, (fuel0 <= fuel)%nat -> exists freed,
       print_virtualised_test_information tf rest0 fuel thread_count seed h th = Ok (items, freed)
       /\ forall x, freed <> Ok x)
    /\ length pages = length tss /\ Forall in_range pages
    /\ pointers items = (virt_addrs pages).*1 ++ (virt_addrs pages).*2
    /\ mappings_of items = page_mapping <$> zip (virt_pages pages tss) (phys_pages pages tss)
    /\ set_bytes items = pairs t_source (concat (at_addresses (windows pages) tss)) 0
    /\ check_bytes items = pairs t_destination (concat (at_addresses (windows pages) tss)) 0
    /\ (Forall (fun ts => more_pages ts = 0) tss ->
        NoDup (phys_pages pages tss) /\ NoDup (virt_pages pages tss)).
Proof.
  intros Hwt Hcount Hps Hlen Hgen tss.
  destruct (generate_transfer_lists_ok rest0 ps 0 th Hwt Hps) as (f1 & lists & th' & Hgl & Hl & _); [lia|lia|].
  pose proof (programs_laid_out ps Hps : Forall laid_out tss) as Hlo.
  destruct (print_programs_ok thread_count ps Hps 0) as (f2 & words & [Hw1 Hw2 Hw3 Hw4] & Hw).
  assert (Hlt : Z.of_nat (length tss) <= 6) by (subst tss; rewrite length_fmap; lia).
  destruct (allocate_pages_ok th' tss lists [] [] (seed_engine (u32 seed)) Hl Hlo)
    as (pages & f3 & Hpages & Hlp & Hin & Hone); [simpl; lia..|]. cbn [app] in Hpages, Hone.
  destruct (pages_small pages tss Hlo Hlp Hin) as [Hsv Hsp].
  destruct (print_mappings_ok (phys_pages pages tss) (virt_pages pages tss)) as (mps & Hmr & Hm1 & Hm2 & Hm3 & Hm4);
    [apply length_ranges|done|done|].
  destruct (print_virt_threads_ok SetByte tr_source t_source _ _ set_byte_piece) with (h := th') (tss := tss)
    (lists := lists) (a := 0) (pns := source_phys_pn <$> pages)
    as (i1 & [f4 Hi1] & Hset & Hset' & Hp1 & Hq1); [done|by left|lia|done|done|by rewrite length_fmap|..].
  { apply Forall_fmap. eapply Forall_impl; [exact Hin|apply ir_sp]. }
  destruct (print_virt_threads_ok CheckByte tr_destination t_destination _ _ check_byte_piece) with (h := th') (tss := tss)
    (lists := lists) (a := 0) (pns := dest_phys_pn <$> pages)
    as (i2 & [f5 Hi2] & Hchk & Hchk' & Hp2 & Hq2); [done|by right|lia|done|done|by rewrite length_fmap|..].
  { apply Forall_fmap. eapply Forall_impl; [exact Hin|apply ir_dp]. }
  destruct (print_virt_addrs_ok thread_count 0 source_virt_pn pages) as (i3 & Hr3 & Hs3 & Hc3 & Hp3 & Hq3);
    [eapply Forall_impl; [exact Hin|apply ir_sv]|].
  destruct (print_virt_addrs_ok thread_count 0 dest_virt_pn pages) as (i4 & Hr4 & Hs4 & Hc4 & Hp4 & Hq4);
    [eapply Forall_impl; [exact Hin|apply ir_dv]|].
  exists (f1 + f2 + f3 + f4 + f5)%nat.
  exists ([DefineDma] ++ words ++ [NextField] ++ mps ++ i1 ++ [AssertStart] ++ i2 ++ [AssertEnd] ++ i3 ++ [NextField] ++ i4).
  exists pages. split_and!; try done.
  - intros fuel Hf. unfold print_virtualised_test_information. rewrite Hgen. cbn [res_bind].
    rewrite Hgl by lia. cbn [res_bind]. rewrite Hw by lia. cbn [res_bind]. rewrite Hpages by lia. cbn [res_bind].
    rewrite Hmr. cbn [res_bind]. rewrite Hi1 by lia. cbn [res_bind]. rewrite Hi2 by lia. cbn [res_bind].
    rewrite Hr3. cbn [res_bind]. rewrite Hr4. cbn [res_bind].
    eexists. split; [reflexivity|]. intros x. by destruct (free_lists _ _ _ _).
  - rewrite !pointers_app, Hw3, Hm3, Hp1, Hp2, Hp3, Hp4. cbn. unfold virt_addrs.
    rewrite <- !list_fmap_compose. done.
  - rewrite !mappings_app, Hw4, Hm4, Hq1, Hq2, Hq3, Hq4. cbn. by rewrite app_nil_r.
  - rewrite !set_bytes_app, Hw1, Hm1, Hset, Hchk', Hs3, Hs4. cbn. rewrite app_nil_r.
    by apply (pairs_windows true).
  - rewrite !check_bytes_app, Hw2, Hm2, Hset', Hchk, Hc3, Hc4. cbn. rewrite app_nil_r.
    by apply (pairs_windows false).
  - intros Hz. destruct (Hone Hz) as [Hn1 Hn2]. split; [apply Hn1|apply Hn2]; constructor.
Qed.

(** ** The tests in virtual memory *)

(** as many pages as ranges: each range is one page *)
Lemma one_page_each a b pages : forall tss, length pages = length tss -> Forall laid_out tss ->
  2 * Z.of_nat (length tss) <= Z.of_nat (length (ranges a b pages tss))
  /\ (Z.of_nat (length (ranges a b pages tss)) = 2 * Z.of_nat (length tss) ->
      Forall (fun ts => more_pages ts = 0) tss).
Proof.
  induction pages as [|pg pages IH]; intros [|ts tss] Hlen Hok; try done.
  apply Forall_cons in Hok as [Hts Hok]. destruct (more_pages_ok ts Hts) as (Hm & _).
  destruct (IH tss ltac:(simpl in Hlen; lia) Hok) as [H1 H2]. unfold ranges in *. cbn [zip_with concat].
  rewrite !length_app, !length_seqZ, length_cons. split; [lia|]. intros Heq. constructor; [lia|]. apply H2. lia.
Qed.

Lemma nodup_mappings vs ps : length vs = length ps ->
  (NoDup ((fun x : Z * Z * Z => x.1.1) <$> (page_mapping <$> zip vs ps)) <-> NoDup vs)
  /\ (NoDup ((fun x : Z * Z * Z => x.1.2) <$> (page_mapping <$> zip vs ps)) <-> NoDup ps).
Proof.
  intros Hlen. rewrite <- !list_fmap_compose.
  replace ((fun x : Z * Z * Z => x.1.1) ∘ page_mapping <$> zip vs ps) with (Z.mul 2 <$> (zip vs ps).*1)
    by (by rewrite <- list_fmap_compose).
  replace ((fun x : Z * Z * Z => x.1.2) ∘ page_mapping <$> zip vs ps) with (Z.mul 2 <$> (zip vs ps).*2)
    by (by rewrite <- list_fmap_compose).
  rewrite fst_zip, snd_zip by lia.
  split; (split; [apply NoDup_fmap_1|apply NoDup_fmap_2; intros x y; lia]).
Qed.

Lemma Forall2_exists {A B} (R : A -> B -> Prop) l l' : Forall2 R l l' -> Forall (fun x => exists y, R x y) l.
Proof. induction 1; constructor; eauto. Qed.

Lemma sizes_at addrs : forall tss, Forall laid_out tss ->
  Forall (fun t => is_size (t_size t)) (concat (at_addresses addrs tss)).
Proof.
  induction addrs as [|p addrs IH]; intros [|ts tss] Hok; try constructor.
  apply Forall_cons in Hok as [[_ _ (sz & Hsz & Hal)] Hok]. cbn [at_addresses zip_with concat].
  apply Forall_app. split; [|by apply IH]. apply Forall_fmap. eapply Forall_impl; [exact Hal|].
  intros t (Hz & _). cbn. by rewrite Hz.
Qed.

(** a test is printed; what its mappings give, if no page is mapped twice *)
Lemma virtualised_cases `{DMAAsm} `{DMAModel} `{RandomEngine} tf rest0 thread_count seed h th programs h' next :
  wf_heap h -> wf_theap th -> 0 <= thread_count <= 6 ->
  generate_programs tf (Z.to_nat thread_count) 0 (mysrand seed) h = Ok (programs, h', next) ->
  exists fuel0 (words : list (list Z)) items sbs dbs (virt : list (list transfer)),
    programs = (fun w : list Z => Some <$> w) <$> words
    /\ Z.of_nat (length words) = thread_count
    /\ (forall fuel, (fuel0 <= fuel)%nat -> exists freed,
          print_virtualised_test_information tf rest0 fuel thread_count seed h th = Ok (items, freed)
          /\ forall x, freed <> Ok x)
    /\ length sbs = length words /\ length dbs = length words /\ pointers items = sbs ++ dbs
    /\ threads_make words sbs dbs virt
    /\ let virt_pns := (fun x : Z * Z * Z => x.1.1) <$> mappings_of items in
       let phys_pns := (fun x : Z * Z * Z => x.1.2) <$> mappings_of items in
       (length (mappings_of items) = (2 * length words)%nat -> NoDup virt_pns /\ NoDup phys_pns)
       /\ (NoDup virt_pns -> NoDup phys_pns ->
           forall randoms, NoDup randoms -> length randoms = length (mappings_of items) ->
           let c := filled_tlb (mappings_of items) randoms in
           (exists phys, Forall2 (Forall2 (reaches_move c)) (moves <$> virt) phys)
           /\ forall r r' m, interleaving (moves <$> virt) r -> Forall2 (reaches_move c) r r' ->
                multi_test_passes items r' m = true).
Proof.
  intros Hwf Hwt Hcount Hgen.
  destruct (generate_programs_ok tf (Z.to_nat thread_count) 0 (mysrand seed) h Hwf)
    as [(ps & h1 & next' & Hok & Hlen & Hps & _)|Herr]; [lia|lia| |congruence].
  rewrite Hok in Hgen. injection Hgen as <- <- <-.
  destruct (print_virtualised_ok tf rest0 thread_count seed h h1 th ps next' Hwt Hcount Hps Hlen Hok)
    as (fuel0 & items & pages & Hrun & Hlp & Hin & Hptr & Hmap & Hset & Hchk & Hone).
  set (tss := transfers_of <$> ps) in *.
  pose proof (programs_laid_out ps Hps : Forall laid_out tss) as Hlo.
  assert (Hlr : length (virt_pages pages tss) = length (phys_pages pages tss)) by apply length_ranges.
  assert (Hlt : length tss = length ps) by apply length_fmap.
  destruct (nodup_mappings _ _ Hlr) as [Hnv Hnp]. rewrite <- Hmap in Hnv, Hnp.
  exists fuel0, (words_of <$> ps), items, (virt_addrs pages).*1, (virt_addrs pages).*2, (at_addresses (virt_addrs pages) tss).
  split; [by rewrite <- list_fmap_compose|].
  assert (Hlv : length (virt_addrs pages) = length (words_of <$> ps)) by (unfold virt_addrs; rewrite !length_fmap; lia).
  split; [rewrite length_fmap; lia|]. split; [exact Hrun|]. do 2 (split; [by rewrite length_fmap|]).
  split; [exact Hptr|]. split; [|split].
  - replace (virt_addrs pages) with (zip (virt_addrs pages).*1 (virt_addrs pages).*2) at 3 by apply zip_fst_snd.
    apply threads_make_ok; [done|unfold virt_addrs; rewrite !length_fmap; lia..|].
    unfold virt_addrs. rewrite <- !list_fmap_compose. apply Forall_app. rewrite !Forall_fmap.
    split; (eapply Forall_impl; [exact Hin|]); intros pg [_ _ H3 H4]; cbn; unfold VIRT_PAGE_COUNT, SPAN in *; lia.
  - intros Heq. rewrite Hnv, Hnp. apply and_comm, Hone.
    apply (one_page_each source_virt_pn dest_virt_pn pages tss Hlp Hlo).
    rewrite Hmap, !length_fmap, length_zip_with, <- Hlr, Nat.min_id in Heq. unfold virt_pages in Heq. lia.
  - rewrite Hnv, Hnp. intros Hvn Hpn randoms Hrand Hlenr c.
    rewrite Hmap, length_fmap in Hlenr. subst c. rewrite Hmap.
    pose proof (moves_reached pages tss Hlo Hlp Hin randoms Hrand Hlenr) as Hreach. split; [by eexists|].
    intros r r' m Hr Hr'. eapply interleaved_test_passes; [exact Hset|exact Hchk|..].
    + by apply sizes_at.
    + by apply windows_disjoint.
    + eapply interleaving_related; [exact Hr| |exact Hreach|exact Hr'].
      by apply reaches_move_functional.
Qed.

(** C5: the tests in virtual memory, for every seed and engine of random
    numbers, for up to six threads whose programs are generated (the engine has
    four).  The loops that look for pages end and the text is printed, whether
    or not a program makes a transfer.  The engine, started at the printed
    virtual addresses, makes the transfers [virt].  If every program fits in
    one page of 8 KiB, all pages are different; and whenever the printed pages
    are different, then after the printed calls of [add_tlb_mapping] each
    writing an entry of its own, every address of every transfer is mapped,
    and the test, which sets and checks bytes through physical addresses,
    passes from every memory and with every interleaving of the bytes moved.
    Giving back what was allocated is undefined: it came from [new[]] and
    [malloc] and goes to [delete]. *)
Theorem virtualised_test_passes `{DMAAsm} `{DMAModel} `{RandomEngine} tf rest0 thread_count seed h th programs h' next :
  wf_heap h -> wf_theap th -> 0 <= thread_count <= 6 ->
  generate_programs tf (Z.to_nat thread_count) 0 (mysrand seed) h = Ok (programs, h', next) ->
  exists fuel0 (words : list (list Z)) items sbs dbs (virt : list (list transfer)),
    programs = (fun w : list Z => Some <$> w) <$> words
    /\ (forall fuel, (fuel0 <= fuel)%nat -> exists freed,
          print_virtualised_test_information tf rest0 fuel thread_count seed h th = Ok (items, freed)
          /\ forall x, freed <> Ok x)
    /\ pointers items = sbs ++ dbs
    /\ threads_make words sbs dbs virt
    /\ let virt_pns := (fun x : Z * Z * Z => x.1.1) <$> mappings_of items in
       let phys_pns := (fun x : Z * Z * Z => x.1.2) <$> mappings_of items in
       (length (mappings_of items) = (2 * length words)%nat -> NoDup virt_pns /\ NoDup phys_pns)
       /\ (NoDup virt_pns -> NoDup phys_pns ->
           forall randoms, NoDup randoms -> length randoms = length (mappings_of items) ->
           let c := filled_tlb (mappings_of items) randoms in
           forall r, interleaving (moves <$> virt) r ->
             Forall (fun m => exists m', reaches_move c m m') r
             /\ forall r' m, Forall2 (reaches_move c) r r' -> multi_test_passes items r' m = true).
Proof.
  intros Hwf Hwt Hcount Hgen.
  destruct (virtualised_cases tf rest0 thread_count seed h th _ _ _ Hwf Hwt Hcount Hgen)
    as (fuel0 & words & items & sbs & dbs & virt & Hw & _ & Hrun & _ & _ & Hp & Hmake & Hone & Hpass).
  exists fuel0, words, items, sbs, dbs, virt. do 4 (split; [done|]). split; [exact Hone|].
  intros Hvn Hpn randoms Hrand Hlenr c r Hr.
  destruct (Hpass Hvn Hpn randoms Hrand Hlenr) as [(phys & Hreach) Hall]. split.
  - apply interleaving_perm in Hr. rewrite Hr. apply Forall_concat.
    eapply Forall_impl; [exact (Forall2_exists _ _ _ Hreach)|].
    intros l (l' & Hl). exact (Forall2_exists _ _ _ Hl).
  - intros r' m Hr'. by apply (Hall r).
Qed.

(** ** More fuel changes no text *)

Section fuel.
Context `{DMAAsm} `{DMAModel} `{RandomEngine}.

Lemma last_record_mono fuel h : forall fuel' current, (fuel <= fuel')%nat ->
  res_le eq (last_record fuel h current) (last_record fuel' h current).
Proof.
  induction fuel as [|fuel IH]; intros [|fuel'] current Hf; cbn [last_record]; [done|done|lia|].
  pose proof (fun current => IH fuel' current ltac:(lia)). more_fuel.
Qed.
#[local] Hint Resolve last_record_mono : fuel.

Lemma usage_mono fuel fuel' h l : (fuel <= fuel')%nat -> res_le eq (usage fuel h l) (usage fuel' h l).
Proof. intros Hf. unfold usage. more_fuel. Qed.

Lemma draw_page_mono fuel virtual used : forall fuel' e, (fuel <= fuel')%nat ->
  res_le eq (draw_page fuel virtual used e) (draw_page fuel' virtual used e).
Proof.
  induction fuel as [|fuel IH]; intros [|fuel'] e Hf; cbn [draw_page]; [done|done|lia|].
  pose proof (fun e => IH fuel' e ltac:(lia)). more_fuel.
Qed.
#[local] Hint Resolve usage_mono draw_page_mono : fuel.

Lemma take_pages_mono fuel fuel' virtual n used e : (fuel <= fuel')%nat ->
  res_le eq (take_pages fuel virtual n used e) (take_pages fuel' virtual n used e).
Proof. intros Hf. unfold take_pages. more_fuel. Qed.
#[local] Hint Resolve take_pages_mono : fuel.

Lemma allocate_pages_mono fuel fuel' h lists : (fuel <= fuel')%nat -> forall phys virt e,
  res_le eq (allocate_pages fuel h lists phys virt e) (allocate_pages fuel' h lists phys virt e).
Proof. intros Hf. induction lists as [|l lists IH]; intros phys virt e; cbn [allocate_pages]; more_fuel. Qed.

Lemma print_virt_records_mono mk field h fuel : forall fuel' base current a, (fuel <= fuel')%nat ->
  res_le eq (print_virt_records mk field fuel h base current a) (print_virt_records mk field fuel' h base current a).
Proof.
  induction fuel as [|fuel IH]; intros [|fuel'] base current a Hf; cbn [print_virt_records]; [done|done|lia|].
  pose proof (fun base current a => IH fuel' base current a ltac:(lia)). more_fuel.
Qed.
#[local] Hint Resolve allocate_pages_mono print_virt_records_mono : fuel.

Lemma print_virt_threads_mono mk field h fuel fuel' : (fuel <= fuel')%nat -> forall lists pns a,
  res_le eq (print_virt_threads fuel mk field h pns lists a) (print_virt_threads fuel' mk field h pns lists a).
Proof. intros Hf. induction lists as [|l lists IH]; intros [|pn pns] a; cbn [print_virt_threads]; more_fuel. Qed.
#[local] Hint Resolve print_virt_threads_mono : fuel.

Lemma print_virtualised_mono tf rest0 fuel fuel' thread_count seed h th : (fuel <= fuel')%nat ->
  res_le (fun x y => x.1 = y.1) (print_virtualised_test_information tf rest0 fuel thread_count seed h th)
    (print_virtualised_test_information tf rest0 fuel' thread_count seed h th).
Proof. intros Hf. unfold print_virtualised_test_information. more_fuel. Qed.
End fuel.

(** ** Engines of random numbers *)

(** a few draws from a table, then a counter *)
#[export, refine] Instance table_engine (table : Z -> Z) (k : Z) : RandomEngine := {
  engine_state := Z;
  seed_engine seed := 0;
  uniform lo hi e := (lo + (if e <? k then table e else e) mod (hi - lo + 1), e + 1);
}.
Proof.
  - intros lo hi e Hle. cbn [fst]. pose proof (Z.mod_pos_bound (if e <? k then table e else e) (hi - lo + 1)). lia.
  - intros lo hi e used v Hv Hnot. set (w := hi - lo + 1). set (j := Z.max 0 (k - e)).
    exists (Z.to_nat (j + (v - lo - (e + j)) mod w)). pose proof (Z.mod_pos_bound (v - lo - (e + j)) w ltac:(lia)) as Hm.
    assert (Hiter : forall n e, Nat.iter n (fun e : Z => (lo + (if e <? k then table e else e) mod w, e + 1).2) e = e + Z.of_nat n).
    { induction n as [|n IH]; intros e'; [simpl; lia|]. rewrite Nat.iter_succ, IH. cbn [snd]. lia. }
    rewrite Hiter. cbn [fst]. rewrite (proj2 (Z.ltb_ge _ _)) by lia. rewrite Z2Nat.id by lia.
    replace (e + (j + (v - lo - (e + j)) mod w)) with ((e + j) + (v - lo - (e + j)) mod w) by lia.
    rewrite Zplus_mod_idemp_r. replace (e + j + (v - lo - (e + j))) with (v - lo) by lia.
    rewrite Z.mod_small by lia. by replace (lo + (v - lo)) with v by lia.
Defined.

Definition counter_engine : RandomEngine := table_engine (fun _ => 0) 0.

(** a text that is printed, and whether its pages are all different *)
Definition ex_virt_text (seed : Z) : list titem :=
  text_of (@print_virtualised_test_information asm_plain model_plain counter_engine true ex_rest 200 2 seed
    empty_heap empty_theap).

Definition pages_differ (items : list titem) : Prop :=
  NoDup ((fun x : Z * Z * Z => x.1.1) <$> mappings_of items)
  /\ NoDup ((fun x : Z * Z * Z => x.1.2) <$> mappings_of items).

#[export] Instance pages_differ_dec items : Decision (pages_differ items).
Proof. apply _. Defined.

Lemma ex_virt_text_enough seed fuel0 items : ex_virt_text seed <> [] ->
  (forall fuel, (fuel0 <= fuel)%nat -> exists freed,
     @print_virtualised_test_information asm_plain model_plain counter_engine true ex_rest fuel 2 seed
       empty_heap empty_theap = Ok (items, freed)) -> items = ex_virt_text seed.
Proof.
  intros Hne Hrun. eapply (text_of_enough (fun fuel => print_virtualised_test_information true ex_rest fuel 2 seed
    empty_heap empty_theap)); [|exact Hrun|exact Hne].
  intros fuel fuel'. apply print_virtualised_mono.
Qed.

Lemma virtualised_test_passes_witness :
  exists virt : list (list transfer),
    length (check_bytes (ex_virt_text 6)) = 40%nat
    /\ forall randoms, NoDup randoms -> length randoms = length (mappings_of (ex_virt_text 6)) ->
       let c := filled_tlb (mappings_of (ex_virt_text 6)) randoms in
       forall r, interleaving (moves <$> virt) r ->
         Forall (fun m => exists m', reaches_move c m m') r
         /\ forall r' m, Forall2 (reaches_move c) r r' -> multi_test_passes (ex_virt_text 6) r' m = true.
Proof.
  assert (Hwf : wf_heap empty_heap) by (intros a Ha; reflexivity).
  assert (Hwt : wf_theap empty_theap) by (split; reflexivity).
  destruct (@virtualised_test_passes asm_plain model_plain counter_engine true ex_rest 2 6 empty_heap empty_theap
    (ex_programs 6).1.1 (ex_programs 6).1.2 (ex_programs 6).2 Hwf Hwt ltac:(lia) ltac:(vm_compute; reflexivity))
    as (fuel0 & words & items & sbs & dbs & virt & _ & Hrun & _ & _ & _ & Hpass).
  assert (items = ex_virt_text 6) as ->.
  { apply (ex_virt_text_enough 6 fuel0); [by vm_compute|].
    intros fuel Hf. destruct (Hrun fuel Hf) as (freed & Hr & _). by exists freed. }
  assert (Hd : pages_differ (ex_virt_text 6)) by (apply (bool_decide_unpack _); vm_compute; exact I).
  exists virt. split; [by vm_compute|]. exact (Hpass (proj1 Hd) (proj2 Hd)).
Defined.

(** Only the first page of a range is looked for among those in use: the
    program of seed 91 needs two pages, and with these draws its second virtual
    page for writing is its first one for reading, mapped to another frame. *)
Definition overlapping_draws : Z -> Z := fun e => nth (Z.to_nat e) [100; 200; 301; 300] 0.

Definition mapped_twice (test : res (list titem * res theap)) : bool :=
  match test with
  | Ok (items, _) =>
      existsb (fun x => existsb (fun y => (x.1.1 =? y.1.1) && negb (x.1.2 =? y.1.2)) (mappings_of items))
        (mappings_of items)
  | Err _ => false
  end.

Example virtual_page_mapped_twice :
  mapped_twice (@print_virtualised_test_information asm_plain model_plain (table_engine overlapping_draws 4) true
    ex_rest 3000 1 91 empty_heap empty_theap) = true.
Proof. vm_compute. reflexivity. Qed.
