(* ===== verification/DmaSwitch.v ===== *)
(** * DmaSwitch: the generated tests on an engine with memory.

    [DmaThreads] is the template of the test with several threads, over the
    operations of the engine; [DmaMulti] and [DmaVirt] are the programs and
    addresses that are substituted in it.  This file puts them together.  The
    contract of an engine is a simulation: it is an abstract machine that has, for
    every thread, the bytes it is still to move, and moves some of them, in
    any order of the threads, whenever it is accessed.  The theorems are that when
    the loop of the test has found every thread ready, the printed assertions
    hold of the memory, in physical and in virtual memory.  The end of the file
    is an engine that keeps the contract. *)

From S2P Require Import Prelude DmaEngine DmaGen DmaProgram DmaTransfers DmaTest DmaMulti DmaThreads DmaVirt.

(** ** The abstract machine *)

(** from [ls], what the threads have left to move, to [ls'], by moving [r] *)
Inductive advances {A} : list (list A) -> list A -> list (list A) -> Prop :=
  | advances_none ls : advances ls [] ls
  | advances_one ls t x l r ls' :
      ls !! t = Some (x :: l) -> advances (<[t := l]> ls) r ls' -> advances ls (x :: r) ls'.

Lemma advances_trans {A} (ls1 ls2 ls3 : list (list A)) r1 r2 :
  advances ls1 r1 ls2 -> advances ls2 r2 ls3 -> advances ls1 (r1 ++ r2) ls3.
Proof. induction 1 as [|ls t x l r ls' Ht _ IH]; [done|]. intros H. by eapply advances_one; [|apply IH]. Qed.

Lemma advances_interleaving {A} (ls : list (list A)) r ls' :
  advances ls r ls' -> Forall (fun l => l = []) ls' -> interleaving ls r.
Proof. induction 1 as [|ls t x l r ls' Ht _ IH]; intros Hall; [by constructor|]. by econstructor; [|apply IH]. Qed.

Lemma advances_length {A} (ls : list (list A)) r ls' : advances ls r ls' -> length ls' = length ls.
Proof. induction 1 as [|ls t x l r ls' Ht _ IH]; [done|]. by rewrite IH, length_insert. Qed.

Lemma advances_done {A} (ls : list (list A)) r ls' t : advances ls r ls' -> ls !! t = Some [] -> ls' !! t = Some [].
Proof.
  induction 1 as [|ls u x l r ls' Hu _ IH]; [done|]. intros Ht. apply IH.
  rewrite list_lookup_insert_ne; [done|]. intros ->. congruence.
Qed.

(** a thread that has nothing to move may be given something afterwards *)
Lemma advances_later {A} (ls : list (list A)) r ls' t l :
  advances ls r ls' -> ls !! t = Some [] -> advances (<[t := l]> ls) r (<[t := l]> ls').
Proof.
  induction 1 as [|ls u x k r ls' Hu _ IH]; intros Ht; [constructor|].
  assert (u <> t) by (intros ->; congruence).
  eapply advances_one; [by rewrite list_lookup_insert_ne|].
  rewrite list_insert_insert_ne by done. apply IH. by rewrite list_lookup_insert_ne.
Qed.

(** threads that never have anything to move *)
Lemma interleaving_pad {A} (ls : list (list A)) k r : interleaving (ls ++ replicate k []) r -> interleaving ls r.
Proof.
  remember (ls ++ replicate k []) as full eqn:Hf. intros H. revert ls Hf.
  induction H as [full Hall|full i x l r Hi _ IH]; intros ls ->.
  - constructor. by apply Forall_app in Hall as [? _].
  - apply lookup_app_Some in Hi as [Hi|[Hi Hrep]].
    + eapply interleaving_cons; [exact Hi|]. apply IH. apply insert_app_l. by apply lookup_lt_Some in Hi.
    + by apply lookup_replicate in Hrep as [? _].
Qed.

Lemma copy_bytes_app r1 r2 m : copy_bytes (r1 ++ r2) m = copy_bytes r2 (copy_bytes r1 m).
Proof. apply foldl_app. Qed.

Lemma copy_bytes_ext r : forall m m' : Z -> Z, (forall x, m x = m' x) -> forall x, copy_bytes r m x = copy_bytes r m' x.
Proof.
  induction r as [|p r IH]; intros m m' Hm x; [apply Hm|]. apply IH. intros y. unfold upd.
  simpl. case_decide; apply Hm.
Qed.

(** ** The contract of an engine *)

(** what is observed of a device: the memory, the registers of each thread
    (program, source and destination), and what is left to move *)
Class DeviceState `{DMAControl} := {
  memory : device -> Z -> Z;
  regs : device -> Z -> Z * Z * Z;
  to_move : device -> list (list (Z * Z)) -> Prop;
}.

(** the device [d'] is [d] after moving some of [ls]; [via] relates a move at the
    addresses of the engine with one at the addresses of the memory *)
Definition continues `{DeviceState} (via : Z * Z -> Z * Z -> Prop) (d : device)
    (ls : list (list (Z * Z))) (d' : device) : Prop :=
  exists r r' ls', advances ls r ls' /\ Forall2 via r r' /\ to_move d' ls'
    /\ forall x, memory d' x = copy_bytes r' (memory d) x.

(** [program_at] is the program at an address *)
Class DMAEngine `{DMAAsm} `{DMAModel} `{DeviceState} (program_at : Z -> list Z)
    (via : Z * Z -> Z * Z -> Prop) : Prop := {
  set_pc_runs a t p d ls : to_move d ls -> continues via d ls (dma_set_pc a t p d);
  set_source_runs a t s d ls : to_move d ls -> continues via d ls (dma_set_source_address a t s d);
  set_dest_runs a t s d ls : to_move d ls -> continues via d ls (dma_set_dest_address a t s d);
  switch_runs a n t d ls : to_move d ls -> continues via d ls (dma_switch_to a n t d);
  nop_runs d ls : to_move d ls -> continues via d ls (DEBUG_NOP d);
  ready_runs a t d ls : to_move d ls -> continues via d ls (dma_thread_ready a t d).2;
  (* a thread that is ready has made its transfers *)
  ready_done a t d ls l : to_move d ls -> (dma_thread_ready a t d).1 = true -> ls !! Z.to_nat t = Some l -> l = [];
  (* a thread that is started makes the transfers of the model, if its addresses
     are mapped *)
  start_runs a t d ls ts : to_move d ls -> 0 <= t -> ls !! Z.to_nat t = Some [] ->
    Forall (fun m => exists m', via m m') (moves ts) ->
    (forall rest, engine_run_from (program_at (regs d t).1.1) (regs d t).1.2 (regs d t).2 rest ts) ->
    continues via d (<[Z.to_nat t := moves ts]> ls) (dma_start_transfer a t d);
  regs_set_pc a t p d u :
    regs (dma_set_pc a t p d) u = if decide (u = t) then (p, (regs d u).1.2, (regs d u).2) else regs d u;
  regs_set_source a t s d u :
    regs (dma_set_source_address a t s d) u = if decide (u = t) then ((regs d u).1.1, s, (regs d u).2) else regs d u;
  regs_set_dest a t s d u :
    regs (dma_set_dest_address a t s d) u = if decide (u = t) then ((regs d u).1, s) else regs d u;
  regs_start a t d u : regs (dma_start_transfer a t d) u = regs d u;
}.

(** the processor sets bytes of the memory *)
Definition sets `{DeviceState} (bytes : list (Z * Z)) (set_sources : device -> device) : Prop :=
  forall d ls, to_move d ls -> to_move (set_sources d) ls
    /\ forall x, memory (set_sources d) x = foldl upd (memory d) bytes x.

(** ... and compares bytes of the memory *)
Definition asserts_hold `{DeviceState} (bytes : list (Z * Z)) (d : device) : bool :=
  forallb (fun p => memory d p.1 =? p.2) bytes.

(** ** What the test makes of it *)

Section test.
Context {Asm : DMAAsm} {Mod : DMAModel} {Ctl : DMAControl} {Dev : DeviceState} {program_at : Z -> list Z} {via : Z * Z -> Z * Z -> Prop}.
Context {E : DMAEngine program_at via}.

(** [d] has been reached from the memory [m0] and what the threads had to move
    by moving all but what is left; the threads in [done] have moved everything *)
Definition after (m0 : Z -> Z) (lists : list (list (Z * Z))) (done : Z -> Prop) (d : device) : Prop :=
  exists r r' ls, advances lists r ls /\ Forall2 via r r' /\ to_move d ls
    /\ (forall x, memory d x = copy_bytes r' m0 x)
    /\ forall t l, done t -> ls !! Z.to_nat t = Some l -> l = [].

Lemma after_continues m0 lists done d d' : after m0 lists done d ->
  (forall ls, to_move d ls -> continues via d ls d') -> after m0 lists done d'.
Proof.
  intros (r & r' & ls & Hadv & Hvia & Hto & Hmem & Hdone) Hc.
  destruct (Hc ls Hto) as (q & q' & ls' & Hadv' & Hvia' & Hto' & Hmem').
  exists (r ++ q), (r' ++ q'), ls'. split; [by eapply advances_trans|]. split; [by apply Forall2_app|].
  split; [done|]. split.
  - intros x. rewrite Hmem', copy_bytes_app. by apply copy_bytes_ext.
  - intros t l Ht Hl. destruct (lookup_lt_is_Some_2 ls (Z.to_nat t)) as [k Hk].
    { apply lookup_lt_Some in Hl. by rewrite <- (advances_length _ _ _ Hadv'). }
    pose proof (Hdone t k Ht Hk) as ->. pose proof (advances_done _ _ _ _ Hadv' Hk) as He. congruence.
Qed.

Lemma after_weaken m0 lists (done done' : Z -> Prop) d :
  after m0 lists done d -> (forall t, done' t -> done t) -> after m0 lists done' d.
Proof. intros (r & r' & ls & Ha & Hv & Ht & Hm & Hl) Hd. exists r, r', ls. eauto 10. Qed.

Lemma after_wait m0 lists done n d : after m0 lists done d -> after m0 lists done (Nat.iter n wait_period d).
Proof.
  intros Hd. induction n as [|n IH]; [done|]. simpl. unfold wait_period at 1. simpl.
  do 4 (eapply after_continues; [|intros ls; apply nop_runs]). exact IH.
Qed.

(** asking whether a thread is ready: if so, it is done *)
Lemma after_ready m0 lists done a t d : after m0 lists done d ->
  after m0 lists (fun u => done u \/ ((dma_thread_ready a t d).1 = true /\ u = t)) (dma_thread_ready a t d).2.
Proof.
  intros (r & r' & ls & Hadv & Hvia & Hto & Hmem & Hdone). eapply after_continues; [|intros k; apply ready_runs].
  exists r, r', ls. do 4 (split; [done|]). intros u l [Hu|[Hr ->]]; [by apply Hdone|by apply (ready_done a t d ls)].
Qed.

(** starting a thread with its moves *)
Lemma after_start m0 lists a t d ts : after m0 lists (fun _ => False) d -> 0 <= t ->
  lists !! Z.to_nat t = Some [] -> Forall (fun m => exists m', via m m') (moves ts) ->
  (forall rest, engine_run_from (program_at (regs d t).1.1) (regs d t).1.2 (regs d t).2 rest ts) ->
  after m0 (<[Z.to_nat t := moves ts]> lists) (fun _ => False) (dma_start_transfer a t d).
Proof.
  intros (r & r' & ls & Hadv & Hvia & Hto & Hmem & _) Ht Hnil Hmap Hrun.
  pose proof (advances_done _ _ _ _ Hadv Hnil) as Hls.
  destruct (start_runs a t d ls ts Hto Ht Hls Hmap Hrun) as (q & q' & ls' & Hadv' & Hvia' & Hto' & Hmem').
  pose proof (advances_later _ _ _ _ (moves ts) Hadv Hnil) as Hl.
  exists (r ++ q), (r' ++ q'), ls'. split; [by eapply advances_trans|]. split; [by apply Forall2_app|].
  split; [done|]. split; [|done]. intros x. rewrite Hmem', copy_bytes_app. by apply copy_bytes_ext.
Qed.
End test.

(** ** The loop of the test *)

Section loop.
Context {Asm : DMAAsm} {Mod : DMAModel} {Ctl : DMAControl} {Dev : DeviceState} {program_at : Z -> list Z} {via : Z * Z -> Z * Z -> Prop}.
Context {E : DMAEngine program_at via}.
#[local] Abbreviation after := (after (via := via)).
Context (DMA_ADDR THREAD_COUNT seed : Z) (source_addrs dest_addrs dma_program : list Z).
Context (set_sources : device -> device).
(** the transfers of the threads of the test; the engine has [others] more *)
Context (moved : list (list transfer)) (others : nat).

(** every thread of the test has a program that makes its transfers from its
    addresses, all of which are mapped *)
Definition substituted : Prop :=
  Z.of_nat (length moved) = THREAD_COUNT /\ forall i ts, moved !! i = Some ts ->
    exists pc sb db, dma_program !! i = Some pc /\ source_addrs !! i = Some sb /\ dest_addrs !! i = Some db
      /\ (forall rest, engine_run_from (program_at pc) sb db rest ts)
      /\ Forall (fun m => exists m', via m m') (moves ts).

(** the pass from [s] finds the last active thread ready and leaves the device as [d] *)
Definition finishes (s : state) (d : device) : Prop :=
  exists s1 t, active s = [t] /\ switch_and_wait DMA_ADDR s = Ok s1 /\ thread s1 !! 2%nat = Some t
    /\ dma_thread_ready DMA_ADDR t (dev s1) = (true, d).

Context (Hsub : substituted).

Lemma choose_threads_dev s s' : choose_threads s = Ok s' -> dev s' = dev s.
Proof.
  apply (for_up_keeps (fun _ s1 => dev s1 = dev s)); [lia|done|]. intros i s1 s2 _ Hd. unfold choose_thread.
  case_match; [done|]. destruct (myrand _) as [r nxt]. intros Hc.
  apply res_bind_Ok_inv in Hc as (t & _ & Hc). apply res_bind_Ok_inv in Hc as (ti & _ & Hc).
  apply res_bind_Ok_inv in Hc as (th & _ & [= <-]). exact Hd.
Qed.

(** *** Before the loop *)

(** the registers of thread [j] hold what is substituted for it *)
Definition loaded (d : device) (j : nat) : Prop :=
  exists pc sb db, dma_program !! j = Some pc /\ source_addrs !! j = Some sb /\ dest_addrs !! j = Some db
    /\ regs d (Z.of_nat j) = (pc, sb, db).

Lemma setup_thread_after m0 lists i s1 s2 : 0 <= i ->
  after m0 lists (fun _ => False) (dev s1) /\ (forall j : nat, Z.of_nat j < i -> loaded (dev s1) j) ->
  setup_thread DMA_ADDR source_addrs dest_addrs dma_program i s1 = Ok s2 ->
  after m0 lists (fun _ => False) (dev s2) /\ (forall j : nat, Z.of_nat j < i + 1 -> loaded (dev s2) j).
Proof.
  intros Hi [Ha Hl] Hrun. unfold setup_thread in Hrun.
  apply res_bind_Ok_inv in Hrun as (pc & Hpc & Hrun). apply res_bind_Ok_inv in Hrun as (sb & Hsb & Hrun).
  apply res_bind_Ok_inv in Hrun as (db & Hdb & Hrun). apply res_bind_Ok_inv in Hrun as (a & _ & [= <-]). cbn [dev].
  apply arr_get_inv in Hpc as [_ Hpc], Hsb as [_ Hsb], Hdb as [_ Hdb]. split.
  - eapply after_continues; [|intros ls; apply set_dest_runs].
    eapply after_continues; [|intros ls; apply set_source_runs].
    by eapply after_continues; [|intros ls; apply set_pc_runs].
  - intros j Hj. destruct (decide (j = Z.to_nat i)) as [->|Hne].
    + exists pc, sb, db. do 3 (split; [done|]). rewrite Z2Nat.id by lia.
      by rewrite regs_set_dest, regs_set_source, regs_set_pc, !decide_True.
    + destruct (Hl j) as (pc' & sb' & db' & H1 & H2 & H3 & Hr); [lia|]. exists pc', sb', db'.
      do 3 (split; [done|]). by rewrite regs_set_dest, regs_set_source, regs_set_pc, !decide_False by lia.
Qed.

(** what the threads before [i] have to move, and the rest nothing yet *)
Definition started (i : Z) : list (list (Z * Z)) :=
  take (Z.to_nat i) (moves <$> moved) ++ replicate (length moved - Z.to_nat i + others) [].

Lemma started_next i ts : 0 <= i -> moved !! Z.to_nat i = Some ts ->
  started i !! Z.to_nat i = Some [] /\ started (i + 1) = <[Z.to_nat i := moves ts]> (started i).
Proof.
  intros Hi Ht. pose proof (lookup_lt_Some _ _ _ Ht) as Hlt. unfold started.
  assert (Hlen : length (take (Z.to_nat i) (moves <$> moved)) = Z.to_nat i) by (rewrite length_take, length_fmap; lia).
  replace (length moved - Z.to_nat i + others)%nat with (S (length moved - Z.to_nat (i + 1) + others)) by lia.
  cbn [replicate]. split.
  - rewrite lookup_app_r, Hlen by lia. by rewrite Nat.sub_diag.
  - rewrite insert_app_r_alt, Hlen, Nat.sub_diag by lia. cbn [list_insert insert].
    replace (Z.to_nat (i + 1)) with (S (Z.to_nat i)) at 1 by lia.
    rewrite (take_S_r _ _ (moves ts)) by (by rewrite list_lookup_fmap, Ht). by rewrite <- app_assoc.
Qed.

Lemma start_thread_after m0 i s1 s2 : 0 <= i < THREAD_COUNT ->
  after m0 (started i) (fun _ => False) (dev s1) /\ (forall j : nat, Z.of_nat j < THREAD_COUNT -> loaded (dev s1) j) ->
  start_thread DMA_ADDR i s1 = Ok s2 ->
  after m0 (started (i + 1)) (fun _ => False) (dev s2) /\ (forall j : nat, Z.of_nat j < THREAD_COUNT -> loaded (dev s2) j).
Proof.
  intros Hi [Ha Hl] [= <-]. unfold set_dev; cbn [dev]. destruct Hsub as [Hlen Hs].
  destruct (lookup_lt_is_Some_2 moved (Z.to_nat i)) as [ts Hts]; [lia|].
  destruct (started_next i ts) as [Hnil ->]; [lia|done|]. split.
  - destruct (Hl (Z.to_nat i)) as (pc & sb & db & H1 & H2 & H3 & Hr); [lia|]. rewrite Z2Nat.id in Hr by lia.
    destruct (Hs _ _ Hts) as (pc' & sb' & db' & H1' & H2' & H3' & Hrun & Hmap). simplify_eq.
    apply after_start; [done|lia|done|done|]. by rewrite Hr.
  - intros j Hj. destruct (Hl j Hj) as (pc & sb & db & H1 & H2 & H3 & Hr). exists pc, sb, db.
    do 3 (split; [done|]). by rewrite regs_start.
Qed.

(** the threads have their transfers to make from the memory with the sources *)
Lemma prepare_after d bytes active0 index0 thread0 s0 : 0 < THREAD_COUNT ->
  sets bytes set_sources -> to_move d (replicate (length moved + others) []) ->
  prepare DMA_ADDR THREAD_COUNT seed source_addrs dest_addrs dma_program set_sources d active0 index0 thread0 = Ok s0 ->
  after (foldl upd (memory d) bytes) ((moves <$> moved) ++ replicate others []) (fun _ => False) (dev s0).
Proof.
  intros HN Hset Hidle Hrun. pose proof (proj1 Hsub) as Hlen. unfold prepare in Hrun.
  apply res_bind_Ok_inv in Hrun as (s1 & H1 & Hrun). apply res_bind_Ok_inv in Hrun as (s2 & H2 & H3).
  destruct (Hset d _ Hidle) as [Hto Hmem]. set (m0 := foldl upd (memory d) bytes) in *.
  assert (Hs1 : after m0 (started 0) (fun _ => False) (dev s1)
    /\ forall j : nat, Z.of_nat j < THREAD_COUNT -> loaded (dev s1) j).
  { eapply (for_up_keeps (fun i s => after m0 (started 0) (fun _ => False) (dev s)
      /\ forall j : nat, Z.of_nat j < i -> loaded (dev s) j)); [| | |exact H1]; [lia| |].
    - cbn [dev]. split; [|lia]. unfold started. rewrite take_0, Nat.sub_0_r.
      exists [], [], (replicate (length moved + others) []). repeat (split; [first [done|constructor]|]). done.
    - intros i sa sb Hi. apply setup_thread_after. lia. }
  rewrite <- (choose_threads_dev _ _ H2) in Hs1.
  assert (Hs3 : after m0 (started THREAD_COUNT) (fun _ => False) (dev s0)).
  { eapply (for_up_keeps (fun i s => after m0 (started i) (fun _ => False) (dev s)
      /\ forall j : nat, Z.of_nat j < THREAD_COUNT -> loaded (dev s) j)); [| | |exact H3]; [lia|done|].
    intros i sa sb Hi. by apply start_thread_after. }
  unfold started in Hs3. by rewrite take_ge, <- Hlen, Nat2Z.id, Nat.sub_diag in Hs3 by (rewrite length_fmap; lia).
Qed.

(** *** The passes *)

Lemma switch_after m0 lists done s s1 : switch_and_wait DMA_ADDR s = Ok s1 ->
  after m0 lists done (dev s) -> after m0 lists done (dev s1).
Proof.
  intros Hrun Ha. unfold switch_and_wait in Hrun.
  apply res_bind_Ok_inv in Hrun as (t0 & _ & Hrun). apply res_bind_Ok_inv in Hrun as (t1 & _ & Hrun).
  apply res_bind_Ok_inv in Hrun as (t2 & _ & Hrun). destruct (myrand (next s)) as [r nxt]. injection Hrun as <-.
  cbn [dev]. apply after_wait. do 3 (eapply after_continues; [|intros ls; apply switch_runs]). exact Ha.
Qed.

(** the threads that are no longer active have made their transfers *)
Definition settled (m0 : Z -> Z) (s : state) : Prop :=
  inv THREAD_COUNT s /\ after m0 ((moves <$> moved) ++ replicate others [])
    (fun t => 0 <= t < THREAD_COUNT /\ t ∉ active s) (dev s).

Lemma pass_after m0 s s1 t : settled m0 s -> switch_and_wait DMA_ADDR s = Ok s1 ->
  let '(b, d) := dma_thread_ready DMA_ADDR t (dev s1) in
  after m0 ((moves <$> moved) ++ replicate others [])
    (fun u => (0 <= u < THREAD_COUNT /\ u ∉ active s) \/ (b = true /\ u = t)) d.
Proof.
  intros [_ Ha] Hs. pose proof (after_ready _ _ _ DMA_ADDR t (dev s1) (switch_after _ _ _ _ _ Hs Ha)) as Hr.
  by destruct (dma_thread_ready DMA_ADDR t (dev s1)) as [b d].
Qed.

Lemma settled_switches m0 s s' : settled m0 s -> switches DMA_ADDR s s' -> settled m0 s'.
Proof.
  intros Hset Hsw. destruct Hsw as [s s' _ Hp].
  destruct (pass_cases DMA_ADDR THREAD_COUNT s (proj1 Hset)) as (s1 & t & b & d & Hs1 & _ & _ & Hr & Hb).
  pose proof (pass_after m0 s s1 t Hset Hs1) as Ha. rewrite Hr in Ha. destruct b.
  - destruct Hb as [Hb%last_pass_error|(s2 & Hb & Hi & Hperm & Hd)]; [congruence|]. assert (s2 = s') as -> by congruence.
    split; [done|]. rewrite Hd. eapply after_weaken; [exact Ha|]. intros u [Hu Hnot].
    destruct (decide (u = t)) as [->|Hne]; [by right|left]. split; [done|].
    rewrite Hperm, not_elem_of_cons. done.
  - destruct Hb as (s2 & Hb & Hi & Hact & Hd). assert (s2 = s') as -> by congruence. split; [done|].
    rewrite Hd, Hact. eapply after_weaken; [exact Ha|]. by left.
Qed.

Lemma settled_reachable m0 s0 s : settled m0 s0 -> rtc (switches DMA_ADDR) s0 s -> settled m0 s.
Proof. intros H0 Hs. induction Hs as [|s1 s2 s3 Hs _ IH]; [done|]. by apply IH, (settled_switches m0 s1). Qed.

Lemma finishes_memory m0 s d : settled m0 s -> finishes s d ->
  exists r r', interleaving (moves <$> moved) r /\ Forall2 via r r' /\ forall x, memory d x = copy_bytes r' m0 x.
Proof.
  intros Hset (s1 & t & Hact & Hs1 & _ & Hr). pose proof (pass_after m0 s s1 t Hset Hs1) as Ha. rewrite Hr in Ha.
  destruct Ha as (r & r' & ls & Hadv & Hvia & _ & Hmem & Hdone). exists r, r'. split; [|done].
  apply (interleaving_pad _ others). eapply advances_interleaving; [exact Hadv|].
  apply Forall_lookup. intros i l Hl. destruct Hsub as [Hlen _].
  destruct (decide (i < length moved)%nat) as [Hi|Hi].
  - apply (Hdone (Z.of_nat i)); [|by rewrite Nat2Z.id]. rewrite Hact, list_elem_of_singleton.
    destruct (decide (Z.of_nat i = t)); [by right|left; split; [lia|done]].
  - assert (Hnil : ((moves <$> moved) ++ replicate others []) !! i = Some []).
    { pose proof (lookup_lt_Some _ _ _ Hl) as Hlt.
      rewrite (advances_length _ _ _ Hadv), length_app, length_replicate, length_fmap in Hlt.
      rewrite lookup_app_r by (rewrite length_fmap; lia). apply lookup_replicate_2. rewrite length_fmap. lia. }
    pose proof (advances_done _ _ _ _ Hadv Hnil) as He. congruence.
Qed.

Lemma eventually_finishes `{!DMAProgress} s : inv THREAD_COUNT s ->
  exists s' d, rtc (switches DMA_ADDR) s s' /\ finishes s' d.
Proof.
  remember (remaining s) as n eqn:Hn. revert s Hn. induction (lt_wf n) as [n _ IH]. intros s -> Hi.
  destruct (pass_progress DMA_ADDR THREAD_COUNT s Hi) as [(t & (s1 & d & Hret) & [Ha _])|(s' & Hs & Hi' & Hlt & _)].
  - exists s, d. split; [done|]. by exists s1, t.
  - destruct (IH _ Hlt s' eq_refl Hi') as (s2 & d & Hrtc & Hfin). exists s2, d. split; [by apply rtc_l with s'|done].
Qed.

(** *** The whole test *)

(** [d] is the device when the loop has found every thread ready *)
Definition loop_ends (s0 : state) (d : device) : Prop :=
  exists s, rtc (switches DMA_ADDR) s0 s /\ finishes s d.

Lemma switching_ok `{!DMAProgress} d items active0 index0 thread0 :
  arrays THREAD_COUNT source_addrs dest_addrs dma_program active0 index0 thread0 ->
  sets (set_bytes items) set_sources -> to_move d (replicate (length moved + others) []) ->
  (forall r r' m, interleaving (moves <$> moved) r -> Forall2 via r r' -> multi_test_passes items r' m = true) ->
  exists s0, prepare DMA_ADDR THREAD_COUNT seed source_addrs dest_addrs dma_program set_sources d active0 index0 thread0 = Ok s0
    /\ (exists d', loop_ends s0 d') /\ forall d', loop_ends s0 d' -> asserts_hold (check_bytes items) d' = true.
Proof.
  intros Harr Hset Hidle Hpass.
  destruct (prepare_ok DMA_ADDR THREAD_COUNT seed source_addrs dest_addrs dma_program set_sources d _ _ _ Harr)
    as (s0 & Hs0 & Hi0 & Hall).
  exists s0. split; [exact Hs0|]. split.
  { destruct (eventually_finishes s0 Hi0) as (s & d' & Hs & Hfin). by exists d', s. }
  intros d' (s & Hs & Hfin). set (m0 := foldl upd (memory d) (set_bytes items)).
  assert (Hset0 : settled m0 s0).
  { split; [done|]. eapply after_weaken; [eapply prepare_after; [apply Harr|exact Hset|exact Hidle|exact Hs0]|].
    intros t [Ht Hnot]. by apply Hnot, Hall. }
  destruct (finishes_memory m0 s d') as (r & r' & Hr & Hvia & Hmem); [by eapply settled_reachable|done|].
  specialize (Hpass r r' (memory d) Hr Hvia). unfold multi_test_passes in Hpass. unfold asserts_hold.
  apply forallb_forall. rewrite forallb_forall in Hpass. intros p Hp. rewrite Hmem. by apply Hpass.
Qed.
End loop.

(** ** The generated tests *)

(** what the generators print is what the template needs *)
Lemma threads_substituted `{DMAAsm} `{DMAModel} (program_at : Z -> list Z) via count words sbs dbs
    dma_program moved :
  Z.of_nat (length words) = count -> program_at <$> dma_program = words ->
  threads_make words sbs dbs moved ->
  Forall (fun l => Forall (fun m => exists m', via m m') l) (moves <$> moved) ->
  substituted (program_at := program_at) (via := via) count sbs dbs dma_program moved.
Proof.
  intros Hc Hp [Hlen Hmake] Hmap. split; [lia|]. intros i ts Hts.
  destruct (lookup_lt_is_Some_2 words i) as [w Hw]; [apply lookup_lt_Some in Hts; lia|].
  destruct (Hmake i w Hw) as (sb & db & ts' & Hs & Hd & Hts' & Hrun). simplify_eq.
  rewrite list_lookup_fmap_Some in Hw. destruct Hw as (pc & -> & Hpc). exists pc, sb, db.
  do 4 (split; [done|]). rewrite Forall_fmap, Forall_lookup in Hmap. by apply (Hmap i).
Qed.

(** C6: the test with several threads in physical memory, generator, template and
    engine together.  For every seed and number of threads for which a test is
    printed, with the programs, addresses, assignments and assertions of the
    text substituted in the template, and on every engine that executes the
    threads it has been started on as its software model does, in any order, and
    makes progress: the loop of the test gets to where the last thread is found
    ready, and there every assertion of the text holds of the memory.  So a test
    that fails shows a fault of the engine.  (What the loop does next is
    [threads_divide_by_zero].) *)
Theorem switching_test_passes {Asm : DMAAsm} {Mod : DMAModel} tf rest0 thread_count seed h th fuel1 programs h' next lists th' :
  wf_heap h -> wf_theap th -> 0 <= thread_count < 2 ^ 31 ->
  generate_programs tf (Z.to_nat thread_count) 0 (mysrand seed) h = Ok (programs, h', next) ->
  generate_transfer_lists rest0 fuel1 0 programs th = Ok (lists, th') -> (NULL ∉ lists) ->
  exists fuel0 (words : list (list Z)) items sbs dbs,
    programs = (fun w : list Z => Some <$> w) <$> words
    /\ (forall fuel, (fuel0 <= fuel)%nat -> exists freed,
          DmaMulti.print_test_information tf rest0 fuel thread_count seed h th = Ok (items, freed))
    /\ pointers items = sbs ++ dbs /\ length sbs = length words /\ length dbs = length words
    /\ forall (Ctl : DMAControl) (Dev : DeviceState) (program_at : Z -> list Z), DMAEngine program_at eq -> DMAProgress ->
         forall addr tseed dma_program set_sources others d active0 index0 thread0,
           program_at <$> dma_program = words ->
           sets (set_bytes items) set_sources -> to_move d (replicate (length words + others) []) ->
           arrays thread_count sbs dbs dma_program active0 index0 thread0 ->
           exists s0, prepare addr thread_count tseed sbs dbs dma_program set_sources d active0 index0 thread0 = Ok s0
             /\ (exists d', loop_ends addr s0 d')
             /\ forall d', loop_ends addr s0 d' -> asserts_hold (check_bytes items) d' = true.
Proof.
  intros Hwf Hwt Hcount Hgen Hlist Hnull.
  destruct (multithread_cases tf rest0 thread_count seed h th fuel1 _ _ _ _ _ Hwf Hwt Hcount Hgen Hlist)
    as (fuel0 & [[Hin _]|(_ & words & items & sbs & dbs & moved & Hw & Hlen & Hrun & Hls & Hld & Hp & Hmake & _ & _ & Hpass)]); [done|].
  exists fuel0, words, items, sbs, dbs. split; [done|]. split.
  { intros fuel Hf. destruct (Hrun fuel Hf) as (freed & Hr & _). by exists freed. }
  do 3 (split; [done|]). intros Ctl Dev program_at E Pr addr tseed dma_program set_sources others d active0 index0 thread0 Hat Hset Hidle Harr.
  apply (switching_ok (via := eq)) with (moved := moved) (others := others); try done.
  - eapply threads_substituted; [done|exact Hat|exact Hmake|].
    apply Forall_true. intros l. apply Forall_true. eauto.
  - by rewrite (proj1 Hmake).
  - intros r r' m Hr Heq. apply list_eq_Forall2 in Heq as <-. by apply Hpass.
Qed.

(** C7: the same in virtual memory, on an engine whose addresses go through the TLB
    that the calls of [add_tlb_mapping] in the text fill, each writing an entry of its
    own: if the pages that were drawn do not overlap, no access of the engine
    misses, and when the last thread is found ready the assertions, which are about
    physical addresses, hold. *)
Theorem virtual_switching_test_passes {Asm : DMAAsm} {Mod : DMAModel} {Rnd : RandomEngine} tf rest0 thread_count seed h th programs h' next :
  wf_heap h -> wf_theap th -> 0 <= thread_count <= 6 ->
  generate_programs tf (Z.to_nat thread_count) 0 (mysrand seed) h = Ok (programs, h', next) ->
  exists fuel0 (words : list (list Z)) items sbs dbs,
    programs = (fun w : list Z => Some <$> w) <$> words
    /\ (forall fuel, (fuel0 <= fuel)%nat -> exists freed,
          print_virtualised_test_information tf rest0 fuel thread_count seed h th = Ok (items, freed))
    /\ pointers items = sbs ++ dbs /\ length sbs = length words /\ length dbs = length words
    /\ forall (Ctl : DMAControl) (Dev : DeviceState) (program_at : Z -> list Z) randoms,
         NoDup ((fun x : Z * Z * Z => x.1.1) <$> mappings_of items) ->
         NoDup ((fun x : Z * Z * Z => x.1.2) <$> mappings_of items) ->
         NoDup randoms -> length randoms = length (mappings_of items) ->
         DMAEngine program_at (reaches_move (filled_tlb (mappings_of items) randoms)) -> DMAProgress ->
         forall addr tseed dma_program set_sources others d active0 index0 thread0,
           program_at <$> dma_program = words ->
           sets (set_bytes items) set_sources -> to_move d (replicate (length words + others) []) ->
           arrays thread_count sbs dbs dma_program active0 index0 thread0 ->
           exists s0, prepare addr thread_count tseed sbs dbs dma_program set_sources d active0 index0 thread0 = Ok s0
             /\ (exists d', loop_ends addr s0 d')
             /\ forall d', loop_ends addr s0 d' -> asserts_hold (check_bytes items) d' = true.
Proof.
  intros Hwf Hwt Hcount Hgen.
  destruct (virtualised_cases tf rest0 thread_count seed h th _ _ _ Hwf Hwt Hcount Hgen)
    as (fuel0 & words & items & sbs & dbs & virt & Hw & Hlen & Hrun & Hls & Hld & Hp & Hmake & _ & Hpass).
  exists fuel0, words, items, sbs, dbs. split; [done|]. split.
  { intros fuel Hf. destruct (Hrun fuel Hf) as (freed & Hr & _). by exists freed. }
  do 3 (split; [done|]). intros Ctl Dev program_at randoms Hvn Hpn Hrand Hlr E Pr addr tseed dma_program set_sources others d
    active0 index0 thread0 Hat Hset Hidle Harr.
  destruct (Hpass Hvn Hpn randoms Hrand Hlr) as [(phys & Hreach) Hall].
  apply (switching_ok (via := reaches_move (filled_tlb (mappings_of items) randoms)))
    with (moved := virt) (others := others); try done.
  - eapply threads_substituted; [done|exact Hat|exact Hmake|].
    eapply Forall_impl; [exact (Forall2_exists _ _ _ Hreach)|]. intros l (l' & Hl). exact (Forall2_exists _ _ _ Hl).
  - by rewrite (proj1 Hmake).
Qed.

(** ** An engine that keeps the contract *)

(** A program stops in one way: two runs of it make the same transfers. *)
Lemma engine_run_det `{DMAAsm} `{DMAModel} program s d rest ts ts' :
  engine_run_from program s d rest ts -> engine_run_from program s d rest ts' -> ts = ts'.
Proof.
  assert (Hstop : forall t1 l t2 k, dmat_state t1 = DMAM_RUNNING ->
    program !! Z.to_nat (dmat_program_counter t1) = Some DMA_OP_STOP ->
    nsteps program k t1 l t2 -> dmat_state t2 = DMAM_RUNNING -> l = []).
  { intros t1 l t2 k H1 Hp Hs H2. destruct Hs as [|k t1 t3 t2 calls l _ He _ Hs]; [done|]. exfalso.
    pose proof (dma_step program t1 _ _ H1 Hp asm_stop) as Hd. rewrite He in Hd. destruct Hd as (_ & Hst & _).
    inversion Hs; subst; congruence. }
  assert (Hdet : forall n t0 l t, nsteps program n t0 l t -> forall n' l' t', nsteps program n' t0 l' t' ->
    dmat_state t = DMAM_RUNNING -> program !! Z.to_nat (dmat_program_counter t) = Some DMA_OP_STOP ->
    dmat_state t' = DMAM_RUNNING -> program !! Z.to_nat (dmat_program_counter t') = Some DMA_OP_STOP -> l = l').
  { induction 1 as [t|n t t1 t2 calls l Ht He Hc Hn IH]; intros n' l' t' Hn' Hr Hpc Hr' Hpc'.
    - symmetry. by apply (Hstop t l' t' n').
    - inversion Hn' as [|n1 t3 t4 t5 calls' l1 _ He' _ Hn1]; subst.
      + eapply (Hstop _ _ t2 (S n)); [exact Hr'|exact Hpc'|by eapply nsteps_S|exact Hr].
      + rewrite He in He'. injection He' as <- <-. f_equal. by eapply IH. }
  intros (n & t & Hn & Hr & Hpc) (n' & t' & Hn' & Hr' & Hpc'). by eapply Hdet.
Qed.

(** The engine makes the transfers of the thread it was last switched to, one byte
    in every [nop] and one when it is asked about a thread. *)
Record ideal := Ideal {
  i_memory : Z -> Z;
  i_regs : Z -> Z * Z * Z;
  i_left : list (list (Z * Z));
  i_current : Z;
}.

Section ideal.
Context {Asm : DMAAsm} {Mod : DMAModel} (rest0 : thread_rest).
(** the programs in memory, and the translation of a move *)
Context (program : Z -> prog) (translate_move : Z * Z -> option (Z * Z)) (via : Z * Z -> Z * Z -> Prop).

Definition ideal_program (pc : Z) : list Z := words_of (program pc).

Definition mapped (m : Z * Z) : bool := bool_decide (is_Some (translate_move m)).

(** one byte of the current thread *)
Definition ideal_step (d : ideal) : ideal :=
  match i_left d !! Z.to_nat (i_current d) with
  | Some (m :: l) =>
      let mem := match translate_move m with
        | Some m' => upd (i_memory d) (m'.1, i_memory d m'.2)
        | None => i_memory d
        end in
      Ideal mem (i_regs d) (<[Z.to_nat (i_current d) := l]> (i_left d)) (i_current d)
  | _ => d
  end.

Definition set_regs (t : Z) (f : Z * Z * Z -> Z * Z * Z) (d : ideal) : ideal :=
  Ideal (i_memory d) (fun u => if decide (u = t) then f (i_regs d u) else i_regs d u) (i_left d) (i_current d).

(** a thread with an address that is not mapped is not started *)
Definition ideal_start (t : Z) (d : ideal) : ideal :=
  let '(pc, src, dst) := i_regs d t in
  let l := moves (denote (program pc) src dst).2 in
  if forallb mapped l then Ideal (i_memory d) (i_regs d) (<[Z.to_nat t := l]> (i_left d)) (i_current d) else d.

Definition ideal_idle (d : ideal) (t : Z) : bool :=
  match i_left d !! Z.to_nat t with Some (_ :: _) => false | _ => true end.

#[local] Instance ideal_control : DMAControl := {
  device := ideal;
  dma_set_pc _ t p := set_regs t (fun r => (p, r.1.2, r.2));
  dma_set_source_address _ t s := set_regs t (fun r => (r.1.1, s, r.2));
  dma_set_dest_address _ t s := set_regs t (fun r => (r.1, s));
  dma_start_transfer _ t := ideal_start t;
  dma_switch_to _ _ t d := Ideal (i_memory d) (i_regs d) (i_left d) t;
  dma_thread_ready _ t d := (ideal_idle d t, ideal_step d);
  DEBUG_NOP := ideal_step;
}.

#[local] Instance ideal_device : DeviceState := {
  memory := i_memory;
  regs := i_regs;
  to_move d ls := i_left d = ls /\ Forall (Forall mapped) ls;
}.

(** the bytes a thread has left *)
Definition ideal_work (d : ideal) (t : Z) : nat := length (default [] (i_left d !! Z.to_nat t)).

Lemma ideal_step_work d u :
  ideal_work (ideal_step d) u =
    if decide (Z.to_nat u = Z.to_nat (i_current d)) then Nat.pred (ideal_work d u) else ideal_work d u.
Proof.
  unfold ideal_work, ideal_step. destruct (i_left d !! Z.to_nat (i_current d)) as [[|m l]|] eqn:Hl; cbn [i_left];
    case_decide as Hu; rewrite ?Hu, ?Hl; try done.
  - rewrite list_lookup_insert_eq; [done|]. by apply lookup_lt_Some in Hl.
  - by rewrite list_lookup_insert_ne.
Qed.

#[local, refine] Instance ideal_progress : DMAProgress := { work := ideal_work; current := i_current }.
Proof.
  - done.
  - done.
  - intros d u. simpl. rewrite ideal_step_work. case_decide; lia.
  - intros d. simpl. unfold ideal_step. by repeat case_match.
  - intros a t d u. simpl. rewrite ideal_step_work. case_decide; lia.
  - intros a t d <-. simpl. rewrite ideal_step_work, decide_True by done. unfold ideal_work, ideal_idle.
    destruct (i_left d !! _) as [[|m l]|]; simpl; [by left|right; lia|by left].
Defined.

Lemma continues_refl d d' ls : i_memory d' = i_memory d -> to_move d' ls -> continues via d ls d'.
Proof. intros Hm Hto. exists [], [], ls. split; [constructor|]. split; [done|]. split; [done|]. intros x. cbn. by rewrite Hm. Qed.

(** [translate_move] is [via] *)
Context (translate_sound : forall m m', translate_move m = Some m' -> via m m').
Context (translate_complete : forall m m', via m m' -> is_Some (translate_move m)).

Lemma ideal_step_continues d ls : to_move d ls -> continues via d ls (ideal_step d).
Proof.
  intros [Hl Hall]. unfold ideal_step. rewrite Hl. destruct (ls !! Z.to_nat (i_current d)) as [[|m l]|] eqn:Ht.
  1,3: by apply continues_refl.
  assert (Hm : Forall mapped (m :: l)) by (rewrite Forall_lookup in Hall; by eapply Hall).
  apply Forall_cons in Hm as [Hm Hmore]. apply bool_decide_unpack in Hm as [m' Hm].
  exists [m], [m'], (<[Z.to_nat (i_current d) := l]> ls). split; [by eapply advances_one; [|constructor]|].
  split; [constructor; [by apply translate_sound|constructor]|]. split; [split; [done|by apply Forall_insert]|].
  intros x. cbn. by rewrite Hm.
Qed.

#[local, refine] Instance ideal_engine (valid_programs : forall pc, valid 0 (program pc)) :
  DMAEngine ideal_program via := {}.
Proof.
  all: try (intros; by apply continues_refl).
  - apply ideal_step_continues.
  - intros a t d ls. apply ideal_step_continues.
  - intros a t d ls l [Hl _] Hr Ht. simpl in Hr. unfold ideal_idle in Hr. rewrite Hl, Ht in Hr. by destruct l.
  - intros a t d ls ts [Hl Hall] Ht Hnil Hmap Hrun. simpl in *. unfold ideal_start, ideal_program in *.
    destruct (i_regs d t) as [[pc src] dst]. cbn [fst snd] in Hrun.
    rewrite <- (engine_run_det _ _ _ _ _ _ (Hrun rest0) (engine_runs_code _ _ _ rest0 (valid_programs pc))).
    assert (Hm : Forall mapped (moves ts)).
    { eapply Forall_impl; [exact Hmap|]. intros m (m' & Hm). apply bool_decide_pack. by eapply translate_complete. }
    assert (forallb mapped (moves ts) = true) as -> by by apply Is_true_true, forallb_True. apply continues_refl; [done|]. split; [by rewrite <- Hl|].
    by apply Forall_insert.
  - done.
  - done.
  - done.
  - intros a t d u. simpl. unfold ideal_start. destruct (i_regs d t) as [[pc src] dst]. by case_match.
Defined.
End ideal.

(** *** Addresses that go through a TLB *)

Section tlb.
Context (c : cp0).

Definition through_tlb (va : Z) : option Z :=
  head (omap (fun x : Z * tlb_entry =>
    if writable x.2 va then Z.add 0x9000000000000000 <$> translate x.2 va else None) (map_to_list (tlb c))).

Definition move_through_tlb (m : Z * Z) : option (Z * Z) :=
  d ← through_tlb m.1; s ← through_tlb m.2; Some (d, s).

Lemma through_tlb_sound va w : through_tlb va = Some w -> reaches c va w.
Proof.
  intros Hw%head_Some_elem_of. apply list_elem_of_omap in Hw as ([r e] & Hin & He). cbn [snd] in He.
  destruct (writable e va) eqn:Hwr; [|done]. apply fmap_Some in He as (pa & Hpa & ->).
  exists r, e, pa. split; [by apply elem_of_map_to_list|done].
Qed.

Lemma through_tlb_complete va w : reaches c va w -> is_Some (through_tlb va).
Proof.
  intros (r & e & pa & He & Hpa & Hwr & ->). unfold through_tlb. apply head_is_Some. intros Hnil.
  apply elem_of_map_to_list in He. eapply not_elem_of_nil. rewrite <- Hnil. apply list_elem_of_omap.
  exists (r, e). split; [exact He|]. cbn [snd]. by rewrite Hwr, Hpa.
Qed.

Lemma move_through_tlb_sound m m' : move_through_tlb m = Some m' -> reaches_move c m m'.
Proof.
  unfold move_through_tlb. intros (d & Hd & Hs)%bind_Some. apply bind_Some in Hs as (s & Hs & [= <-]).
  split; by apply through_tlb_sound.
Qed.

Lemma move_through_tlb_complete m m' : reaches_move c m m' -> is_Some (move_through_tlb m).
Proof.
  intros [[d Hd]%through_tlb_complete [s Hs]%through_tlb_complete]. unfold move_through_tlb. rewrite Hd, Hs. by eexists.
Qed.
End tlb.

(** *** The tests of a seed, run by the engine *)

(** the programs of the threads for seed 4 *)
Definition ex_prog0 : prog :=
  foldr PSeq (PLoop 3 (PAdd 0 320))
    [PAdd 2 576; PTransfer 5; PAdd 0 384; PTransfer 5; PTransfer 5; PLoop 1 (PLoop 1 (PAdd 1 288)); PAdd 0 544].
Definition ex_prog1 : prog :=
  foldr PSeq (PAdd 2 48)
    [PLoop 3 (PTransfer 4); PLoop 4 (PTransfer 4); PLoop 2 (PAdd 1 0); PLoop 4 (PAdd 2 288); PTransfer 4].
Definition ex_prog (pc : Z) : prog := if pc =? 0x1000 then ex_prog0 else ex_prog1.
Definition ex_pcs : list Z := [0x1000; 0x2000].

Lemma ex_prog_valid pc : valid 0 (ex_prog pc).
Proof. unfold ex_prog. case_match; simpl; unfold is_reg, is_value, is_size, is_target; lia. Qed.

Lemma ex_prog_words (words : list (list Z)) : (ex_programs 4).1.1 = (fun w : list Z => Some <$> w) <$> words ->
  ideal_program ex_prog <$> ex_pcs = words.
Proof.
  intros Hw. assert (Hi : Inj (=) (=) (fmap (fun w : list Z => Some <$> w) : list (list Z) -> _)) by apply _.
  apply Hi. rewrite <- Hw. by vm_compute.
Qed.

Definition ex_device : ideal := Ideal (fun a => a mod 251) (fun _ => (0, 0, 0)) (replicate 4 []) 0.

(** the processor's assignments *)
Definition ideal_sets (bytes : list (Z * Z)) (d : ideal) : ideal :=
  Ideal (foldl upd (i_memory d) bytes) (i_regs d) (i_left d) (i_current d).

Lemma ideal_sets_ok program translate_move bytes :
  sets (H := ideal_control program translate_move)
    (H0 := ideal_device program translate_move) bytes (ideal_sets bytes).
Proof. by intros d ls. Qed.

Lemma switching_test_passes_witness :
  exists sbs dbs s0,
    pointers ex_text = sbs ++ dbs /\ length (check_bytes ex_text) = 256%nat
    /\ let Ctl := ideal_control ex_prog Some in
       let Dev := ideal_device ex_prog Some in
       prepare 0 2 1 sbs dbs ex_pcs (ideal_sets (set_bytes ex_text)) ex_device [7; 7] [8; 8; 8] [9; 9; 9] = Ok s0
       /\ (exists d', loop_ends 0 s0 d') /\ forall d', loop_ends 0 s0 d' -> asserts_hold (check_bytes ex_text) d' = true.
Proof.
  assert (Hwf : wf_heap empty_heap) by (intros a Ha; reflexivity).
  assert (Hwt : wf_theap empty_theap) by (split; reflexivity).
  destruct (@switching_test_passes asm_plain model_plain true ex_rest 2 4 empty_heap empty_theap 200 (ex_programs 4).1.1
    (ex_programs 4).1.2 (ex_programs 4).2 (ex_lists 4).1 (ex_lists 4).2
    Hwf Hwt ltac:(lia) ltac:(vm_compute; reflexivity) ltac:(vm_compute; reflexivity))
    as (fuel0 & words & items & sbs & dbs & Hw & Hrun & Hp & Hls & Hld & Hpass).
  { vm_compute (ex_lists 4).1. set_solver by lia. }
  assert (items = ex_text) as -> by by apply (ex_text_enough fuel0).
  apply ex_prog_words in Hw. assert (Hlen : length words = 2%nat) by (by rewrite <- Hw).
  destruct (Hpass (ideal_control ex_prog Some) (ideal_device ex_prog Some) (ideal_program ex_prog)) with
    (addr := 0) (tseed := 1) (dma_program := ex_pcs) (set_sources := ideal_sets (set_bytes ex_text)) (others := 2%nat)
    (d := ex_device) (active0 := [7; 7]) (index0 := [8; 8; 8]) (thread0 := [9; 9; 9]) as (s0 & Hs0 & Hend & Hall).
  - apply (ideal_engine (ex_rest 0)); [congruence|by eexists|exact ex_prog_valid].
  - apply ideal_progress.
  - exact Hw.
  - apply ideal_sets_ok.
  - rewrite Hlen. split; [done|]. repeat constructor.
  - split; rewrite ?Hls, ?Hld, ?Hlen; done.
  - exists sbs, dbs, s0. split; [exact Hp|]. split; [by vm_compute|].
    split; [exact Hs0|split; [exact Hend|exact Hall]].
Defined.

Lemma virtual_switching_test_passes_witness :
  exists sbs dbs s0,
    pointers (ex_virt_text 4) = sbs ++ dbs /\ length (check_bytes (ex_virt_text 4)) = 256%nat
    /\ let mappings := mappings_of (ex_virt_text 4) in
       let tlb := filled_tlb mappings (seqZ 0 (Z.of_nat (length mappings))) in
       let Ctl := ideal_control ex_prog (move_through_tlb tlb) in
       let Dev := ideal_device ex_prog (move_through_tlb tlb) in
       prepare 0 2 1 sbs dbs ex_pcs (ideal_sets (set_bytes (ex_virt_text 4))) ex_device [7; 7] [8; 8; 8] [9; 9; 9] = Ok s0
       /\ (exists d', loop_ends 0 s0 d')
       /\ forall d', loop_ends 0 s0 d' -> asserts_hold (check_bytes (ex_virt_text 4)) d' = true.
Proof.
  assert (Hwf : wf_heap empty_heap) by (intros a Ha; reflexivity).
  assert (Hwt : wf_theap empty_theap) by (split; reflexivity).
  destruct (@virtual_switching_test_passes asm_plain model_plain counter_engine true ex_rest 2 4 empty_heap empty_theap
    (ex_programs 4).1.1 (ex_programs 4).1.2 (ex_programs 4).2 Hwf Hwt ltac:(lia) ltac:(vm_compute; reflexivity))
    as (fuel0 & words & items & sbs & dbs & Hw & Hrun & Hp & Hls & Hld & Hpass).
  assert (items = ex_virt_text 4) as -> by (apply (ex_virt_text_enough 4 fuel0); [by vm_compute|done]).
  assert (Hd : pages_differ (ex_virt_text 4)) by (apply (bool_decide_unpack _); vm_compute; exact I).
  apply ex_prog_words in Hw. assert (Hlen : length words = 2%nat) by (by rewrite <- Hw).
  set (mappings := mappings_of (ex_virt_text 4)) in *.
  set (tlb := filled_tlb mappings (seqZ 0 (Z.of_nat (length mappings)))).
  destruct (Hpass (ideal_control ex_prog (move_through_tlb tlb)) (ideal_device ex_prog (move_through_tlb tlb))
    (ideal_program ex_prog) (seqZ 0 (Z.of_nat (length mappings)))) with
    (addr := 0) (tseed := 1) (dma_program := ex_pcs) (set_sources := ideal_sets (set_bytes (ex_virt_text 4)))
    (others := 2%nat) (d := ex_device) (active0 := [7; 7]) (index0 := [8; 8; 8]) (thread0 := [9; 9; 9])
    as (s0 & Hs0 & Hend & Hall).
  - apply Hd.
  - apply Hd.
  - apply NoDup_seqZ.
  - rewrite length_seqZ. lia.
  - apply (ideal_engine (ex_rest 0)); [apply move_through_tlb_sound|apply move_through_tlb_complete|exact ex_prog_valid].
  - apply ideal_progress.
  - exact Hw.
  - apply ideal_sets_ok.
  - rewrite Hlen. split; [done|]. repeat constructor.
  - split; rewrite ?Hls, ?Hld, ?Hlen; done.
  - exists sbs, dbs, s0. split; [exact Hp|]. split; [by vm_compute|].
    split; [exact Hs0|split; [exact Hend|exact Hall]].
Defined.
