(* ===== verification/CStdio.v ===== *)
(** * CStdio: the C strings and streams the tools use.

    Characters are [ascii]; a C string is the list of its characters without
    the terminating NUL, and a buffer is a list of characters in which strings
    end at a NUL.  The functions follow the C standard: comparison and search,
    conversion from and to numbers, [fgets] and the conversions of [printf]. *)

From S2P Require Import Prelude.
From Stdlib Require Export Ascii.

Abbreviation chars := (list ascii).

(** the characters of a literal *)
Definition lit (s : String.string) : chars := String.list_ascii_of_string s.

Definition NUL : ascii := "000"%char.
Definition newline : ascii := "010"%char.
Definition space : ascii := " "%char.

Definition code_of (c : ascii) : Z := Z.of_nat (nat_of_ascii c).

(** ** Buffers *)

(** the string that starts at the head of a buffer *)
Fixpoint c_string (buf : chars) : res chars :=
  match buf with
  | [] => Err EUndef
  | c :: buf' => if ascii_dec c NUL then Ok [] else let* s := c_string buf' in Ok (c :: s)
  end.

(** a string without NUL, and it followed by whatever the buffer holds *)
Definition no_nul (s : chars) : Prop := Forall (fun c => c <> NUL) s.

Lemma c_string_app s rest : no_nul s -> c_string (s ++ NUL :: rest) = Ok s.
Proof.
  induction s as [|c s IH]; intros Hs; simpl; [done|].
  apply Forall_cons in Hs as [Hc Hs]. destruct (ascii_dec c NUL); [done|]. by rewrite IH.
Qed.

(** ** [fgets]: one line, or as much of it as fits *)

Fixpoint fgets_chars (n : nat) (input : chars) : chars * chars :=
  match n with
  | O => ([], input)
  | S n' =>
      match input with
      | [] => ([], [])
      | c :: input' =>
          if ascii_dec c newline then ([c], input')
          else let '(line, rest) := fgets_chars n' input' in (c :: line, rest)
      end
  end.

(** [fgets(buff, size, stdin)]: [None] at the end of the input; otherwise the
    line and a NUL are stored, and the rest of the buffer is kept *)
Definition fgets (size : nat) (buff : chars) (input : chars) : option (chars * chars) :=
  match input with
  | [] => None
  | _ =>
      let '(line, rest) := fgets_chars (size - 1) input in
      Some (line ++ NUL :: drop (S (length line)) buff, rest)
  end.

Lemma fgets_chars_length n input : let '(line, rest) := fgets_chars n input in
  line ++ rest = input /\ (length line <= n)%nat.
Proof.
  revert input; induction n as [|n IH]; intros [|c input]; simpl; try (split; [done|lia]).
  destruct (ascii_dec c newline); [simpl; split; [done|lia]|].
  specialize (IH input). destruct (fgets_chars n input) as [line rest]. destruct IH as [<- Hl].
  simpl. split; [done|lia].
Qed.

(** a line that fits is read whole *)
Lemma fgets_line n s rest :
  newline ∉ s -> (length s < n)%nat -> fgets_chars n (s ++ newline :: rest) = (s ++ [newline], rest).
Proof.
  revert n; induction s as [|c s IH]; intros n Hn Hl; (destruct n as [|n]; [simpl in Hl; lia|]); simpl.
  - done.
  - destruct (ascii_dec c newline); [set_solver|].
    rewrite IH; [done|set_solver|simpl in Hl; lia].
Qed.

(** ** Comparison and search *)

(** [strncmp(a, b, n) == 0] *)
Fixpoint strncmp_eq (n : nat) (a b : chars) : bool :=
  match n with
  | O => true
  | S n' =>
      match a, b with
      | [], [] => true
      | x :: a', y :: b' => (if ascii_dec x y then true else false) && strncmp_eq n' a' b'
      | _, _ => false
      end
  end.

(** [strcmp(a, b) == 0] *)
Definition strcmp_eq (a b : chars) : bool := bool_decide (a = b).

(** [strstr(a, b)]: the suffix of [a] from the first occurrence of [b] *)
Fixpoint strstr (a b : chars) : option chars :=
  if strncmp_eq (length b) a b then Some a
  else match a with
       | [] => None
       | _ :: a' => strstr a' b
       end.

(** [rindex(a, c)]: the suffix of [a] from the last [c] *)
Fixpoint rindex (a : chars) (c : ascii) : option chars :=
  match a with
  | [] => None
  | x :: a' =>
      match rindex a' c with
      | Some r => Some r
      | None => if ascii_dec x c then Some a else None
      end
  end.

Lemma strncmp_eq_spec a b : strncmp_eq (length b) a b = true <-> exists r, a = b ++ r.
Proof.
  revert a; induction b as [|y b IH]; intros a; simpl.
  - split; [by exists a|done].
  - destruct a as [|x a]; [split; [done|by intros (? & ?)]|].
    destruct (ascii_dec x y) as [->|Hne]; simpl.
    + rewrite IH. split; intros (r & Hr); exists r; [by f_equal|by injection Hr].
    + split; [done|]. intros (r & [= ? ?]). done.
Qed.

Lemma strncmp_eq_app b r : strncmp_eq (length b) (b ++ r) b = true.
Proof. apply strncmp_eq_spec. by exists r. Qed.

Lemma strncmp_eq_length a b r :
  length a = length b -> strncmp_eq (length b) (a ++ r) b = true -> a = b.
Proof.
  intros Hl (q & Hq)%strncmp_eq_spec. by apply app_inj_1 in Hq as [-> _].
Qed.

Lemma strstr_Some a b r : strstr a b = Some r -> exists p q, a = p ++ r /\ r = b ++ q.
Proof.
  induction a as [|x a IH]; simpl; destruct (strncmp_eq _ _ _) eqn:E; try done.
  - intros [= <-]. apply strncmp_eq_spec in E as (q & ->). by exists [], q.
  - intros [= <-]. apply strncmp_eq_spec in E as (q & ->). by exists [], q.
  - intros (p & q & -> & ->)%IH. by exists (x :: p), q.
Qed.

Lemma strstr_None a b : strstr a b = None <-> ~ exists p q, a = p ++ b ++ q.
Proof.
  split.
  - intros H (p & q & ->). induction p as [|x p IH]; simpl in H.
    + destruct b; simpl in H; [by destruct q|].
      destruct (ascii_dec a a); [|done]. simpl in H. by rewrite strncmp_eq_app in H.
    + destruct (strncmp_eq _ _ _); [done|]. auto.
  - induction a as [|x a IH]; simpl; intros H; destruct (strncmp_eq _ _ _) eqn:E; try done.
    + apply strncmp_eq_spec in E as (q & Hq). destruct H. exists [], q. done.
    + apply strncmp_eq_spec in E as (q & Hq). destruct H. exists [], q. done.
    + apply IH. intros (p & q & ->). apply H. by exists (x :: p), q.
Qed.

Lemma rindex_None a c : rindex a c = None <-> c ∉ a.
Proof.
  induction a as [|x a IH]; simpl; [split; [intros _; apply not_elem_of_nil|done]|].
  destruct (rindex a c).
  - split; [done|]. intros Hn. destruct (proj2 IH); [set_solver|done].
  - destruct (ascii_dec x c) as [->|Hne]; [split; [done|set_solver]|].
    split; [|done]. intros _. apply not_elem_of_cons. split; [done|by apply IH].
Qed.

Lemma rindex_app a c b : c ∉ b -> rindex (a ++ c :: b) c = Some (c :: b).
Proof.
  intros Hb. induction a as [|x a IH]; simpl.
  - rewrite (proj2 (rindex_None b c) Hb). by destruct (ascii_dec c c).
  - by rewrite IH.
Qed.

(** ** Numbers *)

Definition digit_char (d : Z) : ascii :=
  ascii_of_nat (Z.to_nat (if d <? 10 then 48 + d else 87 + d)).

Definition digit_val (c : ascii) : option Z :=
  let n := code_of c in
  if (48 <=? n) && (n <=? 57) then Some (n - 48)
  else if (97 <=? n) && (n <=? 122) then Some (n - 87)
  else if (65 <=? n) && (n <=? 90) then Some (n - 55)
  else None.

(** the digit [c] stands for in a base *)
Definition digit_in (base : Z) (c : ascii) : option Z :=
  match digit_val c with
  | Some d => if d <? base then Some d else None
  | None => None
  end.

(** the digits at the head of a string, as a number *)
Fixpoint digits_value (base acc : Z) (s : chars) : Z :=
  match s with
  | [] => acc
  | c :: s' =>
      match digit_in base c with
      | Some d => digits_value base (acc * base + d) s'
      | None => acc
      end
  end.

Definition is_space (c : ascii) : bool :=
  let n := code_of c in (n =? 32) || ((9 <=? n) && (n <=? 13)).

Fixpoint skip_spaces (s : chars) : chars :=
  match s with
  | c :: s' => if is_space c then skip_spaces s' else s
  | [] => []
  end.

Definition take_sign (s : chars) : bool * chars :=
  match s with
  | c :: s' =>
      if ascii_dec c "-"%char then (true, s')
      else if ascii_dec c "+"%char then (false, s') else (false, s)
  | [] => (false, [])
  end.

Definition drop_0x (s : chars) : option chars :=
  match s with
  | c :: d :: s' =>
      if ascii_dec c "0"%char then
        if ascii_dec d "x"%char then Some s' else if ascii_dec d "X"%char then Some s' else None
      else None
  | _ => None
  end.

(** sign and magnitude; base 0 takes the base from the prefix *)
Definition parse_number (base : Z) (s : chars) : bool * Z :=
  let '(neg, s) := take_sign (skip_spaces s) in
  let v :=
    if base =? 0 then
      match drop_0x s with
      | Some s' => digits_value 16 0 s'
      | None =>
          match s with
          | c :: _ => digits_value (if ascii_dec c "0"%char then 8 else 10) 0 s
          | [] => 0
          end
      end
    else if base =? 16 then digits_value 16 0 (default s (drop_0x s))
    else digits_value base 0 s
  in (neg, v).

Definition strtol (base : Z) (s : chars) : Z :=
  let '(neg, v) := parse_number base s in
  let v := if neg : bool then - v else v in
  Z.max (- 2 ^ 63) (Z.min (2 ^ 63 - 1) v).

Definition strtoull (base : Z) (s : chars) : Z :=
  let '(neg, v) := parse_number base s in
  if 2 ^ 64 <=? v then 2 ^ 64 - 1 else if neg : bool then u64 (- v) else v.

(** [int x = strtol(...)], and [atoi] *)
Definition to_int (v : Z) : Z := sgn 32 v.
Definition atoi (s : chars) : Z := to_int (strtol 10 s).

(** most significant digit first *)
Fixpoint digits_of (fuel : nat) (base z : Z) (acc : list Z) : list Z :=
  match fuel with
  | O => acc
  | S fuel' =>
      let acc := z mod base :: acc in
      if z / base =? 0 then acc else digits_of fuel' base (z / base) acc
  end.

Definition printf_u (base z : Z) : chars :=
  digit_char <$> digits_of (S (Z.to_nat (Z.log2 z))) base z [].

(** "%d" *)
Definition printf_d (z : Z) : chars :=
  if z <? 0 then "-"%char :: printf_u 10 (- z) else printf_u 10 z.

(** a minimum width *)
Definition pad (c : ascii) (width : nat) (s : chars) : chars := replicate (width - length s) c ++ s.

(** "%2d" and "%016llx" *)
Definition printf_2d (z : Z) : chars := pad space 2 (printf_d z).
Definition printf_016x (z : Z) : chars := pad "0"%char 16 (printf_u 16 z).

(** *** Printing and reading back *)

Lemma digit_round base d : 0 <= d < base -> base <= 36 -> digit_in base (digit_char d) = Some d.
Proof.
  intros Hd Hb. unfold digit_in, digit_val, digit_char, code_of.
  rewrite nat_ascii_embedding by (case_match; lia).
  destruct (d <? 10) eqn:E; rewrite ?Z.ltb_lt, ?Z.ltb_ge in E; rewrite Z2Nat.id by lia.
  - rewrite !(proj2 (Z.leb_le _ _)) by lia. simpl. replace (48 + d - 48) with d by lia.
    by rewrite (proj2 (Z.ltb_lt _ _)) by lia.
  - rewrite (proj2 (Z.leb_le 48 _)), (proj2 (Z.leb_gt (87 + d) 57)) by lia. simpl.
    rewrite !(proj2 (Z.leb_le _ _)) by lia. simpl. replace (87 + d - 87) with d by lia.
    by rewrite (proj2 (Z.ltb_lt _ _)) by lia.
Qed.

(** a string that does not start with a digit of the base *)
Definition no_digit (base : Z) (s : chars) : Prop :=
  match s with [] => True | c :: _ => digit_in base c = None end.

Lemma digits_value_stop base acc s : no_digit base s -> digits_value base acc s = acc.
Proof. destruct s as [|c s]; simpl; [done|]. by intros ->. Qed.

Lemma digits_value_digits base ds : 1 < base <= 36 -> Forall (fun d => 0 <= d < base) ds ->
  forall acc s, no_digit base s ->
  digits_value base acc ((digit_char <$> ds) ++ s) = foldl (fun a d => a * base + d) acc ds.
Proof.
  intros Hb. induction 1 as [|d ds Hd Hds IH]; intros acc s Hs; cbn [fmap list_fmap app digits_value foldl].
  - by apply digits_value_stop.
  - rewrite digit_round by lia. by apply IH.
Qed.

Lemma digits_of_spec base fuel : forall z acc, 1 < base -> 0 <= z < 2 ^ Z.of_nat fuel ->
  Forall (fun d => 0 <= d < base) acc ->
  Forall (fun d => 0 <= d < base) (digits_of fuel base z acc)
  /\ foldl (fun a d => a * base + d) 0 (digits_of fuel base z acc)
     = foldl (fun a d => a * base + d) z acc.
Proof.
  induction fuel as [|fuel IH]; intros z acc Hb Hz Hacc; cbn [digits_of].
  - assert (z = 0) as -> by (simpl in Hz; lia). done.
  - assert (Hm : 0 <= z mod base < base) by (apply Z.mod_pos_bound; lia).
    pose proof (Z.div_mod z base ltac:(lia)) as Hdm.
    assert (Hacc' : Forall (fun d => 0 <= d < base) (z mod base :: acc)) by (by constructor).
    destruct (z / base =? 0) eqn:E; rewrite ?Z.eqb_eq, ?Z.eqb_neq in E.
    + split; [done|]. cbn [foldl]. f_equal. lia.
    + assert (0 <= z / base) by (apply Z.div_pos; lia).
      assert (z / base < 2 ^ Z.of_nat fuel).
      { apply Z.div_lt_upper_bound; [lia|]. rewrite Nat2Z.inj_succ, Z.pow_succ_r in Hz by lia. nia. }
      destruct (IH (z / base) (z mod base :: acc) Hb) as [H1 H2]; [lia|done|].
      split; [done|]. rewrite H2. cbn [foldl]. f_equal. lia.
Qed.

Lemma log2_fuel z : 0 <= z -> z < 2 ^ Z.of_nat (S (Z.to_nat (Z.log2 z))).
Proof.
  intros Hz. rewrite Nat2Z.inj_succ, Z2Nat.id by apply Z.log2_nonneg.
  destruct (decide (z = 0)) as [->|]; [done|]. apply Z.log2_spec. lia.
Qed.

(** reading back what was printed, with or without leading zeros *)
Lemma digits_value_printf base z s : 1 < base <= 36 -> 0 <= z -> no_digit base s ->
  digits_value base 0 (printf_u base z ++ s) = z.
Proof.
  intros Hb Hz Hs. unfold printf_u.
  destruct (digits_of_spec base (S (Z.to_nat (Z.log2 z))) z []) as [H1 H2];
    [lia|pose proof (log2_fuel z Hz); lia|constructor|].
  by rewrite digits_value_digits, H2.
Qed.

Lemma digits_value_zeros base n s : 0 < base ->
  digits_value base 0 (replicate n "0"%char ++ s) = digits_value base 0 s.
Proof.
  intros Hb. induction n as [|n IH]; [done|]. cbn [replicate app digits_value].
  unfold digit_in at 1. change (digit_val "0"%char) with (Some 0). cbv beta iota.
  rewrite (proj2 (Z.ltb_lt 0 base)) by done.
  by rewrite Z.mul_0_l.
Qed.

Lemma digits_value_padded base n z s : 1 < base <= 36 -> 0 <= z -> no_digit base s ->
  digits_value base 0 (pad "0"%char n (printf_u base z) ++ s) = z.
Proof.
  intros Hb Hz Hs. unfold pad. rewrite <- app_assoc, digits_value_zeros by lia. by apply digits_value_printf.
Qed.

(** *** Strings of digits are not mistaken for spaces, signs or a prefix *)

Definition is_digit16 (c : ascii) : Prop := exists d, digit_in 16 c = Some d.

Lemma digit16_plain c : is_digit16 c ->
  is_space c = false /\ c <> "-"%char /\ c <> "+"%char /\ c <> "x"%char /\ c <> "X"%char
  /\ c <> NUL /\ c <> newline.
Proof.
  intros [d Hd].
  destruct c as [[] [] [] [] [] [] [] []]; vm_compute in Hd; try discriminate Hd;
    (split; [reflexivity|]; repeat split; discriminate).
Qed.

Lemma digits16 ds : Forall (fun d => 0 <= d < 16) ds -> Forall is_digit16 (digit_char <$> ds).
Proof.
  intros H. apply Forall_fmap. eapply Forall_impl; [exact H|].
  intros d Hd. exists d. by apply digit_round.
Qed.

Lemma printf_u16_digits z : 0 <= z -> Forall is_digit16 (printf_u 16 z).
Proof.
  intros Hz. apply digits16, digits_of_spec; [lia|pose proof (log2_fuel z Hz); lia|constructor].
Qed.

Lemma printf_016x_digits z : 0 <= z -> Forall is_digit16 (printf_016x z).
Proof.
  intros Hz. apply Forall_app. split; [|by apply printf_u16_digits].
  apply Forall_replicate. by exists 0.
Qed.

Lemma length_printf_016x z : (16 <= length (printf_016x z))%nat.
Proof. unfold printf_016x, pad. rewrite length_app, length_replicate. lia. Qed.

Lemma strtoull_016x z s :
  0 <= z < 2 ^ 64 -> no_digit 16 s -> strtoull 16 (printf_016x z ++ s) = z.
Proof.
  intros Hz Hs.
  assert (Hv : digits_value 16 0 (printf_016x z ++ s) = z) by (apply digits_value_padded; [lia|lia|done]).
  pose proof (printf_016x_digits z ltac:(lia)) as Hd. pose proof (length_printf_016x z) as Hl.
  destruct (printf_016x z) as [|c [|c' r]]; [simpl in Hl; lia..|].
  apply Forall_cons in Hd as [Hc Hd]. apply Forall_cons in Hd as [Hc' _].
  destruct (digit16_plain c Hc) as (H1 & H2 & H3 & _).
  destruct (digit16_plain c' Hc') as (_ & _ & _ & H4 & H5 & _).
  unfold strtoull, parse_number. cbn [app skip_spaces] in *. rewrite H1. cbn [take_sign].
  destruct (ascii_dec c "-"); [done|]. destruct (ascii_dec c "+"); [done|].
  cbn [Z.eqb]. cbn [drop_0x].
  assert (Hdrop : (if ascii_dec c "0" then if ascii_dec c' "x" then Some (r ++ s)
     else if ascii_dec c' "X" then Some (r ++ s) else None else None) = None).
  { destruct (ascii_dec c "0"); [|done]. destruct (ascii_dec c' "x"); [done|].
    by destruct (ascii_dec c' "X"). }
  rewrite Hdrop. cbv beta iota zeta.
  change (default _ None) with (c :: c' :: r ++ s).
  rewrite Hv. change (if (16 =? 16)%positive then z else z) with z. by rewrite (proj2 (Z.leb_gt _ _)) by lia.
Qed.
