(* ===== verification/DmaMain.v ===== *)
(** * DmaMain: the programs that generate the tests.

    [main] of [fuzz_dma/generate_dma_test.c]: a test for one seed, or a line for
    every seed of a range; and [main] of [generate_multithread_dma_test.cpp]: a
    line for every number of threads and every seed of two ranges. *)

From S2P Require Import Prelude CStdio DmaEngine DmaGen DmaProgram DmaTransfers DmaMulti DmaVirt DmaTest.

Inductive main_output :=
  | Test (items : list item)
  | NewLine
  | InvalidArguments (n : Z).        (* "Invalid number of arguments: %d. Expected 1.\n" *)

Section main.
Context `{DMAAsm} `{DMAModel}.
Context (target_first : bool) (fuel : nat) (rest0 : thread_rest).

(** [for (int i = lower; i <= upper; ++i)], with [n] iterations to come; the seed
    is converted to [unsigned] *)
Fixpoint print_seeds (n : nat) (i : Z) : res (list main_output) :=
  match n with
  | O => Ok []
  | S n' =>
      let* items := print_test_information target_first fuel rest0 (u32 i) in
      let* i := int_incr i in
      let* rest := print_seeds n' i in
      Ok (Test items :: NewLine :: rest)
  end.

(** what is printed; the program returns 0 *)
Definition generate_dma_test_main (argv : list chars) : res (list main_output) :=
  match argv with
  | [_; seed] =>
      let* items := print_test_information target_first fuel rest0 (u32 (atoi seed)) in
      Ok [Test items]
  | [_; lower; upper] =>
      let lower := atoi lower in
      let upper := atoi upper in
      print_seeds (Z.to_nat (upper - lower + 1)) lower
  | _ => Ok [InvalidArguments (sgn 32 (Z.of_nat (length argv)) - 1)]
  end.
End main.

(** ** [main] of generate_multithread_dma_test.cpp *)

Inductive multi_output :=
  | MultiTest (items : list DmaMulti.titem)
  | MultiNewLine
  | Usage.        (* "Usage: <virt|phys> <min thread count> ...\n" *)

Section multi_main.
Context `{DMAAsm} `{DMAModel} `{DmaVirt.RandomEngine}.
(** as for one test; what [thread] holds may differ from test to test *)
Context (target_first : bool) (fuel : nat) (rest0 : Z -> Z -> Z -> thread_rest).

(** one of the two functions on [uint] arguments; the tree of every program is
    freed before the next is grown *)
Definition print_one (virtual : bool) (i j : Z) (th : theap)
    : res (list DmaMulti.titem * res theap) :=
  if virtual
  then DmaVirt.print_virtualised_test_information target_first (rest0 i j) fuel (u32 i) (u32 j) empty_heap th
  else DmaMulti.print_test_information target_first (rest0 i j) fuel (u32 i) (u32 j) empty_heap th.

(** [for (int j = seed_lower; ...)], with [n] iterations to come: what is
    printed, and how the loop ends; what a test prints before an error in the
    middle of it is left out *)
Fixpoint print_seed_range (virtual : bool) (n : nat) (i j : Z) (th : theap)
    : list multi_output * res theap :=
  match n with
  | O => ([], Ok th)
  | S n' =>
      match print_one virtual i j th with
      | Err e => ([], Err e)
      | Ok (items, freed) =>
          match (let* th := freed in let* j := int_incr j in Ok (th, j)) with
          | Err e => ([MultiTest items], Err e)
          | Ok (th, j) =>
              let '(out, r) := print_seed_range virtual n' i j th in
              (MultiTest items :: MultiNewLine :: out, r)
          end
      end
  end.

Fixpoint print_thread_range (virtual : bool) (n : nat) (i seed_lower seed_higher : Z) (th : theap)
    : list multi_output * res theap :=
  match n with
  | O => ([], Ok th)
  | S n' =>
      let '(out, r) :=
        print_seed_range virtual (Z.to_nat (seed_higher - seed_lower + 1)) i seed_lower th in
      match (let* th := r in let* i := int_incr i in Ok (th, i)) with
      | Err e => (out, Err e)
      | Ok (th, i) =>
          let '(rest, r) := print_thread_range virtual n' i seed_lower seed_higher th in
          (out ++ rest, r)
      end
  end.

(** what is printed and the exit status *)
Definition generate_multithread_dma_test_main (argv : list chars) : list multi_output * res Z :=
  match argv with
  | [_; mode; a2; a3; a4; a5] =>
      if decide (mode = lit "virt" \/ mode = lit "phys") then
        let thread_lower := atoi a2 in
        let thread_higher := atoi a3 in
        let seed_lower := atoi a4 in
        let seed_higher := atoi a5 in
        let '(out, r) :=
          print_thread_range (bool_decide (mode = lit "virt")) (Z.to_nat (thread_higher - thread_lower + 1))
            thread_lower seed_lower seed_higher empty_theap in
        (out, let* _ := r in Ok 0)
      else ([Usage], Ok 1)
  | _ => ([Usage], Ok 1)
  end.

(** Of several tests only the first is printed before the behaviour is
    undefined, if its program can be generated. *)
Lemma multi_main_first name mode a2 a3 a4 a5 items freed :
  mode = lit "virt" \/ mode = lit "phys" -> atoi a2 <= atoi a3 -> atoi a4 <= atoi a5 ->
  print_one (bool_decide (mode = lit "virt")) (atoi a2) (atoi a4) empty_theap = Ok (items, freed) ->
  (forall x, freed <> Ok x) ->
  exists e, generate_multithread_dma_test_main [name; mode; a2; a3; a4; a5] = ([MultiTest items], Err e).
Proof.
  intros Hm Ht Hs Hone Hfreed. unfold generate_multithread_dma_test_main. rewrite decide_True by done.
  set (virtual := bool_decide _) in *. destruct freed as [x|e]; [by destruct (Hfreed x)|]. exists e.
  replace (Z.to_nat (atoi a3 - atoi a2 + 1)) with (S (Z.to_nat (atoi a3 - atoi a2))) by lia. cbn [print_thread_range].
  replace (Z.to_nat (atoi a5 - atoi a4 + 1)) with (S (Z.to_nat (atoi a5 - atoi a4))) by lia. cbn [print_seed_range].
  by rewrite Hone.
Qed.
End multi_main.

(** ** The test of one seed *)

(** a test that an engine passes which makes the transfers of the program *)
Definition passing `{DMAAsm} `{DMAModel} (tf : bool) (seed : Z) (items : list item) : Prop :=
  exists words h' ts, generate_random_dma_program tf seed empty_heap = Ok (Some <$> words, h')
    /\ (forall rest, engine_run words rest ts)
    /\ forall src dst, test_passes items ts src dst = true.

(** Printing the test of a seed ends: with a test that passes, or, when the
    program is nested too deeply, with the failed assertion of the generator. *)
Lemma seed_test_ok `{DMAAsm} `{DMAModel} tf rest0 seed :
  (exists items fuel0, passing tf seed items
     /\ forall fuel, (fuel0 <= fuel)%nat -> print_test_information tf fuel rest0 seed = Ok items)
  \/ (generate_random_dma_program tf seed empty_heap = Err EAssert
      /\ forall fuel, print_test_information tf fuel rest0 seed = Err EAssert).
Proof.
  destruct (generate_ok tf seed empty_heap) as (root & st & t & _ & Hg & Hw & Hgen).
  { intros a _. apply lookup_empty. }
  destruct (loop_depth t <=? 4) eqn:Hd.
  2: { right. split; [done|]. intros fuel. unfold print_test_information. by rewrite Hgen. }
  left. apply Z.leb_le in Hd. pose proof (gr_closed _ _ _ _ Hg) as Hc.
  set (p := seed_program tf t (gs_next st)) in *.
  assert (Hv : valid 0 p) by (apply seed_program_valid; [done|done|lia]).
  assert (Hadv : advance p < 2 ^ 64).
  { subst p. unfold seed_program. destruct (myrand (gs_next st)) as [q x].
    pose proof (advance_bound tf (q mod 6) t x (draw_size q) Hc).
    pose proof (Z.pow_le_mono_r 6 (loop_depth t) 4). nia. }
  destruct (print_test_ok tf seed _ _ p rest0 Hgen eq_refl Hv Hadv) as (fuel0 & items & Hprint & Hpass).
  exists items, fuel0. split; [|done]. eexists _, _, _. split; [exact Hgen|]. split; [|exact Hpass].
  intros rest. by apply engine_runs_code.
Qed.

(** the seeds of a range *)
Lemma print_seeds_ok `{DMAAsm} `{DMAModel} tf rest0 n : forall i, - 2 ^ 31 <= i -> i + Z.of_nat n < 2 ^ 31 ->
  (exists tests fuel0, Forall2 (fun seed items => passing tf (u32 seed) items) (seqZ i (Z.of_nat n)) tests
     /\ forall fuel, (fuel0 <= fuel)%nat ->
          print_seeds tf fuel rest0 n i = Ok (tests ≫= fun items => [Test items; NewLine]))
  \/ (exists seed fuel0, i <= seed < i + Z.of_nat n
      /\ generate_random_dma_program tf (u32 seed) empty_heap = Err EAssert
      /\ forall fuel, (fuel0 <= fuel)%nat -> print_seeds tf fuel rest0 n i = Err EAssert).
Proof.
  induction n as [|n IH]; intros i Hi Hn.
  - left. exists [], 0%nat. split; [constructor|done].
  - destruct (seed_test_ok tf rest0 (u32 i)) as [(items & f1 & Hpass & H1)|[Hgen H1]].
    2: { right. exists i, 0%nat. split; [lia|]. split; [done|]. intros fuel _. cbn [print_seeds]. by rewrite H1. }
    assert (Hincr : int_incr i = Ok (i + 1)) by (unfold int_incr; by rewrite (proj2 (Z.eqb_neq _ _)) by lia).
    destruct (IH (i + 1)) as [(tests & f2 & Hall & H2)|(seed & f2 & Hs & Hgen & H2)]; [lia|lia|left|right].
    + exists (items :: tests), (Nat.max f1 f2). split.
      * rewrite seqZ_cons by lia. constructor; [done|]. rewrite Nat2Z.inj_succ, Z.pred_succ. exact Hall.
      * intros fuel Hf. cbn [print_seeds]. rewrite H1 by lia. cbn [res_bind]. rewrite Hincr. cbn [res_bind].
        by rewrite H2 by lia.
    + exists seed, (Nat.max f1 f2). split; [lia|]. split; [done|]. intros fuel Hf. cbn [print_seeds].
      rewrite H1 by lia. cbn [res_bind]. rewrite Hincr. cbn [res_bind]. by rewrite H2 by lia.
Qed.

(** C14: the program run with two arguments prints, with enough fuel, a line with a
    test that passes for every seed from the first to the second, in order,
    seeds below zero as unsigned numbers; or, when the program of one of the
    seeds is nested too deeply, the assertion of the generator stops it.
    The second number is less than the largest [int], which the loop
    would step over. *)
Theorem generate_main_prints_tests `{DMAAsm} `{DMAModel} tf rest0 name lower upper :
  atoi upper < 2 ^ 31 - 1 ->
  exists fuel0,
    (exists tests, Forall2 (fun seed items => passing tf (u32 seed) items)
                     (seqZ (atoi lower) (atoi upper - atoi lower + 1)) tests
       /\ forall fuel, (fuel0 <= fuel)%nat ->
            generate_dma_test_main tf fuel rest0 [name; lower; upper]
            = Ok (tests ≫= fun items => [Test items; NewLine]))
    \/ (exists seed, atoi lower <= seed <= atoi upper
        /\ generate_random_dma_program tf (u32 seed) empty_heap = Err EAssert
        /\ forall fuel, (fuel0 <= fuel)%nat ->
             generate_dma_test_main tf fuel rest0 [name; lower; upper] = Err EAssert).
Proof.
  intros Hup. unfold generate_dma_test_main.
  assert (Hr : forall s, - 2 ^ 31 <= atoi s < 2 ^ 31) by (intros s; by apply (sgn_range 32)).
  pose proof (Hr lower) as Hlo. destruct (Z.le_gt_cases (atoi lower) (atoi upper)) as [Hle|Hgt].
  - destruct (print_seeds_ok tf rest0 (Z.to_nat (atoi upper - atoi lower + 1)) (atoi lower))
      as [(tests & f & Hall & H1)|(seed & f & Hs & Hgen & H1)]; [lia|lia|..].
    + exists f. left. exists tests. split; [|done]. by rewrite Z2Nat.id in Hall by lia.
    + exists f. right. exists seed. split; [lia|done].
  - exists 0%nat. left. exists []. rewrite seqZ_nil by lia. split; [constructor|].
    intros fuel _. by replace (Z.to_nat (atoi upper - atoi lower + 1)) with 0%nat by lia.
Qed.

Lemma generate_main_prints_tests_witness :
  let rest0 := (fun _ => 9) : @thread_rest model_plain in
  exists fuel0 a b, passing true 3 a /\ passing true 4 b /\
    forall fuel, (fuel0 <= fuel)%nat ->
      generate_dma_test_main true fuel rest0 [lit "generate"; lit "3"; lit "4"]
      = Ok [Test a; NewLine; Test b; NewLine].
Proof.
  intros rest0.
  destruct (generate_main_prints_tests true rest0 (lit "generate") (lit "3") (lit "4"))
    as (fuel0 & [(tests & Hall & Hrun)|(seed & Hs & Hgen & _)]); [vm_compute; reflexivity|..].
  - change (seqZ _ _) with [3; 4] in Hall.
    apply Forall2_cons_inv_l in Hall as (a & l & Ha & Hall & ->).
    apply Forall2_cons_inv_l in Hall as (b & l' & Hb & Hall & ->).
    apply Forall2_nil_inv_l in Hall as ->. exists fuel0, a, b. split; [exact Ha|]. split; [exact Hb|exact Hrun].
  - exfalso. change (atoi (lit "3")) with 3 in Hs. change (atoi (lit "4")) with 4 in Hs.
    assert (seed = 3 \/ seed = 4) as [->| ->] by lia; revert Hgen; vm_compute; discriminate.
Defined.
