(* ===== verification/L3ToSim.v ===== *)
(** * L3ToSim: [l3tosim.c], from the L3 simulator's dump to the test suite's.

    The program reads lines into one buffer of 1023 characters that keeps its
    contents from line to line.  The model keeps that buffer; the theorem is
    that on the lines a dump has, what is printed depends on the line only. *)

From S2P Require Import Prelude CStdio.

Definition buff_size : nat := 1023.

Record l3_state := L3State { l3_buff : chars; l3_core : Z; l3_out : chars }.

(** the tests on the line in the buffer *)
Definition l3_dispatch (st : l3_state) : res l3_state :=
  let buff := l3_buff st in
  let core := l3_core st in
  let out := l3_out st in
  let* s := c_string buff in
  if strncmp_eq 4 s (lit "Reg ") && bool_decide (strstr s (lit "<-") = None) then
    let buff := <[6%nat := NUL]> buff in
    let* num := c_string (drop 4 buff) in
    let reg_num := to_int (strtol 10 num) in
    let* value := c_string (drop 7 buff) in
    Ok (L3State buff core
      (out ++ lit "DEBUG MIPS REG " ++ printf_2d reg_num ++ lit " 0x" ++ value ++ [newline]))
  else if strncmp_eq 3 s (lit "PC ") && (core =? 0) then
    let* value := c_string (drop 7 buff) in
    Ok (L3State buff core (out ++ lit "DEBUG MIPS PC 0x" ++ value ++ [newline]))
  else if strncmp_eq 7 s (lit "Core = ") then
    let* num := c_string (drop 7 buff) in
    let core := to_int (strtol 0 num) in
    Ok (L3State buff core (out ++ lit "DEBUG MIPS COREID " ++ printf_d core ++ [newline]))
  else if strncmp_eq 9 s (lit "DEBUG CAP") then
    Ok (L3State buff core (out ++ s ++ [newline]))
  else Ok (L3State buff core out).

(** the body of the loop, after [fgets]: drop the newline, then dispatch *)
Definition l3_line (st : l3_state) : res l3_state :=
  let buff := l3_buff st in
  let* s := c_string buff in
  let len := length s in
  let* c := match len with O => Err EUndef | S k => of_opt (buff !! k) end in
  let buff := if ascii_dec c newline then <[(len - 1)%nat := NUL]> buff else buff in
  l3_dispatch (L3State buff (l3_core st) (l3_out st)).

Fixpoint l3_loop (fuel : nat) (input : chars) (st : l3_state) : res l3_state :=
  match fuel with
  | O => Err EFuel
  | S fuel' =>
      match fgets buff_size (l3_buff st) input with
      | None => Ok st
      | Some (buff, input) =>
          let* st := l3_line (L3State buff (l3_core st) (l3_out st)) in
          l3_loop fuel' input st
      end
  end.

(** [buff0] is what the buffer holds before anything is read into it; each
    iteration takes a character from the input at least *)
Definition l3tosim (buff0 input : chars) : res chars :=
  let* st := l3_loop (S (length input)) input (L3State buff0 0 []) in Ok (l3_out st).

(** ** One line, without the buffer *)

Definition is_reg_line (s : chars) : bool :=
  strncmp_eq 4 s (lit "Reg ") && bool_decide (strstr s (lit "<-") = None).

Definition translate (core : Z) (s : chars) : chars * Z :=
  if is_reg_line s then
    (lit "DEBUG MIPS REG " ++ printf_2d (to_int (strtol 10 (take 2 (drop 4 s))))
     ++ lit " 0x" ++ drop 7 s ++ [newline], core)
  else if strncmp_eq 3 s (lit "PC ") && (core =? 0) then
    (lit "DEBUG MIPS PC 0x" ++ drop 7 s ++ [newline], core)
  else if strncmp_eq 7 s (lit "Core = ") then
    let core := to_int (strtol 0 (drop 7 s)) in
    (lit "DEBUG MIPS COREID " ++ printf_d core ++ [newline], core)
  else if strncmp_eq 9 s (lit "DEBUG CAP") then (s ++ [newline], core)
  else ([], core).

Fixpoint translate_all (core : Z) (lines : list chars) : chars :=
  match lines with
  | [] => []
  | s :: lines' => let '(out, core) := translate core s in out ++ translate_all core lines'
  end.

(** the lines of a dump: they fit the buffer, and the register and program
    counter lines have the seven columns that come before the value *)
Record dump_line (s : chars) : Prop := {
  dl_nul : no_nul s;
  dl_newline : newline ∉ s;
  dl_fits : (length s < 1022)%nat;
  dl_columns : strncmp_eq 4 s (lit "Reg ") = true \/ strncmp_eq 3 s (lit "PC ") = true ->
               (7 <= length s)%nat;
}.

Definition dump_lineb (s : chars) : bool :=
  bool_decide (NUL ∉ s) && bool_decide (newline ∉ s) && (length s <? 1022)%nat
  && (negb (strncmp_eq 4 s (lit "Reg ") || strncmp_eq 3 s (lit "PC ")) || (7 <=? length s)%nat).

Lemma dump_lines_check lines : forallb dump_lineb lines = true -> Forall dump_line lines.
Proof.
  rewrite forallb_forall, Forall_forall. intros H s Hs%list_elem_of_In. specialize (H s Hs).
  unfold dump_lineb in H. rewrite !andb_true_iff, !bool_decide_eq_true, Nat.ltb_lt in H.
  destruct H as [[[H1 H2] H3] H4]. split; try done.
  - apply Forall_forall. intros c Hc ->. done.
  - intros Hor. apply orb_true_iff in H4 as [H4|H4%Nat.leb_le]; [|done].
    apply negb_true_iff, orb_false_iff in H4 as [H4 H5]. destruct Hor; congruence.
Qed.

Definition unlines (lines : list chars) : chars := concat (map (fun s => s ++ [newline]) lines).

(** ** The buffer does not matter *)

Lemma no_nul_drop n s : no_nul s -> no_nul (drop n s).
Proof. apply Forall_drop. Qed.
Lemma no_nul_take n s : no_nul s -> no_nul (take n s).
Proof. apply Forall_take. Qed.

Lemma l3_dispatch_string s t core out :
  no_nul s ->
  (strncmp_eq 4 s (lit "Reg ") = true \/ strncmp_eq 3 s (lit "PC ") = true -> (7 <= length s)%nat) ->
  exists buff', l3_dispatch (L3State (s ++ NUL :: t) core out)
    = Ok (L3State buff' (translate core s).2 (out ++ (translate core s).1)).
Proof.
  intros Hs Hcol. unfold l3_dispatch. cbn [l3_buff l3_core l3_out].
  rewrite c_string_app by done. cbn [res_bind].
  unfold translate, is_reg_line. destruct (strncmp_eq 4 s (lit "Reg ") && _) eqn:E1.
  { apply andb_true_iff in E1 as [E1 _]. assert (Hl : (7 <= length s)%nat) by auto.
    rewrite insert_app_l by lia. rewrite insert_take_drop by lia.
    rewrite <- app_assoc. rewrite (drop_app_le _ _ 4) by (rewrite length_take; lia).
    rewrite <- app_comm_cons, c_string_app by (by apply no_nul_drop, no_nul_take). cbn [res_bind].
    rewrite (drop_app_ge _ _ 7) by (rewrite length_take; lia). rewrite length_take.
    replace (7 - 6 `min` length s)%nat with 1%nat by lia. cbn [drop].
    rewrite drop_0, c_string_app by (by apply no_nul_drop). cbn [res_bind fst snd].
    eexists. do 2 f_equal. by rewrite (firstn_skipn_comm 2 4 s). }
  destruct (strncmp_eq 3 s (lit "PC ") && _) eqn:E2.
  { apply andb_true_iff in E2 as [E2 _]. assert (Hl : (7 <= length s)%nat) by auto.
    rewrite drop_app_le by lia. rewrite c_string_app by (by apply no_nul_drop). by eexists. }
  destruct (strncmp_eq 7 s (lit "Core = ")) eqn:E3.
  { apply (strncmp_eq_spec s (lit "Core = ")) in E3 as (r & Hr).
    assert (Hl : (7 <= length s)%nat) by (rewrite Hr, length_app; simpl; lia).
    rewrite drop_app_le by lia. rewrite c_string_app by (by apply no_nul_drop). by eexists. }
  destruct (strncmp_eq 9 s (lit "DEBUG CAP")); [by eexists|].
  rewrite app_nil_r. by eexists.
Qed.

(** A line of a dump, with its newline, in the buffer. *)
Lemma l3_line_ok s t core out :
  dump_line s ->
  exists buff', l3_line (L3State (s ++ newline :: NUL :: t) core out)
    = Ok (L3State buff' (translate core s).2 (out ++ (translate core s).1)).
Proof.
  intros [Hs Hnl Hfit Hcol]. unfold l3_line. cbn [l3_buff l3_core l3_out].
  rewrite (cons_middle newline), app_assoc.
  assert (Hs' : no_nul (s ++ [newline])) by (apply Forall_app; split; [done|by constructor]).
  rewrite c_string_app by done. cbn [res_bind].
  rewrite length_app. cbn [length]. rewrite Nat.add_1_r.
  rewrite lookup_app_l by (rewrite length_app; simpl; lia).
  rewrite list_lookup_middle by done. cbn [of_opt res_bind].
  destruct (ascii_dec newline newline) as [_|]; [|done].
  rewrite <- app_assoc. rewrite insert_app_r_alt by lia.
  replace (S (length s) - 1 - length s)%nat with 0%nat by lia. cbn [app insert list_insert].
  by apply l3_dispatch_string.
Qed.

Lemma l3_loop_ok lines : Forall dump_line lines -> forall fuel buff core out,
  (length (unlines lines) < fuel)%nat ->
  exists st, l3_loop fuel (unlines lines) (L3State buff core out) = Ok st
    /\ l3_out st = out ++ translate_all core lines.
Proof.
  induction 1 as [|s lines Hs Hlines IH]; intros [|fuel] buff core out Hf; try lia.
  - eexists. split; [done|]. cbn. by rewrite app_nil_r.
  - unfold unlines in Hf |- *. cbn [map concat] in *. fold (unlines lines) in *.
    rewrite <- app_assoc in Hf |- *. cbn [app] in Hf |- *.
    cbn [l3_loop]. unfold fgets.
    destruct (s ++ newline :: unlines lines) as [|c input] eqn:Hin; [by destruct s|]. rewrite <- Hin in *.
    rewrite fgets_line; [|apply Hs|pose proof (dl_fits s Hs); unfold buff_size; lia].
    rewrite <- app_assoc. cbn [app l3_core l3_out].
    destruct (l3_line_ok s (drop (S (length (s ++ [newline]))) buff) core out Hs) as (buff' & Hline).
    cbn [l3_buff]. rewrite Hline. cbn [res_bind].
    destruct (IH fuel buff' (translate core s).2 (out ++ (translate core s).1)) as (st & Hst & Hout).
    { rewrite length_app in Hf. simpl in Hf. lia. }
    exists st. split; [done|]. rewrite Hout. cbn [translate_all].
    destruct (translate core s) as [o c']. by rewrite <- app_assoc.
Qed.

(** C35: on the lines of a dump, [l3tosim] reads every line to the end of the
    input without leaving its buffer and prints the translation of each line,
    in order, with the core number as the only thing carried from one line to
    the next: what the buffer held before never shows. *)
Theorem l3tosim_translates buff0 lines :
  Forall dump_line lines -> l3tosim buff0 (unlines lines) = Ok (translate_all 0 lines).
Proof.
  intros Hl. unfold l3tosim.
  destruct (l3_loop_ok lines Hl (S (length (unlines lines))) buff0 0 []) as (st & -> & Hout); [lia|].
  cbn [res_bind]. by rewrite Hout.
Qed.

Lemma l3tosim_translates_witness :
  let lines := [lit "Core = 1"; lit "PC     9000000040000000"; lit "Reg  7 00000000deadbeef";
                lit "Core = 0"; lit "PC     9000000040000120"; lit "Reg 11 <- 5"] in
  l3tosim [] (unlines lines)
  = Ok (unlines [lit "DEBUG MIPS COREID 1"; lit "DEBUG MIPS REG  7 0x00000000deadbeef";
                 lit "DEBUG MIPS COREID 0"; lit "DEBUG MIPS PC 0x9000000040000120"]).
Proof.
  apply (l3tosim_translates []).
  apply dump_lines_check. vm_compute. reflexivity.
Defined.

(** A register line that is too short prints what an earlier line left in
    the buffer: [buff + 7] is past its terminator. *)
Theorem l3tosim_stale :
  l3tosim [] (unlines [lit "PC     9000000040000000"; lit "Reg 5"])
  = Ok (unlines [lit "DEBUG MIPS PC 0x9000000040000000"; lit "DEBUG MIPS REG  5 0x9000000040000000"]).
Proof. vm_compute. reflexivity. Qed.
