(* ===== verification/GxemulToSim.v ===== *)
(** * GxemulToSim: [gxemultosim.c], from gxemul's register dump to the test
    suite's.

    Every line is echoed; the lines that start with [cpu0:] are searched for the
    program counter and the registers, two to a line, and at the end the
    registers are printed in the format the tests read. *)

From S2P Require Import Prelude CStdio.

Definition reg_names : list chars := map lit
  [ "at = 0x"; "v0 = 0x"; "v1 = 0x"; "a0 = 0x"; "a1 = 0x"; "a2 = 0x"; "a3 = 0x"; "t0 = 0x";
    "t1 = 0x"; "t2 = 0x"; "t3 = 0x"; "t4 = 0x"; "t5 = 0x"; "t6 = 0x"; "t7 = 0x" ]%string.

Definition buff_size : nat := 80.

Record gx_state := GxState { gx_pc : Z; gx_reg : list Z; gx_out : chars }.

(** [for (j=0; j<15; j++)]: the pointer [cp], which is changed in the body and
    may become NULL, is compared with every name *)
Fixpoint gx_names (names : list chars) (j : nat) (cp : option chars) (reg : list Z) : res (list Z) :=
  match names with
  | [] => Ok reg
  | name :: names' =>
      let* s := of_opt cp in
      if strncmp_eq 7 s name then
        let v := strtoull 16 (drop 7 s) in
        let reg := <[(j + 1)%nat := v]> reg in
        let cp := strstr (drop 7 s) (lit "0x") in
        let reg := match cp with
                   | Some s' => <[(j + 17)%nat := strtoull 16 (drop 2 s')]> reg
                   | None => reg
                   end in
        gx_names names' (S j) cp reg
      else gx_names names' (S j) cp reg
  end.

Fixpoint skip_blanks (s : chars) : chars :=
  match s with
  | c :: s' => if ascii_dec c space then skip_blanks s' else s
  | [] => []
  end.

(** the body of the loop, on the string in the buffer *)
Definition gx_line (buff : chars) (st : gx_state) : res gx_state :=
  let* s := c_string buff in
  let out := gx_out st ++ s in
  if strncmp_eq 5 s (lit "cpu0:") then
    let cp := skip_blanks (drop 5 s) in
    if strncmp_eq 7 cp (lit "pc = 0x") then
      Ok (GxState (strtoull 16 (drop 7 cp)) (gx_reg st) out)
    else if strncmp_eq 7 cp (lit "s0 = 0x") then
      Ok (GxState (gx_pc st) (<[16%nat := strtoull 16 (drop 7 cp)]> (gx_reg st)) out)
    else
      let* reg := gx_names reg_names 0 (Some cp) (gx_reg st) in
      Ok (GxState (gx_pc st) reg out)
  else Ok (GxState (gx_pc st) (gx_reg st) out).

Fixpoint gx_loop (fuel : nat) (buff input : chars) (st : gx_state) : res gx_state :=
  match fuel with
  | O => Err EFuel
  | S fuel' =>
      match fgets buff_size buff input with
      | None => Ok st
      | Some (buff, input) => let* st := gx_line buff st in gx_loop fuel' buff input st
      end
  end.

(** the lines printed at the end *)
Fixpoint print_regs (i : Z) (reg : list Z) : chars :=
  match reg with
  | [] => []
  | v :: reg' =>
      lit "DEBUG MIPS REG " ++ printf_2d i ++ lit " 0x" ++ printf_016x v ++ [newline]
      ++ print_regs (i + 1) reg'
  end.

Definition print_summary (pc : Z) (reg : list Z) : chars :=
  lit "======   Registers   ======" ++ [newline]
  ++ lit "DEBUG MIPS COREID 0" ++ [newline]
  ++ lit "DEBUG MIPS PC 0x" ++ printf_016x pc ++ [newline]
  ++ print_regs 0 reg.

Definition gxemultosim (buff0 input : chars) : res chars :=
  let* st := gx_loop (S (length input)) buff0 input (GxState 0 (replicate 32 0) []) in
  Ok (gx_out st ++ print_summary (gx_pc st) (gx_reg st)).

(** ** What a dump holds *)

(** The entries of a dump: the program counter, [s0], the pair of registers
    [j + 1] and [j + 17] with the text between them, and any other line. *)
Inductive entry :=
  | PC (blanks : nat) (v : Z)
  | S0 (blanks : nat) (v : Z)
  | Pair (blanks j : nat) (v : Z) (between : chars) (w : Z) (after : chars)
  | Other (s : chars).

Definition cpu0 (blanks : nat) : chars := lit "cpu0:" ++ replicate blanks space.

Definition render (e : entry) : chars :=
  match e with
  | PC b v => cpu0 b ++ lit "pc = 0x" ++ printf_016x v
  | S0 b v => cpu0 b ++ lit "s0 = 0x" ++ printf_016x v
  | Pair b j v between w after =>
      cpu0 b ++ default [] (reg_names !! j) ++ printf_016x v ++ between
      ++ lit "0x" ++ printf_016x w ++ after
  | Other s => s
  end.

Definition is_word (v : Z) : Prop := 0 <= v < 2 ^ 64.

Definition entry_ok (e : entry) : Prop :=
  (length (render e) < 79)%nat /\ no_nul (render e) /\ (newline ∉ render e) /\
  match e with
  | PC _ v | S0 _ v => is_word v
  | Pair _ j v between w after =>
      (j < 15)%nat /\ is_word v /\ is_word w /\ ("x"%char ∉ between)
      /\ no_digit 16 between /\ between <> [] /\ no_digit 16 after
  | Other s => strncmp_eq 5 s (lit "cpu0:") = false
  end.

(** what an entry sets *)
Definition update (e : entry) (pc_reg : Z * list Z) : Z * list Z :=
  let '(pc, reg) := pc_reg in
  match e with
  | PC _ v => (v, reg)
  | S0 _ v => (pc, (<[16%nat := v]> reg))
  | Pair _ j v _ w _ => (pc, (<[(j + 17)%nat := w]> (<[(j + 1)%nat := v]> reg)))
  | Other _ => (pc, reg)
  end.

Definition dump_text (es : list entry) : chars := concat (map (fun e => render e ++ [newline]) es).

(** ** Lines *)

Lemma skip_blanks_app n c s : c <> space -> skip_blanks (replicate n space ++ c :: s) = c :: s.
Proof.
  intros Hc. induction n as [|n IH]; simpl.
  - by destruct (ascii_dec c space).
  - done.
Qed.

(** the first ["0x"] after text without an [x] *)
Lemma strstr_0x p q : "x"%char ∉ p -> strstr (p ++ lit "0x" ++ q) (lit "0x") = Some (lit "0x" ++ q).
Proof.
  intros Hp. induction p as [|c p IH]; [done|].
  assert (Hne : strncmp_eq 2 ((c :: p) ++ lit "0x" ++ q) (lit "0x") = false).
  { simpl. destruct (ascii_dec c "0"); [|done]. simpl.
    destruct p as [|d p]; [done|]. simpl. destruct (ascii_dec d "x"); [set_solver|done]. }
  change (strstr ((c :: p) ++ lit "0x" ++ q) (lit "0x"))
    with (if strncmp_eq 2 ((c :: p) ++ lit "0x" ++ q) (lit "0x") then Some ((c :: p) ++ lit "0x" ++ q)
          else strstr (p ++ lit "0x" ++ q) (lit "0x")).
  rewrite Hne. apply IH. set_solver.
Qed.

Lemma digits16_no_x s : Forall is_digit16 s -> "x"%char ∉ s.
Proof. intros H Hx. rewrite Forall_forall in H. by destruct (digit16_plain _ (H _ Hx)) as (_ & _ & _ & ? & _). Qed.

Lemma gx_names_none names : forall j s reg,
  Forall (fun n => strncmp_eq 7 s n = false) names -> gx_names names j (Some s) reg = Ok reg.
Proof.
  induction names as [|n names IH]; intros j s reg Hn; [done|].
  apply Forall_cons in Hn as [H1 H2]. cbn [gx_names of_opt res_bind]. rewrite H1. by apply IH.
Qed.

(** the names are distinct, seven characters long, and none starts with a digit *)
Lemma reg_names_shape :
  NoDup reg_names /\ Forall (fun n => length n = 7%nat) reg_names
  /\ forall q, Forall (fun n => strncmp_eq 7 (lit "0x" ++ q) n = false) reg_names.
Proof.
  split; [|split].
  - refine (bool_decide_unpack _ _). vm_compute. exact I.
  - repeat constructor.
  - intros q. repeat constructor.
Qed.

(** a line with the [k]-th name: the two registers are set, and the comparisons
    with the later names, at the second number, fail *)
Lemma gx_names_at names k : forall j name r q reg,
  names !! k = Some name -> NoDup names -> Forall (fun n => length n = 7%nat) names ->
  Forall (fun n => strncmp_eq 7 (lit "0x" ++ q) n = false) names ->
  strstr r (lit "0x") = Some (lit "0x" ++ q) ->
  gx_names names j (Some (name ++ r)) reg
  = Ok (<[(j + k + 17)%nat := strtoull 16 q]> (<[(j + k + 1)%nat := strtoull 16 r]> reg)).
Proof.
  revert k. induction names as [|n names IH]; intros k j name r q reg Hk Hnd Hlen Hq Hr; [done|].
  apply Forall_cons in Hlen as [Hn Hlen]. apply Forall_cons in Hq as [_ Hq].
  apply NoDup_cons in Hnd as [Hin Hnd]. cbn [gx_names of_opt res_bind].
  destruct k as [|k]; [injection Hk as ->|].
  - rewrite <- Hn at 1. rewrite strncmp_eq_app. rewrite drop_app_length' by done.
    rewrite Hr. rewrite gx_names_none by done. by rewrite Nat.add_0_r.
  - simpl in Hk. assert (Hname : length name = 7%nat).
    { rewrite Forall_forall in Hlen. apply Hlen. by eapply list_elem_of_lookup_2. }
    assert (Hne : strncmp_eq 7 (name ++ r) n = false).
    { apply not_true_is_false. rewrite <- Hn at 1. intros He.
      apply strncmp_eq_length in He; [|congruence]. subst n. apply Hin. by eapply list_elem_of_lookup_2. }
    rewrite Hne. rewrite (IH k (S j) name r q reg) by done. do 2 f_equal; [lia|]. f_equal. lia.
Qed.

Lemma no_digit_newline s : no_digit 16 s -> no_digit 16 (s ++ [newline]).
Proof. by destruct s. Qed.

Lemma name_length j name : reg_names !! j = Some name -> length name = 7%nat.
Proof.
  intros Hj. destruct reg_names_shape as (_ & Hl & _). rewrite Forall_forall in Hl.
  apply Hl. by eapply list_elem_of_lookup_2.
Qed.

(** the names are not those tested first, and do not start with a space *)
Lemma name_plain j name r : reg_names !! j = Some name ->
  strncmp_eq 7 (name ++ r) (lit "pc = 0x") = false
  /\ strncmp_eq 7 (name ++ r) (lit "s0 = 0x") = false
  /\ exists c s, name = c :: s /\ c <> space.
Proof.
  assert (Hall : Forall (fun n => strncmp_eq 7 (n ++ r) (lit "pc = 0x") = false
    /\ strncmp_eq 7 (n ++ r) (lit "s0 = 0x") = false
    /\ exists c s, n = c :: s /\ c <> space) reg_names).
  { repeat constructor; eexists _, _; split; try reflexivity; discriminate. }
  intros Hj. rewrite Forall_forall in Hall. apply Hall. by eapply list_elem_of_lookup_2.
Qed.

Lemma gx_line_cpu0 b s line t st :
  line = cpu0 b ++ s -> no_nul line -> (exists c s', s = c :: s' /\ c <> space) ->
  gx_line (line ++ NUL :: t) st =
    let out := gx_out st ++ line in
    if strncmp_eq 7 s (lit "pc = 0x") then Ok (GxState (strtoull 16 (drop 7 s)) (gx_reg st) out)
    else if strncmp_eq 7 s (lit "s0 = 0x") then
      Ok (GxState (gx_pc st) (<[16%nat := strtoull 16 (drop 7 s)]> (gx_reg st)) out)
    else
      let* reg := gx_names reg_names 0 (Some s) (gx_reg st) in Ok (GxState (gx_pc st) reg out).
Proof.
  intros -> Hn (c & s' & -> & Hc). unfold gx_line. rewrite c_string_app by done. cbn [res_bind].
  unfold cpu0. rewrite <- !app_assoc. rewrite (strncmp_eq_app (lit "cpu0:")).
  rewrite (drop_app_length' (lit "cpu0:")) by done. by rewrite skip_blanks_app.
Qed.

Lemma gx_line_entry e t st :
  entry_ok e ->
  let '(pc, reg) := update e (gx_pc st, gx_reg st) in
  gx_line ((render e ++ [newline]) ++ NUL :: t) st
  = Ok (GxState pc reg (gx_out st ++ render e ++ [newline])).
Proof.
  intros (Hlen & Hnul & Hnl & He).
  assert (Hnul' : no_nul (render e ++ [newline])).
  { apply Forall_app. split; [done|by constructor]. }
  destruct e as [b v|b v|b j v between w after|s]; cbn [render update] in *.
  - rewrite (gx_line_cpu0 b (lit "pc = 0x" ++ printf_016x v ++ [newline]));
      [|by rewrite <- !app_assoc|done|by eexists _, _].
    cbv zeta. rewrite (strncmp_eq_app (lit "pc = 0x")), drop_app_length' by done. by rewrite strtoull_016x.
  - rewrite (gx_line_cpu0 b (lit "s0 = 0x" ++ printf_016x v ++ [newline]));
      [|by rewrite <- !app_assoc|done|by eexists _, _].
    cbv zeta. rewrite (strncmp_eq_app (lit "s0 = 0x")), drop_app_length' by done.
    by rewrite strtoull_016x.
  - destruct He as (Hj & Hv & Hw & Hx & Hb & Hbn & Ha).
    destruct (lookup_lt_is_Some_2 reg_names j Hj) as [name Hname]. rewrite Hname in *. cbn [default] in *.
    change (default [] (Some name)) with name in *.
    destruct (name_plain j name (printf_016x v ++ between ++ lit "0x" ++ printf_016x w ++ after ++ [newline]) Hname)
      as (H1 & H2 & c & s & Hcs & Hc).
    rewrite (gx_line_cpu0 b (name ++ printf_016x v ++ between ++ lit "0x" ++ printf_016x w ++ after ++ [newline]));
      [|by rewrite <- !app_assoc|done|subst name; by eexists _, _].
    cbv zeta. rewrite H1, H2.
    destruct reg_names_shape as (G1 & G2 & G3).
    assert (Hstr : strstr (printf_016x v ++ between ++ lit "0x" ++ printf_016x w ++ after ++ [newline]) (lit "0x")
      = Some (lit "0x" ++ printf_016x w ++ after ++ [newline])).
    { rewrite app_assoc. apply strstr_0x. apply not_elem_of_app. split; [|done].
      apply digits16_no_x, printf_016x_digits. apply Hv. }
    rewrite (gx_names_at reg_names j 0 name _ _ (gx_reg st) Hname G1 G2 (G3 _) Hstr).
    cbn [res_bind]. rewrite strtoull_016x; [|done|by apply no_digit_newline].
    rewrite strtoull_016x; [done|done|]. by destruct between.
  - unfold gx_line. rewrite c_string_app by done. cbn [res_bind].
    assert (Hcmp : strncmp_eq 5 (s ++ [newline]) (lit "cpu0:") = false).
    { apply not_true_is_false. intros (q & Hq)%(strncmp_eq_spec _ (lit "cpu0:")).
      apply (f_equal (take 5)) in Hq as Hq'.
      destruct (decide (5 <= length s)%nat) as [Hl|Hl].
      - rewrite take_app_le, take_app_length' in Hq' by done. revert He.
        rewrite <- (take_drop 5 s), Hq'. by rewrite (strncmp_eq_app (lit "cpu0:")).
      - assert (Hin : newline ∈ lit "cpu0:").
        { apply (f_equal (lookup (length s))) in Hq. rewrite list_lookup_middle in Hq by done.
          rewrite lookup_app_l in Hq by (simpl; lia). symmetry in Hq. by eapply list_elem_of_lookup_2. }
        apply list_elem_of_In in Hin. unfold lit in Hin. simpl in Hin.
        repeat destruct Hin as [Hin|Hin]; try discriminate; done. }
    rewrite Hcmp. done.
Qed.

Lemma gx_loop_ok es : Forall entry_ok es -> forall fuel buff st,
  (length (dump_text es) < fuel)%nat ->
  exists st', gx_loop fuel buff (dump_text es) st = Ok st'
    /\ gx_out st' = gx_out st ++ dump_text es
    /\ (gx_pc st', gx_reg st') = foldl (fun a e => update e a) (gx_pc st, gx_reg st) es.
Proof.
  induction 1 as [|e es He Hes IH]; intros [|fuel] buff st Hf; try lia.
  - exists st. split; [done|]. split; [by rewrite app_nil_r|done].
  - unfold dump_text in Hf |- *. cbn [map concat] in *. fold (dump_text es) in *.
    cbn [gx_loop]. unfold fgets.
    destruct ((render e ++ [newline]) ++ dump_text es) as [|c input] eqn:Hin; [by destruct (render e)|].
    rewrite <- Hin in *. rewrite <- app_assoc. cbn [app].
    rewrite fgets_line; [|apply He|destruct He as [Hl _]; unfold buff_size; lia].
    set (rest := drop _ buff).
    pose proof (gx_line_entry e rest st He) as Hline.
    destruct (update e (gx_pc st, gx_reg st)) as [pc reg] eqn:Hu. rewrite Hline. cbn [res_bind].
    destruct (IH fuel ((render e ++ [newline]) ++ NUL :: rest) (GxState pc reg (gx_out st ++ render e ++ [newline])))
      as (st' & Hrun & Hout & Hfold).
    { rewrite !length_app in Hf. simpl in Hf. lia. }
    exists st'. split; [done|]. split.
    + rewrite Hout. cbn [gx_out]. by rewrite <- !app_assoc.
    + rewrite Hfold. cbn [foldl]. by rewrite Hu.
Qed.

(** C36: for a dump made of program-counter lines, [s0] lines, two-register
    lines and lines that do not begin with [cpu0:], each of at most 78
    characters, in any order and number, [gxemultosim] reads all of it, echoes it unchanged, and prints the program counter and the 32
    registers the dump gives them (the last value where a register comes
    twice, zero where it does not come). *)
Theorem gxemultosim_reads_dump buff0 es :
  Forall entry_ok es ->
  let '(pc, reg) := foldl (fun a e => update e a) (0, replicate 32 0) es in
  gxemultosim buff0 (dump_text es) = Ok (dump_text es ++ print_summary pc reg).
Proof.
  intros Hes. unfold gxemultosim.
  destruct (gx_loop_ok es Hes (S (length (dump_text es))) buff0 (GxState 0 (replicate 32 0) []))
    as (st & -> & Hout & Hfold); [lia|].
  cbn [gx_pc gx_reg gx_out] in *. rewrite <- Hfold. cbn [res_bind]. by rewrite Hout.
Qed.

Definition entry_okb (e : entry) : bool :=
  (length (render e) <? 79)%nat && bool_decide (NUL ∉ render e) && bool_decide (newline ∉ render e) &&
  match e with
  | PC _ v | S0 _ v => (0 <=? v) && (v <? 2 ^ 64)
  | Pair _ j v between w after =>
      (j <? 15)%nat && (0 <=? v) && (v <? 2 ^ 64) && (0 <=? w) && (w <? 2 ^ 64)
      && bool_decide ("x"%char ∉ between)
      && match between with [] => false | c :: _ => bool_decide (digit_in 16 c = None) end
      && match after with [] => true | c :: _ => bool_decide (digit_in 16 c = None) end
  | Other s => negb (strncmp_eq 5 s (lit "cpu0:"))
  end.

Lemma entries_check es : forallb entry_okb es = true -> Forall entry_ok es.
Proof.
  rewrite forallb_forall, Forall_forall. intros H e He%list_elem_of_In. specialize (H e He).
  unfold entry_okb in H. rewrite !andb_true_iff, !bool_decide_eq_true, Nat.ltb_lt in H.
  destruct H as [[[H1 H2] H3] H4]. split; [done|]. split; [|split; [done|]].
  - apply Forall_forall. intros c Hc ->. done.
  - destruct e as [b v|b v|b j v between w after|s]; unfold is_word.
    + apply andb_true_iff in H4 as [?%Z.leb_le ?%Z.ltb_lt]. lia.
    + apply andb_true_iff in H4 as [?%Z.leb_le ?%Z.ltb_lt]. lia.
    + rewrite !andb_true_iff, Nat.ltb_lt, !Z.leb_le, !Z.ltb_lt, bool_decide_eq_true in H4.
      destruct H4 as (((((((G1 & G2) & G3) & G4) & G5) & G6) & G7) & G8).
      repeat split; try done.
      * destruct between; [done|]. by apply bool_decide_eq_true in G7.
      * by intros ->.
      * destruct after; [done|]. by apply bool_decide_eq_true in G8.
    + by apply negb_true_iff.
Qed.

Definition sample_dump : list entry :=
  [ Other (lit "GXemul 0.4.6"); PC 2 0x9000000040000000;
    Pair 2 0 1 (lit "    s1 = ") 2 (lit ""); Pair 2 14 0xffffffffffffffff (lit "    ra = ") 0x9000000040000100 (lit " ");
    S0 2 7; Pair 2 0 3 (lit "    s1 = ") 4 (lit "") ].

Lemma gxemultosim_reads_dump_witness :
  let '(pc, reg) := foldl (fun a e => update e a) (0, replicate 32 0) sample_dump in
  gxemultosim [] (dump_text sample_dump) = Ok (dump_text sample_dump ++ print_summary pc reg).
Proof. apply (gxemultosim_reads_dump []). apply entries_check. vm_compute. reflexivity. Defined.

(** A line with a single register makes the program use a null pointer:
    [strstr] finds no second number, and the loop goes on to compare NULL with
    the next name.  Only after the last name is there nothing left to compare. *)
Theorem gxemultosim_single_column buff0 :
  gxemultosim buff0 (lit "cpu0: at = 0x1" ++ [newline]) = Err EUndef
  /\ gxemultosim buff0 (lit "cpu0: t6 = 0x1" ++ [newline]) = Err EUndef
  /\ exists out, gxemultosim buff0 (lit "cpu0: t7 = 0x1" ++ [newline]) = Ok out.
Proof. split; [|split]; [vm_compute; reflexivity..|]. eexists. vm_compute. reflexivity. Qed.
