(* ===== verification/BuildTools.v ===== *)
(** * BuildTools: the programs the makefiles call.

    [max_cycles.c] chooses the number of cycles a test may run, [select_init.c]
    the linker script and initialisation objects of a test, both from the name
    of the test's file; [fuzz_fpu.c] writes random floating-point instructions. *)

From S2P Require Import Prelude CStdio.

(** a line of output *)
Definition line (parts : list chars) : chars := concat parts ++ [newline].

(** what a program prints and returns *)
Record outcome := Outcome { o_status : Z; o_stdout : chars; o_stderr : chars }.

Definition slash : ascii := "/"%char.

(** the file name: what follows the last slash *)
Definition basename (s : chars) : chars :=
  match rindex s slash with
  | Some r => drop 1 r
  | None => s
  end.

Lemma basename_path dir name : slash ∉ name -> basename (dir ++ slash :: name) = name.
Proof. intros H. unfold basename. by rewrite rindex_app. Qed.

Lemma basename_plain name : slash ∉ name -> basename name = name.
Proof. intros H. unfold basename. by rewrite (proj2 (rindex_None name slash)). Qed.

Module MaxCycles.

(** the names that are compared with, in order *)
Definition long_tests : list chars := map lit
  [ "test_tlb_exception_fill.log"; "test_tlb_exception_fill_cached.log";
    "test_tlb_exception_fill_multi.log"; "test_tlb_exception_fill_cachedmulti.log";
    "test_cp2_tlb_exception_fill.log"; "test_cp2_tlb_exception_fill_cached.log";
    "test_cp2_tlb_exception_fill_multi.log"; "test_cp2_tlb_exception_fill_cachedmulti.log";
    "test_mc_llsc.log"; "test_mc_llsc_cached.log"; "test_mc_llsc_multi.log";
    "test_mc_llsc_cachedmulti.log"; "test_mc_llsc_alias.log"; "test_mc_llsc_alias_cached.log";
    "test_mc_llsc_alias_multi.log"; "test_mc_llsc_alias_cachedmulti.log";
    "test_mc_tag_coherence.log"; "test_mc_tag_coherence_cached.log";
    "test_mc_tag_coherence_multi.log"; "test_mc_tag_coherence_cachedmulti.log";
    "test_mc_addr.log"; "test_mc_addr_cached.log"; "test_mc_addr_multi.log";
    "test_mc_addr_cachedmulti.log"; "test_clang_memcpy.log"; "test_clang_memcpy_cached.log";
    "test_clang_memcpy_multi.log"; "test_clang_memcpy_cachedmulti.log";
    "test_clang_dhrystone_ipc.log" ]%string.

Definition max_cycles (argv : list chars) : res outcome :=
  match argv with
  | _ :: name :: short :: long :: _ =>
      let cp := basename name in
      if existsb (strcmp_eq cp) long_tests then Ok (Outcome 0 (line [long]) [])
      else Ok (Outcome 0 (line [short]) [])
  | argv0 :: _ =>
      Ok (Outcome (-1) [] (line [lit "Usage: "; argv0;
        lit " <name of test> <cycle count for short test> <cycle count for long test>"]))
  | [] => Err EUndef
  end.

Lemma existsb_long cp : existsb (strcmp_eq cp) long_tests = bool_decide (cp ∈ long_tests).
Proof.
  apply Bool.eq_iff_eq_true. rewrite existsb_exists, bool_decide_eq_true. unfold strcmp_eq. split.
  - intros (x & Hx & He%bool_decide_eq_true). subst x. by apply list_elem_of_In.
  - intros H. exists cp. split; [by apply list_elem_of_In|by apply bool_decide_eq_true].
Qed.

(** The cycle count depends on the file name alone: in whatever directory
    the log is, the program prints the long count for the 29 names of its
    table, the short count for every other name, and nothing else. *)
Theorem max_cycles_by_name argv0 dir name short long rest :
  slash ∉ name ->
  max_cycles (argv0 :: (dir ++ slash :: name) :: short :: long :: rest)
    = Ok (Outcome 0 (line [if bool_decide (name ∈ long_tests) then long else short]) [])
  /\ max_cycles (argv0 :: name :: short :: long :: rest)
     = max_cycles (argv0 :: (dir ++ slash :: name) :: short :: long :: rest).
Proof.
  intros Hn. unfold max_cycles. rewrite basename_path, basename_plain, existsb_long by done.
  split; [|done]. by case_bool_decide.
Qed.

Lemma max_cycles_by_name_witness :
  max_cycles [lit "max_cycles"; lit "log/test_mc_llsc.log"; lit "20000"; lit "300000"]
  = Ok (Outcome 0 (line [lit "300000"]) []).
Proof.
  refine (proj1 (max_cycles_by_name (lit "max_cycles") (lit "log") (lit "test_mc_llsc.log")
    (lit "20000") (lit "300000") [] _)).
  refine (bool_decide_unpack _ _). vm_compute. exact I.
Defined.
End MaxCycles.

Module FuzzFpu.

(** the word for a result of [random()] *)
Definition fpu_word (rnd : Z) : Z := Z.lor (Z.land (u32 rnd) 0x00bfffff) 0x46000000.

(** the fields of a coprocessor-1 instruction *)
Definition opcode (w : Z) : Z := Z.shiftr w 26.
Definition fmt (w : Z) : Z := Z.land (Z.shiftr w 21) 31.

(** "0x%08x" *)
Definition printf_08x (z : Z) : chars := pad "0"%char 8 (printf_u 16 z).

Definition fixed_head : list chars := map lit
  [ ".set mips64"; ".set noreorder"; ".set nobopt"; ".set noat"; ""; "		.text";
    "		.global start"; "		.ent start"; "start:"; "		mfc0 $t0, $12";
    "		li $t1, 1 << 29"; "		or $t0, $t0, $t1"; "		mtc0 $t0, $12"; "		nop";
    "		nop"; "		nop" ]%string.

Definition fixed_tail : list chars := map lit
  [ "		mtc0 $at, $26"; "		nop"; "		nop"; "		mtc0 $at, $23"; "end:"; "		b end";
    "		nop"; ".end start" ]%string.

(** [rnd] is the sequence the calls of [random()] return *)
Definition fuzz_fpu (rnd : nat -> Z) : chars :=
  concat (map (fun s => line [s]) fixed_head)
  ++ concat (map (fun i => line [lit "		.word 0x"; printf_08x (fpu_word (rnd i))]) (seq 0 1024))
  ++ concat (map (fun s => line [s]) fixed_tail).

Lemma fpu_word_bits rnd n : 0 <= n < 32 ->
  Z.testbit (fpu_word rnd) n
  = (Z.testbit rnd n && Z.testbit 0x00bfffff n) || Z.testbit 0x46000000 n.
Proof.
  intros Hn. unfold fpu_word, wrap. rewrite Z.lor_spec, Z.land_spec, <- Z.land_ones by lia.
  rewrite Z.land_spec, Z.testbit_ones by lia.
  rewrite (proj2 (Z.leb_le 0 n)), (proj2 (Z.ltb_lt n 32)) by lia. by rewrite andb_true_r.
Qed.

Lemma fpu_word_above rnd n : 32 <= n -> Z.testbit (fpu_word rnd) n = false.
Proof.
  intros Hn. unfold fpu_word. rewrite Z.lor_spec, Z.land_spec.
  rewrite (Z.bits_above_log2 0xbfffff), (Z.bits_above_log2 0x46000000) by (simpl; lia).
  by rewrite andb_false_r.
Qed.

(** a property of the bits below a bound, one by one *)
Lemma below_cases (P : Z -> Prop) k : (forall i, (i < k)%nat -> P (Z.of_nat i)) ->
  forall n, 0 <= n < Z.of_nat k -> P n.
Proof. intros H n Hn. rewrite <- (Z2Nat.id n) by lia. apply H. lia. Qed.

Lemma fpu_word_opcode rnd : opcode (fpu_word rnd) = 0x11.
Proof.
  apply Z.bits_inj'. intros n Hn. unfold opcode. rewrite Z.shiftr_spec by done.
  destruct (decide (n < 6)).
  - assert (n = 0 \/ n = 1 \/ n = 2 \/ n = 3 \/ n = 4 \/ n = 5) as Hc by lia.
    rewrite fpu_word_bits by lia.
    destruct Hc as [->|[->|[->|[->|[->| ->]]]]]; simpl; by rewrite andb_false_r.
  - rewrite fpu_word_above by lia. rewrite Z.bits_above_log2; simpl; lia || done.
Qed.

Lemma fpu_word_fmt rnd :
  fmt (fpu_word rnd) = 16 + Z.b2z (Z.testbit rnd 21) + 4 * Z.b2z (Z.testbit rnd 23).
Proof.
  unfold fmt. change 31 with (Z.ones 5). apply Z.bits_inj'. intros n Hn.
  destruct (decide (n < 5)).
  - assert (n = 0 \/ n = 1 \/ n = 2 \/ n = 3 \/ n = 4) as Hc by lia.
    rewrite Z.land_spec, Z.shiftr_spec, fpu_word_bits by lia.
    destruct Hc as [->|[->|[->|[->| ->]]]];
      match goal with |- context [Z.testbit rnd (?a + ?b)] =>
        let k := eval vm_compute in (a + b) in change (a + b) with k end;
      repeat match goal with |- context [Z.testbit rnd ?k] => destruct (Z.testbit rnd k) end;
      reflexivity.
  - rewrite Z.land_spec, Z.testbit_ones_nonneg, (proj2 (Z.ltb_ge n 5)), andb_false_r by lia.
    symmetry. apply Z.bits_above_log2; [by destruct (Z.testbit rnd 21), (Z.testbit rnd 23)|].
    destruct (Z.testbit rnd 21), (Z.testbit rnd 23); simpl; lia.
Qed.

Lemma fpu_word_low rnd : fpu_word rnd mod 2 ^ 21 = rnd mod 2 ^ 21.
Proof.
  rewrite <- !Z.land_ones by lia. apply Z.bits_inj'. intros n Hn. rewrite !Z.land_spec.
  destruct (decide (n < 21)).
  - rewrite fpu_word_bits by lia. f_equal.
    assert (Hm : Z.testbit 0xbfffff n = true /\ Z.testbit 0x46000000 n = false).
    { revert n Hn l. intros n Hn Hl. apply (below_cases (fun n =>
        Z.testbit 0xbfffff n = true /\ Z.testbit 0x46000000 n = false) 21); [|lia].
      intros i Hi. do 21 (destruct i as [|i]; [done|]). lia. }
    destruct Hm as [-> ->]. by rewrite andb_true_r, orb_false_r.
  - by rewrite Z.testbit_ones_nonneg, (proj2 (Z.ltb_ge n 21)), !andb_false_r by lia.
Qed.

Lemma fpu_word_range rnd : 0 <= fpu_word rnd < 2 ^ 32.
Proof.
  replace (fpu_word rnd) with (fpu_word rnd mod 2 ^ 32); [by apply Z.mod_pos_bound|].
  rewrite <- Z.land_ones by lia. apply Z.bits_inj'. intros n Hn. rewrite Z.land_spec.
  destruct (decide (n < 32)).
  - rewrite Z.testbit_ones_nonneg, (proj2 (Z.ltb_lt n 32)) by lia. by rewrite andb_true_r.
  - by rewrite (fpu_word_above rnd n) by lia.
Qed.

(** C40: every word the fuzzer writes is a coprocessor-1 instruction on one of
    the four formats single, double, word and long, with the low 21 bits those
    of the random number; it fits in 32 bits, and reading the printed
    hexadecimal gives it back. *)
Theorem fpu_word_fields rnd :
  opcode (fpu_word rnd) = 0x11
  /\ (fmt (fpu_word rnd) = 16 \/ fmt (fpu_word rnd) = 17 \/ fmt (fpu_word rnd) = 20 \/ fmt (fpu_word rnd) = 21)
  /\ fpu_word rnd mod 2 ^ 21 = rnd mod 2 ^ 21
  /\ 0 <= fpu_word rnd < 2 ^ 32
  /\ digits_value 16 0 (printf_08x (fpu_word rnd)) = fpu_word rnd.
Proof.
  split; [apply fpu_word_opcode|]. split; [|split; [apply fpu_word_low|split; [apply fpu_word_range|]]].
  - rewrite fpu_word_fmt. destruct (Z.testbit rnd 21), (Z.testbit rnd 23); simpl; lia.
  - unfold printf_08x. rewrite <- (app_nil_r (pad _ _ _)).
    apply digits_value_padded; [lia|apply fpu_word_range|done].
Qed.
End FuzzFpu.

Module SelectInit.

Inductive build := BUILD_UNCACHED | BUILD_CACHED | BUILD_UNCACHED_MULTI | BUILD_CACHED_MULTI.

Definition has (cp : chars) (s : String.string) : bool :=
  match strstr cp (lit s) with Some _ => true | None => false end.

Definition build_of (cp : chars) : build :=
  if has cp "_cachedmulti.elf" then BUILD_CACHED_MULTI
  else if has cp "_multi.elf" then BUILD_UNCACHED_MULTI
  else if has cp "_cached.elf" then BUILD_CACHED
  else BUILD_UNCACHED.

Definition raw_mc_line (objdir : chars) (b : build) : chars :=
  match b with
  | BUILD_UNCACHED => line [lit "-Traw.ld"]
  | BUILD_CACHED => line [lit "-Traw_cached.ld "; objdir; lit "/init_cached.o"]
  | BUILD_UNCACHED_MULTI => line [lit "-Traw.ld"]
  | BUILD_CACHED_MULTI => line [lit "-Traw_cached.ld "; objdir; lit "/init_cached.o"]
  end.

Definition raw_line (objdir : chars) (b : build) : chars :=
  match b with
  | BUILD_UNCACHED => line [lit "-Traw.ld"]
  | BUILD_CACHED => line [lit "-Traw_cached.ld "; objdir; lit "/init_cached.o"]
  | BUILD_UNCACHED_MULTI => line [lit "-Traw_multi.ld "; objdir; lit "/init_multi.o"]
  | BUILD_CACHED_MULTI => line [lit "-Traw_cachedmulti.ld "; objdir; lit "/init_multi.o"]
  end.

Definition purecap_line (objdir : chars) (b : build) : chars :=
  let purecap_init_objs := concat [objdir; lit "/purecap_init.o "; objdir;
    lit "/purecap_crt_init_globals.o "; objdir; lit "/purecap_lib.o"] in
  match b with
  | BUILD_UNCACHED => line [lit "-Ttest_purecap.ld "; purecap_init_objs]
  | BUILD_CACHED =>
      line [lit "-Ttest_purecap_cached.ld "; objdir; lit "/purecap_init_cached.o "; purecap_init_objs]
  | BUILD_UNCACHED_MULTI => line [lit "-Ttest_purecap.ld "; purecap_init_objs]
  | BUILD_CACHED_MULTI =>
      line [lit "-Ttest_purecap_cached.ld "; objdir; lit "/purecap_init_cached.o "; purecap_init_objs]
  end.

Definition test_line (objdir : chars) (b : build) : chars :=
  match b with
  | BUILD_UNCACHED => line [lit "-Ttest.ld "; objdir; lit "/init.o "; objdir; lit "/lib.o"]
  | BUILD_CACHED => line [lit "-Ttest_cached.ld "; objdir; lit "/init_cached.o "; objdir;
                          lit "/init.o "; objdir; lit "/lib.o"]
  | BUILD_UNCACHED_MULTI => line [lit "-Ttest.ld "; objdir; lit "/init.o "; objdir; lit "/lib.o"]
  | BUILD_CACHED_MULTI => line [lit "-Ttest_cached.ld "; objdir; lit "/init_cached.o "; objdir;
                                lit "/init.o "; objdir; lit "/lib.o"]
  end.

Definition select (objdir cp : chars) : chars :=
  let b := build_of cp in
  if strncmp_eq 12 cp (lit "test_raw_mc_") then raw_mc_line objdir b
  else if strncmp_eq 9 cp (lit "test_raw_") then raw_line objdir b
  else if strncmp_eq 13 cp (lit "test_purecap_") then purecap_line objdir b
  else test_line objdir b.

Definition select_init (argv : list chars) : res outcome :=
  match argv with
  | _ :: name :: rest =>
      let objdir := match rest with dir :: _ => dir | [] => lit "obj" end in
      Ok (Outcome 0 (select objdir (basename name)) [])
  | argv0 :: _ => Ok (Outcome (-1) [] (line [lit "Usage: "; argv0; lit " <filename> [objdir]"]))
  | [] => Err EUndef
  end.

(** ** The variant a name asks for *)

Inductive variant := Plain | Cached | Multi | CachedMulti.

Definition suffix (v : variant) : chars :=
  match v with
  | Plain => []
  | Cached => lit "_cached"
  | Multi => lit "_multi"
  | CachedMulti => lit "_cachedmulti"
  end.

Definition dot : ascii := "."%char.

(** the first dot of a string splits it *)
Lemma first_dot s w c d : dot ∉ s -> s ++ dot :: c = w ++ dot :: d ->
  w = s \/ exists w', c = w' ++ dot :: d.
Proof.
  revert w. induction s as [|y s IH]; intros [|z w] Hs Heq; simpl in Heq.
  - by left.
  - injection Heq as _ Heq. right. by exists w.
  - injection Heq as -> _. set_solver.
  - injection Heq as -> Heq. destruct (IH w) as [->|Hw]; [set_solver|done|by left|by right].
Qed.

(** in a name whose only dot is that of [.elf], a suffix is found at its end *)
Lemma elf_suffix s x : dot ∉ s ->
  (exists p q, s ++ lit ".elf" = p ++ (x ++ lit ".elf") ++ q) <-> exists p, s = p ++ x.
Proof.
  intros Hs. split.
  - intros (p & q & Hpq). exists p.
    destruct (first_dot s (p ++ x) (lit "elf") (lit "elf" ++ q)) as [->|[w Hw]]; [done| |done|].
    + etrans; [exact Hpq|]. by rewrite <- !app_assoc.
    + assert (dot ∈ lit "elf") as Hd by (rewrite Hw; set_solver).
      by apply (bool_decide_pack _) in Hd.
  - intros (p & ->). exists p, []. by rewrite app_nil_r, <- app_assoc.
Qed.

Lemma lit_app x y : lit (x ++ y) = lit x ++ lit y.
Proof. induction x as [|c x IH]; [done|]. unfold lit in *. simpl. by f_equal. Qed.

(** the build a variant is *)
Definition build_for (v : variant) : build :=
  match v with
  | Plain => BUILD_UNCACHED
  | Cached => BUILD_CACHED
  | Multi => BUILD_UNCACHED_MULTI
  | CachedMulti => BUILD_CACHED_MULTI
  end.

Definition cached (v : variant) : bool :=
  match v with Cached | CachedMulti => true | _ => false end.

(** the families of tests, by the prefix of the name *)
Inductive family := RawMc | Raw | Purecap | Ordinary.

Definition family_of (name : chars) : family :=
  if bool_decide (lit "test_raw_mc_" `prefix_of` name) then RawMc
  else if bool_decide (lit "test_raw_" `prefix_of` name) then Raw
  else if bool_decide (lit "test_purecap_" `prefix_of` name) then Purecap
  else Ordinary.

(** the linker script and the initialisation objects of a test, by family and
    variant: only raw tests have a multicore script, a raw multicore test has
    no multicore initialisation *)
Definition script (f : family) (v : variant) : chars :=
  match f with
  | RawMc => lit "raw" ++ (if cached v then lit "_cached" else [])
  | Raw => lit "raw" ++ suffix v
  | Purecap => lit "test_purecap" ++ (if cached v then lit "_cached" else [])
  | Ordinary => lit "test" ++ (if cached v then lit "_cached" else [])
  end.

Definition objects (f : family) (v : variant) : list chars :=
  match f, v with
  | RawMc, _ => if cached v then [lit "init_cached"] else []
  | Raw, Plain => []
  | Raw, Cached => [lit "init_cached"]
  | Raw, _ => [lit "init_multi"]
  | Purecap, _ => (if cached v then [lit "purecap_init_cached"] else [])
      ++ map lit ["purecap_init"; "purecap_crt_init_globals"; "purecap_lib"]%string
  | Ordinary, _ => (if cached v then [lit "init_cached"] else []) ++ map lit ["init"; "lib"]%string
  end.

(** the linker's arguments *)
Definition linker_args (objdir : chars) (f : family) (v : variant) : chars :=
  lit "-T" ++ script f v ++ lit ".ld"
  ++ concat (map (fun o => lit " " ++ objdir ++ lit "/" ++ o ++ lit ".o") (objects f v)) ++ [newline].

(** the linker scripts of the repository *)
Definition linker_scripts : list chars := map lit
  [ "raw"; "raw_cached"; "raw_cachedmulti"; "raw_multi"; "test"; "test_cached";
    "test_purecap"; "test_purecap_cached" ]%string.

Lemma has_suffix s x : dot ∉ s ->
  has (s ++ lit ".elf") (x ++ ".elf") = bool_decide (lit x `suffix_of` s).
Proof.
  intros Hs. apply Bool.eq_iff_eq_true. rewrite bool_decide_eq_true.
  pose proof (elf_suffix s (lit x) Hs) as He. unfold has. rewrite lit_app.
  destruct (strstr _ _) eqn:E.
  - apply strstr_Some in E as (p & q & Ha & ->). split; [|done]. intros _. apply He. by exists p, q.
  - apply strstr_None in E. split; [done|]. intros Hx. by apply He in Hx.
Qed.

Lemma suffix_or {A} (x y l : list A) :
  x `suffix_of` (l ++ y) -> x `suffix_of` y \/ y `suffix_of` x.
Proof. intros [k Hk]. apply app_eq_inv in Hk as [(m & -> & ->)|(m & -> & ->)]; [right|left]; by exists m. Qed.

Lemma suffix_own (s y : chars) : bool_decide (y `suffix_of` (s ++ y)) = true.
Proof. apply bool_decide_eq_true. by exists s. Qed.

Lemma no_suffix (s x y : chars) :
  bool_decide (x `suffix_of` y) = false -> bool_decide (y `suffix_of` x) = false ->
  bool_decide (x `suffix_of` (s ++ y)) = false.
Proof. rewrite !bool_decide_eq_false. intros Hl Hn [?|?]%suffix_or; done. Qed.

(** a stem that carries no variant itself *)
Definition plain_stem (s : chars) : Prop :=
  (dot ∉ s) /\ (slash ∉ s) /\ forall v, v <> Plain -> ~ (suffix v `suffix_of` s).

Lemma build_of_variant s v : plain_stem s -> build_of (s ++ suffix v ++ lit ".elf") = build_for v.
Proof.
  intros (Hd & _ & Hv). rewrite app_assoc.
  assert (dot ∉ s ++ suffix v) as Hdv.
  { rewrite not_elem_of_app. split; [done|]. destruct v; by refine (bool_decide_unpack _ _). }
  unfold build_of.
  rewrite (has_suffix _ "_cachedmulti"), (has_suffix _ "_multi"), (has_suffix _ "_cached") by done.
  destruct v; simpl.
  - rewrite app_nil_r, !bool_decide_eq_false_2; [done|by apply (Hv Cached)|by apply (Hv Multi)|by apply (Hv CachedMulti)].
  - by rewrite suffix_own, !no_suffix.
  - by rewrite suffix_own, !no_suffix.
  - by rewrite suffix_own.
Qed.

Lemma strncmp_prefix n (s x : chars) : n = length x ->
  strncmp_eq n s x = bool_decide (x `prefix_of` s).
Proof.
  intros ->. apply Bool.eq_iff_eq_true. rewrite bool_decide_eq_true. apply strncmp_eq_spec.
Qed.

Lemma select_args objdir name v : build_of name = build_for v ->
  select objdir name = linker_args objdir (family_of name) v.
Proof.
  intros Hb. unfold select, family_of. rewrite Hb, !strncmp_prefix by done.
  repeat case_bool_decide; destruct v; unfold linker_args, line; cbn -[lit]; by rewrite <- ?app_assoc.
Qed.

Lemma script_known f v : script f v ∈ linker_scripts.
Proof. destruct f, v; by refine (bool_decide_unpack _ _). Qed.

(** C37: for a test whose name is a stem, a variant and [.elf], in any
    directory, the program prints the linker script and the initialisation
    objects of the test's family and variant, and the script is one of the
    repository's. *)
Theorem select_init_args argv0 dir s v objdir rest :
  plain_stem s ->
  let name := s ++ suffix v ++ lit ".elf" in
  let f := family_of name in
  select_init (argv0 :: (dir ++ slash :: name) :: objdir :: rest)
    = Ok (Outcome 0 (linker_args objdir f v) [])
  /\ select_init [argv0; name] = Ok (Outcome 0 (linker_args (lit "obj") f v) [])
  /\ script f v ∈ linker_scripts.
Proof.
  intros Hs name f. pose proof (build_of_variant s v Hs) as Hb.
  assert (Hn : slash ∉ name).
  { destruct Hs as (_ & Hs & _). unfold name. rewrite !not_elem_of_app.
    split; [done|]. split; [destruct v|]; by refine (bool_decide_unpack _ _). }
  unfold select_init. rewrite basename_path, basename_plain by done.
  split; [|split; [|apply script_known]]; by rewrite (select_args _ _ v Hb).
Qed.

Lemma select_init_args_witness :
  plain_stem (lit "test_raw_mc_cp0_reg")
  /\ select_init [lit "select_init"; lit "obj/test_raw_mc_cp0_reg_cachedmulti.elf"; lit "out"]
     = Ok (Outcome 0 (line [lit "-Traw_cached.ld out/init_cached.o"]) []).
Proof.
  assert (Hs : plain_stem (lit "test_raw_mc_cp0_reg")).
  { split; [by refine (bool_decide_unpack _ _)|]. split; [by refine (bool_decide_unpack _ _)|].
    intros v Hv. destruct v; [done|..]; by refine (bool_decide_unpack _ _). }
  split; [exact Hs|].
  exact (proj1 (select_init_args (lit "select_init") (lit "obj") _ CachedMulti (lit "out") [] Hs)).
Defined.
End SelectInit.
