(* ===== verification/ElfHdr.v ===== *)
(** * ElfHdr: wrapping a raw image in an ELF file.

    [elfhdr.c] writes a big-endian 64-bit MIPS executable with one segment, the
    bytes of its input file.  The structures of [<elf.h>] are records, stored
    with the byte order of the machine the program runs on, which [htons],
    [htonl] and [flip64] make up for. *)

From S2P Require Import Prelude CStdio.

(** ** Integers in the host's memory *)

Definition host_bytes (big : bool) (n : nat) (v : Z) : list Z :=
  if big then be_bytes n v else rev (be_bytes n v).

Definition host_value (big : bool) (bs : list Z) : Z :=
  be_value (if big then bs else rev bs).

(** network order: the integer whose bytes in memory are big-endian *)
Definition htons (big : bool) (v : Z) : Z := host_value big (be_bytes 2 v).
Definition htonl (big : bool) (v : Z) : Z := host_value big (be_bytes 4 v).

(** the bytes [fp[0]] to [fp[7]], read as an integer *)
Definition flip64 (big : bool) (x : Z) : Z :=
  host_value big
    [ Z.land (Z.shiftr x 56) 0xff; Z.land (Z.shiftr x 48) 0xff; Z.land (Z.shiftr x 40) 0xff;
      Z.land (Z.shiftr x 32) 0xff; Z.land (Z.shiftr x 24) 0xff; Z.land (Z.shiftr x 16) 0xff;
      Z.land (Z.shiftr x 8) 0xff; Z.land x 0xff ].

(** ** The structures of elf.h *)

Record Elf64_Ehdr := Ehdr {
  e_ident : list Z; e_type : Z; e_machine : Z; e_version : Z; e_entry : Z; e_phoff : Z;
  e_shoff : Z; e_flags : Z; e_ehsize : Z; e_phentsize : Z; e_phnum : Z; e_shentsize : Z;
  e_shnum : Z; e_shstrndx : Z }.

Record Elf64_Phdr := Phdr {
  p_type : Z; p_flags : Z; p_offset : Z; p_vaddr : Z; p_paddr : Z; p_filesz : Z; p_memsz : Z;
  p_align : Z }.

Record Elf64_Shdr := Shdr {
  sh_name : Z; sh_type : Z; sh_flags : Z; sh_addr : Z; sh_offset : Z; sh_size : Z; sh_link : Z;
  sh_info : Z; sh_addralign : Z; sh_entsize : Z }.

Definition sizeof_Ehdr := 64.
Definition sizeof_Phdr := 56.
Definition sizeof_Shdr := 64.

(** the widths and values of a structure's integer fields *)
Definition ehdr_fields (h : Elf64_Ehdr) : list (nat * Z) :=
  [ (2%nat, e_type h); (2%nat, e_machine h); (4%nat, e_version h); (8%nat, e_entry h);
    (8%nat, e_phoff h); (8%nat, e_shoff h); (4%nat, e_flags h); (2%nat, e_ehsize h);
    (2%nat, e_phentsize h); (2%nat, e_phnum h); (2%nat, e_shentsize h); (2%nat, e_shnum h);
    (2%nat, e_shstrndx h) ].
Definition phdr_fields (p : Elf64_Phdr) : list (nat * Z) :=
  [ (4%nat, p_type p); (4%nat, p_flags p); (8%nat, p_offset p); (8%nat, p_vaddr p);
    (8%nat, p_paddr p); (8%nat, p_filesz p); (8%nat, p_memsz p); (8%nat, p_align p) ].
Definition shdr_fields (s : Elf64_Shdr) : list (nat * Z) :=
  [ (4%nat, sh_name s); (4%nat, sh_type s); (8%nat, sh_flags s); (8%nat, sh_addr s);
    (8%nat, sh_offset s); (8%nat, sh_size s); (4%nat, sh_link s); (4%nat, sh_info s);
    (8%nat, sh_addralign s); (8%nat, sh_entsize s) ].

Definition image (big : bool) (fs : list (nat * Z)) : list Z :=
  concat (map (fun f => host_bytes big f.1 f.2) fs).

Definition ehdr_bytes (big : bool) (h : Elf64_Ehdr) : list Z := e_ident h ++ image big (ehdr_fields h).

(** ** The headers, for an input of [st_size] bytes *)

Definition strtab : list Z :=
  [0; 46; 115; 104; 115; 116; 114; 116; 97; 98; 0; 46; 100; 97; 116; 97; 0].

Definition h (big : bool) : Elf64_Ehdr := {|
  e_ident := [0x7f; 69; 76; 70; 2; 2; 1; 0; 0; 0; 0; 0; 0; 0; 0; 0];
  e_type := htons big 2;
  e_machine := htons big 8;
  e_version := htonl big 1;
  e_entry := flip64 big 0x9000000040000000;
  e_phoff := flip64 big sizeof_Ehdr;
  e_shoff := flip64 big (sizeof_Ehdr + sizeof_Phdr);
  e_flags := htonl big 0x60000001;
  e_ehsize := htons big sizeof_Ehdr;
  e_phentsize := htons big sizeof_Phdr;
  e_phnum := htons big 1;
  e_shentsize := htons big sizeof_Shdr;
  e_shnum := htons big 3;
  e_shstrndx := htons big 2 |}.

Definition ph (big : bool) (st_size : Z) : Elf64_Phdr := {|
  p_type := htonl big 1;
  p_flags := htonl big (Z.lor (Z.lor 4 2) 1);
  p_offset := flip64 big 1024;
  p_vaddr := flip64 big 0x9000000040000000;
  p_paddr := flip64 big 0x40000000;
  p_filesz := flip64 big st_size;
  p_memsz := flip64 big st_size;
  p_align := flip64 big 1024 |}.

Definition sh0 (big : bool) : Elf64_Shdr := {|
  sh_name := 0; sh_type := htonl big 0; sh_flags := 0; sh_addr := 0; sh_offset := 0;
  sh_size := flip64 big 0; sh_link := 0; sh_info := 0; sh_addralign := 0; sh_entsize := 0 |}.

Definition sh1 (big : bool) (st_size : Z) : Elf64_Shdr := {|
  sh_name := htonl big 11;
  sh_type := htonl big 1;
  sh_flags := flip64 big (Z.lor (Z.lor 1 2) 4);
  sh_addr := flip64 big 0x9000000040000000;
  sh_offset := flip64 big 1024;
  sh_size := flip64 big st_size;
  sh_link := 0; sh_info := 0;
  sh_addralign := flip64 big 8;
  sh_entsize := 0 |}.

Definition sh2 (big : bool) : Elf64_Shdr := {|
  sh_name := htonl big 1;
  sh_type := htonl big 3;
  sh_flags := 0; sh_addr := 0;
  sh_offset := flip64 big (sizeof_Ehdr + sizeof_Phdr + 3 * sizeof_Shdr);
  sh_size := flip64 big (Z.of_nat (length strtab));
  sh_link := 0; sh_info := 0; sh_addralign := 0;
  sh_entsize := flip64 big 0 |}.

(** ** Streams *)

(** an output stream: what the file holds and the position *)
Record FILE := File { f_data : list Z; f_pos : nat }.

(** bytes written at the position; a gap before it reads as zeros *)
Definition fwrite (bs : list Z) (f : FILE) : FILE :=
  File (take (f_pos f) (f_data f ++ replicate (f_pos f - length (f_data f)) 0)
        ++ bs ++ drop (f_pos f + length bs) (f_data f))
       (f_pos f + length bs).

Definition fseek (pos : nat) (f : FILE) : FILE := File (f_data f) pos.

Definition EOF := -1.

Definition fgetc (input : list Z) : Z * list Z :=
  match input with
  | [] => (EOF, [])
  | b :: rest => (b, rest)
  end.

Definition fputc (c : Z) (f : FILE) : FILE := fwrite [u8 c] f.

(** ** The program *)

Definition write_headers (big : bool) (st_size : Z) (f_out : FILE) : FILE :=
  let f_out := fwrite (ehdr_bytes big (h big)) f_out in
  let f_out := fwrite (image big (phdr_fields (ph big st_size))) f_out in
  let f_out := fwrite (image big (shdr_fields (sh0 big))) f_out in
  let f_out := fwrite (image big (shdr_fields (sh1 big st_size))) f_out in
  let f_out := fwrite (image big (shdr_fields (sh2 big))) f_out in
  fwrite strtab f_out.

Definition copy_input (st_size : Z) (f_in : list Z) (f_out : FILE) : res FILE :=
  let* r := for_up 0 st_size (fun i st =>
    let '(f_in, f_out) := st in
    let '(c, f_in) := fgetc f_in in
    let f_out := fputc c f_out in
    let* _ := int_incr i in
    Ok (f_in, f_out)) (f_in, fseek 1024 f_out) in
  Ok (r.2).

(** exit status, the message on stderr, and the output file once written *)
Record result := Result { r_status : Z; r_stderr : chars; r_file : option (list Z) }.

Section main.
(** the operating system: a file's size, its contents, whether a file can be
    opened for writing *)
Context (stat : chars -> option Z) (fopen_r : chars -> option (list Z)) (fopen_w : chars -> bool).

Definition elfhdr (big : bool) (argv : list chars) : res result :=
  match argv with
  | _ :: fname_in :: fname_out :: _ =>
      match stat fname_in with
      | None => Ok (Result (-1) (lit "Couldn't fstat " ++ fname_in ++ [newline]) None)
      | Some st_size =>
          match fopen_r fname_in with
          | None => Ok (Result (-1) (lit "Couldn't open " ++ fname_in ++ [newline]) None)
          | Some f_in =>
              if fopen_w fname_out
              then let* f_out := copy_input st_size f_in (write_headers big st_size (File [] 0)) in
                   Ok (Result 0 [] (Some (f_data f_out)))
              else Ok (Result (-1) (lit "Couldn't open " ++ fname_out ++ [newline]) None)
          end
      end
  | _ => Ok (Result (-1) (lit "Usage: elfhdr <input file> <output file>" ++ [newline]) None)
  end.
End main.

(** ** A reader of big-endian 64-bit ELF files *)

Fixpoint decode (ws : list nat) (bs : list Z) : list Z :=
  match ws with
  | [] => []
  | w :: ws' => be_value (take w bs) :: decode ws' (drop w bs)
  end.

Definition at_ofs (file : list Z) (ofs : Z) : list Z := drop (Z.to_nat ofs) file.
Definition slice (file : list Z) (ofs n : Z) : list Z := take (Z.to_nat n) (at_ofs file ofs).

Fixpoint name_at (bs : list Z) : list Z :=
  match bs with
  | [] => []
  | b :: bs' => if b =? 0 then [] else b :: name_at bs'
  end.

Record segment := Segment { s_type : Z; s_flags : Z; s_vaddr : Z; s_paddr : Z; s_memsz : Z; s_bytes : list Z }.
Record section := Section_ { c_name : list Z; c_type : Z; c_flags : Z; c_address : Z; c_bytes : list Z }.
Record elf := Elf { l_machine : Z; l_entry : Z; l_segments : list segment; l_sections : list section }.

Definition ehdr_ws : list nat := map fst (ehdr_fields (h true)).
Definition phdr_ws : list nat := map fst (phdr_fields (ph true 0)).
Definition shdr_ws : list nat := map fst (shdr_fields (sh0 true)).

Definition read_segment (file : list Z) (ofs : Z) : option segment :=
  match decode phdr_ws (at_ofs file ofs) with
  | [ty; fl; o; va; pa; fsz; msz; _] => Some (Segment ty fl va pa msz (slice file o fsz))
  | _ => None
  end.

Definition read_section (file names : list Z) (ofs : Z) : option section :=
  match decode shdr_ws (at_ofs file ofs) with
  | [nm; ty; fl; ad; o; sz; _; _; _; _] => Some (Section_ (name_at (at_ofs names nm)) ty fl ad (slice file o sz))
  | _ => None
  end.

(** the section that holds the names *)
Definition read_names (file : list Z) (ofs : Z) : option (list Z) :=
  match decode shdr_ws (at_ofs file ofs) with
  | [_; _; _; _; o; sz; _; _; _; _] => Some (slice file o sz)
  | _ => None
  end.

Definition read_elf (file : list Z) : option elf :=
  if decide (take 7 file = [0x7f; 69; 76; 70; 2; 2; 1]) then
    match decode ehdr_ws (drop 16 file) with
    | [ty; mc; ver; en; pho; sho; fl; ehsz; phsz; phn; shsz; shn; shx] =>
        names ← read_names file (sho + shx * shsz);
        segs ← mapM (fun i => read_segment file (pho + Z.of_nat i * phsz)) (seq 0 (Z.to_nat phn));
        secs ← mapM (fun i => read_section file names (sho + Z.of_nat i * shsz)) (seq 0 (Z.to_nat shn));
        Some (Elf mc en segs secs)
    | _ => None
    end
  else None.

(** ** What the structures look like in the file *)

Definition encode (fs : list (nat * Z)) : list Z := concat (map (fun f => be_bytes f.1 f.2) fs).

Definition in_range (f : nat * Z) : Prop := 0 <= f.2 < 256 ^ Z.of_nat f.1.

Lemma decode_encode fs rest : Forall in_range fs ->
  decode (map fst fs) (encode fs ++ rest) = map snd fs.
Proof.
  induction 1 as [|[n v] fs Hv Hfs IH]; [done|]. unfold encode in *. cbn [map concat decode fst snd].
  rewrite <- app_assoc, take_be_bytes, be_value_bytes_small by exact Hv.
  pose proof (drop_be_bytes n 0 v (concat (map (fun f => be_bytes f.1 f.2) fs) ++ rest)) as Hd.
  rewrite Nat.add_0_r, drop_0 in Hd. by rewrite Hd, IH.
Qed.

Lemma be_bytes_range n v : Forall (fun b => 0 <= b < 256) (be_bytes n v).
Proof.
  revert v; induction n as [|n IH]; intros v; simpl; [by constructor|].
  apply Forall_app. split; [done|]. repeat constructor; by apply Z.mod_pos_bound.
Qed.

Lemma be_bytes_value bs : Forall (fun b => 0 <= b < 256) bs -> be_bytes (length bs) (be_value bs) = bs.
Proof.
  induction bs as [|b bs IH] using rev_ind; intros Hb; [done|].
  apply Forall_app in Hb as [Hbs Hb]. apply Forall_cons in Hb as [Hb _].
  rewrite length_app, be_value_app. simpl length. rewrite Nat.add_1_r. cbn [be_bytes].
  replace ((be_value bs * 256 + b) / 256) with (be_value bs) by mlia.
  replace ((be_value bs * 256 + b) mod 256) with b by mlia. by rewrite IH.
Qed.

(** storing what was read from bytes gives the bytes back, on either host *)
Lemma host_bytes_value big n bs : length bs = n -> Forall (fun b => 0 <= b < 256) bs ->
  host_bytes big n (host_value big bs) = bs.
Proof.
  intros <- Hb. unfold host_bytes, host_value. destruct big; [by apply be_bytes_value|].
  rewrite <- (length_rev bs), be_bytes_value by by apply Forall_rev.
  apply rev_involutive.
Qed.

Lemma host_htons big v : host_bytes big 2 (htons big v) = be_bytes 2 v.
Proof. apply host_bytes_value; [done|apply be_bytes_range]. Qed.

Lemma host_htonl big v : host_bytes big 4 (htonl big v) = be_bytes 4 v.
Proof. apply host_bytes_value; [done|apply be_bytes_range]. Qed.

Lemma flip64_bytes x :
  [ Z.land (Z.shiftr x 56) 0xff; Z.land (Z.shiftr x 48) 0xff; Z.land (Z.shiftr x 40) 0xff;
    Z.land (Z.shiftr x 32) 0xff; Z.land (Z.shiftr x 24) 0xff; Z.land (Z.shiftr x 16) 0xff;
    Z.land (Z.shiftr x 8) 0xff; Z.land x 0xff ] = be_bytes 8 x.
Proof.
  change 0xff with (2 ^ 8 - 1). rewrite !land_mask by lia. rewrite !Z.shiftr_div_pow2 by lia.
  cbn [be_bytes app]. rewrite !Z.div_div by lia. done.
Qed.

Lemma host_flip64 big x : host_bytes big 8 (flip64 big x) = be_bytes 8 x.
Proof. unfold flip64. rewrite flip64_bytes. apply host_bytes_value; [done|apply be_bytes_range]. Qed.

Lemma host_zero big n : host_bytes big n 0 = be_bytes n 0.
Proof.
  destruct big; [done|]. unfold host_bytes.
  assert (H : be_bytes n 0 = replicate n 0).
  { induction n as [|n IH]; [done|]. cbn [be_bytes]. change (0 / 256) with 0. change (0 mod 256) with 0.
    rewrite IH. by rewrite <- replicate_cons_app. }
  rewrite H. clear H. induction n as [|n IH]; [done|]. simpl. rewrite IH.
  by rewrite <- replicate_cons_app.
Qed.

(** the values the structures are given *)
Definition ehdr_values : list (nat * Z) := combine ehdr_ws
  [2; 8; 1; 0x9000000040000000; 64; 120; 0x60000001; 64; 56; 1; 64; 3; 2].
Definition phdr_values (st_size : Z) : list (nat * Z) := combine phdr_ws
  [1; 7; 1024; 0x9000000040000000; 0x40000000; st_size; st_size; 1024].
Definition sh0_values : list (nat * Z) := combine shdr_ws [0; 0; 0; 0; 0; 0; 0; 0; 0; 0].
Definition sh1_values (st_size : Z) : list (nat * Z) := combine shdr_ws
  [11; 1; 7; 0x9000000040000000; 1024; st_size; 0; 0; 8; 0].
Definition sh2_values : list (nat * Z) := combine shdr_ws [1; 3; 0; 0; 312; 17; 0; 0; 0; 0].

Ltac images := unfold image, encode;
  cbn -[host_bytes htons htonl flip64 be_bytes concat Z.add Z.mul Z.lor Z.of_nat];
  rewrite ?host_htons, ?host_htonl, ?host_flip64, ?host_zero; reflexivity.

Lemma ehdr_image big : image big (ehdr_fields (h big)) = encode ehdr_values.
Proof. unfold h, ehdr_fields, ehdr_values. images. Qed.
Lemma phdr_image big n : image big (phdr_fields (ph big n)) = encode (phdr_values n).
Proof. unfold ph, phdr_fields, phdr_values. images. Qed.
Lemma sh0_image big : image big (shdr_fields (sh0 big)) = encode sh0_values.
Proof. unfold sh0, shdr_fields, sh0_values. images. Qed.
Lemma sh1_image big n : image big (shdr_fields (sh1 big n)) = encode (sh1_values n).
Proof. unfold sh1, shdr_fields, sh1_values. images. Qed.
Lemma sh2_image big : image big (shdr_fields (sh2 big)) = encode sh2_values.
Proof. unfold sh2, shdr_fields, sh2_values. images. Qed.

(** ** What is written *)

Definition ident : list Z := [0x7f; 69; 76; 70; 2; 2; 1; 0; 0; 0; 0; 0; 0; 0; 0; 0].

Definition headers (st_size : Z) : list Z :=
  ident ++ encode ehdr_values ++ encode (phdr_values st_size) ++ encode sh0_values
  ++ encode (sh1_values st_size) ++ encode sh2_values ++ strtab.

(** the whole file: the contents start at offset 1024 *)
Definition elf_file (f_in : list Z) : list Z :=
  headers (Z.of_nat (length f_in)) ++ match f_in with [] => [] | _ => replicate 695 0 ++ f_in end.

Lemma fwrite_end bs d : fwrite bs (File d (length d)) = File (d ++ bs) (length (d ++ bs)).
Proof.
  unfold fwrite; cbn [f_data f_pos]. rewrite Nat.sub_diag, app_nil_r, firstn_all, drop_ge by lia.
  by rewrite app_nil_r, length_app.
Qed.

Lemma headers_length n : length (headers n) = 329%nat.
Proof. reflexivity. Qed.

Lemma write_headers_ok big n : write_headers big n (File [] 0) = File (headers n) (length (headers n)).
Proof.
  unfold write_headers, ehdr_bytes.
  rewrite ehdr_image, phdr_image, sh0_image, sh1_image, sh2_image.
  change (File [] 0) with (File [] (length (@nil Z))). rewrite !fwrite_end.
  unfold headers. by rewrite <- !app_assoc.
Qed.

Definition byte (b : Z) : Prop := 0 <= b < 256.

(** the state of the copy after [i] bytes *)
Definition copied (f_in : list Z) (i : nat) : list Z * FILE :=
  (drop i f_in,
   File (headers (Z.of_nat (length f_in))
         ++ match i with O => [] | _ => replicate 695 0 ++ take i f_in end) (1024 + i)).

Lemma copy_step f_in i b : f_in !! i = Some b -> byte b ->
  fgetc (drop i f_in) = (b, drop (S i) f_in)
  /\ fputc b (copied f_in i).2 = (copied f_in (S i)).2.
Proof.
  intros Hi Hb. rewrite (drop_S _ _ _ Hi). split; [done|].
  unfold copied, fputc, fwrite; cbn [snd f_data f_pos].
  rewrite (wrap_small 8) by exact Hb. rewrite (take_S_r f_in i b Hi).
  set (hd := headers _). assert (Hh : length hd = 329%nat) by apply headers_length.
  pose proof (lookup_lt_Some _ _ _ Hi).
  f_equal; [|simpl; lia]. rewrite (drop_ge _ (1024 + i + _)).
  - destruct i as [|i].
    + rewrite app_nil_r. rewrite Hh. change (1024 + 0 - 329)%nat with 695%nat.
      rewrite take_ge by (rewrite length_app, length_replicate; lia).
      by rewrite <- app_assoc, app_nil_r.
    + replace (1024 + S i - _)%nat with 0%nat.
      * rewrite (app_nil_r (hd ++ _)), take_ge; [by rewrite <- !app_assoc, app_nil_r|].
        rewrite !length_app, length_replicate, length_take, Hh. lia.
      * rewrite !length_app, length_replicate, length_take, Hh. lia.
  - rewrite length_app, Hh. destruct i; [simpl; lia|].
    rewrite length_app, length_replicate, length_take. cbn [length]. lia.
Qed.

Lemma copied_loop f_in (k : nat) :
  Forall byte f_in -> (k <= length f_in)%nat -> Z.of_nat k < 2 ^ 31 ->
  for_up 0 (Z.of_nat k) (fun i st =>
    let '(f_in, f_out) := st in
    let '(c, f_in) := fgetc f_in in
    let f_out := fputc c f_out in
    let* _ := int_incr i in
    Ok (f_in, f_out)) (copied f_in 0) = Ok (copied f_in k).
Proof.
  intros Hb Hk Hr.
  match goal with |- for_up _ _ ?body _ = _ =>
    destruct (for_up_inv (fun j st => st = copied f_in (Z.to_nat j)) 0 (Z.of_nat k) body (copied f_in 0))
      as (st & Hrun & Hst) end; [lia|done| |by rewrite Hrun, Hst, Nat2Z.id].
  intros i st Hi ->. destruct (lookup_lt_is_Some_2 f_in (Z.to_nat i)) as [b Hlook]; [lia|].
  destruct (copy_step f_in (Z.to_nat i) b Hlook) as [H1 H2].
  { by eapply Forall_lookup_1. }
  exists (copied f_in (Z.to_nat (i + 1))). split; [|done].
  replace (Z.to_nat (i + 1)) with (S (Z.to_nat i)) by lia.
  change (copied f_in (Z.to_nat i)) with (drop (Z.to_nat i) f_in, (copied f_in (Z.to_nat i)).2).
  cbv beta iota. rewrite H1. cbv beta iota zeta. rewrite H2.
  unfold int_incr. by rewrite (proj2 (Z.eqb_neq _ _)) by lia.
Qed.

Lemma copy_input_ok f_in : Forall byte f_in -> Z.of_nat (length f_in) < 2 ^ 31 ->
  exists f_out,
    copy_input (Z.of_nat (length f_in)) f_in
      (File (headers (Z.of_nat (length f_in))) (length (headers (Z.of_nat (length f_in))))) = Ok f_out
    /\ f_data f_out = elf_file f_in.
Proof.
  intros Hb Hr. pose proof (copied_loop f_in (length f_in) Hb ltac:(lia) Hr) as Hl.
  unfold copied at 1 in Hl. rewrite drop_0, app_nil_r, Nat.add_0_r in Hl.
  unfold copy_input, fseek; cbn [f_data]. rewrite Hl. cbn [res_bind]. eexists; split; [done|].
  unfold copied, elf_file. cbn [snd f_data]. rewrite firstn_all. by destruct f_in.
Qed.

(** ** Reading it back *)

Lemma at_ofs_app pre rest ofs : Z.of_nat (length pre) = ofs -> at_ofs (pre ++ rest) ofs = rest.
Proof. intros <-. unfold at_ofs. rewrite Nat2Z.id. apply drop_app_length. Qed.

Definition tail_of (f_in : list Z) : list Z := match f_in with [] => [] | _ => replicate 695 0 ++ f_in end.

Ltac part := unfold elf_file, headers; rewrite <- ?app_assoc;
  repeat (first [ apply at_ofs_app; reflexivity | rewrite app_assoc ]).

Section reading.
Context (f_in : list Z).
Let n := Z.of_nat (length f_in).

Lemma elf_ehdr : drop 16 (elf_file f_in)
  = encode ehdr_values ++ encode (phdr_values n) ++ encode sh0_values ++ encode (sh1_values n)
    ++ encode sh2_values ++ strtab ++ tail_of f_in.
Proof. change (drop 16 ?l) with (at_ofs l 16). part. Qed.

Lemma elf_phdr : at_ofs (elf_file f_in) 64
  = encode (phdr_values n) ++ encode sh0_values ++ encode (sh1_values n)
    ++ encode sh2_values ++ strtab ++ tail_of f_in.
Proof. part. Qed.

Lemma elf_sh0 : at_ofs (elf_file f_in) 120
  = encode sh0_values ++ encode (sh1_values n) ++ encode sh2_values ++ strtab ++ tail_of f_in.
Proof. part. Qed.

Lemma elf_sh1 : at_ofs (elf_file f_in) 184
  = encode (sh1_values n) ++ encode sh2_values ++ strtab ++ tail_of f_in.
Proof. part. Qed.

Lemma elf_sh2 : at_ofs (elf_file f_in) 248 = encode sh2_values ++ strtab ++ tail_of f_in.
Proof. part. Qed.

Lemma elf_strtab : at_ofs (elf_file f_in) 312 = strtab ++ tail_of f_in.
Proof. part. Qed.

Lemma elf_contents : slice (elf_file f_in) 1024 n = f_in.
Proof.
  unfold slice, n. rewrite Nat2Z.id. unfold elf_file. destruct f_in as [|b l]; [done|].
  rewrite app_assoc. rewrite at_ofs_app; [apply firstn_all|].
  rewrite length_app, headers_length, length_replicate. done.
Qed.
End reading.

Ltac ranges := repeat apply Forall_cons_2; try apply Forall_nil_2; unfold in_range; cbn [fst snd]; lia.

Lemma decode_ehdr rest : decode ehdr_ws (encode ehdr_values ++ rest) = map snd ehdr_values.
Proof. apply (decode_encode ehdr_values). ranges. Qed.

Lemma decode_phdr n rest : 0 <= n < 2 ^ 64 ->
  decode phdr_ws (encode (phdr_values n) ++ rest) = map snd (phdr_values n).
Proof. intros Hn. apply (decode_encode (phdr_values n)). ranges. Qed.

Lemma decode_sh0 rest : decode shdr_ws (encode sh0_values ++ rest) = map snd sh0_values.
Proof. apply (decode_encode sh0_values). ranges. Qed.

Lemma decode_sh1 n rest : 0 <= n < 2 ^ 64 ->
  decode shdr_ws (encode (sh1_values n) ++ rest) = map snd (sh1_values n).
Proof. intros Hn. apply (decode_encode (sh1_values n)). ranges. Qed.

Lemma decode_sh2 rest : decode shdr_ws (encode sh2_values ++ rest) = map snd sh2_values.
Proof. apply (decode_encode sh2_values). ranges. Qed.

(** the executable that is meant: one segment with everything in it, named
    [.data] as a section *)
Definition wrapped (f_in : list Z) : elf :=
  let size := Z.of_nat (length f_in) in
  Elf 8 0x9000000040000000
    [ Segment 1 7 0x9000000040000000 0x40000000 size f_in ]
    [ Section_ [] 0 0 0 [];
      Section_ (map code_of (lit ".data")) 1 7 0x9000000040000000 f_in;
      Section_ (map code_of (lit ".shstrtab")) 3 0 0 strtab ].

Lemma read_elf_file f_in : Z.of_nat (length f_in) < 2 ^ 31 -> read_elf (elf_file f_in) = Some (wrapped f_in).
Proof.
  intros Hn. unfold read_elf. set (file := elf_file f_in).
  rewrite decide_True by done. unfold file. rewrite elf_ehdr, decode_ehdr.
  cbn [map snd ehdr_values combine ehdr_ws ehdr_fields fst].
  assert (Hnames : read_names file 248 = Some strtab).
  { unfold read_names, file. rewrite elf_sh2, decode_sh2.
    cbn [map snd sh2_values combine shdr_ws shdr_fields fst].
    unfold slice. rewrite elf_strtab. done. }
  change (120 + 2 * 64) with 248. fold file. rewrite Hnames. cbn [mbind option_bind].
  change (Z.to_nat 1) with 1%nat. change (Z.to_nat 3) with 3%nat. cbn [seq mapM mbind option_bind].
  change (64 + Z.of_nat 0 * 56) with 64. change (120 + Z.of_nat 0 * 64) with 120.
  change (120 + Z.of_nat 1 * 64) with 184. change (120 + Z.of_nat 2 * 64) with 248.
  assert (Hseg : read_segment file 64 =
    Some (Segment 1 7 0x9000000040000000 0x40000000 (Z.of_nat (length f_in)) f_in)).
  { unfold read_segment, file. rewrite elf_phdr, decode_phdr by lia.
    cbn [map snd phdr_values combine phdr_ws phdr_fields fst]. by rewrite elf_contents. }
  assert (H0 : read_section file strtab 120 = Some (Section_ [] 0 0 0 [])).
  { unfold read_section, file. rewrite elf_sh0, decode_sh0. done. }
  assert (H1 : read_section file strtab 184 =
    Some (Section_ (map code_of (lit ".data")) 1 7 0x9000000040000000 f_in)).
  { unfold read_section, file. rewrite elf_sh1, decode_sh1 by lia.
    cbn [map snd sh1_values combine shdr_ws shdr_fields fst]. by rewrite elf_contents. }
  assert (H2 : read_section file strtab 248 =
    Some (Section_ (map code_of (lit ".shstrtab")) 3 0 0 strtab)).
  { unfold read_section, file. rewrite elf_sh2, decode_sh2.
    cbn [map snd sh2_values combine shdr_ws shdr_fields fst]. unfold slice. rewrite elf_strtab. done. }
  rewrite Hseg, H0, H1, H2. done.
Qed.

(** C18: for an input file of less than two gigabytes whose contents are read as
    their size says, on a machine of either byte order, the program exits with
    status 0 and the file it writes, read as a big-endian 64-bit ELF file, is
    the executable meant: entry and load address 0x9000000040000000, one
    loadable segment and one [.data] section whose bytes are those of the
    input. *)
Theorem elfhdr_roundtrip stat fopen_r fopen_w big argv0 fname_in fname_out rest f_in :
  stat fname_in = Some (Z.of_nat (length f_in)) -> fopen_r fname_in = Some f_in ->
  fopen_w fname_out = true -> Forall byte f_in -> Z.of_nat (length f_in) < 2 ^ 31 ->
  exists file,
    elfhdr stat fopen_r fopen_w big (argv0 :: fname_in :: fname_out :: rest) = Ok (Result 0 [] (Some file))
    /\ read_elf file = Some (wrapped f_in).
Proof.
  intros Hs Hr Hw Hb Hn. exists (elf_file f_in). split; [|by apply read_elf_file].
  unfold elfhdr. rewrite Hs, Hr, Hw, write_headers_ok.
  destruct (copy_input_ok f_in Hb Hn) as (f_out & -> & Hf). cbn [res_bind]. by rewrite Hf.
Qed.

Lemma elfhdr_roundtrip_witness : exists file,
  elfhdr (fun _ => Some 3) (fun _ => Some [0x24; 1; 0xff]) (fun _ => true) false
    [lit "elfhdr"; lit "mem.bin"; lit "mem.elf"] = Ok (Result 0 [] (Some file))
  /\ read_elf file = Some (wrapped [0x24; 1; 0xff]).
Proof.
  refine (elfhdr_roundtrip (fun _ => Some 3) (fun _ => Some [0x24; 1; 0xff]) (fun _ => true) false
    (lit "elfhdr") (lit "mem.bin") (lit "mem.elf") [] [0x24; 1; 0xff] _ _ _ _ _); try reflexivity.
  repeat constructor; lia.
Defined.

(** ** Inputs the counter cannot count *)

Lemma for_loop_err {S} (body : Z -> S -> res S) k e :
  (forall st, body k st = Err e) -> forall n i st, i <= k < i + Z.of_nat n ->
  (forall j st, i <= j < k -> exists st', body j st = Ok st') -> for_loop n i body st = Err e.
Proof.
  intros Hk. induction n as [|n IH]; intros i st Hi Hj; [lia|]. cbn [for_loop].
  destruct (decide (i = k)) as [->|Hne]; [by rewrite Hk|].
  destruct (Hj i st) as [st' ->]; [lia|]. cbn [res_bind]. apply IH; [lia|].
  intros j st0 H. apply Hj. lia.
Qed.

(** For an input of two gigabytes or more the [int] that counts the bytes
    overflows, which C leaves undefined, whatever the input file holds. *)
Theorem elfhdr_large_input stat fopen_r fopen_w big argv0 fname_in fname_out rest st_size f_in :
  stat fname_in = Some st_size -> fopen_r fname_in = Some f_in -> fopen_w fname_out = true ->
  2 ^ 31 <= st_size ->
  elfhdr stat fopen_r fopen_w big (argv0 :: fname_in :: fname_out :: rest) = Err EUndef.
Proof.
  intros Hs Hr Hw Hn. unfold elfhdr, copy_input, for_up. rewrite Hs, Hr, Hw.
  rewrite (for_loop_err _ (2 ^ 31 - 1) EUndef); [done| |lia|].
  - intros [i o]. by destruct i.
  - intros j [i o] Hj. unfold int_incr. rewrite (proj2 (Z.eqb_neq _ _)) by lia.
    destruct i; cbn; eauto.
Qed.

Lemma elfhdr_large_input_witness :
  elfhdr (fun _ => Some (2 ^ 31)) (fun _ => Some []) (fun _ => true) true
    [lit "elfhdr"; lit "mem.bin"; lit "mem.elf"] = Err EUndef.
Proof.
  refine (elfhdr_large_input (fun _ => Some (2 ^ 31)) (fun _ => Some []) (fun _ => true) true
    (lit "elfhdr") (lit "mem.bin") (lit "mem.elf") [] (2 ^ 31) [] _ _ _ _); reflexivity.
Defined.
