(* ===== verification/XmlCat.v ===== *)
(** * XmlCat: concatenating JUnit files.

    [xmlcat.c] puts the children of the root elements of the files it is given
    under one new root, whose attributes count the tests of all of them.  It is
    written on libxml2, which is not in the repository: reading a file, copying
    a node and adding a child are parameters, and what the program relies on is
    a class. *)

From S2P Require Import Prelude CStdio.

(** ** libxml2 *)

Section libxml.
Context (xmlNode : Type).

(** an attribute: its name, and the content of its first child if it has both *)
Record xmlAttr := Attr { a_name : chars; a_content : option chars }.

(** a document that was read: the attributes and the children of its root *)
Record xmlRoot := Root { properties : list xmlAttr; children : list xmlNode }.

(** [xmlReadFile] (NULL when it fails), [xmlDocGetRootElement] (NULL for a
    document without one), [xmlCopyNode(node, 1)], and [xmlAddChild], which may
    merge a text into the text before it *)
Class LibXml := {
  xmlReadFile : chars -> option (option xmlRoot);
  xmlCopyNode : xmlNode -> xmlNode;
  xmlAddChild : list xmlNode -> xmlNode -> list xmlNode;
}.

(** what the program relies on: nothing of the contents is lost or reordered *)
Class LibXmlLaws (token : Type) `{LibXml} (content : list xmlNode -> list token) : Prop := {
  content_nil : content [] = [];
  content_copy n : content [xmlCopyNode n] = content [n];
  content_cons n l : content (n :: l) = content [n] ++ content l;
  content_add l n : content (xmlAddChild l n) = content l ++ content [n];
}.
End libxml.
Arguments Root {xmlNode} properties children.
Arguments properties {xmlNode} x.
Arguments children {xmlNode} x.

(** ** The program *)

(** [a += b] on [int] *)
Definition int_add (a b : Z) : res Z :=
  let c := a + b in if (- 2 ^ 31 <=? c) && (c <? 2 ^ 31) then Ok c else Err EUndef.

(** [sprintf(buff, "%d", v)] with [char buff[16]] *)
Definition sprintf_d (v : Z) : res chars :=
  let s := printf_d v in if (length s <? 16)%nat then Ok s else Err EUndef.

Record counters := Counters { tests : Z; errors : Z; failures : Z; skip : Z }.

Section xmlcat.
Context {xmlNode : Type} {lib : LibXml xmlNode}.

(** what is saved: the attributes and the children of the new root *)
Record xcat_outcome := XOutcome {
  x_status : Z; x_stderr : chars; x_saved : option (list (chars * chars) * list xmlNode) }.

Definition count_attr (c : counters) (a : xmlAttr) : res counters :=
  let add n := match a_content a with Some s => int_add n (atoi s) | None => Ok n end in
  if strcmp_eq (a_name a) (lit "tests") then
    let* v := add (tests c) in Ok (Counters v (errors c) (failures c) (skip c))
  else if strcmp_eq (a_name a) (lit "errors") then
    let* v := add (errors c) in Ok (Counters (tests c) v (failures c) (skip c))
  else if strcmp_eq (a_name a) (lit "failures") then
    let* v := add (failures c) in Ok (Counters (tests c) (errors c) v (skip c))
  else if strcmp_eq (a_name a) (lit "skip") then
    let* v := add (skip c) in Ok (Counters (tests c) (errors c) (failures c) v)
  else Ok c.

Fixpoint count_attrs (c : counters) (attr : list xmlAttr) : res counters :=
  match attr with
  | [] => Ok c
  | a :: attr' => let* c := count_attr c a in count_attrs c attr'
  end.

Fixpoint add_children (root_out : list xmlNode) (l : list xmlNode) : list xmlNode :=
  match l with
  | [] => root_out
  | n :: l' => add_children (xmlAddChild xmlNode root_out (xmlCopyNode xmlNode n)) l'
  end.

(** the loop over the arguments; [inl] is the early return *)
Fixpoint cat_files (argv : list chars) (c : counters) (root_out : list xmlNode)
  : res (xcat_outcome + (counters * list xmlNode)) :=
  match argv with
  | [] => Ok (inr (c, root_out))
  | f :: argv' =>
      match xmlReadFile xmlNode f with
      | None => Ok (inl (XOutcome (-1) (lit "Failed to open " ++ f ++ [newline]) None))
      | Some None => Err EUndef
      | Some (Some root_in) =>
          let* c := count_attrs c (properties root_in) in
          cat_files argv' c (add_children root_out (children root_in))
      end
  end.

Definition xmlcat (argv : list chars) : res xcat_outcome :=
  let* r := cat_files (tail argv) (Counters 0 0 0 0) [] in
  match r with
  | inl o => Ok o
  | inr (c, root_out) =>
      let* t := sprintf_d (tests c) in
      let* f := sprintf_d (failures c) in
      let* e := sprintf_d (errors c) in
      let* s := sprintf_d (skip c) in
      Ok (XOutcome 0 []
        (Some ([(lit "name", lit "nosetests"); (lit "tests", t); (lit "failures", f);
                (lit "errors", e); (lit "skip", s)], root_out)))
  end.

(** ** The totals *)

(** the sum of the values of an attribute *)
Fixpoint sum_attr (name : chars) (attr : list xmlAttr) : Z :=
  match attr with
  | [] => 0
  | a :: attr' =>
      (if decide (a_name a = name) then match a_content a with Some s => atoi s | None => 0 end else 0)
      + sum_attr name attr'
  end.

Definition total (name : chars) (roots : list (xmlRoot xmlNode)) : Z :=
  foldr (fun r acc => sum_attr name (properties r) + acc) 0 roots.

(** no counter is negative *)
Definition counts_ok (attr : list xmlAttr) : Prop :=
  Forall (fun a => forall s, a_content a = Some s ->
    a_name a ∈ map lit ["tests"; "errors"; "failures"; "skip"]%string -> 0 <= atoi s) attr.
End xmlcat.
Arguments XOutcome {xmlNode} x_status x_stderr x_saved.

(** ** The functions that print a tree

    They are not called; what they print is the result. *)

Inductive xmlElementType := XML_ELEMENT_NODE | XML_ATTRIBUTE_NODE | XML_TEXT_NODE | other_node (n : Z).

(** the fields they read: a pointer that is NULL is [None] *)
Record shown_attr := ShownAttr { sa_name : option chars; sa_value : option chars }.
Record shown_node := ShownNode {
  sn_type : xmlElementType;
  sn_name : option chars;
  sn_properties : list shown_attr;
  sn_content : option chars;
}.

(** [xmlTextReaderConstName(reader)] *)
Definition processNode (name : option chars) : chars :=
  match name with Some name => name ++ [newline] | None => [] end.

Fixpoint print_attributes (attr : list shown_attr) : chars :=
  match attr with
  | [] => []
  | a :: attr' =>
      match sa_name a with
      | Some name =>
          name ++ match sa_value a with Some v => lit "= " ++ v | None => [] end ++ [newline]
      | None => []
      end ++ print_attributes attr'
  end.

(** printing the name of an element without one is undefined *)
Fixpoint print_children (node : list shown_node) : res chars :=
  match node with
  | [] => Ok []
  | n :: node' =>
      let* head :=
        match sn_type n with
        | XML_ELEMENT_NODE => let* name := of_opt (sn_name n) in Ok (name ++ [newline])
        | XML_ATTRIBUTE_NODE => Ok (lit "attribute" ++ [newline])
        | XML_TEXT_NODE => Ok (lit "text" ++ [newline])
        | other_node k => Ok (lit "type " ++ printf_d k ++ [newline])
        end in
      let* rest := print_children node' in
      Ok (head ++ print_attributes (sn_properties n)
          ++ match sn_content n with Some c => lit "content = " ++ c ++ [newline] | None => [] end ++ rest)
  end.

Lemma print_children_app l1 l2 :
  print_children (l1 ++ l2)
  = let* s1 := print_children l1 in let* s2 := print_children l2 in Ok (s1 ++ s2).
Proof.
  induction l1 as [|n l1 IH]; cbn [app print_children res_bind]; [by destruct (print_children l2)|].
  rewrite IH. destruct (match sn_type n with XML_ELEMENT_NODE => _ | _ => _ end); cbn [res_bind]; [|done].
  destruct (print_children l1); cbn [res_bind]; [|done].
  destruct (print_children l2); cbn [res_bind]; [|done]. by rewrite <- !app_assoc.
Qed.

(** ** Decimal numbers, printed and read back *)

Lemma digit10_plain c d : digit_in 10 c = Some d -> is_digit16 c.
Proof.
  unfold digit_in, is_digit16. destruct (digit_val c) as [v|] eqn:E; [|done].
  destruct (v <? 10) eqn:Hv; [|done]. apply Z.ltb_lt in Hv.
  exists v. unfold digit_in. rewrite E. by rewrite (proj2 (Z.ltb_lt _ _)) by lia.
Qed.

Lemma printf_u10_head z : 0 <= z -> exists c s, printf_u 10 z = c :: s /\ is_digit16 c.
Proof.
  intros Hz. destruct (digits_of_spec 10 (S (Z.to_nat (Z.log2 z))) z []) as [Hd _];
    [lia|pose proof (log2_fuel z Hz); lia|constructor|].
  assert (Hf : Forall is_digit16 (printf_u 10 z)).
  { apply Forall_fmap. eapply Forall_impl; [exact Hd|]. intros d Hdr.
    by eapply digit10_plain, digit_round. }
  assert (Hne : printf_u 10 z <> []).
  { unfold printf_u. intros [=Hn]%fmap_nil_inv. revert Hn. cbn [digits_of]. case_match; [done|].
    intros Hn. destruct (digits_of_spec 10 (Z.to_nat (Z.log2 z)) (z / 10) [z mod 10]) as [_ He].
    - lia.
    - pose proof (log2_fuel z Hz) as Hl. rewrite Nat2Z.inj_succ, Z.pow_succ_r in Hl by lia.
      split; [apply Z.div_pos; lia|]. apply Z.div_lt_upper_bound; [lia|]. nia.
    - repeat constructor; apply Z.mod_pos_bound; lia.
    - rewrite Hn in He. cbn [foldl] in He. apply Z.eqb_neq in H. apply H.
      pose proof (Z.mod_pos_bound z 10 ltac:(lia)). assert (0 <= z / 10) by (apply Z.div_pos; lia). lia. }
  destruct (printf_u 10 z) as [|c s]; [done|]. apply Forall_cons in Hf as [Hc _]. by exists c, s.
Qed.

Lemma atoi_printf_d z : - 2 ^ 31 <= z < 2 ^ 31 -> atoi (printf_d z) = z.
Proof.
  intros Hz. unfold atoi, strtol, parse_number, to_int.
  assert (Hval : forall v, 0 <= v -> digits_value 10 0 (printf_u 10 v) = v).
  { intros v Hv. rewrite <- (app_nil_r (printf_u 10 v)). apply digits_value_printf; [lia|done|done]. }
  assert (Hs : forall v, - 2 ^ 31 <= v < 2 ^ 31 -> sgn 32 (Z.max (- 2 ^ 63) (Z.min (2 ^ 63 - 1) v)) = v).
  { intros v Hv. rewrite Z.min_r, Z.max_r by lia. unfold sgn. unfold wrap.
    case_match eqn:E; rewrite ?Z.ltb_lt, ?Z.ltb_ge in E; revert E; Z.div_mod_to_equations; lia. }
  unfold printf_d. destruct (z <? 0) eqn:E; rewrite ?Z.ltb_lt, ?Z.ltb_ge in E.
  - cbn [skip_spaces]. change (is_space "-"%char) with false. cbv beta iota. cbn [take_sign].
    destruct (ascii_dec "-" "-"); [|done]. change (10 =? 0) with false. change (10 =? 16) with false.
    cbv beta iota zeta. rewrite Hval by lia. rewrite Hs by lia. lia.
  - destruct (printf_u10_head z E) as (c & s & Hcs & Hc).
    destruct (digit16_plain c Hc) as (H1 & H2 & H3 & _).
    rewrite <- (Hval z) at 2 by done. rewrite Hcs. cbn [skip_spaces]. rewrite H1. cbn [take_sign].
    destruct (ascii_dec c "-"); [done|]. destruct (ascii_dec c "+"); [done|].
    change (10 =? 0) with false. change (10 =? 16) with false. cbv beta iota zeta.
    rewrite <- Hcs, Hval by done. apply Hs. lia.
Qed.

(** a number below a power of ten has few digits *)
Lemma length_digits base fuel : forall z acc k, 1 < base -> (0 < k)%nat -> 0 <= z < base ^ Z.of_nat k ->
  (length (digits_of fuel base z acc) <= k + length acc)%nat.
Proof.
  induction fuel as [|fuel IH]; intros z acc k Hb Hk Hz; cbn [digits_of]; [lia|].
  destruct (z / base =? 0) eqn:E; [simpl; lia|]. apply Z.eqb_neq in E.
  destruct k as [|k]; [lia|]. rewrite Nat2Z.inj_succ, Z.pow_succ_r in Hz by lia.
  assert (0 <= z / base < base ^ Z.of_nat k).
  { split; [apply Z.div_pos; lia|]. apply Z.div_lt_upper_bound; lia. }
  destruct k as [|k]; [simpl in *; lia|].
  pose proof (IH (z / base) (z mod base :: acc) (S k) Hb ltac:(lia) ltac:(done)). simpl in *. lia.
Qed.

Lemma sprintf_d_ok v : - 2 ^ 31 <= v < 2 ^ 31 -> sprintf_d v = Ok (printf_d v).
Proof.
  intros Hv. unfold sprintf_d.
  assert (Hl : forall z, 0 <= z <= 2 ^ 31 -> (length (printf_u 10 z) <= 10)%nat).
  { intros z Hz. unfold printf_u. rewrite length_fmap.
    pose proof (length_digits 10 (S (Z.to_nat (Z.log2 z))) z [] 10 ltac:(lia) ltac:(lia) ltac:(lia)). simpl in *; lia. }
  rewrite (proj2 (Nat.ltb_lt _ _)); [done|]. unfold printf_d.
  destruct (v <? 0) eqn:E; rewrite ?Z.ltb_lt, ?Z.ltb_ge in E; cbn [length].
  - pose proof (Hl (- v)). lia.
  - pose proof (Hl v). lia.
Qed.

(** ** Counting *)

Definition names : list chars := map lit ["tests"; "errors"; "failures"; "skip"]%string.

Definition csum (f : chars -> Z) : counters :=
  Counters (f (lit "tests")) (f (lit "errors")) (f (lit "failures")) (f (lit "skip")).

(** the value an attribute adds to the counter of a name *)
Definition value (a : xmlAttr) (name : chars) : Z :=
  if decide (a_name a = name) then match a_content a with Some s => atoi s | None => 0 end else 0.

Lemma int_add_ok a b : - 2 ^ 31 <= a + b < 2 ^ 31 -> int_add a b = Ok (a + b).
Proof. intros H. unfold int_add. by rewrite (proj2 (Z.leb_le _ _)), (proj2 (Z.ltb_lt _ _)) by lia. Qed.

Definition small (f : chars -> Z) : Prop := forall name, name ∈ names -> 0 <= f name < 2 ^ 31.

Lemma count_attr_ok f a : small f -> small (fun n => f n + value a n) ->
  count_attr (csum f) a = Ok (csum (fun n => f n + value a n)).
Proof.
  intros Hf Hg. unfold count_attr, strcmp_eq.
  assert (Hadd : forall n, n ∈ names -> a_name a = n ->
    match a_content a with Some s => int_add (f n) (atoi s) | None => Ok (f n) end = Ok (f n + value a n)).
  { intros n Hn Ha. specialize (Hg n Hn). unfold value in *. rewrite decide_True in Hg |- * by done.
    destruct (a_content a); [apply int_add_ok; lia|by rewrite Z.add_0_r]. }
  assert (Hno : forall n, a_name a <> n -> f n + value a n = f n).
  { intros n Ha. unfold value. rewrite decide_False by done. lia. }
  unfold csum. cbn [tests errors failures skip].
  repeat case_bool_decide;
    rewrite ?Hadd by (done || by refine (bool_decide_unpack _ _)); cbn [res_bind];
    f_equal; f_equal; symmetry; apply Hno;
    first [congruence | match goal with E : a_name _ = _ |- _ => rewrite E end; done].
Qed.

Lemma sum_attr_cons name a attr : sum_attr name (a :: attr) = value a name + sum_attr name attr.
Proof. done. Qed.

Lemma value_nonneg a name : name ∈ names -> counts_ok [a] -> 0 <= value a name.
Proof.
  intros Hn Ha. apply Forall_cons in Ha as [Ha _]. unfold value. case_decide as E; [|lia].
  case_match eqn:Hc; [|lia]. apply (Ha _ eq_refl). by rewrite E.
Qed.

Lemma sum_attr_nonneg attr name : name ∈ names -> counts_ok attr -> 0 <= sum_attr name attr.
Proof.
  intros Hn. induction attr as [|a attr IH]; intros Ha; [simpl; lia|].
  apply Forall_cons in Ha as [H1 H2]. rewrite sum_attr_cons.
  pose proof (value_nonneg a name Hn (Forall_cons_2 _ _ _ H1 (Forall_nil_2 _))). specialize (IH H2). lia.
Qed.

Lemma count_attrs_ok attr : counts_ok attr -> forall f, small f ->
  small (fun n => f n + sum_attr n attr) ->
  count_attrs (csum f) attr = Ok (csum (fun n => f n + sum_attr n attr)).
Proof.
  induction attr as [|a attr IH]; intros Ha f Hf Hg.
  - cbn [count_attrs sum_attr]. unfold csum. by rewrite !Z.add_0_r.
  - apply Forall_cons in Ha as [H1 H2]. cbn [count_attrs].
    assert (Hs : small (fun n => f n + value a n)).
    { intros n Hn. specialize (Hg n Hn). cbv beta in Hg. rewrite sum_attr_cons in Hg.
      pose proof (value_nonneg a n Hn (Forall_cons_2 _ _ _ H1 (Forall_nil_2 _))).
      pose proof (sum_attr_nonneg attr n Hn H2). specialize (Hf n Hn). lia. }
    rewrite count_attr_ok by done. cbn [res_bind]. rewrite (IH H2) by
      first [done | intros n Hn; specialize (Hg n Hn); cbv beta in *; rewrite sum_attr_cons in Hg; lia].
    unfold csum. rewrite !sum_attr_cons. f_equal. f_equal; lia.
Qed.

(** ** The theorems *)

Section correct.
Context {xmlNode : Type} {lib : LibXml xmlNode} {token : Type}
  {content : list xmlNode -> list token} {laws : LibXmlLaws xmlNode token content}.

(** the files can be read and have a root; their counters are not negative *)
Definition readable_files (files : list chars) (roots : list (xmlRoot xmlNode)) : Prop :=
  Forall2 (fun f r => xmlReadFile xmlNode f = Some (Some r) /\ counts_ok (properties r)) files roots.

Lemma add_children_content l : forall out, content (add_children out l) = content out ++ content l.
Proof.
  induction l as [|n l IH]; intros out; cbn [add_children].
  - rewrite (content_nil xmlNode (content := content)). by rewrite app_nil_r.
  - rewrite IH, (content_add xmlNode (content := content)), (content_copy xmlNode (content := content)), (content_cons xmlNode (content := content) n l).
    by rewrite app_assoc.
Qed.

Lemma total_nonneg files roots name : name ∈ names -> readable_files files roots -> 0 <= total name roots.
Proof.
  intros Hn. induction 1 as [|f r files roots [_ Hc] _ IH]; cbn; [lia|].
  pose proof (sum_attr_nonneg _ name Hn Hc). unfold total in IH. lia.
Qed.

(** the loop over the files that can be read, up to the others *)
Lemma cat_files_ok files roots : readable_files files roots -> forall rest f out, small f ->
  small (fun n => f n + total n roots) ->
  exists out', content out' = content out ++ concat (map (fun r => content (children r)) roots)
    /\ cat_files (files ++ rest) (csum f) out = cat_files rest (csum (fun n => f n + total n roots)) out'.
Proof.
  induction 1 as [|file r files roots [Hf Hc] Hfiles IH]; intros rest f out Hs Hg.
  - exists out. split; [by rewrite app_nil_r|]. unfold csum, total. by rewrite !Z.add_0_r.
  - assert (Hsplit : forall n, f n + total n (r :: roots) = (f n + sum_attr n (properties r)) + total n roots).
    { intros n. unfold total. simpl. lia. }
    assert (Hs' : small (fun n => f n + sum_attr n (properties r))).
    { intros n Hn. specialize (Hg n Hn). cbv beta in Hg. rewrite Hsplit in Hg. specialize (Hs n Hn).
      pose proof (sum_attr_nonneg _ n Hn Hc). pose proof (total_nonneg _ _ n Hn Hfiles). lia. }
    destruct (IH rest (fun n => f n + sum_attr n (properties r)) (add_children out (children r)) Hs')
      as (out' & Hout & Hrun).
    { intros n Hn. specialize (Hg n Hn). cbv beta in Hg. by rewrite Hsplit in Hg. }
    exists out'. split.
    + rewrite Hout, add_children_content. cbn [map concat]. by rewrite app_assoc.
    + cbn [app cat_files]. rewrite Hf, count_attrs_ok by done. cbn [res_bind]. rewrite Hrun.
      unfold csum. by rewrite !Hsplit.
Qed.

(** C34: when every file can be read and the totals fit an [int], the program
    exits with status 0, the counters it writes read back as the sums of the
    counters of the files, and the contents of the new root are those of the
    roots, complete and in order. *)
Theorem xmlcat_totals argv0 files roots :
  readable_files files roots -> (forall name, name ∈ names -> total name roots < 2 ^ 31) ->
  exists t f e s out,
    xmlcat (argv0 :: files) = Ok (XOutcome 0 []
      (Some ([(lit "name", lit "nosetests"); (lit "tests", t); (lit "failures", f);
              (lit "errors", e); (lit "skip", s)], out)))
    /\ atoi t = total (lit "tests") roots /\ atoi f = total (lit "failures") roots
    /\ atoi e = total (lit "errors") roots /\ atoi s = total (lit "skip") roots
    /\ content out = concat (map (fun r => content (children r)) roots).
Proof.
  intros Hr Ht.
  assert (Hsmall : small (fun n => 0 + total n roots)).
  { intros n Hn. pose proof (total_nonneg _ _ n Hn Hr). specialize (Ht n Hn). lia. }
  destruct (cat_files_ok files roots Hr [] (fun _ => 0) [] ltac:(done) Hsmall) as (out & Hout & Hrun).
  rewrite app_nil_r in Hrun. unfold xmlcat. cbn [tail].
  change (Counters 0 0 0 0) with (csum (fun _ => 0)). rewrite Hrun. cbn [cat_files res_bind].
  assert (Hin : forall n, n ∈ names -> - 2 ^ 31 <= total n roots < 2 ^ 31).
  { intros n Hn. specialize (Hsmall n Hn). lia. }
  unfold csum; cbn [tests errors failures skip]. rewrite !Z.add_0_l.
  rewrite !sprintf_d_ok by (apply Hin; by refine (bool_decide_unpack _ _)). cbn [res_bind].
  do 5 eexists. split; [done|].
  rewrite !atoi_printf_d by (apply Hin; by refine (bool_decide_unpack _ _)).
  do 4 (split; [done|]). by rewrite Hout, (content_nil xmlNode (content := content)).
Qed.

(** the first file that cannot be read stops the program with status -1 and
    a message that names it, and nothing is written. *)
Theorem xmlcat_missing argv0 files roots file rest :
  readable_files files roots -> (forall name, name ∈ names -> total name roots < 2 ^ 31) ->
  xmlReadFile xmlNode file = None ->
  xmlcat (argv0 :: files ++ file :: rest)
  = Ok (XOutcome (-1) (lit "Failed to open " ++ file ++ [newline]) None).
Proof.
  intros Hr Ht Hfile.
  destruct (cat_files_ok files roots Hr (file :: rest) (fun _ => 0) [] ltac:(done)) as (out & _ & Hrun).
  { intros n Hn. pose proof (total_nonneg _ _ n Hn Hr). specialize (Ht n Hn). lia. }
  unfold xmlcat. cbn [tail]. change (Counters 0 0 0 0) with (csum (fun _ => 0)). rewrite Hrun.
  cbn [cat_files]. by rewrite Hfile.
Qed.
End correct.

(** ** A concrete library: elements and texts, adjacent texts merged *)

Inductive simple_node :=
  | Elem (name : chars)
  | Text (s : chars).

Fixpoint add_child (l : list simple_node) (n : simple_node) : list simple_node :=
  match l, n with
  | [], _ => [n]
  | [Text s], Text s' => [Text (s ++ s')]
  | x :: l', _ => x :: add_child l' n
  end.

(** the elements and the characters, in order *)
Definition node_content (l : list simple_node) : list (chars + ascii) :=
  concat (map (fun n => match n with Elem e => [inl e] | Text s => map inr s end) l).

Definition sample_files (f : chars) : option (option (xmlRoot simple_node)) :=
  if strcmp_eq f (lit "a.xml") then
    Some (Some (Root [Attr (lit "name") (Some (lit "raw")); Attr (lit "tests") (Some (lit "12"));
                      Attr (lit "failures") (Some (lit "3"))]
                     [Text (lit " "); Elem (lit "t1"); Text (lit " ")]))
  else if strcmp_eq f (lit "b.xml") then
    Some (Some (Root [Attr (lit "tests") (Some (lit "30")); Attr (lit "skip") (Some (lit "2"))]
                     [Text (lit " "); Elem (lit "t2")]))
  else None.

#[export] Instance simple_lib : LibXml simple_node :=
  {| xmlReadFile := sample_files; xmlCopyNode := fun n => n; xmlAddChild := add_child |}.

#[export] Instance simple_laws : LibXmlLaws simple_node (chars + ascii) node_content.
Proof.
  split; try done.
  - intros n l. unfold node_content. simpl. by rewrite app_nil_r.
  - cbn [xmlAddChild simple_lib]. intros l n. induction l as [|x l IH]; [done|].
    assert (Hc : node_content (x :: add_child l n) = node_content (x :: l) ++ node_content [n]).
    { unfold node_content in *. simpl in *. rewrite IH. by rewrite app_nil_r, app_assoc. }
    destruct x as [e|s], l as [|y l], n as [e'|s']; try exact Hc.
    unfold node_content. simpl. by rewrite !app_nil_r, map_app.
Qed.

Lemma sample_readable : exists roots,
  readable_files (xmlNode := simple_node) [lit "a.xml"; lit "b.xml"] roots
  /\ (forall name, name ∈ names -> total name roots < 2 ^ 31)
  /\ total (lit "tests") roots = 42.
Proof.
  eexists. split; [|split].
  - repeat constructor; cbn; intros s [= <-] _; vm_compute; congruence.
  - intros name Hn. unfold names in Hn. cbn [map] in Hn.
    repeat (apply elem_of_cons in Hn as [->|Hn]; [vm_compute; reflexivity|]). by apply elem_of_nil in Hn.
  - reflexivity.
Defined.

Lemma xmlcat_totals_witness : exists t,
  atoi t = 42 /\ exists f e s out,
  xmlcat [lit "xmlcat"; lit "a.xml"; lit "b.xml"] = Ok (XOutcome 0 []
    (Some ([(lit "name", lit "nosetests"); (lit "tests", t); (lit "failures", f);
            (lit "errors", e); (lit "skip", s)], out))).
Proof.
  destruct sample_readable as (roots & Hr & Ht & Htot).
  destruct (xmlcat_totals (lib := simple_lib) (laws := simple_laws) (lit "xmlcat") _ roots Hr Ht)
    as (t & f & e & s & out & Hrun & Hta & _).
  exists t. split; [by rewrite Hta|]. by exists f, e, s, out.
Defined.

Lemma xmlcat_missing_witness :
  xmlcat [lit "xmlcat"; lit "a.xml"; lit "b.xml"; lit "c.xml"]
  = Ok (XOutcome (-1) (lit "Failed to open c.xml" ++ [newline]) None).
Proof.
  destruct sample_readable as (roots & Hr & Ht & Htot).
  exact (xmlcat_missing (lib := simple_lib) (laws := simple_laws) (lit "xmlcat") _ roots (lit "c.xml") [] Hr Ht eq_refl).
Defined.
